(* ===== verification/_CoqProject ===== *)
-Q . S2P
Prelude.v
Logger.v
Buffer.v
BufferSpec.v
World.v
Kernel.v
Poller.v
Channel.v
Sample.v
Reactor.v
EventLoop.v
Timer.v
Socket.v
TcpConnection.v
ConnInv.v
ConnSteps.v
ConnSpec.v
ConnLife.v
TimerSpec.v
TimerFire.v
Wakeup.v
LoopLife.v
Inet.v
Acceptor.v
EventLoopThread.v
ThreadPool.v
TcpServer.v
ServerSpec.v
System.v
ServerLife.v
SysInv.v
ConnSafe.v
TimerSafe.v
ServerSafe.v
RoundSafe.v
Startup.v
EchoServer.v
Program.v
Flow.v
EchoProgram.v
EchoClient.v
