(* ===== verification/Prelude.v ===== *)
(** * benet: verification of a multi-threaded reactor TCP library

    ** The program

    benet is a TCP library in the reactor style.  An [EventLoop] belongs to
    one thread and goes round: it polls its descriptors, dispatches the ready
    ones to their [Channel]s, then runs the tasks other threads have queued.
    [EPoller] wraps epoll(7), [TimerQueue] a timerfd(2), and an eventfd(2)
    wakes a sleeping loop.  A [TcpServer] accepts connections with an
    [Acceptor], hands each to one of the loops of its [EventLoopThreadPool]
    and keeps it in a map until it is closed; a [TcpConnection] moves bytes
    between a socket and two [Buffer]s and drives a four-state machine.

    ** How it is modelled

    Operations are computations in a state and failure monad ([M], below): a
    result and the next state, or one of the ways the program can stop, namely
    a failed [assert], [exit(2)] from [BELOG_CRITICAL], an exception nobody
    catches, or undefined behaviour.  Objects live in maps indexed by address
    ([World]); a pointer is an address, and following one that is gone is
    undefined.  Closures are data naming the code they run.  Integers are [Z]
    with the wrap-around of their width written out; bytes are [Byte.byte].
    System calls go to an environment [OS] that answers from the history of
    all earlier calls; its answers are arbitrary, except where a theorem names
    a law taken from a manual page (Kernel.v).  Application code is the
    environment [UserCode].  What runs concurrently is a transition system
    whose steps are the atomic actions of the source.

    ** The files

    - Prelude: the monad and its weakest preconditions, machine integers,
      byte lists, reachability.
    - Logger: src/logger.cpp, src/benet.cpp and include/benet/logger.h, over
      spdlog as a parameter.
    - Buffer, BufferSpec: include/benet/buffer.h, every member function, and
      its refinement of a byte queue.
    - World, Kernel: the objects, the system calls and their laws, with a
      small kernel that satisfies all of them.
    - Poller, Channel, Reactor: src/poller.cpp, src/channel.cpp and their
      joint contract with the kernel's interest list.
    - EventLoop, Wakeup, LoopLife: src/eventloop.cpp: tasks and main loop,
      their interleaving with other threads, construction and destruction.
    - Timer, TimerSpec, TimerFire: src/timer.cpp, src/timer_queue.cpp.
    - Socket, Inet: src/socket.cpp, src/socket_ops.cpp, src/inet_address.cpp.
    - TcpConnection, ConnInv, ConnSteps, ConnSpec, ConnLife:
      src/tcp_connection.cpp, its invariant, its handlers one by one, the
      contract of the byte stream, and its beginning and end.
    - Acceptor, EventLoopThread, ThreadPool: the files of the same names
      under src/.
    - TcpServer, ServerSpec: src/tcp_server.cpp, the invariant of its map, and
      what becomes of a connection from the accepted descriptor to its end.
    - System: the code behind every bound callback and queued closure, the
      end of the closures and of the connections nobody refers to any more,
      the main loop as the program a thread runs, and what none of it changes.
    - ServerLife: the tasks that end a connection of a server, on two threads.
    - SysInv, ConnSafe, TimerSafe, ServerSafe, RoundSafe: the invariant of a
      whole single-threaded server (one loop, its poller, channels, timers,
      acceptor, server, connections and tasks), kept by every handler and
      task, by the end of closures and connections, and by every round of the
      main loop.
    - EchoServer: src/example/echo_server.cpp and what its clients get.
    - Startup, Program: the start of a server process establishes that
      invariant; whole programs, the echo server among them.
    - Flow, EchoProgram: where the bytes of all connections of a process are,
      and the echo server as a whole process: what every client gets.
    - EchoClient: src/example/echo_client.cpp, over asio as a parameter.
    - Sample: a concrete world on which the definitions are run and the
      hypotheses of the theorems shown to hold.

    Definitions carry the source's names; where two classes share one, a
    prefix tells them apart ([EPoller_Poll], [Socket_Accept]), constructors
    and destructors end in [_new] or [_ctor] and [_dtor], and the lambda an
    operation hands to a loop ends in [_in_loop].

    ** What the theorems show

    - the buffer is a byte queue under every sequence of its operations, and
      its integers survive the trip between hosts of any byte order;
    - the interest list of the kernel is exactly the armed channels, every
      epoll_ctl call fits it, and a poll reports only live channels;
    - once a loop is in [Start] no task and no wakeup is lost, and tasks run
      once and in order, under every interleaving; a woken loop gets to them
      by its own steps and one that was not woken does not;
    - timers fire once each, in order, and the descriptor stays armed;
    - on a connection the peer gets exactly the bytes of the accepted sends,
      in order, and a FIN only after them; notifications come once;
    - loops, acceptors and threads are built and taken down without leaking
      descriptors;
    - a server enters every accepted connection once, under a name of its
      own, and from there the connection keeps the contract of the stream,
      the server's own code being its close callback; it removes and destroys
      each once, and the last tasks give back everything it held;
    - no handler or task takes a loop or a connection away, and a loop that is
      asked to stop returns after the round it is in;
    - the log holds exactly the lines that pass the two filters, and a critical
      one ends the process after all of them are written;
    - the example server sends back exactly the bytes it was sent;
    - the example client accounts for every byte it sends and receives, at
      most one write and one read being under way at any time, and prints
      rates that are right to half a thousandth;
    - a thread with a loop is started and taken down in order, unless its
      destructor loses one of two races or the application stops the loop;
    - a single-threaded server program never fails: from [main] on and for any
      number of rounds no assertion fails, no object is used after its end
      and no undefined value is read, on every kernel with the documented
      behaviour and for every application that keeps to the rules of the
      library; connections that nobody refers to are destroyed;
    - the echo server of the examples, on one thread, is such a program, and
      throughout its run, however it ends, every client gets back the bytes it
      sent, in order and nothing else: on a connection that is up none is
      missing;
    - where the code does not do what it means to, a theorem says what it
      does instead.

    ** Bounds and fuel

    [EventLoop.Start] takes a bound on the number of rounds; it says whether
    the bound was reached.  All other loops are structural.  Sizes are bounded
    by [std::vector]'s [max_size()] where the code would throw beyond it.
    The theorems about whole programs hold for every number of rounds and
    assume that fewer than 2^64 - 1 connections are accepted ([FewAccepts]:
    the names of connections come from a 64-bit counter).

    Times are nanoseconds in [int64_t], and their sums and differences must
    fit: the clock shows times after the epoch that leave room for the spans
    of the timers ([ClockFit], for the echo server [ClockRoom]).  A timer that
    is due at the very nanosecond of a reading fails an assertion (see
    TimerFire.v).  The theorems about destroyed connections and about the echo
    server name this among the ways in which the program can end; the theorem
    that a program never fails excludes it: no two readings of the clock are
    exactly the span of a timer apart and none is a time given to [RunAt]
    ([TimersFit]).

    ** Rules for applications

    [UserCode] is what the application does when it is called.  [GoodUser]
    (ConnSafe.v) is what the theorem about whole programs asks of it: a call
    keeps the invariant.  Logging, [Send], [Shutdown] and [ForceClose] on a
    connection whose channel has been dispatched do, and so do
    [ForceCloseDelay] on such a connection, [SetTcpNoDelay], [RunAt],
    [RunAfter], [RunEvery] and [CancelTimer] (ConnSafe.v and TimerSafe.v prove
    it of the library's operations); closing a connection from the first connection
    callback does not, as an example in Program.v shows.  [AppRefs] says which
    connections the application holds pointers to, as a function of what has
    happened; it is arbitrary, except that a close(2) made by the library
    does not change it.

    ** Not modelled

    The log lines of the library's own files other than by the filters and the
    exit of Logger.v (a statement that logs leaves the world of the other files
    alone, [BELOG_CRITICAL] is [Exit2] there); that writing a log line may
    change [errno]; exhaustion of memory; the [std::any] context of a
    connection.  Shared ownership is modelled by who holds an object, not by
    counting: the main loop destroys a connection when the last closure that
    owns it goes and neither the server's map, a queue nor the application has
    it.  A connection of which the application lets go last is destroyed at
    the end of the round, not in the middle of the callback that drops the
    pointer.  Joining a thread is a parameter of the destructors that do it;
    the examples' log lines and the format of the server's statistics are left
    out.

    The invariant of whole programs covers one thread.  Servers with a thread
    pool are covered component by component (Wakeup, EventLoopThread,
    ThreadPool, ServerSpec, ServerLife), not by one invariant. *)

From Stdlib Require Export ssreflect ZArith Lia.
From stdpp Require Export prelude gmap strings list sorting.
From Stdlib Require Import Strings.Byte.

#[export] Set Default Goal Selector "!".
#[export] Set Warnings "-clear-no-such-hyp".

Declare Scope benet_scope.
Delimit Scope benet_scope with benet.
Open Scope Z_scope.

(** ** Outcomes and the state/failure monad

    Every operation of the library that can change state or fail is a
    computation [M S A]: it maps a state to either a result with the next
    state ([Done]) or to one of the ways the C++ program can stop
    ([Crash]), with the state at that point. *)

(** The ways in which the code can stop:
    - [AssertFailed]: an [assert] of the source does not hold;
    - [Exit2]: [BELOG_CRITICAL], which ends in [std::exit(2)];
    - [LengthError]: [std::vector::resize] beyond [max_size()];
    - [Uncaught]: an exception of another kind that nobody catches;
    - [BadFunctionCall]: an empty [std::function] is called;
    - [UB]: an operation whose behaviour the language leaves undefined. *)
Inductive failure : Type :=
  | AssertFailed
  | Exit2
  | LengthError
  | Uncaught
  | BadFunctionCall
  | UB.

#[export] Instance failure_eq_dec : EqDecision failure.
Proof. solve_decision. Defined.

Inductive outcome (S A : Type) : Type :=
  | Done (a : A) (s : S)
  | Crash (f : failure) (s : S).
Arguments Done {S A} a s.
Arguments Crash {S A} f s.

Definition M (S A : Type) : Type := S → outcome S A.

#[export] Instance M_ret {S} : MRet (M S) := λ A a s, Done a s.
#[export] Instance M_bind {S} : MBind (M S) := λ A B k m s,
  match m s with
  | Done a s' => k a s'
  | Crash f s' => Crash f s'
  end.

Definition get {S} : M S S := λ s, Done s s.
Definition put {S} (s : S) : M S () := λ _, Done () s.
Definition gets {S A} (f : S → A) : M S A := λ s, Done (f s) s.
Definition modify {S} (f : S → S) : M S () := λ s, Done () (f s).
Definition crash {S A} (f : failure) : M S A := λ s, Crash f s.

(** [assert(b)] of a debug build. *)
Definition assert_ {S} (b : bool) : M S () :=
  if b then mret () else crash AssertFailed.

(** A value that must be present: dereferencing a dangling or null pointer
    is undefined behaviour. *)
Definition deref {S A} (o : option A) : M S A :=
  match o with Some a => mret a | None => crash UB end.

Definition when {S} (b : bool) (m : M S ()) : M S () :=
  if b then m else mret ().

(** [for (x : l) body(x)] *)
Fixpoint for_each {S A} (l : list A) (body : A → M S ()) : M S () :=
  match l with
  | [] => mret ()
  | x :: l' => body x ;; for_each l' body
  end.

(** Run a computation on a part of the state (a member object). *)
Definition zoom {S T A} (g : S → T) (p : T → S → S) (m : M T A) : M S A :=
  λ s, match m (g s) with
       | Done a t => Done a (p t s)
       | Crash f t => Crash f (p t s)
       end.

(** ** A weakest precondition with a failure postcondition *)

Definition wp {S A} (m : M S A) (Q : A → S → Prop)
    (E : failure → S → Prop) (s : S) : Prop :=
  match m s with Done a s' => Q a s' | Crash f s' => E f s' end.

(** No failure is allowed / only the deliberate [exit(2)] is allowed. *)
Definition never {S} : failure → S → Prop := λ _ _, False.
Definition only_exit {S} : failure → S → Prop := λ f _, f = Exit2.

Section wp_rules.
Context {S : Type}.
Implicit Types (s : S) (E : failure → S → Prop).

Lemma wp_ret {A} (a : A) Q E s : wp (mret a) Q E s ↔ Q a s.
Proof. done. Qed.

Lemma wp_bind {A B} (m : M S A) (k : A → M S B) Q E s :
  wp (m ≫= k) Q E s ↔ wp m (λ a s', wp (k a) Q E s') E s.
Proof. rw /wp /mbind /M_bind. by destruct (m s). Qed.

Lemma bind_done {A B} (m : M S A) (k : A → M S B) a s s' :
  m s = Done a s' → (m ≫= k) s = k a s'.
Proof. rw /mbind /M_bind. by intros ->. Qed.

(** Statements taken together. *)
Lemma wp_group {A} (m1 m2 : M S ()) (k : M S A) Q E s :
  wp ((m1 ;; m2) ;; k) Q E s → wp (m1 ;; m2 ;; k) Q E s.
Proof. rw /wp /mbind /M_bind. by destruct (m1 s). Qed.

Lemma wp_get Q E s : wp get Q E s ↔ Q s s.
Proof. done. Qed.
Lemma wp_put Q E s s' : wp (put s') Q E s ↔ Q () s'.
Proof. done. Qed.
Lemma wp_gets {A} (f : S → A) Q E s : wp (gets f) Q E s ↔ Q (f s) s.
Proof. done. Qed.
Lemma wp_modify (f : S → S) Q E s : wp (modify f) Q E s ↔ Q () (f s).
Proof. done. Qed.
Lemma wp_crash {A} f Q E s : wp (crash (A:=A) f) Q E s ↔ E f s.
Proof. done. Qed.

Lemma wp_assert b (Q : () → S → Prop) E s :
  wp (assert_ b) Q E s ↔ if b then Q () s else E AssertFailed s.
Proof. by destruct b. Qed.

Lemma wp_assert_true b (Q : () → S → Prop) E s :
  b = true → Q () s → wp (assert_ b) Q E s.
Proof. by intros ->. Qed.

Lemma wp_deref {A} (o : option A) Q E s a :
  o = Some a → wp (deref o) Q E s ↔ Q a s.
Proof. by intros ->. Qed.

Lemma wp_mono {A} (m : M S A) (Q Q' : A → S → Prop) (E E' : failure → S → Prop) s :
  wp m Q E s → (∀ a s', Q a s' → Q' a s') → (∀ f s', E f s' → E' f s') →
  wp m Q' E' s.
Proof. rw /wp. destruct (m s); eauto. Qed.

Lemma wp_conseq {A} (m : M S A) (Q Q' : A → S → Prop) E s :
  wp m Q E s → (∀ a s', Q a s' → Q' a s') → wp m Q' E s.
Proof. intros; eapply wp_mono; eauto. Qed.

(** The loop rule: an invariant indexed by what is left to visit. *)
Lemma wp_for_each {A} (I : list A → S → Prop) E (body : A → M S ()) l s :
  I l s →
  (∀ x l' s', I (x :: l') s' → wp (body x) (λ _, I l') E s') →
  wp (for_each l body) (λ _, I []) E s.
Proof.
  intros HI Hb. revert s HI. induction l as [|x l IH]; intros s HI; [done|].
  cbn [for_each]. apply wp_bind. eapply wp_conseq; [by eapply Hb, HI|]. eauto.
Qed.

Lemma wp_done {A} (m : M S A) Q s :
  wp m Q never s → ∃ a s', m s = Done a s' ∧ Q a s'.
Proof. rw /wp. destruct (m s); [eauto|done]. Qed.

Lemma wp_of_done {A} (m : M S A) (Q : A → S → Prop) E s a s' :
  m s = Done a s' → Q a s' → wp m Q E s.
Proof. rw /wp. by intros ->. Qed.
End wp_rules.

Lemma wp_zoom {S T A} (g : S → T) (p : T → S → S) (m : M T A) Q E s :
  wp (zoom g p m) Q E s ↔
  wp m (λ a t, Q a (p t s)) (λ f t, E f (p t s)) (g s).
Proof. rw /wp /zoom. by destruct (m (g s)). Qed.

(** Running a computation to its end, for evaluation on concrete states. *)
Definition is_done {S A} (o : outcome S A) : bool :=
  match o with Done _ _ => true | Crash _ _ => false end.
Definition final {S A} (m : M S A) (s : S) : S :=
  match m s with Done _ s' | Crash _ s' => s' end.

(** A run that is known, a run that equals another, and remembering the run. *)
Lemma wp_run {S A} (m : M S A) a s' (Q : A → S → Prop) E s :
  m s = Done a s' → Q a s' → wp m Q E s.
Proof. intros Hm HQ. by rw /wp Hm. Qed.
Lemma wp_same {S A} (m m' : M S A) (Q : A → S → Prop) E s s' :
  m s = m' s' → wp m' Q E s' → wp m Q E s.
Proof. intros Hm. by rw /wp Hm. Qed.
Lemma wp_record {S A} (m : M S A) (Q : A → S → Prop) E s :
  wp m Q E s → wp m (λ a s', m s = Done a s' ∧ Q a s') E s.
Proof. rw /wp. by destruct (m s). Qed.

Lemma wp_final {S A} (m : M S A) (Q : A → S → Prop) E s :
  wp m Q E s → is_done (m s) = true → ∃ a, Q a (final m s).
Proof. rw /wp /final. destruct (m s); [eauto|done]. Qed.

Create HintDb benet discriminated.

(** One symbolic-execution step of a [wp] goal. *)
Ltac wp_step :=
  lazymatch goal with
  | |- wp (mbind _ _) _ _ _ => apply wp_bind
  | |- wp (mret _) _ _ _ => apply wp_ret
  | |- wp get _ _ _ => apply wp_get
  | |- wp (put _) _ _ _ => apply wp_put
  | |- wp (gets _) _ _ _ => apply wp_gets
  | |- wp (modify _) _ _ _ => apply wp_modify
  | |- wp (crash _) _ _ _ => apply wp_crash
  | |- wp (when _ _) _ _ _ => unfold when
  end; cbv beta.
Ltac wp_steps := repeat wp_step.

(** Discharge an [assert] whose condition is a comparison. *)
Tactic Notation "wp_assert" "by" tactic3(tac) :=
  apply wp_assert_true; [first [apply Z.leb_le | apply Z.ltb_lt | idtac]; tac|].

(** ** Machine integers *)

Definition two64 : Z := 18446744073709551616.

(** [size_t] arithmetic: reduction modulo [2^64]. *)
Definition u64 (x : Z) : Z := x mod two64.

(** Largest [std::vector<char>] ([PTRDIFF_MAX]). *)
Definition vector_max_size : Z := 9223372036854775807.

Lemma u64_small x : 0 ≤ x < two64 → u64 x = x.
Proof. apply Z.mod_small. Qed.

Lemma u64_range x : 0 ≤ u64 x < two64.
Proof. apply Z.mod_pos_bound. done. Qed.

(** Solve [u64 e = e'] side conditions and plain arithmetic. *)
Ltac zify_consts := unfold two64, vector_max_size in *.
Ltac slia := zify_consts; lia.

(** Unsigned and two's-complement reduction to [8 * n] bits. *)
Definition wrap_u (n : nat) (x : Z) : Z := x mod 2 ^ (8 * Z.of_nat n).
Definition wrap_s (n : nat) (x : Z) : Z :=
  let u := wrap_u n x in
  if u <? 2 ^ (8 * Z.of_nat n - 1) then u else u - 2 ^ (8 * Z.of_nat n).

Definition in_u (n : nat) (x : Z) : Prop := 0 ≤ x < 2 ^ (8 * Z.of_nat n).
Definition in_s (n : nat) (x : Z) : Prop :=
  - 2 ^ (8 * Z.of_nat n - 1) ≤ x < 2 ^ (8 * Z.of_nat n - 1).

Lemma pow8_pos n : 0 < 2 ^ (8 * Z.of_nat n).
Proof. apply Z.pow_pos_nonneg; lia. Qed.

Lemma wrap_u_range n x : in_u n (wrap_u n x).
Proof. apply Z.mod_pos_bound, pow8_pos. Qed.

Lemma wrap_u_id n x : in_u n x → wrap_u n x = x.
Proof. apply Z.mod_small. Qed.

Lemma wrap_s_wrap_u n x : (0 < n)%nat → in_s n x → wrap_s n (wrap_u n x) = x.
Proof.
  intros Hn. pose proof (pow8_pos n).
  rw /wrap_s /wrap_u /in_s Z.mod_mod; [lia|].
  set (k := 8 * Z.of_nat n - 1).
  replace (8 * Z.of_nat n) with (Z.succ k) by lia.
  rw Z.pow_succ_r; [lia|]. intros Hx.
  assert (0 < 2 ^ k) by (apply Z.pow_pos_nonneg; lia).
  destruct (Z.ltb_spec (x mod (2 * 2 ^ k)) (2 ^ k)) as [Hlt|Hge].
  - destruct (decide (0 ≤ x)); [by rw Z.mod_small; lia|].
    assert (x mod (2 * 2 ^ k) = x + 2 * 2 ^ k) as Hm; [|lia].
    symmetry; apply (Z.mod_unique_pos _ _ (-1)); lia.
  - destruct (decide (0 ≤ x)); [by rw Z.mod_small in Hge; lia|].
    assert (x mod (2 * 2 ^ k) = x + 2 * 2 ^ k) as Hm; [|lia].
    symmetry; apply (Z.mod_unique_pos _ _ (-1)); lia.
Qed.

Lemma wrap_u_wrap_u n x : wrap_u n (wrap_u n x) = wrap_u n x.
Proof. apply wrap_u_id, wrap_u_range. Qed.

Lemma wrap_u_wrap_s n x : wrap_u n (wrap_s n x) = wrap_u n x.
Proof.
  pose proof (pow8_pos n). rw /wrap_s. destruct (_ <? _); [apply wrap_u_wrap_u|].
  rw /wrap_u. set (m := 2 ^ _) in *.
  replace (x mod m - m) with (x mod m + (-1) * m) by lia.
  rw Z.mod_add; [lia|]. rw Z.mod_mod; [lia|done].
Qed.

(** ** Bytes *)

Abbreviation byte := Init.Byte.byte.
#[export] Instance byte_eq_dec : EqDecision byte := Byte.byte_eq_dec.
#[export] Instance byte_inhabited : Inhabited byte := populate Byte.x00.

Definition byte_to_Z (b : byte) : Z := Z.of_N (Byte.to_N b).
Definition Z_to_byte (z : Z) : byte :=
  default Byte.x00 (Byte.of_N (Z.to_N (z mod 256))).

Lemma byte_to_Z_range b : 0 ≤ byte_to_Z b < 256.
Proof. rw /byte_to_Z. pose proof (Byte.to_N_bounded b). lia. Qed.

Lemma byte_to_Z_to_byte z : byte_to_Z (Z_to_byte z) = z mod 256.
Proof.
  rw /byte_to_Z /Z_to_byte.
  pose proof (Z.mod_pos_bound z 256 ltac:(done)) as Hb.
  destruct (Byte.of_N (Z.to_N (z mod 256))) as [b|] eqn:Hof; simpl.
  - apply Byte.to_of_N in Hof. lia.
  - apply Byte.of_N_None_iff in Hof. lia.
Qed.

Lemma Z_to_byte_to_Z b : Z_to_byte (byte_to_Z b) = b.
Proof.
  rw /Z_to_byte Z.mod_small; [apply byte_to_Z_range|].
  by rw /byte_to_Z N2Z.id Byte.of_to_N.
Qed.

(** Object representation of an unsigned integer, least significant byte
    first, and the value of such a representation. *)
Fixpoint le_bytes (n : nat) (v : Z) : list byte :=
  match n with
  | O => []
  | S n' => Z_to_byte v :: le_bytes n' (v / 256)
  end.

Fixpoint le_value (l : list byte) : Z :=
  match l with
  | [] => 0
  | b :: l' => byte_to_Z b + 256 * le_value l'
  end.

Lemma length_le_bytes n v : length (le_bytes n v) = n.
Proof. revert v; induction n; intros; simpl; auto. Qed.

Lemma pow8_succ n : 2 ^ (8 * Z.of_nat (S n)) = 256 * 2 ^ (8 * Z.of_nat n).
Proof.
  replace (8 * Z.of_nat (S n)) with (8 + 8 * Z.of_nat n) by lia.
  rw Z.pow_add_r; [lia|lia|done].
Qed.

Lemma le_value_bytes n v : le_value (le_bytes n v) = wrap_u n v.
Proof.
  revert v; induction n as [|n IH]; intros v; rw /wrap_u.
  { by rw /= Z.mod_1_r. }
  cbn [le_bytes le_value]. rw byte_to_Z_to_byte IH /wrap_u pow8_succ.
  rw Z.rem_mul_r //. apply pow8_pos.
Qed.

Lemma le_value_range l : 0 ≤ le_value l < 2 ^ (8 * Z.of_nat (length l)).
Proof.
  induction l as [|b l IH]; [done|].
  cbn [length le_value]. rw pow8_succ.
  pose proof (byte_to_Z_range b). lia.
Qed.

Lemma le_bytes_value l : le_bytes (length l) (le_value l) = l.
Proof.
  induction l as [|b l IH]; [done|]. cbn [length le_value le_bytes].
  pose proof (byte_to_Z_range b).
  rw /Z_to_byte.
  rw Z.mul_comm Z.mod_add // Z.div_add // Z.div_small // Z.add_0_l IH.
  f_equal. apply Z_to_byte_to_Z.
Qed.

Lemma le_bytes_wrap n v : le_bytes n (wrap_u n v) = le_bytes n v.
Proof.
  rw -le_value_bytes. pose proof (le_bytes_value (le_bytes n v)) as H.
  by rw length_le_bytes in H.
Qed.

(** ** Lists as memory *)

(** The bytes [[i, j)] of a memory block. *)
Definition slice {A} (i j : Z) (l : list A) : list A :=
  take (Z.to_nat (j - i)) (drop (Z.to_nat i) l).

(** Overwrite the block from offset [i] with [d]. *)
Definition write_at {A} (i : Z) (d : list A) (l : list A) : list A :=
  take (Z.to_nat i) l ++ d ++ drop (Z.to_nat i + length d) l.

Definition zlength {A} (l : list A) : Z := Z.of_nat (length l).

Section lists.
Context {A : Type}.
Implicit Types l d : list A.

Lemma zlength_nonneg l : 0 ≤ zlength l.
Proof. unfold zlength; lia. Qed.

Lemma zlength_app l d : zlength (l ++ d) = zlength l + zlength d.
Proof. rw /zlength length_app. lia. Qed.

Lemma zlength_replicate n (x : A) : zlength (replicate n x) = Z.of_nat n.
Proof. by rw /zlength length_replicate. Qed.

Lemma zlength_slice i j l :
  0 ≤ i → i ≤ j → j ≤ zlength l → zlength (slice i j l) = j - i.
Proof. rw /zlength /slice length_take length_drop. lia. Qed.

Lemma zlength_write_at i d l :
  0 ≤ i → i + zlength d ≤ zlength l → zlength (write_at i d l) = zlength l.
Proof.
  rw /zlength /write_at !length_app length_take length_drop. lia.
Qed.

Lemma slice_empty i l : slice i i l = [].
Proof. rw /slice Z.sub_diag. done. Qed.

Lemma slice_app i j k l :
  0 ≤ i → i ≤ j → j ≤ k → slice i k l = slice i j l ++ slice j k l.
Proof.
  intros. rw /slice.
  replace (Z.to_nat (k - i)) with (Z.to_nat (j - i) + Z.to_nat (k - j))%nat by lia.
  rw -take_take_drop drop_drop. do 3 f_equal. lia.
Qed.

(** Reading back what was just written. *)
Lemma slice_write_at i d l :
  0 ≤ i → i + zlength d ≤ zlength l →
  slice i (i + zlength d) (write_at i d l) = d.
Proof.
  rw /slice /write_at /zlength. intros.
  rw drop_app_length'; [rw length_take; lia|].
  rw take_app_length'; [lia|done].
Qed.

(** A write does not disturb what lies before it ... *)
Lemma slice_write_at_before i j k d l :
  0 ≤ i → i ≤ j → j ≤ k → k ≤ zlength l →
  slice i j (write_at k d l) = slice i j l.
Proof.
  rw /slice /write_at /zlength. intros.
  rw drop_app_le; [rw length_take; lia|].
  rw take_app_le; [rw length_drop length_take; lia|].
  rw skipn_firstn_comm take_take. f_equal. lia.
Qed.

(** ... nor what lies after it. *)
Lemma slice_write_at_after i j k d l :
  0 ≤ k → k + zlength d ≤ i → i ≤ j → j ≤ zlength l →
  slice i j (write_at k d l) = slice i j l.
Proof.
  rw /slice /write_at /zlength. intros.
  rw app_assoc drop_app_ge; rw length_app length_take; [lia|].
  rw drop_drop. do 2 f_equal. lia.
Qed.

Lemma slice_app_l i j l d :
  0 ≤ i → i ≤ j → j ≤ zlength l → slice i j (l ++ d) = slice i j l.
Proof.
  rw /slice /zlength. intros.
  rw drop_app_le; [lia|]. rw take_app_le; [|done].
  rw length_drop. lia.
Qed.

Lemma take_slice n i j l :
  0 ≤ n → i + n ≤ j → take (Z.to_nat n) (slice i j l) = slice i (i + n) l.
Proof. rw /slice. intros. rw take_take. f_equal. lia. Qed.

Lemma drop_slice n i j l :
  0 ≤ n → 0 ≤ i → i + n ≤ j → drop (Z.to_nat n) (slice i j l) = slice (i + n) j l.
Proof.
  rw /slice. intros. rw skipn_firstn_comm drop_drop. f_equal; [lia|].
  f_equal; lia.
Qed.
End lists.

Lemma forallb_mono {A} (p q : A → bool) (l : list A) :
  (∀ x, p x = true → q x = true) → forallb p l = true → forallb q l = true.
Proof.
  intros Hpq. induction l as [|x l IH]; [done|]. simpl.
  intros [Hx Hl]%andb_prop. by rw Hpq // IH.
Qed.

#[export] Hint Resolve zlength_nonneg byte_to_Z_range u64_range : benet.

(** ** Finite executions of a transition relation *)

Section reachability.
Context {S : Type} (init : S → Prop) (step : S → S → Prop).

Inductive reachable : S → Prop :=
  | reach_init s : init s → reachable s
  | reach_step s s' : reachable s → step s s' → reachable s'.

Lemma reachable_invariant (I : S → Prop) :
  (∀ s, init s → I s) → (∀ s s', I s → step s s' → I s') →
  ∀ s, reachable s → I s.
Proof. intros H0 Hs s. induction 1; eauto. Qed.
End reachability.
