(* ===== verification/Logger.v ===== *)
(** * Logger: src/logger.cpp, src/benet.cpp and include/benet/logger.h

    The logger of the library, made by the first statement that logs, the two
    filters a message goes through (one when the file is compiled, one when
    the program runs), [BELOG_CRITICAL], which ends the process, and the
    functions of [benet::init].

    spdlog is a parameter: [Spdlog] are the calls the library makes of it,
    [SpdlogOk] is what its documentation says of them.

    - whatever is logged and however often the level is set, one logger is
      made, and the messages it takes are exactly those that pass both
      filters, in order; [BELOG_CRITICAL] ends the process with everything
      written, whatever the filters are. *)

From S2P Require Import Prelude.

(** ** spdlog *)

(** The levels, which [spdlog::level::level_enum] numbers like the macros. *)
Definition SPDLOG_LEVEL_TRACE : Z := 0.
Definition SPDLOG_LEVEL_DEBUG : Z := 1.
Definition SPDLOG_LEVEL_INFO : Z := 2.
Definition SPDLOG_LEVEL_WARN : Z := 3.
Definition SPDLOG_LEVEL_ERROR : Z := 4.
Definition SPDLOG_LEVEL_CRITICAL : Z := 5.
Definition SPDLOG_LEVEL_OFF : Z := 6.

(** A log line: its level and its text. *)
Definition line : Type := Z * string.

(** The state of spdlog (its registry, its thread pool and its sinks), a
    [shared_ptr<logger>], and the calls; [create_async] may throw. *)
Class Spdlog := {
  spd : Type;
  logger : Type;
  create_async : string → spd → option (logger * spd);
  set_pattern : logger → string → spd → spd;
  set_level : logger → Z → spd → spd;
  flush_on : logger → Z → spd → spd;
  log : logger → line → spd → spd;
  shutdown : spd → spd;
  (** What can be observed: the registered names, the level of a logger,
      whether the thread pool is there, the lines its queue has taken, and
      those that the sinks have written. *)
  registered : spd → gset string;
  level_of : spd → logger → Z;
  pool_up : spd → bool;
  taken : spd → list line;
  written : spd → list line;
}.

(** What is left alone by settings that do not concern it. *)
Definition untouched `{Spdlog} (s s' : spd) : Prop :=
  (registered s', pool_up s', taken s') = (registered s, pool_up s, taken s).

(** The documented behaviour: names are unique, a logger takes the lines at
    or above its level, the queue blocks when it is full and so loses
    nothing, and [shutdown] joins the thread that empties it. *)
Class SpdlogOk (sp : Spdlog) : Prop := {
  create_fails : ∀ name s, create_async name s = None → name ∈ registered s;
  create_ok : ∀ name s lg s', create_async name s = Some (lg, s') →
    (name ∉ registered s) ∧ registered s' = {[name]} ∪ registered s ∧ pool_up s' = true ∧ taken s' = taken s;
  pattern_ok : ∀ lg p s, untouched s (set_pattern lg p s);
  level_ok : ∀ lg v s, untouched s (set_level lg v s) ∧ level_of (set_level lg v s) lg = v;
  flush_ok : ∀ lg v s, untouched s (flush_on lg v s) ∧ level_of (flush_on lg v s) lg = level_of s lg;
  log_ok : ∀ lg l s, pool_up s = true →
    registered (log lg l s) = registered s ∧ pool_up (log lg l s) = true ∧
    level_of (log lg l s) lg = level_of s lg ∧
    taken (log lg l s) = taken s ++ (if level_of s lg <=? l.1 then [l] else []);
  shutdown_ok : ∀ s, written (shutdown s) = taken s;
}.

(** ** The process *)

Inductive sighandler := SIG_DFL | SIG_IGN.
#[export] Instance sighandler_eq_dec : EqDecision sighandler.
Proof. solve_decision. Defined.

Definition SIGPIPE : Z := 13.

Record Process `{Spdlog} := mkProcess {
  pr_spd : spd;
  (** the [static] variable of [AsyncConsoleLogger], once it is initialised *)
  pr_logger : option logger;
  pr_signals : Z → sighandler;
}.

(** How a file is compiled: the macros the choice of a level looks at. *)
Record Build := mkBuild {
  NDEBUG : bool;
  defined_active_level : option Z;
  BENET_LOGGER_LEVEL_VALUE : option Z;
}.

Definition SPDLOG_ACTIVE_LEVEL (b : Build) : Z :=
  match defined_active_level b with
  | Some v => v
  | None =>
      if negb (NDEBUG b) then SPDLOG_LEVEL_TRACE
      else match BENET_LOGGER_LEVEL_VALUE b with
           | None => SPDLOG_LEVEL_ERROR
           | Some v => v
           end
  end.

Definition BENET_LOGGER_NAME : string := "benet".
Definition BENET_LOGGER_PATTERN (ndebug : bool) : string :=
  if negb ndebug then "[%Y-%m-%d %T.%f] [%n] [%^%l%$] [%s:%# %!]: %v"
  else "[%Y-%m-%d %T.%f] [%n] [%^%l%$]: %v".

Section operations.
Context {sp : Spdlog}.
(** The macros with which logger.cpp was compiled. *)
Context (lib : Build).
Implicit Types (p : Process) (b : Build).

Definition set_pr_spd (v : spd) p : Process := mkProcess _ v (pr_logger p) (pr_signals p).
Definition set_pr_logger (v : option logger) p : Process := mkProcess _ (pr_spd p) v (pr_signals p).
Definition set_pr_signals (v : Z → sighandler) p : Process := mkProcess _ (pr_spd p) (pr_logger p) v.

Definition spdlog (f : spd → spd) : M Process () := modify (λ p, set_pr_spd (f (pr_spd p)) p).

(** A [static] that is initialised by the first call. *)
Definition AsyncConsoleLogger : M Process logger :=
  p ← get;
  match pr_logger p with
  | Some lg => mret lg
  | None =>
      match create_async BENET_LOGGER_NAME (pr_spd p) with
      | None => crash Uncaught
      | Some (lg, s) =>
          modify (set_pr_spd s) ;;
          spdlog (set_pattern lg (BENET_LOGGER_PATTERN (NDEBUG lib))) ;;
          spdlog (set_level lg SPDLOG_LEVEL_TRACE) ;;
          spdlog (flush_on lg SPDLOG_LEVEL_ERROR) ;;
          modify (set_pr_logger (Some lg)) ;;
          mret lg
      end
  end.

(** [SPDLOG_LOGGER_TRACE] and the others, in a file compiled as [b]: nothing
    is left of a statement below the active level. *)
Definition SPDLOG_LOGGER (b : Build) (l : line) : M Process () :=
  if SPDLOG_ACTIVE_LEVEL b <=? l.1 then lg ← AsyncConsoleLogger; spdlog (log lg l) else mret ().

Definition BELOG_TRACE b (msg : string) := SPDLOG_LOGGER b (SPDLOG_LEVEL_TRACE, msg).
Definition BELOG_DEBUG b (msg : string) := SPDLOG_LOGGER b (SPDLOG_LEVEL_DEBUG, msg).
Definition BELOG_INFO b (msg : string) := SPDLOG_LOGGER b (SPDLOG_LEVEL_INFO, msg).
Definition BELOG_WARN b (msg : string) := SPDLOG_LOGGER b (SPDLOG_LEVEL_WARN, msg).
Definition BELOG_ERROR b (msg : string) := SPDLOG_LOGGER b (SPDLOG_LEVEL_ERROR, msg).

Definition BELOG_CRITICAL b (msg : string) : M Process () :=
  SPDLOG_LOGGER b (SPDLOG_LEVEL_CRITICAL, msg) ;;
  spdlog shutdown ;;
  crash Exit2.

Definition InitLogLevel (level : Z) : M Process () :=
  lg ← AsyncConsoleLogger; spdlog (set_level lg level).

Definition IgnoreSigpipe : M Process () :=
  modify (λ p, set_pr_signals (λ n, if n =? SIGPIPE then SIG_IGN else pr_signals p n) p).

(** What a program does with all this until something critical happens. *)
Inductive statement :=
  | STrace (b : Build) (msg : string)
  | SDebug (b : Build) (msg : string)
  | SInfo (b : Build) (msg : string)
  | SWarn (b : Build) (msg : string)
  | SError (b : Build) (msg : string)
  | SInitLogLevel (level : Z)
  | SIgnoreSigpipe.

Definition execute (st : statement) : M Process () :=
  match st with
  | STrace b msg => BELOG_TRACE b msg
  | SDebug b msg => BELOG_DEBUG b msg
  | SInfo b msg => BELOG_INFO b msg
  | SWarn b msg => BELOG_WARN b msg
  | SError b msg => BELOG_ERROR b msg
  | SInitLogLevel level => InitLogLevel level
  | SIgnoreSigpipe => IgnoreSigpipe
  end.
End operations.

(** ** The abstract log *)

(** The level of the logger, the lines it has taken, and what happens to a
    process that writes to a connection without a reader. *)
Record log_state := mkLog { ls_level : Z; ls_lines : list line; ls_sigpipe : sighandler }.

(** The two filters. *)
Definition passes (b : Build) (level : Z) (l : line) : bool :=
  (SPDLOG_ACTIVE_LEVEL b <=? l.1) && (level <=? l.1).

Definition log_line (b : Build) (l : line) (a : log_state) : log_state :=
  mkLog (ls_level a) (ls_lines a ++ if passes b (ls_level a) l then [l] else []) (ls_sigpipe a).

Definition log_step (a : log_state) (st : statement) : log_state :=
  match st with
  | STrace b m => log_line b (SPDLOG_LEVEL_TRACE, m) a
  | SDebug b m => log_line b (SPDLOG_LEVEL_DEBUG, m) a
  | SInfo b m => log_line b (SPDLOG_LEVEL_INFO, m) a
  | SWarn b m => log_line b (SPDLOG_LEVEL_WARN, m) a
  | SError b m => log_line b (SPDLOG_LEVEL_ERROR, m) a
  | SInitLogLevel level => mkLog level (ls_lines a) (ls_sigpipe a)
  | SIgnoreSigpipe => mkLog (ls_level a) (ls_lines a) SIG_IGN
  end.

Section theorems.
Context {sp : Spdlog} `{!SpdlogOk sp} (lib : Build).
Implicit Types (p : Process) (b : Build).

(** The state of spdlog and of the static variable agrees with the abstract
    one: the logger is there with its level, or its name is still free. *)
Record logs (a : log_state) p : Prop := {
  lo_taken : taken (pr_spd p) = ls_lines a;
  lo_logger : match pr_logger p with
              | Some lg => pool_up (pr_spd p) = true ∧ level_of (pr_spd p) lg = ls_level a
              | None => (BENET_LOGGER_NAME ∉ registered (pr_spd p)) ∧ ls_level a = SPDLOG_LEVEL_TRACE
              end;
  lo_sigpipe : pr_signals p SIGPIPE = ls_sigpipe a;
}.

Lemma AsyncConsoleLogger_ok a p :
  logs a p → wp (AsyncConsoleLogger lib) (λ lg p', logs a p' ∧ pr_logger p' = Some lg) never p.
Proof.
  intros [Ht Hlg Hs]. rw /AsyncConsoleLogger. do 2 wp_step. destruct (pr_logger p) as [lg|] eqn:Hp.
  { wp_step. split; [split|]; rw ?Hp //. }
  destruct Hlg as [Hn Hl]. destruct (create_async _ _) as [[lg s]|] eqn:Hc; [|by apply create_fails in Hc].
  destruct (create_ok _ _ _ _ Hc) as (_ & _ & Hu & Ht').
  set (pat := BENET_LOGGER_PATTERN _). pose proof (pattern_ok lg pat s) as [= _ U1 T1].
  set (s1 := set_pattern lg pat s) in *. destruct (level_ok lg SPDLOG_LEVEL_TRACE s1) as [[= _ U2 T2] L2].
  set (s2 := set_level lg _ s1) in *. destruct (flush_ok lg SPDLOG_LEVEL_ERROR s2) as [[= _ U3 T3] L3].
  wp_steps; rw /spdlog; wp_steps.
  split; [split|done]; [|split|]; simpl; fold pat s1 s2; congruence.
Qed.

(** A statement that logs. *)
Lemma SPDLOG_LOGGER_ok a b l p :
  logs a p → wp (SPDLOG_LOGGER lib b l) (λ _, logs (log_line b l a)) never p.
Proof.
  intros Hi. rw /SPDLOG_LOGGER /log_line /passes. destruct (_ <=? l.1); simpl;
    [|wp_step; rw app_nil_r; by destruct a].
  wp_step. eapply wp_conseq; [by apply AsyncConsoleLogger_ok|]. intros lg p1 [[Ht Hlg Hs] Hp]. rw Hp in Hlg.
  destruct Hlg as [Hu Hl]. destruct (log_ok lg l (pr_spd p1) Hu) as (_ & Hu' & Hl' & Ht'). rw /spdlog. wp_step.
  split; [|rw Hp; split|]; simpl; [by rw Ht' Ht Hl|done|congruence|done].
Qed.

Lemma execute_ok a st p : logs a p → wp (execute lib st) (λ _, logs (log_step a st)) never p.
Proof.
  intros Hi. destruct st; simpl; try (by apply SPDLOG_LOGGER_ok).
  - rw /InitLogLevel. wp_step. eapply wp_conseq; [by apply AsyncConsoleLogger_ok|].
    intros lg p1 [[Ht Hlg Hs] Hp]. rw Hp in Hlg. destruct Hlg as [Hu _]. rw /spdlog. wp_step.
    destruct (level_ok lg level (pr_spd p1)) as [[= _ U T] L]. split; [|rw Hp; split|]; simpl; congruence.
  - rw /IgnoreSigpipe. wp_step. by destruct Hi.
Qed.

Lemma execute_all_ok sts a p :
  logs a p → wp (for_each sts (execute lib)) (λ _, logs (foldl log_step a sts)) never p.
Proof.
  revert a p. induction sts as [|st sts IH]; intros a p Hi; simpl; [by wp_step|].
  wp_step. eapply wp_conseq; [by apply execute_ok|]. intros [] p1 Hi1. by apply IH.
Qed.

(** A process before the library has logged anything. *)
Definition before_logging p : log_state := mkLog SPDLOG_LEVEL_TRACE (taken (pr_spd p)) (pr_signals p SIGPIPE).

(** C40: logging and its end.  A process in which nothing was logged yet and
    nobody else has a logger of that name runs any statements that log, set
    the level or ignore SIGPIPE, from files compiled in any way, and then
    [BELOG_CRITICAL].  None of the statements fails; the process ends by
    [exit(2)], whatever the filters are, and by then the sinks have written
    exactly the lines that passed the filter of the file they are in and the
    level in force at that time, in order, the critical one as the last if it
    passes; and SIGPIPE is ignored if one of the statements asked for it. *)
Theorem critical_ends_with_log_written sts b msg p :
  pr_logger p = None → BENET_LOGGER_NAME ∉ registered (pr_spd p) →
  let a := foldl log_step (before_logging p) sts in
  wp (for_each sts (execute lib) ;; BELOG_CRITICAL lib b msg) (λ _ _, False)
    (λ f p', f = Exit2 ∧
      written (pr_spd p') = ls_lines (log_line b (SPDLOG_LEVEL_CRITICAL, msg) a) ∧
      pr_signals p' SIGPIPE = ls_sigpipe a) p.
Proof.
  intros Hp Hn a. assert (logs (before_logging p) p) as Hi by by split; rw ?Hp.
  wp_step. eapply wp_mono; [by apply execute_all_ok|simpl|done]. intros [] p1 Hi1. rw /BELOG_CRITICAL. wp_step.
  eapply wp_mono; [by apply SPDLOG_LOGGER_ok|simpl|done]. intros [] p2 [Ht _ Hs]. rw /spdlog. wp_steps.
  split_and!; [done|by rw /= shutdown_ok|done].
Qed.
End theorems.

(** ** A small spdlog *)

Record sample_spd := mkSpd {
  ss_names : gset string; ss_levels : gmap nat Z; ss_up : bool; ss_taken : list line; ss_written : list line }.

#[export] Instance sample_spdlog : Spdlog := {|
  spd := sample_spd;
  logger := nat;
  create_async name s :=
    if bool_decide (name ∈ ss_names s) then None
    else let lg := fresh (dom (ss_levels s)) in
         Some (lg, mkSpd ({[name]} ∪ ss_names s) (<[lg := SPDLOG_LEVEL_INFO]> (ss_levels s)) true (ss_taken s) (ss_written s));
  set_pattern _ _ s := s;
  set_level lg v s := mkSpd (ss_names s) (<[lg := v]> (ss_levels s)) (ss_up s) (ss_taken s) (ss_written s);
  flush_on _ _ s := s;
  log lg l s := mkSpd (ss_names s) (ss_levels s) (ss_up s)
    (ss_taken s ++ if default 0 (ss_levels s !! lg) <=? l.1 then [l] else []) (ss_written s);
  shutdown s := mkSpd ∅ ∅ false (ss_taken s) (ss_taken s);
  registered := ss_names;
  level_of s lg := default 0 (ss_levels s !! lg);
  pool_up := ss_up;
  taken := ss_taken;
  written := ss_written;
|}.

#[export] Instance sample_spdlog_ok : SpdlogOk sample_spdlog.
Proof.
  split; simpl; try done.
  - intros name s. by case_bool_decide.
  - intros name s lg s'. case_bool_decide; [done|]. by intros [= <- <-].
  - intros lg v s. by rw lookup_insert_eq.
Qed.

(** [main] of the echo server, compiled for release, with its first two
    statements: of what follows only the warning and the errors are written. *)
Definition release : Build := mkBuild true None None.
Definition debug : Build := mkBuild false None None.
Definition session : list statement :=
  [SInitLogLevel 3; SIgnoreSigpipe; SInfo debug "accepted"; SWarn debug "slow"; SWarn release "hidden"; SError release "failed"].
Definition new_process : Process := mkProcess _ (mkSpd ∅ ∅ false [] []) None (λ _, SIG_DFL).

Lemma critical_ends_with_log_written_witness :
  wp (for_each session (execute release) ;; BELOG_CRITICAL release release "epoll_ctl") (λ _ _, False)
    (λ f p', f = Exit2 ∧ written (pr_spd p') = [(3, "slow"); (4, "failed"); (5, "epoll_ctl")]%string ∧
      pr_signals p' SIGPIPE = SIG_IGN) new_process.
Proof. by apply (critical_ends_with_log_written release session release "epoll_ctl" new_process). Defined.
