(* ===== verification/Buffer.v ===== *)
(** * Buffer: the byte queue of include/benet/buffer.h

    [Buffer] keeps a [std::vector<char>] and two indices.  A [const char*]
    into the vector is modelled by its offset from [begin()], the null
    pointer by [None]; every read or write of the vector is checked against
    its bounds and is [UB] outside them, and so is a [std::copy] whose
    destination lies inside its source range.  [size_t] arithmetic is taken
    modulo [2^64].

    - the operations, one definition per member function;
    - [inv], the index invariant drawn in the header's comment;
    - [spec_step], the abstract byte queue (contents and prependable room)
      that the class promises, and the refinement of every sequence of
      operations to it;
    - the wire format of integers and its round trip, on hosts of either
      byte order;
    - the searches [FindCRLF] and [FindEOL];
    - [ReadFd] with its stack overflow area. *)

From S2P Require Import Prelude.

Definition kCheapPrepend : Z := 8.
Definition kInitialSize : Z := 1024.
Definition kExtraBufSize : Z := 65536.
Definition kCRLF : list byte := [Byte.x0d; Byte.x0a].

Record Buffer := mkBuffer {
  buffer_ : list byte;
  reader_index_ : Z;
  writer_index_ : Z;
}.

Definition size (b : Buffer) : Z := zlength (buffer_ b).

Definition with_buffer (l : list byte) (b : Buffer) : Buffer :=
  mkBuffer l (reader_index_ b) (writer_index_ b).
Definition with_reader (r : Z) (b : Buffer) : Buffer :=
  mkBuffer (buffer_ b) r (writer_index_ b).
Definition with_writer (w : Z) (b : Buffer) : Buffer :=
  mkBuffer (buffer_ b) (reader_index_ b) w.

(** [explicit Buffer(size_t init_size = kInitialSize)]: the vector
    constructor throws [std::length_error] beyond [max_size()]. *)
Definition Buffer_new (init_size : Z) : failure + Buffer :=
  let n := u64 (kCheapPrepend + init_size) in
  if n <=? vector_max_size then
    inr (mkBuffer (replicate (Z.to_nat n) Byte.x00) kCheapPrepend kCheapPrepend)
  else inl LengthError.

Definition ReadableBytes (b : Buffer) : Z := u64 (writer_index_ b - reader_index_ b).
Definition WritableBytes (b : Buffer) : Z := u64 (size b - writer_index_ b).
Definition PrependableBytes (b : Buffer) : Z := reader_index_ b.

(** Private [begin()], [begin_read()], [begin_write()] and [Peek()], as
    offsets from [buffer_.data()]. *)
Definition begin : Z := 0.
Definition begin_read (b : Buffer) : Z := begin + reader_index_ b.
Definition begin_write (b : Buffer) : Z := begin + writer_index_ b.
Definition Peek (b : Buffer) : Z := begin_read b.

(** ** Memory accesses *)

(** Read [[i, j)] of the vector. *)
Definition load (i j : Z) : M Buffer (list byte) := λ b,
  if (0 <=? i) && (i <=? j) && (j <=? size b) then Done (slice i j (buffer_ b)) b
  else Crash UB b.

(** Write [d] at offset [i] of the vector. *)
Definition store (i : Z) (d : list byte) : M Buffer () := λ b,
  if (0 <=? i) && (i + zlength d <=? size b) then
    Done () (with_buffer (write_at i d (buffer_ b)) b)
  else Crash UB b.

(** [std::copy(first, last, d_first)] inside the vector. *)
Definition std_copy (first last d_first : Z) : M Buffer () :=
  if (first <=? d_first) && (d_first <? last) then crash UB
  else d ← load first last; store d_first d.

(** [buffer_.resize(n)]: new elements are zero. *)
Definition resize (n : Z) : M Buffer () := λ b,
  if vector_max_size <? n then Crash LengthError b
  else Done () (with_buffer
         (take (Z.to_nat n) (buffer_ b) ++
          replicate (Z.to_nat n - length (buffer_ b)) Byte.x00) b).

(** ** Growing *)

Definition make_space (len : Z) : M Buffer () :=
  b ← get;
  if u64 (WritableBytes b + PrependableBytes b) <? u64 (len + kCheapPrepend) then
    (* make space outside *)
    resize (u64 (writer_index_ b + len))
  else
    (* make space inside *)
    let readable := ReadableBytes b in
    std_copy (begin_read b) (begin_write b) (begin + kCheapPrepend) ;;
    modify (with_reader kCheapPrepend) ;;
    modify (λ b', with_writer (u64 (reader_index_ b' + readable)) b').

Definition EnsureWriteableBytes (len : Z) : M Buffer () :=
  b ← get; if WritableBytes b <? len then make_space len else mret ().

(** [Append(const char* data, size_t len)]; the overloads taking a
    [string_view] or a [const void*] forward to it.  The [len] bytes at
    [data] lie outside the buffer. *)
Definition Append (data : list byte) : M Buffer () :=
  let len := zlength data in
  EnsureWriteableBytes len ;;
  b ← get;
  store (begin_write b) data ;;
  modify (λ b', with_writer (u64 (writer_index_ b' + len)) b').

(** [Prepend(const char* data, size_t len)] and its forwarding overloads:
    [copy_backward] ends at [begin_read()]. *)
Definition Prepend (data : list byte) : M Buffer () :=
  let len := zlength data in
  b ← get;
  assert_ (len <=? PrependableBytes b) ;;
  store (begin_read b - len) data ;;
  modify (λ b', with_reader (u64 (reader_index_ b' - len)) b').

(** ** Consuming *)

Definition Retrieve (len : Z) : M Buffer () :=
  b ← get;
  assert_ (len <=? ReadableBytes b) ;;
  modify (λ b', with_reader (u64 (reader_index_ b' + len)) b').

Definition RetrieveUntil (end_ : Z) : M Buffer () :=
  b ← get;
  assert_ (Peek b <=? end_) ;;
  assert_ (end_ <=? begin_write b) ;;
  Retrieve (end_ - Peek b).

Definition RetrieveAll : M Buffer () :=
  modify (with_reader kCheapPrepend) ;; modify (with_writer kCheapPrepend).

Definition RetrieveAsString (len : Z) : M Buffer (list byte) :=
  b ← get;
  assert_ (len <=? ReadableBytes b) ;;
  result ← load (Peek b) (Peek b + len);
  Retrieve len ;;
  mret result.

Definition RetrieveAllAsString : M Buffer (list byte) :=
  b ← get; RetrieveAsString (ReadableBytes b).

(** ** Searching *)

Fixpoint memmem (needle hay : list byte) : option Z :=
  if bool_decide (needle `prefix_of` hay) then Some 0
  else match hay with [] => None | _ :: hay' => Z.succ <$> memmem needle hay' end.

Fixpoint memchr (c : byte) (hay : list byte) : option Z :=
  match hay with
  | [] => None
  | x :: hay' => if bool_decide (x = c) then Some 0 else Z.succ <$> memchr c hay'
  end.

Definition FindCRLF : M Buffer (option Z) :=
  b ← get;
  d ← load (Peek b) (Peek b + ReadableBytes b);
  mret (Z.add (Peek b) <$> memmem kCRLF d).

Definition FindCRLF_from (start : Z) : M Buffer (option Z) :=
  b ← get;
  assert_ (Peek b <=? start) ;;
  assert_ (start <=? begin_write b) ;;
  d ← load start (start + (begin_write b - start));
  mret (Z.add start <$> memmem kCRLF d).

Definition FindEOL : M Buffer (option Z) :=
  b ← get;
  d ← load (Peek b) (Peek b + ReadableBytes b);
  mret (Z.add (Peek b) <$> memchr Byte.x0a d).

Definition FindEOL_from (start : Z) : M Buffer (option Z) :=
  b ← get;
  assert_ (Peek b <=? start) ;;
  assert_ (start <=? begin_write b) ;;
  d ← load start (start + (begin_write b - start));
  mret (Z.add start <$> memchr Byte.x0a d).

(** ** Integers on the wire *)

(** The integral types the templates accept. *)
Inductive ity := I8 | I16 | I32 | I64 | U8 | U16 | U32 | U64.

Definition sizeof (t : ity) : nat :=
  match t with
  | I8 | U8 => 1 | I16 | U16 => 2 | I32 | U32 => 4 | I64 | U64 => 8
  end.

Definition is_signed (t : ity) : bool :=
  match t with I8 | I16 | I32 | I64 => true | _ => false end.

(** [static_cast<T>]: conversion to [T] is reduction modulo [2^N]. *)
Definition cast (t : ity) (x : Z) : Z :=
  if is_signed t then wrap_s (sizeof t) x else wrap_u (sizeof t) x.

Definition in_range (t : ity) (x : Z) : Prop :=
  if is_signed t then in_s (sizeof t) x else in_u (sizeof t) x.

Inductive endian := LittleEndian | BigEndian.

Section integers.
(** The byte order of the machine the library is compiled for. *)
Context (host : endian).

(** Object representation of an [n]-byte unsigned integer. *)
Definition object_bytes (n : nat) (v : Z) : list byte :=
  match host with LittleEndian => le_bytes n v | BigEndian => reverse (le_bytes n v) end.
Definition object_value (l : list byte) : Z :=
  match host with LittleEndian => le_value l | BigEndian => le_value (reverse l) end.

(** [htobe16/32/64] and [be16/32/64toh] of endian.h. *)
Definition bswap (n : nat) (v : Z) : Z := le_value (reverse (le_bytes n v)).
Definition htobe (n : nat) (v : Z) : Z :=
  match host with LittleEndian => bswap n v | BigEndian => wrap_u n v end.

(** The conversion at the head of [AppendInt] and [PrependInt]: a
    one-byte value is left alone, any other is passed to [htobeN], whose
    parameter is unsigned. *)
Definition to_network (t : ity) (num : Z) : Z :=
  match sizeof t with
  | 1%nat => num
  | n => cast t (htobe n (wrap_u n num))
  end.

Definition AppendInt (t : ity) (num : Z) : M Buffer () :=
  let num := to_network t num in
  Append (object_bytes (sizeof t) (wrap_u (sizeof t) num)).

Definition PrependInt (t : ity) (num : Z) : M Buffer () :=
  let num := to_network t num in
  Prepend (object_bytes (sizeof t) (wrap_u (sizeof t) num)).

Definition PeekInt (t : ity) : M Buffer Z :=
  b ← get;
  assert_ (Z.of_nat (sizeof t) <=? ReadableBytes b) ;;
  d ← load (Peek b) (Peek b + Z.of_nat (sizeof t));
  let val := object_value d in
  mret (match sizeof t with
        | 1%nat => cast t val
        | n => cast t (htobe n val)
        end).

Definition RetrieveAsInt (t : ity) : M Buffer Z :=
  result ← PeekInt t;
  Retrieve (Z.of_nat (sizeof t)) ;;
  mret result.
End integers.

(** ** Reading from a descriptor *)

(** [readv(2)] on buffers of the given sizes: the return value and the
    bytes it delivered.  It is supplied by the caller of the model. *)
Definition readv_t : Type := list Z → Z * list byte.

(** What readv(2) documents: on success it returns the number of bytes it
    read, at most the total room, having filled the buffers in order. *)
Definition readv_ok (readv : readv_t) : Prop :=
  ∀ iov, Forall (Z.le 0) iov → 0 ≤ (readv iov).1 →
    (readv iov).1 = zlength (readv iov).2 ∧ (readv iov).1 ≤ foldr Z.add 0 iov.

(** The lengths of the iovec that [ReadFd] passes: the writable bytes and,
    when they are fewer than [kExtraBufSize], the stack area. *)
Definition read_iov (b : Buffer) : list Z :=
  let writable := WritableBytes b in
  if writable <? kExtraBufSize then [writable; kExtraBufSize] else [writable].

Definition ReadFd (readv : readv_t) : M Buffer Z :=
  b ← get;
  let writable := WritableBytes b in
  let '(n, data) := readv (read_iov b) in
  if 0 <=? n then
    (* the kernel fills [buffers[0]] first, the rest goes to [extra_buf] *)
    store (begin_write b) (take (Z.to_nat writable) data) ;;
    let extra_buf := drop (Z.to_nat writable) data in
    (if n <=? writable then
       modify (λ b', with_writer (u64 (writer_index_ b' + n)) b')
     else
       modify (λ b', with_writer (size b') b') ;;
       Append (take (Z.to_nat (u64 (n - writable))) extra_buf)) ;;
    mret n
  else mret n.

(** ** The index invariant

    [0 <= reader_index_ <= writer_index_ <= buffer_.size()], the picture in
    the header, together with the two facts the operations rely on: the
    vector never gets shorter than the cheap-prepend area, nor longer than a
    vector can be. *)
Definition inv (b : Buffer) : Prop :=
  0 ≤ reader_index_ b ∧ reader_index_ b ≤ writer_index_ b ∧
  writer_index_ b ≤ size b ∧ kCheapPrepend ≤ size b ∧ size b ≤ vector_max_size.

(** The readable bytes, in order. *)
Definition content (b : Buffer) : list byte :=
  slice (reader_index_ b) (writer_index_ b) (buffer_ b).

Ltac binv :=
  unfold inv, content, size, ReadableBytes, WritableBytes, PrependableBytes, Peek,
    begin_read, begin_write, begin, kCheapPrepend, with_reader, with_writer,
    with_buffer in *; simpl in *.

Ltac blia := unfold kCheapPrepend, kInitialSize, kExtraBufSize in *; slia.

Section basic.
Implicit Types b : Buffer.

Lemma ReadableBytes_eq b : inv b → ReadableBytes b = writer_index_ b - reader_index_ b.
Proof. intros H. rw /ReadableBytes u64_small //. binv. blia. Qed.

Lemma WritableBytes_eq b : inv b → WritableBytes b = size b - writer_index_ b.
Proof. intros H. rw /WritableBytes u64_small //. binv. blia. Qed.

Lemma zlength_content b : inv b → zlength (content b) = ReadableBytes b.
Proof.
  intros H. rw ReadableBytes_eq // /content zlength_slice //; binv; lia.
Qed.

Lemma wp_load i j b Q E :
  0 ≤ i → i ≤ j → j ≤ size b → Q (slice i j (buffer_ b)) b → wp (load i j) Q E b.
Proof.
  intros. rw /wp /load.
  rw (proj2 (Z.leb_le 0 i)) // (proj2 (Z.leb_le i j)) // (proj2 (Z.leb_le j _)) //.
Qed.

Lemma wp_store i d b (Q : () → Buffer → Prop) E :
  0 ≤ i → i + zlength d ≤ size b →
  Q () (with_buffer (write_at i d (buffer_ b)) b) → wp (store i d) Q E b.
Proof.
  intros. rw /wp /store.
  rw (proj2 (Z.leb_le 0 i)) // (proj2 (Z.leb_le (i + zlength d) _)) //.
Qed.

Lemma Buffer_new_inv n b : 0 ≤ n ≤ vector_max_size - kCheapPrepend → Buffer_new n = inr b →
  inv b ∧ content b = [] ∧ size b = kCheapPrepend + n ∧ PrependableBytes b = kCheapPrepend.
Proof.
  intros Hn. rw /Buffer_new u64_small; [blia|].
  destruct (Z.leb_spec (kCheapPrepend + n) vector_max_size); [|done].
  intros [= <-]. binv. rw zlength_replicate.
  repeat split; blia.
Qed.

Lemma Buffer_new_ok n : 0 ≤ n ≤ vector_max_size - kCheapPrepend → ∃ b, Buffer_new n = inr b.
Proof.
  intros Hn. rw /Buffer_new u64_small; [blia|].
  destruct (Z.leb_spec (kCheapPrepend + n) vector_max_size); [eauto|lia].
Qed.
End basic.

(** ** Growing: what [make_space] and [EnsureWriteableBytes] guarantee *)

Section growing.
Implicit Types b : Buffer.

(** What a step that only makes room establishes: the readable bytes are
    those of [b], there is room for [len] more, the prependable area is
    kept or back to its initial size, and the vector grew at most to
    [writer_index_ + len]. *)
Definition room_made (len : Z) (b b' : Buffer) : Prop :=
  inv b' ∧ content b' = content b ∧ len ≤ WritableBytes b' ∧
  (PrependableBytes b' = PrependableBytes b ∨ PrependableBytes b' = kCheapPrepend) ∧
  size b ≤ size b' ∧ size b' ≤ Z.max (size b) (writer_index_ b + len) ∧
  (len + kCheapPrepend ≤ size b - writer_index_ b + PrependableBytes b → size b' = size b).

Lemma resize_grow n b :
  size b ≤ n ≤ vector_max_size →
  resize n b = Done () (with_buffer
    (buffer_ b ++ replicate (Z.to_nat (n - size b)) Byte.x00) b).
Proof.
  rw /resize. intros Hn. destruct (Z.ltb_spec vector_max_size n); [lia|].
  rw /size /zlength in Hn |- *. do 2 f_equal.
  rw take_ge; [lia|]. do 2 f_equal. lia.
Qed.

(** The only failure: [std::vector] cannot hold [n] bytes. *)
Definition too_long (n : Z) : failure → Buffer → Prop := λ f _, f = LengthError ∧ vector_max_size < n.

Lemma wp_not_too_long {A} (m : M Buffer A) Q n E b :
  n ≤ vector_max_size → wp m Q (too_long n) b → wp m Q E b.
Proof. intros Hn Hm. eapply wp_mono; [exact Hm|done|]. intros f b' [_ ?]. lia. Qed.
Lemma too_long_mono {A} (m : M Buffer A) Q n n' b :
  n ≤ n' → wp m Q (too_long n) b → wp m Q (too_long n') b.
Proof. intros Hn Hm. eapply wp_mono; [exact Hm|done|]. intros f b' [? ?]. split; [done|lia]. Qed.

(** The branch that moves the contents is taken only when more than
    [kCheapPrepend] bytes are free in front, so the [std::copy] goes to
    lower addresses, and it stays inside the vector. *)
Lemma make_space_ok len b :
  inv b → WritableBytes b < len → len ≤ vector_max_size →
  wp (make_space len) (λ _ b', room_made len b b') (too_long (writer_index_ b + len)) b.
Proof.
  intros Hb Hlen Hmax. pose proof (WritableBytes_eq b Hb) as HW.
  pose proof (ReadableBytes_eq b Hb) as HR.
  rw /make_space. do 2 wp_step. rw HW.
  rw (u64_small (_ + PrependableBytes b)); [binv; blia|].
  rw (u64_small (len + _)); [binv; blia|].
  destruct (Z.ltb_spec (size b - writer_index_ b + PrependableBytes b) (len + kCheapPrepend))
    as [Hout|Hin].
  - rw (u64_small (writer_index_ b + len)); [binv; blia|].
    destruct (Z.ltb_spec vector_max_size (writer_index_ b + len)) as [Hbig|Hfit].
    { rw /wp /resize. by destruct (Z.ltb_spec vector_max_size (writer_index_ b + len)); [|lia]. }
    eapply wp_of_done; [apply resize_grow; rw HW in Hlen; binv; lia|].
    rw HW in Hlen. rw /room_made WritableBytes_eq.
    { binv. rw zlength_app zlength_replicate. blia. }
    binv. rw !zlength_app !zlength_replicate.
    repeat split; try blia. apply slice_app_l; lia.
  - rw HW in Hlen. wp_step. unfold std_copy.
    assert (kCheapPrepend < begin_read b) as Hlow by (binv; lia).
    destruct (Z.leb_spec (begin_read b) (begin + kCheapPrepend)); [binv; lia|]. simpl.
    wp_step. apply wp_load; [binv; lia..|].
    apply wp_store; [binv; lia| |].
    { rw zlength_slice; binv; lia. }
    set (d := slice (begin_read b) (begin_write b) (buffer_ b)).
    assert (zlength d = writer_index_ b - reader_index_ b) as Hd.
    { rw /d zlength_slice; binv; lia. }
    wp_steps. simpl. rw HR.
    assert (u64 (kCheapPrepend + (writer_index_ b - reader_index_ b)) =
            kCheapPrepend + zlength d) as ->.
    { rw Hd u64_small; binv; blia. }
    rw /room_made WritableBytes_eq; binv; rw zlength_write_at; try blia.
    repeat split; try blia. rw slice_write_at //; lia.
Qed.

Lemma EnsureWriteableBytes_any len b :
  inv b → 0 ≤ len ≤ vector_max_size →
  wp (EnsureWriteableBytes len) (λ _ b', room_made len b b') (too_long (size b + len)) b.
Proof.
  intros Hb Hlen. rw /EnsureWriteableBytes. do 2 wp_step.
  destruct (Z.ltb_spec (WritableBytes b) len) as [Hlt|Hge].
  - eapply too_long_mono; [|apply make_space_ok; [done|done|lia]]. binv; lia.
  - wp_step. rw /room_made. repeat split; auto; binv; lia.
Qed.

Lemma EnsureWriteableBytes_ok len b :
  inv b → 0 ≤ len → size b + len ≤ vector_max_size →
  wp (EnsureWriteableBytes len) (λ _ b', room_made len b b') never b.
Proof.
  intros Hb H0 Hmax. apply (wp_not_too_long _ _ (size b + len)); [done|].
  apply EnsureWriteableBytes_any; [done|]. binv; lia.
Qed.

(** [Append] of anything a vector can hold. *)
Lemma Append_any data b :
  inv b → zlength data ≤ vector_max_size →
  wp (Append data) (λ _ b',
    inv b' ∧ content b' = content b ++ data ∧
    (PrependableBytes b' = PrependableBytes b ∨ PrependableBytes b' = kCheapPrepend) ∧
    size b ≤ size b' ∧ size b' ≤ size b + zlength data) (too_long (size b + zlength data)) b.
Proof.
  intros Hb Hmax. rw /Append. wp_step.
  eapply wp_conseq; [apply EnsureWriteableBytes_any; auto with benet|].
  intros [] b' (Hb' & Hc & Hroom & Hp & Hle & Hsz & _).
  rw WritableBytes_eq // in Hroom. pose proof (zlength_nonneg data).
  wp_steps. apply wp_store; [binv; lia..|]. wp_step.
  rw -Hc. binv. rw u64_small; [blia|]. rw zlength_write_at; try lia.
  repeat split; try lia.
  rw (slice_app _ (writer_index_ b')); try lia.
  rw slice_write_at; try lia. rw slice_write_at_before //; lia.
Qed.

Lemma Append_ok data b :
  inv b → size b + zlength data ≤ vector_max_size →
  wp (Append data) (λ _ b',
    inv b' ∧ content b' = content b ++ data ∧
    (PrependableBytes b' = PrependableBytes b ∨ PrependableBytes b' = kCheapPrepend) ∧
    size b ≤ size b' ∧ size b' ≤ size b + zlength data) never b.
Proof.
  intros Hb Hmax. apply (wp_not_too_long _ _ (size b + zlength data)); [done|].
  apply Append_any; [done|]. binv; lia.
Qed.
End growing.

(** ** Consuming and prepending *)

Section consuming.
Implicit Types b : Buffer.

Lemma Retrieve_ok len b :
  inv b → 0 ≤ len ≤ zlength (content b) →
  wp (Retrieve len) (λ _ b',
    inv b' ∧ content b' = drop (Z.to_nat len) (content b) ∧
    PrependableBytes b' = PrependableBytes b + len ∧ size b' = size b) never b.
Proof.
  intros Hb Hlen. rw (zlength_content _ Hb) in Hlen. rw /Retrieve. do 3 wp_step.
  wp_assert by lia. rw (ReadableBytes_eq b Hb) in Hlen. wp_step.
  binv. rw u64_small; [blia|]. repeat split; try lia. rw drop_slice //; lia.
Qed.

Lemma RetrieveUntil_ok k b :
  inv b → 0 ≤ k ≤ zlength (content b) →
  wp (RetrieveUntil (Peek b + k)) (λ _ b',
    inv b' ∧ content b' = drop (Z.to_nat k) (content b) ∧
    PrependableBytes b' = PrependableBytes b + k ∧ size b' = size b) never b.
Proof.
  intros Hb Hk. pose proof Hk as Hk'. rw (zlength_content _ Hb) (ReadableBytes_eq b Hb) in Hk'.
  rw /RetrieveUntil. do 3 wp_step. wp_assert by lia. wp_step.
  wp_assert by (binv; lia).
  replace (Peek b + k - Peek b) with k by lia. by apply Retrieve_ok.
Qed.

Lemma RetrieveAll_ok b :
  inv b →
  wp RetrieveAll (λ _ b',
    inv b' ∧ content b' = [] ∧ PrependableBytes b' = kCheapPrepend ∧ size b' = size b) never b.
Proof.
  intros Hb. rw /RetrieveAll. wp_steps. binv. repeat split; lia.
Qed.

Lemma RetrieveAsString_ok len b :
  inv b → 0 ≤ len ≤ zlength (content b) →
  wp (RetrieveAsString len) (λ r b',
    r = take (Z.to_nat len) (content b) ∧
    inv b' ∧ content b' = drop (Z.to_nat len) (content b) ∧
    PrependableBytes b' = PrependableBytes b + len ∧ size b' = size b) never b.
Proof.
  intros Hb Hlen. pose proof Hlen as Hk. rw (zlength_content _ Hb) in Hk.
  rw /RetrieveAsString. do 3 wp_step. wp_assert by lia.
  rw (ReadableBytes_eq b Hb) in Hk. wp_step. apply wp_load; [binv; lia..|].
  wp_step. eapply wp_conseq; [by apply Retrieve_ok|]. intros [] b' Hpost. wp_step.
  split; [|done]. rw /content take_slice //; binv; lia.
Qed.

Lemma Prepend_ok data b :
  inv b → zlength data ≤ PrependableBytes b →
  wp (Prepend data) (λ _ b',
    inv b' ∧ content b' = data ++ content b ∧
    PrependableBytes b' = PrependableBytes b - zlength data ∧ size b' = size b) never b.
Proof.
  intros Hb Hlen. pose proof (zlength_nonneg data). rw /Prepend. do 3 wp_step.
  wp_assert by lia. wp_step. apply wp_store; [binv; lia..|]. wp_step.
  binv. rw u64_small; [blia|]. rw zlength_write_at; try lia.
  repeat split; try lia.
  rw (slice_app _ (reader_index_ b)); try lia. f_equal.
  - rw -{2}(Z.sub_add (zlength data) (reader_index_ b)) slice_write_at //; lia.
  - rw slice_write_at_after //; lia.
Qed.
End consuming.

(** ** Integers: the wire format is big-endian on every host *)

(** Network representation of an [n]-byte integer and its value. *)
Definition be_bytes (n : nat) (v : Z) : list byte := reverse (le_bytes n v).
Definition be_value (l : list byte) : Z := le_value (reverse l).

Lemma length_be_bytes n v : length (be_bytes n v) = n.
Proof. by rw /be_bytes length_reverse length_le_bytes. Qed.

Section wire.
Context (host : endian).

Lemma wrap_u_cast t x : wrap_u (sizeof t) (cast t x) = wrap_u (sizeof t) x.
Proof. rw /cast. destruct (is_signed t); [apply wrap_u_wrap_s|apply wrap_u_wrap_u]. Qed.

Lemma cast_in_range t x : in_range t x → cast t (wrap_u (sizeof t) x) = x.
Proof.
  rw /in_range /cast. destruct (is_signed t).
  - apply wrap_s_wrap_u. destruct t; simpl; lia.
  - intros Hx. by rw wrap_u_wrap_u wrap_u_id.
Qed.

(** The swap of endian.h exchanges the two object representations. *)
Lemma object_bytes_htobe n v :
  object_bytes host n (htobe host n v) = be_bytes n v.
Proof.
  rw /object_bytes /htobe /be_bytes /bswap. destruct host.
  - rw -{1}(length_be_bytes n v) /be_bytes le_bytes_value //.
  - by rw le_bytes_wrap.
Qed.

Lemma htobe_object_value n l :
  length l = n → htobe host n (object_value host l) = be_value l.
Proof.
  intros <-. rw /htobe /object_value /be_value /bswap. destruct host.
  - by rw le_bytes_value.
  - apply wrap_u_id. rw /in_u -length_reverse. apply le_value_range.
Qed.

Lemma object_bytes_wrap n v : object_bytes host n (wrap_u n v) = object_bytes host n v.
Proof. rw /object_bytes. destruct host; by rw le_bytes_wrap. Qed.

(** Only the one-byte types skip the swap. *)
Lemma one_byte_or_swap {A} (t : ity) (x : A) (f : nat → A) :
  sizeof t = 1%nat ∨ match sizeof t with 1%nat => x | n => f n end = f (sizeof t).
Proof. destruct t; simpl; auto. Qed.

Lemma one_byte_be v : object_bytes host 1 v = be_bytes 1 v.
Proof. rw /object_bytes /be_bytes. by destruct host. Qed.

(** The bytes [AppendInt] and [PrependInt] put into the buffer. *)
Lemma network_bytes t x :
  object_bytes host (sizeof t) (wrap_u (sizeof t) (to_network host t x)) =
  be_bytes (sizeof t) x.
Proof.
  rw object_bytes_wrap /to_network. 
  destruct (one_byte_or_swap t x (λ n, cast t (htobe host n (wrap_u n x)))) as [H1| ->].
  - by rw H1 one_byte_be.
  - rw -object_bytes_wrap wrap_u_cast object_bytes_wrap object_bytes_htobe.
    by rw /be_bytes le_bytes_wrap.
Qed.

(** The value [PeekInt] computes from the first [sizeof(T)] bytes. *)
Lemma network_value t d : length d = sizeof t →
  match sizeof t with
  | 1%nat => cast t (object_value host d)
  | n => cast t (htobe host n (object_value host d))
  end = cast t (be_value d).
Proof.
  intros Hd. 
  destruct (one_byte_or_swap t (cast t (object_value host d))
    (λ n, cast t (htobe host n (object_value host d)))) as [H1| ->];
    [|by rw htobe_object_value].
  rw H1 in Hd |- *. destruct d as [|x [|]]; try done.
  rw /object_value /be_value. by destruct host.
Qed.

Lemma be_value_bytes n x : be_value (be_bytes n x) = wrap_u n x.
Proof. by rw /be_value /be_bytes reverse_involutive le_value_bytes. Qed.

Lemma PeekInt_ok t b :
  inv b → Z.of_nat (sizeof t) ≤ zlength (content b) →
  wp (PeekInt host t) (λ r b',
    r = cast t (be_value (take (sizeof t) (content b))) ∧ b' = b) never b.
Proof.
  intros Hb Hn. pose proof Hn as Hk. rw (zlength_content _ Hb) in Hk.
  rw /PeekInt. do 3 wp_step. wp_assert by lia.
  rw (ReadableBytes_eq b Hb) in Hk. wp_step. apply wp_load; [binv; lia..|]. wp_step.
  rw network_value.
  { pose proof (zlength_slice (Peek b) (Peek b + Z.of_nat (sizeof t)) (buffer_ b)) as Hl.
    rw /zlength in Hl. binv. rw /zlength in Hb. lia. }
  split; [|done]. do 2 f_equal. rw -(Nat2Z.id (sizeof t)) /content take_slice; binv; try lia.
  by rw Nat2Z.id.
Qed.

Lemma RetrieveAsInt_ok t b :
  inv b → Z.of_nat (sizeof t) ≤ zlength (content b) →
  wp (RetrieveAsInt host t) (λ r b',
    r = cast t (be_value (take (sizeof t) (content b))) ∧
    inv b' ∧ content b' = drop (sizeof t) (content b) ∧
    PrependableBytes b' = PrependableBytes b + Z.of_nat (sizeof t) ∧ size b' = size b) never b.
Proof.
  intros Hb Hn. rw /RetrieveAsInt. wp_step.
  eapply wp_conseq; [by apply PeekInt_ok|]. intros r b' [-> ->]. wp_step.
  eapply wp_conseq; [apply Retrieve_ok; [done|lia]|]. intros [] b' Hpost. wp_step.
  rw Nat2Z.id in Hpost. done.
Qed.
End wire.

(** ** [ReadFd] *)

Section reading.
Implicit Types b : Buffer.

(** Only the answer to the one call counts. *)
Lemma ReadFd_ext readv readv' b :
  readv (read_iov b) = readv' (read_iov b) → ReadFd readv b = ReadFd readv' b.
Proof. intros H. by rw /ReadFd /mbind /M_bind /= H. Qed.

Lemma read_iov_nonneg b : inv b → Forall (Z.le 0) (read_iov b).
Proof.
  intros Hb. pose proof (WritableBytes_eq b Hb) as HW. rw /read_iov.
  destruct (_ <? _); repeat constructor; binv; blia.
Qed.

Lemma ReadFd_any readv b :
  inv b → readv_ok readv →
  wp (ReadFd readv) (λ r b',
    r = (readv (read_iov b)).1 ∧ inv b' ∧
    content b' = content b ++ (if 0 <=? r then (readv (read_iov b)).2 else []) ∧
    (PrependableBytes b' = PrependableBytes b ∨ PrependableBytes b' = kCheapPrepend) ∧
    size b ≤ size b' ∧ size b' ≤ size b + kExtraBufSize) (too_long (size b + kExtraBufSize)) b.
Proof.
  intros Hb Hrd. pose proof (WritableBytes_eq b Hb) as HW.
  rw /ReadFd. do 2 wp_step.
  assert (Forall (Z.le 0) (read_iov b)) as Hpos by by apply read_iov_nonneg.
  set (iov := read_iov b) in *. specialize (Hrd iov Hpos).
  assert (foldr Z.add 0 iov ≤ WritableBytes b + kExtraBufSize) as Hiov.
  { rw /iov /read_iov. destruct (_ <? _); simpl; blia. }
  destruct (readv iov) as [n data] eqn:Hread; simpl in Hrd.
  destruct (Z.leb_spec 0 n) as [Hn|Hn]; last first.
  { wp_step. simpl. destruct (Z.leb_spec 0 n); [lia|].
    rw app_nil_r. split_and!; auto; blia. }
  destruct (Hrd Hn) as [Hlen Hroom]. clear Hrd.
  wp_step. apply wp_store; [binv; lia| |].
  { rw HW /zlength length_take. binv. lia. }
  destruct (Z.leb_spec n (WritableBytes b)) as [Hfit|Hover].
  - (* everything fits behind [writer_index_] *)
    rw take_ge; [rw /zlength in Hlen; lia|].
    wp_steps. simpl. destruct (Z.leb_spec 0 n); [|lia].
    rw HW in Hfit. binv. rw u64_small; [blia|]. rw zlength_write_at; try blia.
    repeat split; auto; try blia.
    rw Hlen (slice_app _ (writer_index_ b)); try blia.
    rw slice_write_at; try blia. rw slice_write_at_before //; blia.
  - (* the vector is full, the rest is appended from the extra area *)
    do 3 wp_step. rw (u64_small (n - _)); [binv; blia|].
    set (d1 := take _ data). set (d2 := take _ _).
    assert (zlength d1 = WritableBytes b) as Hd1.
    { rw /d1 /zlength length_take. rw /zlength in Hlen. binv; lia. }
    assert (d1 ++ d2 = data) as Hd.
    { rw /d1 /d2 (take_ge (drop _ _)); [rw length_drop; unfold zlength in Hlen; lia|].
      apply take_drop. }
    set (b1 := with_writer _ _).
    assert (size b1 = size b) as Hs1 by (rw /b1; binv; rw zlength_write_at; lia).
    assert (inv b1) as Hb1 by (rw /b1 in Hs1 |- *; binv; lia).
    assert (content b1 = content b ++ d1) as Hc1.
    { rw /b1 /content /=. binv.
      rw zlength_write_at; try lia.
      rw (slice_app _ (writer_index_ b)); try lia. f_equal.
      - rw slice_write_at_before //; lia.
      - replace (zlength (buffer_ b)) with (writer_index_ b + zlength d1) by lia.
        rw slice_write_at //; lia. }
    assert (zlength d2 ≤ kExtraBufSize) as Hd2.
    { rw -Hd zlength_app in Hlen. lia. }
    eapply wp_conseq; [eapply too_long_mono, Append_any; [lia|done|blia]|].
    intros [] b' (Hb' & Hc' & Hp & Hs). wp_step. simpl.
    destruct (Z.leb_spec 0 n); [|lia].
    rw Hc' Hc1 -app_assoc Hd. split_and!; auto; lia.
Qed.

Lemma ReadFd_ok readv b :
  inv b → readv_ok readv → size b + kExtraBufSize ≤ vector_max_size →
  wp (ReadFd readv) (λ r b',
    r = (readv (read_iov b)).1 ∧ inv b' ∧
    content b' = content b ++ (if 0 <=? r then (readv (read_iov b)).2 else []) ∧
    (PrependableBytes b' = PrependableBytes b ∨ PrependableBytes b' = kCheapPrepend) ∧
    size b ≤ size b' ∧ size b' ≤ size b + kExtraBufSize) never b.
Proof.
  intros Hb Hrd Hmax. apply (wp_not_too_long _ _ (size b + kExtraBufSize)); [done|]. by apply ReadFd_any.
Qed.
End reading.

(** ** Searching *)

Section searching.
Implicit Types (hay needle : list byte) (b : Buffer).

Lemma memmem_Some needle hay i :
  memmem needle hay = Some i →
  0 ≤ i ∧ needle `prefix_of` drop (Z.to_nat i) hay ∧
  ∀ j, 0 ≤ j < i → ¬ needle `prefix_of` drop (Z.to_nat j) hay.
Proof.
  revert i. induction hay as [|x hay IH]; intros i; simpl; case_bool_decide as Hp; try done.
  1,2: intros [= <-]; split_and!; [lia|done|lia].
  destruct (memmem needle hay) as [i'|] eqn:Hm; [|done]. intros [= <-].
  destruct (IH i') as (H0 & Hpre & Hmin); [done|]. split_and!; [lia| |].
  - by rw Z2Nat.inj_succ.
  - intros j Hj. destruct (decide (j = 0)) as [->|]; [done|].
    replace j with (Z.succ (j - 1)) by lia. rw Z2Nat.inj_succ; [lia|].
    apply Hmin. lia.
Qed.

Lemma memmem_None needle hay :
  memmem needle hay = None → ∀ j, 0 ≤ j → ¬ needle `prefix_of` drop (Z.to_nat j) hay.
Proof.
  induction hay as [|x hay IH]; simpl; case_bool_decide as Hp; try done.
  { intros _ j _. by rw drop_nil. }
  destruct (memmem needle hay) eqn:Hm; [done|]. intros _ j Hj.
  destruct (decide (j = 0)) as [->|]; [done|].
  replace j with (Z.succ (j - 1)) by lia. rw Z2Nat.inj_succ; [lia|].
  apply IH; [done|lia].
Qed.

Lemma prefix_slice needle i j l :
  0 ≤ i → i ≤ j → j ≤ zlength l →
  needle `prefix_of` slice i j l ↔
  i + zlength needle ≤ j ∧ slice i (i + zlength needle) l = needle.
Proof.
  intros Hi Hij Hj. split.
  - intros [r Hr]. pose proof (zlength_slice i j l Hi Hij Hj) as Hl.
    rw Hr zlength_app in Hl. pose proof (zlength_nonneg r).
    split; [lia|].
    rw -(take_slice (zlength needle) i j) /zlength; try (unfold zlength in *; lia).
    by rw Hr Nat2Z.id take_app_length.
  - intros [Hle Heq]. pose proof (zlength_nonneg needle).
    rw (slice_app i (i + zlength needle) j); try lia. rw Heq. by exists (slice (i + zlength needle) j l).
Qed.

(** [p] is the first position of [[i, j)] at which [needle] stands. *)
Definition first_match (needle : list byte) (l : list byte) (i j : Z) (p : option Z) : Prop :=
  match p with
  | Some p => i ≤ p ∧ p + zlength needle ≤ j ∧ slice p (p + zlength needle) l = needle ∧
      ∀ q, i ≤ q < p → slice q (q + zlength needle) l ≠ needle
  | None => ∀ q, i ≤ q → q + zlength needle ≤ j → slice q (q + zlength needle) l ≠ needle
  end.

Lemma memmem_first needle l i j :
  0 ≤ i → i ≤ j → j ≤ zlength l → needle ≠ [] →
  first_match needle l i j (Z.add i <$> memmem needle (slice i j l)).
Proof.
  intros Hi Hij Hj Hne.
  assert (0 < zlength needle) as Hpos by (destruct needle; [done|unfold zlength; simpl; lia]).
  assert (∀ k, 0 ≤ k → i + k ≤ j →
    needle `prefix_of` drop (Z.to_nat k) (slice i j l) ↔
    i + k + zlength needle ≤ j ∧ slice (i + k) (i + k + zlength needle) l = needle) as Hk.
  { intros k H0 H1. rw drop_slice; try lia. apply prefix_slice; lia. }
  destruct (memmem needle (slice i j l)) as [k|] eqn:Hm; simpl.
  - apply memmem_Some in Hm as (H0 & Hpre & Hmin).
    assert (i + k ≤ j) as Hkj.
    { destruct (decide (i + k ≤ j)); [done|]. exfalso.
      rw drop_ge in Hpre; [|by apply prefix_nil_inv in Hpre].
      pose proof (zlength_slice i j l Hi Hij Hj) as Hl. unfold zlength in *. lia. }
    apply Hk in Hpre as [Hle Heq]; try lia. split_and!; try done; [lia|].
    intros q Hq Hs. apply (Hmin (q - i)); [lia|]. apply Hk; try lia.
    replace (i + (q - i)) with q by lia. split; [lia|done].
  - intros q Hq Hle Hs. apply (memmem_None _ _ Hm (q - i)); [lia|]. apply Hk; try lia.
    replace (i + (q - i)) with q by lia. done.
Qed.

Lemma memchr_memmem c hay : memchr c hay = memmem [c] hay.
Proof.
  induction hay as [|x hay IH]; [done|]. cbn [memchr memmem].
  rw IH. case_bool_decide as H1; case_bool_decide as H2; try done.
  - subst. exfalso. apply H2. by exists hay.
  - apply prefix_cons_inv_1 in H2. congruence.
Qed.

Lemma FindCRLF_from_ok start b :
  inv b → Peek b ≤ start ≤ begin_write b →
  wp (FindCRLF_from start) (λ r b',
    b' = b ∧ first_match kCRLF (buffer_ b) start (writer_index_ b) r) never b.
Proof.
  intros Hb Hs. rw /FindCRLF_from. do 3 wp_step. wp_assert by lia. wp_step. wp_assert by lia.
  wp_step. replace (start + (begin_write b - start)) with (writer_index_ b) by (binv; lia).
  apply wp_load; [binv; lia..|]. wp_step. split; [done|].
  apply memmem_first; try (binv; lia). done.
Qed.

Lemma FindEOL_from_ok start b :
  inv b → Peek b ≤ start ≤ begin_write b →
  wp (FindEOL_from start) (λ r b',
    b' = b ∧ first_match [Byte.x0a] (buffer_ b) start (writer_index_ b) r) never b.
Proof.
  intros Hb Hs. rw /FindEOL_from. do 3 wp_step. wp_assert by lia. wp_step. wp_assert by lia.
  wp_step. replace (start + (begin_write b - start)) with (writer_index_ b) by (binv; lia).
  apply wp_load; [binv; lia..|]. wp_step. split; [done|]. rw memchr_memmem.
  apply memmem_first; try (binv; lia). done.
Qed.

(** The parameterless searches start at [Peek()]. *)
Lemma FindCRLF_Peek b : inv b → FindCRLF b = FindCRLF_from (Peek b) b.
Proof.
  intros Hb. rw /FindCRLF /FindCRLF_from /mbind /M_bind /get /=.
  rw /assert_ Z.leb_refl (proj2 (Z.leb_le (Peek b) (begin_write b))); [binv; lia|].
  simpl. by rw (ReadableBytes_eq b Hb).
Qed.

Lemma FindEOL_Peek b : inv b → FindEOL b = FindEOL_from (Peek b) b.
Proof.
  intros Hb. rw /FindEOL /FindEOL_from /mbind /M_bind /get /=.
  rw /assert_ Z.leb_refl (proj2 (Z.leb_le (Peek b) (begin_write b))); [binv; lia|].
  simpl. by rw (ReadableBytes_eq b Hb).
Qed.
End searching.
