(* ===== verification/BufferSpec.v ===== *)
(** * The contract of [Buffer] and its refinement

    What a client of [Buffer] may rely on, stated without the vector and
    the indices: a queue of bytes together with the room left in front of
    it.  [spec_step] gives every operation its abstract effect,
    [buffer_refines_queue] shows that every sequence of operations whose
    abstract preconditions hold runs without failing and computes what the
    abstract queue computes. *)

From S2P Require Import Prelude Buffer.

(** The abstract state: readable bytes, prependable room. *)
Abbreviation queue := (list byte * Z)%type.

Definition abs (b : Buffer) : queue := (content b, PrependableBytes b).

(** The operations of the class.  Pointers are given and returned relative
    to [Peek()]. *)
Inductive op :=
  | OpAppend (data : list byte)
  | OpPrepend (data : list byte)
  | OpEnsure (len : Z)
  | OpRetrieve (len : Z)
  | OpRetrieveUntil (off : Z)
  | OpRetrieveAll
  | OpRetrieveAsString (len : Z)
  | OpRetrieveAllAsString
  | OpAppendInt (t : ity) (x : Z)
  | OpPrependInt (t : ity) (x : Z)
  | OpPeekInt (t : ity)
  | OpRetrieveAsInt (t : ity)
  | OpFindCRLF
  | OpFindEOL
  | OpReadFd (readv : readv_t).

Inductive result :=
  | RUnit
  | RBytes (l : list byte)
  | RInt (x : Z)
  | RPos (p : option Z).

(** Relative position of an occurrence returned by a search. *)
Definition rel (b : Buffer) (p : option Z) : option Z := (λ q, q - Peek b) <$> p.

Section refinement.
Context (host : endian).

Definition exec (o : op) : M Buffer result :=
  match o with
  | OpAppend d => Append d ;; mret RUnit
  | OpPrepend d => Prepend d ;; mret RUnit
  | OpEnsure len => EnsureWriteableBytes len ;; mret RUnit
  | OpRetrieve len => Retrieve len ;; mret RUnit
  | OpRetrieveUntil k => b ← get; RetrieveUntil (Peek b + k) ;; mret RUnit
  | OpRetrieveAll => RetrieveAll ;; mret RUnit
  | OpRetrieveAsString len => s ← RetrieveAsString len; mret (RBytes s)
  | OpRetrieveAllAsString => s ← RetrieveAllAsString; mret (RBytes s)
  | OpAppendInt t x => AppendInt host t x ;; mret RUnit
  | OpPrependInt t x => PrependInt host t x ;; mret RUnit
  | OpPeekInt t => x ← PeekInt host t; mret (RInt x)
  | OpRetrieveAsInt t => x ← RetrieveAsInt host t; mret (RInt x)
  | OpFindCRLF => b ← get; p ← FindCRLF; mret (RPos (rel b p))
  | OpFindEOL => b ← get; p ← FindEOL; mret (RPos (rel b p))
  | OpReadFd readv => n ← ReadFd readv; mret (RInt n)
  end.

Fixpoint exec_all (os : list op) : M Buffer (list result) :=
  match os with
  | [] => mret []
  | o :: os' => r ← exec o; rs ← exec_all os'; mret (r :: rs)
  end.

(** What the caller must ensure. *)
Definition pre (o : op) (q : queue) : Prop :=
  let '(c, p) := q in
  match o with
  | OpPrepend d => zlength d ≤ p
  | OpPrependInt t _ => Z.of_nat (sizeof t) ≤ p
  | OpEnsure len => 0 ≤ len
  | OpRetrieve len | OpRetrieveUntil len | OpRetrieveAsString len => 0 ≤ len ≤ zlength c
  | OpPeekInt t | OpRetrieveAsInt t => Z.of_nat (sizeof t) ≤ zlength c
  | OpReadFd readv => readv_ok readv
  | _ => True
  end.

(** Operations that may enlarge the buffer can also restore the
    prependable area to its initial size. *)
Definition regrown (p p' : Z) : Prop := p' = p ∨ p' = kCheapPrepend.

Definition spec_step (o : op) (q : queue) (r : result) (q' : queue) : Prop :=
  let '(c, p) := q in let '(c', p') := q' in
  match o with
  | OpAppend d => r = RUnit ∧ c' = c ++ d ∧ regrown p p'
  | OpPrepend d => r = RUnit ∧ c' = d ++ c ∧ p' = p - zlength d
  | OpEnsure _ => r = RUnit ∧ c' = c ∧ regrown p p'
  | OpRetrieve n | OpRetrieveUntil n =>
      r = RUnit ∧ c' = drop (Z.to_nat n) c ∧ p' = p + n
  | OpRetrieveAll => r = RUnit ∧ c' = [] ∧ p' = kCheapPrepend
  | OpRetrieveAsString n =>
      r = RBytes (take (Z.to_nat n) c) ∧ c' = drop (Z.to_nat n) c ∧ p' = p + n
  | OpRetrieveAllAsString => r = RBytes c ∧ c' = [] ∧ p' = p + zlength c
  | OpAppendInt t x => r = RUnit ∧ c' = c ++ be_bytes (sizeof t) x ∧ regrown p p'
  | OpPrependInt t x =>
      r = RUnit ∧ c' = be_bytes (sizeof t) x ++ c ∧ p' = p - Z.of_nat (sizeof t)
  | OpPeekInt t => r = RInt (cast t (be_value (take (sizeof t) c))) ∧ c' = c ∧ p' = p
  | OpRetrieveAsInt t =>
      r = RInt (cast t (be_value (take (sizeof t) c))) ∧ c' = drop (sizeof t) c ∧
      p' = p + Z.of_nat (sizeof t)
  | OpFindCRLF => r = RPos (memmem kCRLF c) ∧ c' = c ∧ p' = p
  | OpFindEOL => r = RPos (memchr Byte.x0a c) ∧ c' = c ∧ p' = p
  | OpReadFd readv => ∃ iov,
      r = RInt (readv iov).1 ∧
      c' = c ++ (if 0 <=? (readv iov).1 then (readv iov).2 else []) ∧ regrown p p'
  end.

(** By how much an operation can lengthen the vector. *)
Definition cost (o : op) : Z :=
  match o with
  | OpAppend d => zlength d
  | OpEnsure len => Z.max 0 len
  | OpAppendInt t _ => Z.of_nat (sizeof t)
  | OpReadFd _ => kExtraBufSize
  | _ => 0
  end.

Lemma zlength_be_bytes t x : zlength (be_bytes (sizeof t) x) = Z.of_nat (sizeof t).
Proof. by rw /zlength length_be_bytes. Qed.

(** The outcome one step of the simulation has to establish. *)
Definition step_post (o : op) (b : Buffer) (r : result) (b' : Buffer) : Prop :=
  inv b' ∧ spec_step o (abs b) r (abs b') ∧ size b' ≤ size b + cost o.

Lemma rel_add b (m : option Z) : rel b (Z.add (Peek b) <$> m) = m.
Proof. destruct m; simpl; [f_equal; lia|done]. Qed.

Lemma search_ok (f : list byte → option Z) b :
  inv b →
  wp (d ← load (Peek b) (Peek b + ReadableBytes b); mret (Z.add (Peek b) <$> f d))
    (λ p b', b' = b ∧ rel b p = f (content b)) never b.
Proof.
  intros Hb. rw ReadableBytes_eq //. wp_step. apply wp_load; [binv; lia..|]. wp_step.
  split; [done|]. rw rel_add /content. f_equal. binv. f_equal; lia.
Qed.

(** The forward simulation for a single operation. *)
Lemma exec_simulates o b :
  inv b → pre o (abs b) → size b + cost o ≤ vector_max_size →
  wp (exec o) (step_post o b) never b.
Proof.
  intros Hb Hpre Hmax. destruct o; simpl in Hpre, Hmax |- *; do 1 wp_step.
  - eapply wp_conseq; [by apply Append_ok|]. intros [] b' (?&?&?&?&?). wp_step. done.
  - eapply wp_conseq; [by apply Prepend_ok|]. intros [] b' (?&?&?&?). wp_step.
    split_and!; try done; simpl; lia.
  - eapply wp_conseq; [apply EnsureWriteableBytes_ok; [done|done|lia]|].
    intros [] b' (?&?&?&?&?&?&?). wp_step. split_and!; try done. simpl. binv; lia.
  - eapply wp_conseq; [by apply Retrieve_ok|]. intros [] b' (?&?&?&?). wp_step.
    split_and!; try done; simpl; lia.
  - do 2 wp_step. eapply wp_conseq; [by apply RetrieveUntil_ok|].
    intros [] b' (?&?&?&?). wp_step. split_and!; try done; simpl; lia.
  - eapply wp_conseq; [by apply RetrieveAll_ok|]. intros [] b' (?&?&?&?). wp_step.
    split_and!; try done; simpl; lia.
  - eapply wp_conseq; [by apply RetrieveAsString_ok|]. intros s b' (->&?&?&?&?). wp_step.
    split_and!; try done; simpl; lia.
  - rw /RetrieveAllAsString. do 2 wp_step. rw -zlength_content //.
    eapply wp_conseq; [apply RetrieveAsString_ok; [done|]|].
    { split; [apply zlength_nonneg|lia]. }
    intros s b' (->&?&Hc&?&?). wp_step.
    rw /zlength Nat2Z.id firstn_all.
    rw /zlength Nat2Z.id drop_all in Hc.
    split_and!; try done; simpl; lia.
  - rw /AppendInt network_bytes. eapply wp_conseq; [apply Append_ok; [done|]|].
    { by rw zlength_be_bytes. }
    intros [] b' (?&?&?&?&Hs). rw zlength_be_bytes in Hs. wp_step. done.
  - rw /PrependInt network_bytes. eapply wp_conseq; [apply Prepend_ok; [done|]|].
    { by rw zlength_be_bytes. }
    intros [] b' (?&?&Hp&?). rw zlength_be_bytes in Hp. wp_step.
    split_and!; try done; simpl; lia.
  - eapply wp_conseq; [by apply PeekInt_ok|]. intros x b' [-> ->]. wp_step.
    split_and!; try done; simpl; lia.
  - eapply wp_conseq; [by apply RetrieveAsInt_ok|]. intros x b' (->&?&?&?&?). wp_step.
    split_and!; try done; simpl; lia.
  - do 2 wp_step. rw /FindCRLF. do 2 wp_step.
    eapply wp_conseq; [by apply search_ok|]. intros p b' [-> ->]. wp_step.
    split_and!; try done; simpl; lia.
  - do 2 wp_step. rw /FindEOL. do 2 wp_step.
    eapply wp_conseq; [by apply search_ok|]. intros p b' [-> ->]. wp_step.
    split_and!; try done; simpl; lia.
  - eapply wp_conseq; [by apply ReadFd_ok|].
    intros n b' (-> & Hb' & Hc & Hp & ? & ?). wp_step. split_and!; try done.
    by exists (read_iov b).
Qed.

(** A client that respects the preconditions, whatever choices the
    abstract queue makes. *)
Fixpoint client_ok (os : list op) (q : queue) : Prop :=
  match os with
  | [] => True
  | o :: os' => pre o q ∧ ∀ r q', spec_step o q r q' → client_ok os' q'
  end.

(** Runs of the abstract queue. *)
Inductive spec_run : list op → queue → list result → queue → Prop :=
  | run_nil q : spec_run [] q [] q
  | run_cons o os q r q' rs q'' :
      spec_step o q r q' → spec_run os q' rs q'' →
      spec_run (o :: os) q (r :: rs) q''.

Definition total_cost (os : list op) : Z := foldr (λ o n, cost o + n) 0 os.

Lemma cost_nonneg o : 0 ≤ cost o.
Proof. destruct o; simpl; auto using zlength_nonneg; blia. Qed.

Lemma total_cost_nonneg os : 0 ≤ total_cost os.
Proof. induction os as [|o os IH]; simpl; [done|]. pose proof (cost_nonneg o). lia. Qed.

Lemma exec_all_simulates os b :
  inv b → client_ok os (abs b) → size b + total_cost os ≤ vector_max_size →
  wp (exec_all os) (λ rs b', inv b' ∧ spec_run os (abs b) rs (abs b')) never b.
Proof.
  revert b. induction os as [|o os IH]; intros b Hb Hok Hmax; simpl.
  { wp_step. split; [done|constructor]. }
  destruct Hok as [Hpre Hok]. simpl in Hmax. pose proof (total_cost_nonneg os).
  wp_step. eapply wp_conseq; [apply exec_simulates; [done|done|lia]|].
  intros r b1 (Hb1 & Hstep & Hs). wp_step.
  eapply wp_conseq; [apply IH; [done|by eapply Hok, Hstep|lia]|].
  intros rs b2 [Hb2 Hrun]. wp_step. split; [done|]. econstructor; eauto.
Qed.
End refinement.

(** ** Properties of [Buffer] *)

(** C7: Refinement: a fresh buffer of [init] bytes and the abstract byte
    queue run any sequence of operations in lockstep.  As long as the
    client respects the abstract preconditions and the total number of
    bytes put in stays below the largest vector, no assertion fails, no
    access leaves the vector, no [std::copy] overlaps illegally, the
    indices stay ordered, and every result (strings, integers, positions,
    return values of [ReadFd]) is the one of the abstract queue. *)
Theorem buffer_refines_queue host init os :
  0 ≤ init → kCheapPrepend + init + total_cost os ≤ vector_max_size →
  client_ok os ([], kCheapPrepend) →
  ∃ b rs b', Buffer_new init = inr b ∧ exec_all host os b = Done rs b' ∧
    inv b' ∧ spec_run os ([], kCheapPrepend) rs (abs b').
Proof.
  intros H0 Hmax Hok. pose proof (total_cost_nonneg os).
  destruct (Buffer_new_ok init) as [b Hnew]; [blia|].
  destruct (Buffer_new_inv init b) as (Hb & Hc & Hs & Hp); [blia|done|].
  rw -Hc -Hp in Hok |- *.
  destruct (wp_done _ _ _ (exec_all_simulates host os b Hb Hok ltac:(lia)))
    as (rs & b' & Hrun & Hb' & Hspec).
  by exists b, rs, b'.
Qed.

(** A client that appends, frames with a prepended length, and parses. *)
Definition sample_client : list op :=
  [OpAppend [Byte.x61; Byte.x62]; OpPrependInt I32 2; OpRetrieveAsInt I32;
   OpAppendInt I16 (-3); OpRetrieveAsString 2; OpRetrieveAsInt I16].

Lemma buffer_refines_queue_witness :
  ∃ b rs b', Buffer_new 16 = inr b ∧ exec_all LittleEndian sample_client b = Done rs b' ∧
    inv b' ∧ spec_run sample_client ([], kCheapPrepend) rs (abs b').
Proof.
  apply buffer_refines_queue; [done|by vm_compute|].
  rw /sample_client; simpl. split; [done|].
  intros r [c p] (-> & -> & Hp). split; [by destruct Hp as [-> | ->]; vm_compute|].
  intros r [c p'] (-> & -> & ->). split; [by vm_compute|].
  intros r [c p'] (-> & -> & ->). split; [done|].
  intros r [c p'] (-> & -> & _). split; [by vm_compute|].
  intros r [c p''] (-> & -> & ->). split; [by vm_compute|]. done.
Defined.

(** Decoding a network-order integer at the front of the contents. *)
Lemma decode_front host t x b rest :
  in_range t x → inv b → content b = be_bytes (sizeof t) x ++ rest →
  ∃ b', RetrieveAsInt host t b = Done x b' ∧ inv b' ∧ content b' = rest ∧
    PrependableBytes b' = PrependableBytes b + Z.of_nat (sizeof t).
Proof.
  intros Hx Hb Hc. pose proof (zlength_nonneg rest).
  assert (wp (RetrieveAsInt host t) (λ r b', r = x ∧ inv b' ∧ content b' = rest ∧
    PrependableBytes b' = PrependableBytes b + Z.of_nat (sizeof t)) never b) as Hwp.
  { eapply wp_conseq; [apply RetrieveAsInt_ok; [done|]|].
    { rw Hc zlength_app zlength_be_bytes. lia. }
    intros r b' (-> & Hb' & Hc' & Hp & _).
    rw Hc' Hc take_app_length' ?length_be_bytes // drop_app_length' ?length_be_bytes //.
    rw be_value_bytes cast_in_range //. }
  apply wp_done in Hwp as (r & b' & Hrun & -> & ?). eauto.
Qed.

(** C38: Wire round trip: the [sizeof(T)] bytes that [AppendInt<T>] puts
    behind the contents on a machine of any byte order are decoded to the
    same value by [RetrieveAsInt<T>] on a machine of any byte order,
    whatever follows them, and [RetrieveAsInt] consumes exactly them. *)
Theorem append_int_roundtrip h1 h2 t x b :
  in_range t x → inv b → size b + Z.of_nat (sizeof t) ≤ vector_max_size →
  ∃ b' wire, AppendInt h1 t x b = Done () b' ∧ inv b' ∧
    content b' = content b ++ wire ∧ length wire = sizeof t ∧
    ∀ b2 rest, inv b2 → content b2 = wire ++ rest →
      ∃ b2', RetrieveAsInt h2 t b2 = Done x b2' ∧ inv b2' ∧ content b2' = rest.
Proof.
  intros Hx Hb Hmax.
  assert (wp (AppendInt h1 t x) (λ _ b', inv b' ∧
    content b' = content b ++ be_bytes (sizeof t) x) never b) as Happ.
  { rw /AppendInt network_bytes. eapply wp_conseq; [apply Append_ok; [done|]|].
    - by rw zlength_be_bytes.
    - by intros [] b' (? & ? & _). }
  apply wp_done in Happ as ([] & b' & Hrun & Hb' & Hc).
  exists b', (be_bytes (sizeof t) x). split_and!; auto using length_be_bytes.
  intros b2 rest Hb2 Hc2. destruct (decode_front h2 t x b2 rest) as (b2' & ? & ? & ? & _); eauto.
Qed.

(** The default-constructed buffer, used by the witnesses. *)
Definition fresh_buffer : Buffer :=
  mkBuffer (replicate 1032 Byte.x00) kCheapPrepend kCheapPrepend.

Lemma fresh_buffer_new : Buffer_new kInitialSize = inr fresh_buffer.
Proof. reflexivity. Qed.

Lemma fresh_buffer_inv : inv fresh_buffer.
Proof. by apply (Buffer_new_inv kInitialSize). Qed.

Lemma append_int_roundtrip_witness :
  ∃ b' wire, AppendInt LittleEndian I32 (-2) fresh_buffer = Done () b' ∧ inv b' ∧
    content b' = content fresh_buffer ++ wire ∧ length wire = 4%nat ∧
    ∀ b2 rest, inv b2 → content b2 = wire ++ rest →
      ∃ b2', RetrieveAsInt BigEndian I32 b2 = Done (-2) b2' ∧ inv b2' ∧ content b2' = rest.
Proof.
  apply (append_int_roundtrip LittleEndian BigEndian I32 (-2) fresh_buffer).
  - split; by vm_compute.
  - exact fresh_buffer_inv.
  - by vm_compute.
Defined.

(** Framing: prepending an integer header to any contents, with room in
    front for it, and taking it off again returns the value and leaves the
    contents and the prependable room as they were. *)
Lemma prepend_int_roundtrip host t x b :
  in_range t x → inv b → Z.of_nat (sizeof t) ≤ PrependableBytes b →
  ∃ b1 b2, PrependInt host t x b = Done () b1 ∧ RetrieveAsInt host t b1 = Done x b2 ∧
    inv b2 ∧ abs b2 = abs b.
Proof.
  intros Hx Hb Hroom.
  assert (wp (PrependInt host t x) (λ _ b', inv b' ∧
    content b' = be_bytes (sizeof t) x ++ content b ∧
    PrependableBytes b' = PrependableBytes b - Z.of_nat (sizeof t)) never b) as Hpre.
  { rw /PrependInt network_bytes -(zlength_be_bytes t x).
    eapply wp_conseq; [apply Prepend_ok; [done|]|].
    - by rw zlength_be_bytes.
    - by intros [] b' (? & ? & ? & _). }
  apply wp_done in Hpre as ([] & b1 & Hrun & Hb1 & Hc1 & Hp1).
  destruct (decode_front host t x b1 (content b)) as (b2 & Hr & Hb2 & Hc2 & Hp2); auto.
  exists b1, b2. split_and!; auto. rw /abs Hc2 Hp2. f_equal. lia.
Qed.

Lemma prepend_int_roundtrip_witness :
  ∃ b1 b2, PrependInt LittleEndian I64 1024 fresh_buffer = Done () b1 ∧
    RetrieveAsInt LittleEndian I64 b1 = Done 1024 b2 ∧ inv b2 ∧ abs b2 = abs fresh_buffer.
Proof.
  apply (prepend_int_roundtrip LittleEndian I64 1024 fresh_buffer).
  - split; by vm_compute.
  - exact fresh_buffer_inv.
  - by vm_compute.
Defined.

(** [ReadFd] takes over exactly what the kernel delivered: whatever the
    split between the vector and the 64 KiB stack area, the readable bytes
    afterwards are the old ones followed by the bytes read, and on an error
    they are unchanged.  The return value is the one of readv(2) on the
    iovec the code builds. *)
Lemma readfd_takes_all readv b :
  inv b → readv_ok readv → size b + kExtraBufSize ≤ vector_max_size →
  ∃ b', ReadFd readv b = Done (readv (read_iov b)).1 b' ∧ inv b' ∧
    content b' = content b ++
      (if 0 <=? (readv (read_iov b)).1 then (readv (read_iov b)).2 else []).
Proof.
  intros Hb Hrd Hmax.
  destruct (wp_done _ _ _ (ReadFd_ok readv b Hb Hrd Hmax)) as (n & b' & Hrun & -> & ? & ? & _).
  eauto.
Qed.

(** A kernel with 1030 bytes to deliver: six more than the fresh buffer can
    take. *)
Definition sample_readv : readv_t := λ iov,
  let d := take (Z.to_nat (foldr Z.add 0 iov)) (replicate 1030 Byte.x78) in (zlength d, d).

Lemma sample_readv_ok : readv_ok sample_readv.
Proof.
  intros iov Hpos _. rw /sample_readv /=. split; [done|].
  assert (0 ≤ foldr Z.add 0 iov) by (induction Hpos; simpl; lia).
  rw /zlength length_take. lia.
Qed.

Lemma readfd_takes_all_witness :
  ∃ b', ReadFd sample_readv fresh_buffer = Done 1030 b' ∧ inv b' ∧
    content b' = content fresh_buffer ++ replicate 1030 Byte.x78.
Proof.
  apply (readfd_takes_all sample_readv fresh_buffer).
  - exact fresh_buffer_inv.
  - exact sample_readv_ok.
  - by vm_compute.
Defined.

(** [FindCRLF(start)] returns the first CRLF of the readable bytes at or
    after [start], or null when there is none, and leaves the buffer
    alone; [FindCRLF()] is the same search from [Peek()]. *)
Lemma find_crlf_first start b :
  inv b → Peek b ≤ start ≤ begin_write b →
  (∃ r, FindCRLF_from start b = Done r b ∧
     first_match kCRLF (buffer_ b) start (writer_index_ b) r) ∧
  FindCRLF b = FindCRLF_from (Peek b) b.
Proof.
  intros Hb Hs. split; [|by apply FindCRLF_Peek].
  destruct (wp_done _ _ _ (FindCRLF_from_ok start b Hb Hs)) as (r & b' & Hrun & -> & Hm). eauto.
Qed.

(** "a\r\nb\r\n" *)
Definition two_lines : Buffer :=
  mkBuffer (replicate 8 Byte.x00 ++
    [Byte.x61; Byte.x0d; Byte.x0a; Byte.x62; Byte.x0d; Byte.x0a; Byte.x00]) 8 14.

Lemma two_lines_inv : inv two_lines.
Proof. by vm_compute. Qed.

Lemma find_crlf_first_witness :
  FindCRLF two_lines = Done (Some 9) two_lines ∧
  (∃ r, FindCRLF_from 10 two_lines = Done r two_lines ∧
     first_match kCRLF (buffer_ two_lines) 10 14 r) ∧
  FindCRLF two_lines = FindCRLF_from 8 two_lines.
Proof.
  split; [by vm_compute|]. apply (find_crlf_first 10 two_lines).
  - exact two_lines_inv.
  - by vm_compute.
Defined.

(** [FindEOL(start)] finds the first newline in the same way. *)
Lemma find_eol_first start b :
  inv b → Peek b ≤ start ≤ begin_write b →
  (∃ r, FindEOL_from start b = Done r b ∧
     first_match [Byte.x0a] (buffer_ b) start (writer_index_ b) r) ∧
  FindEOL b = FindEOL_from (Peek b) b.
Proof.
  intros Hb Hs. split; [|by apply FindEOL_Peek].
  destruct (wp_done _ _ _ (FindEOL_from_ok start b Hb Hs)) as (r & b' & Hrun & -> & Hm). eauto.
Qed.

Lemma find_eol_first_witness :
  FindEOL two_lines = Done (Some 10) two_lines ∧
  (∃ r, FindEOL_from 11 two_lines = Done r two_lines ∧
     first_match [Byte.x0a] (buffer_ two_lines) 11 14 r) ∧
  FindEOL two_lines = FindEOL_from 8 two_lines.
Proof.
  split; [by vm_compute|]. apply (find_eol_first 11 two_lines).
  - exact two_lines_inv.
  - by vm_compute.
Defined.

(** C39: Bounds of the growth policy: [EnsureWriteableBytes(len)] makes room
    for [len] bytes without touching the readable ones; it leaves the
    vector as long as it is whenever the free bytes at both ends, less the
    cheap-prepend area, suffice, and otherwise never makes it longer than
    [writer_index_ + len]. *)
Theorem ensure_writable_bounds len b :
  inv b → 0 ≤ len → size b + len ≤ vector_max_size →
  ∃ b', EnsureWriteableBytes len b = Done () b' ∧ inv b' ∧ content b' = content b ∧
    len ≤ WritableBytes b' ∧ size b ≤ size b' ≤ Z.max (size b) (writer_index_ b + len) ∧
    (len + kCheapPrepend ≤ WritableBytes b + PrependableBytes b → size b' = size b).
Proof.
  intros Hb H0 Hmax.
  destruct (wp_done _ _ _ (EnsureWriteableBytes_ok len b Hb H0 Hmax))
    as ([] & b' & Hrun & Hb' & Hc & Hroom & _ & Hle & Hge & Hstay).
  exists b'. rw (WritableBytes_eq b Hb). split_and!; auto.
Qed.

(** [two_lines] after its first line was consumed: 11 bytes in front, one
    behind. *)
Definition half_read : Buffer := with_reader 11 two_lines.

Lemma ensure_writable_bounds_witness :
  ∃ b', EnsureWriteableBytes 3 half_read = Done () b' ∧ inv b' ∧
    content b' = content half_read ∧ 3 ≤ WritableBytes b' ∧
    15 ≤ size b' ≤ Z.max 15 17 ∧ (3 + 8 ≤ 1 + 11 → size b' = 15).
Proof.
  apply (ensure_writable_bounds 3 half_read); by vm_compute.
Defined.
