(* ===== verification/World.v ===== *)
(** * World: the objects of the library and the environment they run in

    The records hold the data members of the classes of include/benet under
    their source names (with a prefix per class).  Objects live in maps
    indexed by their address; a raw or smart pointer is an address, a
    [weak_ptr] is an address whose object may be gone.

    Stored callables are data: [callback] lists what the library binds to a
    [Channel], [Functor] the closures it hands to [RunInLoop], [QueueInLoop]
    and the timer queue, each with the values it captures.

    Everything outside the library is reached through two interfaces.  [OS]
    answers a system call from the history of all earlier ones: its answers
    are arbitrary unless a theorem names a documented law.  [UserCode] is
    the code behind the callbacks an application registers. *)

From Stdlib Require Export SpecFloat.
From S2P Require Import Prelude Buffer.

(** [double] *)
Abbreviation double := spec_float.

(** ** Stored callables *)

(** What the library binds to the four slots of a [Channel]. *)
Inductive callback :=
  | CbResetWakeup (l : nat)      (* EventLoop::reset_wakeup *)
  | CbTimerfd (l : nat)          (* the lambda of TimerQueue::TimerQueue *)
  | CbAccept (a : nat)           (* the lambda of Acceptor::Acceptor *)
  | CbHandleRead (c : nat)       (* TcpConnection::handle_read *)
  | CbHandleWrite (c : nat)
  | CbHandleClose (c : nat)
  | CbHandleError (c : nat)
  | CbUser (u : nat).            (* bound by an application *)

(** [std::function<void()>] values that reach a loop or a timer. *)
Inductive Functor :=
  | FUser (u : nat)
  | FAddTimer (l t : nat)
  | FCancelTimer (l t : nat)
  | FSendInLoop (c : nat) (message : list byte)
  | FShutdown (c : nat)
  | FForceClose (c : nat)
  | FForceCloseWeak (c : nat)
  | FStartRead (c : nat)
  | FStopRead (c : nat)
  | FShutdownDrained (c : nat)
  | FWriteComplete (u c : nat)
  | FHighWaterMark (u c : nat) (n : Z)
  | FConnectionEstablished (c : nat)
  | FConnectionDestroyed (c : nat)
  | FRemoveConnection (s c : nat)
  | FListen (a : nat).

(** A [ConnectionCallback] or [MessageCallback]: the library's default or
    the application's. *)
Inductive conn_cb := DefaultCb | UserCb (u : nat).

(** A [CloseCallback]: [TcpServer::remove_connection] bound to a server, or
    the application's. *)
Inductive close_cb := RemoveConnection (s : nat) | UserCloseCb (u : nat).

(** Calls of application code. *)
Inductive ucall :=
  | UTask (u : nat)
  | UChannel (u : nat)
  | UConnection (u c : nat)
  | UClose (u c : nat)
  | UMessage (u c : nat) (t : Z)
  | UWriteComplete (u c : nat)
  | UHighWaterMark (u c : nat) (n : Z)
  | UThreadInit (u l : nat).

(** ** System calls *)

Definition EPOLL_CTL_ADD : Z := 1.
Definition EPOLL_CTL_DEL : Z := 2.
Definition EPOLL_CTL_MOD : Z := 3.

Definition EINTR : Z := 4.
Definition EAGAIN : Z := 11.
Definition EWOULDBLOCK : Z := EAGAIN.
Definition EMFILE : Z := 24.
Definition EPIPE : Z := 32.
Definition ECONNRESET : Z := 104.

Inductive call :=
  | EpollCtl (epfd op fd events : Z) (ptr : nat)
  | EpollWait (epfd maxevents timeout : Z)
  | SysSend (fd : Z) (data : list byte)
  | SysReadv (fd : Z) (iov : list Z)
  | EventfdWrite (fd value : Z)
  | EventfdRead (fd : Z)
  | TimerfdSettime (fd sec nsec : Z)
  | TimerfdRead (fd : Z)
  | SysShutdownWr (fd : Z)
  | SysClose (fd : Z)
  | GetSockError (fd : Z)
  | SysSetsockopt (fd level name value : Z)
  | EventfdCreate
  | TimerfdCreate
  | EpollCreate
  | SysOpenNull
  | SysSocket (family : Z)
  | SysBind (fd : Z) (addr : list byte) (len : Z)
  | SysListen (fd : Z)
  | SysAccept4 (fd addrlen : Z)
  | SysAccept (fd : Z)
  | SysGetsockname (fd addrlen : Z)
  | SysGetpeername (fd addrlen : Z)
  | SysConnect (fd : Z) (addr : list byte) (len : Z)
  | SysRead (fd count : Z)
  | SysWrite (fd : Z) (data : list byte)
  | ClockNow.

(** The return value, [errno] when it is negative, the bytes read or
    returned, and the ready events of epoll_wait(2). *)
Record reply := mkReply {
  r_ret : Z;
  r_errno : Z;
  r_data : list byte;
  r_events : list (Z * nat);
}.

Inductive event :=
  | Sys (c : call) (r : reply)
  | User (u : ucall).

(** The environment's answer to a call after a history. *)
Class OS := os_reply : list event → call → reply.

(** [operator new]: the address of a new object, given those in use. *)
Class Heap := heap_new : gset nat → nat.

(** The interest list of an epoll instance, from the history: what
    epoll_ctl(2) and close(2) document. *)
Definition interest_step (epfd : Z) (m : gmap Z (Z * nat)) (e : event) : gmap Z (Z * nat) :=
  match e with
  | Sys (EpollCtl ep op fd events ptr) r =>
      if (ep =? epfd) && (r_ret r =? 0) then
        if op =? EPOLL_CTL_DEL then delete fd m else <[fd := (events, ptr)]> m
      else m
  | Sys (SysClose fd) r => if r_ret r =? 0 then delete fd m else m
  | _ => m
  end.
Definition interest (epfd : Z) (h : list event) : gmap Z (Z * nat) :=
  foldl (interest_step epfd) ∅ h.

(** The bytes the kernel accepted on a socket, in order. *)
Definition sent_step (fd : Z) (e : event) : list byte :=
  match e with
  | Sys (SysSend fd' d) r => if (fd' =? fd) && (0 <=? r_ret r) then take (Z.to_nat (r_ret r)) d else []
  | _ => []
  end.
Definition sent (fd : Z) (h : list event) : list byte := h ≫= sent_step fd.

(** ** The classes *)

(** [enum class State] of [TcpConnection]. *)
Inductive State := Disconnected | Connecting | Connected | Disconnecting.

#[export] Instance State_eq_dec : EqDecision State.
Proof. solve_decision. Defined.

(** [class Channel].  [tie_] is a [weak_ptr] to a connection.  The two
    booleans without an initializer start out indeterminate ([None]). *)
Record Channel := mkChannel {
  ch_loop_ : nat;
  ch_fd_ : Z;
  ch_events_ : Z;
  ch_revents_ : Z;
  ch_index_ : Z;
  ch_tied_ : bool;
  ch_tie_ : option nat;
  ch_event_handing_ : option bool;
  ch_added_in_loop_ : option bool;
  ch_on_read_ : option callback;
  ch_on_write_ : option callback;
  ch_on_close_ : option callback;
  ch_on_error_ : option callback;
}.

Definition set_ch_loop_ (v : nat) (r : Channel) : Channel :=
  mkChannel v (ch_fd_ r) (ch_events_ r) (ch_revents_ r) (ch_index_ r)
    (ch_tied_ r) (ch_tie_ r) (ch_event_handing_ r) (ch_added_in_loop_ r)
    (ch_on_read_ r) (ch_on_write_ r) (ch_on_close_ r) (ch_on_error_ r).
Definition set_ch_fd_ (v : Z) (r : Channel) : Channel :=
  mkChannel (ch_loop_ r) v (ch_events_ r) (ch_revents_ r) (ch_index_ r)
    (ch_tied_ r) (ch_tie_ r) (ch_event_handing_ r) (ch_added_in_loop_ r)
    (ch_on_read_ r) (ch_on_write_ r) (ch_on_close_ r) (ch_on_error_ r).
Definition set_ch_events_ (v : Z) (r : Channel) : Channel :=
  mkChannel (ch_loop_ r) (ch_fd_ r) v (ch_revents_ r) (ch_index_ r)
    (ch_tied_ r) (ch_tie_ r) (ch_event_handing_ r) (ch_added_in_loop_ r)
    (ch_on_read_ r) (ch_on_write_ r) (ch_on_close_ r) (ch_on_error_ r).
Definition set_ch_revents_ (v : Z) (r : Channel) : Channel :=
  mkChannel (ch_loop_ r) (ch_fd_ r) (ch_events_ r) v (ch_index_ r)
    (ch_tied_ r) (ch_tie_ r) (ch_event_handing_ r) (ch_added_in_loop_ r)
    (ch_on_read_ r) (ch_on_write_ r) (ch_on_close_ r) (ch_on_error_ r).
Definition set_ch_index_ (v : Z) (r : Channel) : Channel :=
  mkChannel (ch_loop_ r) (ch_fd_ r) (ch_events_ r) (ch_revents_ r) v
    (ch_tied_ r) (ch_tie_ r) (ch_event_handing_ r) (ch_added_in_loop_ r)
    (ch_on_read_ r) (ch_on_write_ r) (ch_on_close_ r) (ch_on_error_ r).
Definition set_ch_tied_ (v : bool) (r : Channel) : Channel :=
  mkChannel (ch_loop_ r) (ch_fd_ r) (ch_events_ r) (ch_revents_ r)
    (ch_index_ r) v (ch_tie_ r) (ch_event_handing_ r) (ch_added_in_loop_ r)
    (ch_on_read_ r) (ch_on_write_ r) (ch_on_close_ r) (ch_on_error_ r).
Definition set_ch_tie_ (v : option nat) (r : Channel) : Channel :=
  mkChannel (ch_loop_ r) (ch_fd_ r) (ch_events_ r) (ch_revents_ r)
    (ch_index_ r) (ch_tied_ r) v (ch_event_handing_ r) (ch_added_in_loop_ r)
    (ch_on_read_ r) (ch_on_write_ r) (ch_on_close_ r) (ch_on_error_ r).
Definition set_ch_event_handing_ (v : option bool) (r : Channel) : Channel :=
  mkChannel (ch_loop_ r) (ch_fd_ r) (ch_events_ r) (ch_revents_ r)
    (ch_index_ r) (ch_tied_ r) (ch_tie_ r) v (ch_added_in_loop_ r)
    (ch_on_read_ r) (ch_on_write_ r) (ch_on_close_ r) (ch_on_error_ r).
Definition set_ch_added_in_loop_ (v : option bool) (r : Channel) : Channel :=
  mkChannel (ch_loop_ r) (ch_fd_ r) (ch_events_ r) (ch_revents_ r)
    (ch_index_ r) (ch_tied_ r) (ch_tie_ r) (ch_event_handing_ r) v
    (ch_on_read_ r) (ch_on_write_ r) (ch_on_close_ r) (ch_on_error_ r).
Definition set_ch_on_read_ (v : option callback) (r : Channel) : Channel :=
  mkChannel (ch_loop_ r) (ch_fd_ r) (ch_events_ r) (ch_revents_ r)
    (ch_index_ r) (ch_tied_ r) (ch_tie_ r) (ch_event_handing_ r)
    (ch_added_in_loop_ r) v (ch_on_write_ r) (ch_on_close_ r) (ch_on_error_ r).
Definition set_ch_on_write_ (v : option callback) (r : Channel) : Channel :=
  mkChannel (ch_loop_ r) (ch_fd_ r) (ch_events_ r) (ch_revents_ r)
    (ch_index_ r) (ch_tied_ r) (ch_tie_ r) (ch_event_handing_ r)
    (ch_added_in_loop_ r) (ch_on_read_ r) v (ch_on_close_ r) (ch_on_error_ r).
Definition set_ch_on_close_ (v : option callback) (r : Channel) : Channel :=
  mkChannel (ch_loop_ r) (ch_fd_ r) (ch_events_ r) (ch_revents_ r)
    (ch_index_ r) (ch_tied_ r) (ch_tie_ r) (ch_event_handing_ r)
    (ch_added_in_loop_ r) (ch_on_read_ r) (ch_on_write_ r) v (ch_on_error_ r).
Definition set_ch_on_error_ (v : option callback) (r : Channel) : Channel :=
  mkChannel (ch_loop_ r) (ch_fd_ r) (ch_events_ r) (ch_revents_ r)
    (ch_index_ r) (ch_tied_ r) (ch_tie_ r) (ch_event_handing_ r)
    (ch_added_in_loop_ r) (ch_on_read_ r) (ch_on_write_ r) (ch_on_close_ r) v.

(** [class Timer]. *)
Record Timer := mkTimer {
  tm_expiration_ : Z;
  tm_repeat_ : bool;
  tm_interval_ : double;
  tm_callback_ : Functor;
}.

Definition set_tm_expiration_ (v : Z) (r : Timer) : Timer :=
  mkTimer v (tm_repeat_ r) (tm_interval_ r) (tm_callback_ r).
Definition set_tm_repeat_ (v : bool) (r : Timer) : Timer :=
  mkTimer (tm_expiration_ r) v (tm_interval_ r) (tm_callback_ r).
Definition set_tm_interval_ (v : double) (r : Timer) : Timer :=
  mkTimer (tm_expiration_ r) (tm_repeat_ r) v (tm_callback_ r).
Definition set_tm_callback_ (v : Functor) (r : Timer) : Timer :=
  mkTimer (tm_expiration_ r) (tm_repeat_ r) (tm_interval_ r) v.

(** [class TimerQueue]: [timers_], a [std::set] of (time, pointer) pairs, is
    the list of its elements in increasing order.  [tq_expired] is the local
    vector [expired_timer] of the read callback while it runs: it owns the
    timers it holds. *)
Record TimerQueue := mkTimerQueue {
  tq_timerfd_ : Z;
  tq_timerfd_channel_ : nat;
  tq_timers_ : list (Z * nat);
  tq_calling_expired_timers_ : bool;
  tq_canceling_timers_ : gset nat;
  tq_expired : list nat;
}.

Definition set_tq_timerfd_ (v : Z) (r : TimerQueue) : TimerQueue :=
  mkTimerQueue v (tq_timerfd_channel_ r) (tq_timers_ r)
    (tq_calling_expired_timers_ r) (tq_canceling_timers_ r) (tq_expired r).
Definition set_tq_timerfd_channel_ (v : nat) (r : TimerQueue) : TimerQueue :=
  mkTimerQueue (tq_timerfd_ r) v (tq_timers_ r) (tq_calling_expired_timers_ r)
    (tq_canceling_timers_ r) (tq_expired r).
Definition set_tq_timers_ (v : list (Z * nat)) (r : TimerQueue) : TimerQueue :=
  mkTimerQueue (tq_timerfd_ r) (tq_timerfd_channel_ r) v
    (tq_calling_expired_timers_ r) (tq_canceling_timers_ r) (tq_expired r).
Definition set_tq_calling_expired_timers_ (v : bool) (r : TimerQueue) : TimerQueue :=
  mkTimerQueue (tq_timerfd_ r) (tq_timerfd_channel_ r) (tq_timers_ r) v
    (tq_canceling_timers_ r) (tq_expired r).
Definition set_tq_canceling_timers_ (v : gset nat) (r : TimerQueue) : TimerQueue :=
  mkTimerQueue (tq_timerfd_ r) (tq_timerfd_channel_ r) (tq_timers_ r)
    (tq_calling_expired_timers_ r) v (tq_expired r).
Definition set_tq_expired (v : list nat) (r : TimerQueue) : TimerQueue :=
  mkTimerQueue (tq_timerfd_ r) (tq_timerfd_channel_ r) (tq_timers_ r)
    (tq_calling_expired_timers_ r) (tq_canceling_timers_ r) v.

(** [class EPoller] with the [channels_] map of its base class [Poller]; of
    the [events_] vector only the length outlives a call of [Poll]. *)
Record EPoller := mkEPoller {
  ep_channels_ : gmap Z nat;
  ep_epoll_fd_ : Z;
  ep_events_size : Z;
}.

Definition set_ep_channels_ (v : gmap Z nat) (r : EPoller) : EPoller :=
  mkEPoller v (ep_epoll_fd_ r) (ep_events_size r).
Definition set_ep_epoll_fd_ (v : Z) (r : EPoller) : EPoller :=
  mkEPoller (ep_channels_ r) v (ep_events_size r).
Definition set_ep_events_size (v : Z) (r : EPoller) : EPoller :=
  mkEPoller (ep_channels_ r) (ep_epoll_fd_ r) v.

(** [class EventLoop]. *)
Record EventLoop := mkEventLoop {
  el_running_ : bool;
  el_quitting_ : bool;
  el_thread_id_ : nat;
  el_event_handing_ : bool;
  el_poller_ : EPoller;
  el_poll_return_time_ : Z;
  el_active_channels_ : list nat;
  el_current_active_channel_ : option nat;
  el_calling_pendings_ : bool;
  el_pendings_ : list Functor;
  el_wakeup_fd_ : Z;
  el_wakeup_channel_ : nat;
  el_timer_queue_ : TimerQueue;
}.

Definition set_el_running_ (v : bool) (r : EventLoop) : EventLoop :=
  mkEventLoop v (el_quitting_ r) (el_thread_id_ r) (el_event_handing_ r)
    (el_poller_ r) (el_poll_return_time_ r) (el_active_channels_ r)
    (el_current_active_channel_ r) (el_calling_pendings_ r) (el_pendings_ r)
    (el_wakeup_fd_ r) (el_wakeup_channel_ r) (el_timer_queue_ r).
Definition set_el_quitting_ (v : bool) (r : EventLoop) : EventLoop :=
  mkEventLoop (el_running_ r) v (el_thread_id_ r) (el_event_handing_ r)
    (el_poller_ r) (el_poll_return_time_ r) (el_active_channels_ r)
    (el_current_active_channel_ r) (el_calling_pendings_ r) (el_pendings_ r)
    (el_wakeup_fd_ r) (el_wakeup_channel_ r) (el_timer_queue_ r).
Definition set_el_thread_id_ (v : nat) (r : EventLoop) : EventLoop :=
  mkEventLoop (el_running_ r) (el_quitting_ r) v (el_event_handing_ r)
    (el_poller_ r) (el_poll_return_time_ r) (el_active_channels_ r)
    (el_current_active_channel_ r) (el_calling_pendings_ r) (el_pendings_ r)
    (el_wakeup_fd_ r) (el_wakeup_channel_ r) (el_timer_queue_ r).
Definition set_el_event_handing_ (v : bool) (r : EventLoop) : EventLoop :=
  mkEventLoop (el_running_ r) (el_quitting_ r) (el_thread_id_ r) v
    (el_poller_ r) (el_poll_return_time_ r) (el_active_channels_ r)
    (el_current_active_channel_ r) (el_calling_pendings_ r) (el_pendings_ r)
    (el_wakeup_fd_ r) (el_wakeup_channel_ r) (el_timer_queue_ r).
Definition set_el_poller_ (v : EPoller) (r : EventLoop) : EventLoop :=
  mkEventLoop (el_running_ r) (el_quitting_ r) (el_thread_id_ r)
    (el_event_handing_ r) v (el_poll_return_time_ r) (el_active_channels_ r)
    (el_current_active_channel_ r) (el_calling_pendings_ r) (el_pendings_ r)
    (el_wakeup_fd_ r) (el_wakeup_channel_ r) (el_timer_queue_ r).
Definition set_el_poll_return_time_ (v : Z) (r : EventLoop) : EventLoop :=
  mkEventLoop (el_running_ r) (el_quitting_ r) (el_thread_id_ r)
    (el_event_handing_ r) (el_poller_ r) v (el_active_channels_ r)
    (el_current_active_channel_ r) (el_calling_pendings_ r) (el_pendings_ r)
    (el_wakeup_fd_ r) (el_wakeup_channel_ r) (el_timer_queue_ r).
Definition set_el_active_channels_ (v : list nat) (r : EventLoop) : EventLoop :=
  mkEventLoop (el_running_ r) (el_quitting_ r) (el_thread_id_ r)
    (el_event_handing_ r) (el_poller_ r) (el_poll_return_time_ r) v
    (el_current_active_channel_ r) (el_calling_pendings_ r) (el_pendings_ r)
    (el_wakeup_fd_ r) (el_wakeup_channel_ r) (el_timer_queue_ r).
Definition set_el_current_active_channel_ (v : option nat) (r : EventLoop) : EventLoop :=
  mkEventLoop (el_running_ r) (el_quitting_ r) (el_thread_id_ r)
    (el_event_handing_ r) (el_poller_ r) (el_poll_return_time_ r)
    (el_active_channels_ r) v (el_calling_pendings_ r) (el_pendings_ r)
    (el_wakeup_fd_ r) (el_wakeup_channel_ r) (el_timer_queue_ r).
Definition set_el_calling_pendings_ (v : bool) (r : EventLoop) : EventLoop :=
  mkEventLoop (el_running_ r) (el_quitting_ r) (el_thread_id_ r)
    (el_event_handing_ r) (el_poller_ r) (el_poll_return_time_ r)
    (el_active_channels_ r) (el_current_active_channel_ r) v (el_pendings_ r)
    (el_wakeup_fd_ r) (el_wakeup_channel_ r) (el_timer_queue_ r).
Definition set_el_pendings_ (v : list Functor) (r : EventLoop) : EventLoop :=
  mkEventLoop (el_running_ r) (el_quitting_ r) (el_thread_id_ r)
    (el_event_handing_ r) (el_poller_ r) (el_poll_return_time_ r)
    (el_active_channels_ r) (el_current_active_channel_ r)
    (el_calling_pendings_ r) v (el_wakeup_fd_ r) (el_wakeup_channel_ r)
    (el_timer_queue_ r).
Definition set_el_wakeup_fd_ (v : Z) (r : EventLoop) : EventLoop :=
  mkEventLoop (el_running_ r) (el_quitting_ r) (el_thread_id_ r)
    (el_event_handing_ r) (el_poller_ r) (el_poll_return_time_ r)
    (el_active_channels_ r) (el_current_active_channel_ r)
    (el_calling_pendings_ r) (el_pendings_ r) v (el_wakeup_channel_ r)
    (el_timer_queue_ r).
Definition set_el_wakeup_channel_ (v : nat) (r : EventLoop) : EventLoop :=
  mkEventLoop (el_running_ r) (el_quitting_ r) (el_thread_id_ r)
    (el_event_handing_ r) (el_poller_ r) (el_poll_return_time_ r)
    (el_active_channels_ r) (el_current_active_channel_ r)
    (el_calling_pendings_ r) (el_pendings_ r) (el_wakeup_fd_ r) v
    (el_timer_queue_ r).
Definition set_el_timer_queue_ (v : TimerQueue) (r : EventLoop) : EventLoop :=
  mkEventLoop (el_running_ r) (el_quitting_ r) (el_thread_id_ r)
    (el_event_handing_ r) (el_poller_ r) (el_poll_return_time_ r)
    (el_active_channels_ r) (el_current_active_channel_ r)
    (el_calling_pendings_ r) (el_pendings_ r) (el_wakeup_fd_ r)
    (el_wakeup_channel_ r) v.

(** [class TcpConnection].  [tc_socket_] is the descriptor of the owned
    [Socket]; addresses are the bytes of their [sockaddr_storage]. *)
Record TcpConnection := mkTcpConnection {
  tc_loop_ : nat;
  tc_name_ : string;
  tc_socket_ : Z;
  tc_channel_ : nat;
  tc_local_addr_ : list byte;
  tc_peer_addr_ : list byte;
  tc_state_ : State;
  tc_reading_ : bool;
  tc_high_water_mark_ : Z;
  tc_on_high_water_mark_ : option nat;
  tc_on_connection_ : option conn_cb;
  tc_on_close_ : option close_cb;
  tc_on_message_ : option conn_cb;
  tc_on_write_complete_ : option nat;
  tc_input_buffer_ : Buffer;
  tc_output_buffer_ : Buffer;
}.

Definition set_tc_loop_ (v : nat) (r : TcpConnection) : TcpConnection :=
  mkTcpConnection v (tc_name_ r) (tc_socket_ r) (tc_channel_ r)
    (tc_local_addr_ r) (tc_peer_addr_ r) (tc_state_ r) (tc_reading_ r)
    (tc_high_water_mark_ r) (tc_on_high_water_mark_ r) (tc_on_connection_ r)
    (tc_on_close_ r) (tc_on_message_ r) (tc_on_write_complete_ r)
    (tc_input_buffer_ r) (tc_output_buffer_ r).
Definition set_tc_name_ (v : string) (r : TcpConnection) : TcpConnection :=
  mkTcpConnection (tc_loop_ r) v (tc_socket_ r) (tc_channel_ r)
    (tc_local_addr_ r) (tc_peer_addr_ r) (tc_state_ r) (tc_reading_ r)
    (tc_high_water_mark_ r) (tc_on_high_water_mark_ r) (tc_on_connection_ r)
    (tc_on_close_ r) (tc_on_message_ r) (tc_on_write_complete_ r)
    (tc_input_buffer_ r) (tc_output_buffer_ r).
Definition set_tc_socket_ (v : Z) (r : TcpConnection) : TcpConnection :=
  mkTcpConnection (tc_loop_ r) (tc_name_ r) v (tc_channel_ r)
    (tc_local_addr_ r) (tc_peer_addr_ r) (tc_state_ r) (tc_reading_ r)
    (tc_high_water_mark_ r) (tc_on_high_water_mark_ r) (tc_on_connection_ r)
    (tc_on_close_ r) (tc_on_message_ r) (tc_on_write_complete_ r)
    (tc_input_buffer_ r) (tc_output_buffer_ r).
Definition set_tc_channel_ (v : nat) (r : TcpConnection) : TcpConnection :=
  mkTcpConnection (tc_loop_ r) (tc_name_ r) (tc_socket_ r) v
    (tc_local_addr_ r) (tc_peer_addr_ r) (tc_state_ r) (tc_reading_ r)
    (tc_high_water_mark_ r) (tc_on_high_water_mark_ r) (tc_on_connection_ r)
    (tc_on_close_ r) (tc_on_message_ r) (tc_on_write_complete_ r)
    (tc_input_buffer_ r) (tc_output_buffer_ r).
Definition set_tc_local_addr_ (v : list byte) (r : TcpConnection) : TcpConnection :=
  mkTcpConnection (tc_loop_ r) (tc_name_ r) (tc_socket_ r) (tc_channel_ r) v
    (tc_peer_addr_ r) (tc_state_ r) (tc_reading_ r) (tc_high_water_mark_ r)
    (tc_on_high_water_mark_ r) (tc_on_connection_ r) (tc_on_close_ r)
    (tc_on_message_ r) (tc_on_write_complete_ r) (tc_input_buffer_ r)
    (tc_output_buffer_ r).
Definition set_tc_peer_addr_ (v : list byte) (r : TcpConnection) : TcpConnection :=
  mkTcpConnection (tc_loop_ r) (tc_name_ r) (tc_socket_ r) (tc_channel_ r)
    (tc_local_addr_ r) v (tc_state_ r) (tc_reading_ r) (tc_high_water_mark_ r)
    (tc_on_high_water_mark_ r) (tc_on_connection_ r) (tc_on_close_ r)
    (tc_on_message_ r) (tc_on_write_complete_ r) (tc_input_buffer_ r)
    (tc_output_buffer_ r).
Definition set_tc_state_ (v : State) (r : TcpConnection) : TcpConnection :=
  mkTcpConnection (tc_loop_ r) (tc_name_ r) (tc_socket_ r) (tc_channel_ r)
    (tc_local_addr_ r) (tc_peer_addr_ r) v (tc_reading_ r)
    (tc_high_water_mark_ r) (tc_on_high_water_mark_ r) (tc_on_connection_ r)
    (tc_on_close_ r) (tc_on_message_ r) (tc_on_write_complete_ r)
    (tc_input_buffer_ r) (tc_output_buffer_ r).
Definition set_tc_reading_ (v : bool) (r : TcpConnection) : TcpConnection :=
  mkTcpConnection (tc_loop_ r) (tc_name_ r) (tc_socket_ r) (tc_channel_ r)
    (tc_local_addr_ r) (tc_peer_addr_ r) (tc_state_ r) v
    (tc_high_water_mark_ r) (tc_on_high_water_mark_ r) (tc_on_connection_ r)
    (tc_on_close_ r) (tc_on_message_ r) (tc_on_write_complete_ r)
    (tc_input_buffer_ r) (tc_output_buffer_ r).
Definition set_tc_high_water_mark_ (v : Z) (r : TcpConnection) : TcpConnection :=
  mkTcpConnection (tc_loop_ r) (tc_name_ r) (tc_socket_ r) (tc_channel_ r)
    (tc_local_addr_ r) (tc_peer_addr_ r) (tc_state_ r) (tc_reading_ r) v
    (tc_on_high_water_mark_ r) (tc_on_connection_ r) (tc_on_close_ r)
    (tc_on_message_ r) (tc_on_write_complete_ r) (tc_input_buffer_ r)
    (tc_output_buffer_ r).
Definition set_tc_on_high_water_mark_ (v : option nat) (r : TcpConnection) : TcpConnection :=
  mkTcpConnection (tc_loop_ r) (tc_name_ r) (tc_socket_ r) (tc_channel_ r)
    (tc_local_addr_ r) (tc_peer_addr_ r) (tc_state_ r) (tc_reading_ r)
    (tc_high_water_mark_ r) v (tc_on_connection_ r) (tc_on_close_ r)
    (tc_on_message_ r) (tc_on_write_complete_ r) (tc_input_buffer_ r)
    (tc_output_buffer_ r).
Definition set_tc_on_connection_ (v : option conn_cb) (r : TcpConnection) : TcpConnection :=
  mkTcpConnection (tc_loop_ r) (tc_name_ r) (tc_socket_ r) (tc_channel_ r)
    (tc_local_addr_ r) (tc_peer_addr_ r) (tc_state_ r) (tc_reading_ r)
    (tc_high_water_mark_ r) (tc_on_high_water_mark_ r) v (tc_on_close_ r)
    (tc_on_message_ r) (tc_on_write_complete_ r) (tc_input_buffer_ r)
    (tc_output_buffer_ r).
Definition set_tc_on_close_ (v : option close_cb) (r : TcpConnection) : TcpConnection :=
  mkTcpConnection (tc_loop_ r) (tc_name_ r) (tc_socket_ r) (tc_channel_ r)
    (tc_local_addr_ r) (tc_peer_addr_ r) (tc_state_ r) (tc_reading_ r)
    (tc_high_water_mark_ r) (tc_on_high_water_mark_ r) (tc_on_connection_ r) v
    (tc_on_message_ r) (tc_on_write_complete_ r) (tc_input_buffer_ r)
    (tc_output_buffer_ r).
Definition set_tc_on_message_ (v : option conn_cb) (r : TcpConnection) : TcpConnection :=
  mkTcpConnection (tc_loop_ r) (tc_name_ r) (tc_socket_ r) (tc_channel_ r)
    (tc_local_addr_ r) (tc_peer_addr_ r) (tc_state_ r) (tc_reading_ r)
    (tc_high_water_mark_ r) (tc_on_high_water_mark_ r) (tc_on_connection_ r)
    (tc_on_close_ r) v (tc_on_write_complete_ r) (tc_input_buffer_ r)
    (tc_output_buffer_ r).
Definition set_tc_on_write_complete_ (v : option nat) (r : TcpConnection) : TcpConnection :=
  mkTcpConnection (tc_loop_ r) (tc_name_ r) (tc_socket_ r) (tc_channel_ r)
    (tc_local_addr_ r) (tc_peer_addr_ r) (tc_state_ r) (tc_reading_ r)
    (tc_high_water_mark_ r) (tc_on_high_water_mark_ r) (tc_on_connection_ r)
    (tc_on_close_ r) (tc_on_message_ r) v (tc_input_buffer_ r)
    (tc_output_buffer_ r).
Definition set_tc_input_buffer_ (v : Buffer) (r : TcpConnection) : TcpConnection :=
  mkTcpConnection (tc_loop_ r) (tc_name_ r) (tc_socket_ r) (tc_channel_ r)
    (tc_local_addr_ r) (tc_peer_addr_ r) (tc_state_ r) (tc_reading_ r)
    (tc_high_water_mark_ r) (tc_on_high_water_mark_ r) (tc_on_connection_ r)
    (tc_on_close_ r) (tc_on_message_ r) (tc_on_write_complete_ r) v
    (tc_output_buffer_ r).
Definition set_tc_output_buffer_ (v : Buffer) (r : TcpConnection) : TcpConnection :=
  mkTcpConnection (tc_loop_ r) (tc_name_ r) (tc_socket_ r) (tc_channel_ r)
    (tc_local_addr_ r) (tc_peer_addr_ r) (tc_state_ r) (tc_reading_ r)
    (tc_high_water_mark_ r) (tc_on_high_water_mark_ r) (tc_on_connection_ r)
    (tc_on_close_ r) (tc_on_message_ r) (tc_on_write_complete_ r)
    (tc_input_buffer_ r) v.

(** [class Acceptor].  [ac_accept_socket_] is the descriptor of the owned
    [Socket]; [ac_on_new_connection_] the server whose [new_connection] is
    bound. *)
Record Acceptor := mkAcceptor {
  ac_listening_ : bool;
  ac_loop_ : nat;
  ac_accept_socket_ : Z;
  ac_accept_channel_ : nat;
  ac_on_new_connection_ : option nat;
  ac_idle_fd_ : Z;
}.

Definition set_ac_listening_ (v : bool) (r : Acceptor) : Acceptor :=
  mkAcceptor v (ac_loop_ r) (ac_accept_socket_ r) (ac_accept_channel_ r)
    (ac_on_new_connection_ r) (ac_idle_fd_ r).
Definition set_ac_loop_ (v : nat) (r : Acceptor) : Acceptor :=
  mkAcceptor (ac_listening_ r) v (ac_accept_socket_ r) (ac_accept_channel_ r)
    (ac_on_new_connection_ r) (ac_idle_fd_ r).
Definition set_ac_accept_socket_ (v : Z) (r : Acceptor) : Acceptor :=
  mkAcceptor (ac_listening_ r) (ac_loop_ r) v (ac_accept_channel_ r)
    (ac_on_new_connection_ r) (ac_idle_fd_ r).
Definition set_ac_accept_channel_ (v : nat) (r : Acceptor) : Acceptor :=
  mkAcceptor (ac_listening_ r) (ac_loop_ r) (ac_accept_socket_ r) v
    (ac_on_new_connection_ r) (ac_idle_fd_ r).
Definition set_ac_on_new_connection_ (v : option nat) (r : Acceptor) : Acceptor :=
  mkAcceptor (ac_listening_ r) (ac_loop_ r) (ac_accept_socket_ r)
    (ac_accept_channel_ r) v (ac_idle_fd_ r).
Definition set_ac_idle_fd_ (v : Z) (r : Acceptor) : Acceptor :=
  mkAcceptor (ac_listening_ r) (ac_loop_ r) (ac_accept_socket_ r)
    (ac_accept_channel_ r) (ac_on_new_connection_ r) v.

(** [class EventLoopThreadPool]. *)
Record EventLoopThreadPool := mkEventLoopThreadPool {
  tp_base_loop_ : nat;
  tp_name_ : string;
  tp_started_ : bool;
  tp_num_threads_ : Z;
  tp_loops_ : list nat;
}.

Definition set_tp_base_loop_ (v : nat) (r : EventLoopThreadPool) : EventLoopThreadPool :=
  mkEventLoopThreadPool v (tp_name_ r) (tp_started_ r) (tp_num_threads_ r)
    (tp_loops_ r).
Definition set_tp_name_ (v : string) (r : EventLoopThreadPool) : EventLoopThreadPool :=
  mkEventLoopThreadPool (tp_base_loop_ r) v (tp_started_ r)
    (tp_num_threads_ r) (tp_loops_ r).
Definition set_tp_started_ (v : bool) (r : EventLoopThreadPool) : EventLoopThreadPool :=
  mkEventLoopThreadPool (tp_base_loop_ r) (tp_name_ r) v (tp_num_threads_ r)
    (tp_loops_ r).
Definition set_tp_num_threads_ (v : Z) (r : EventLoopThreadPool) : EventLoopThreadPool :=
  mkEventLoopThreadPool (tp_base_loop_ r) (tp_name_ r) (tp_started_ r) v
    (tp_loops_ r).
Definition set_tp_loops_ (v : list nat) (r : EventLoopThreadPool) : EventLoopThreadPool :=
  mkEventLoopThreadPool (tp_base_loop_ r) (tp_name_ r) (tp_started_ r)
    (tp_num_threads_ r) v.

(** [class TcpServer]. *)
Record TcpServer := mkTcpServer {
  sv_loop_ : nat;
  sv_listen_addr_ : list byte;
  sv_name_ : string;
  sv_acceptor_ : nat;
  sv_thread_pool_ : EventLoopThreadPool;
  sv_thread_init_cb_ : option nat;
  sv_connection_cb_ : option conn_cb;
  sv_message_cb_ : option conn_cb;
  sv_write_complete_cb_ : option nat;
  sv_started_ : bool;
  sv_connections_ : gmap string nat;
}.

Definition set_sv_loop_ (v : nat) (r : TcpServer) : TcpServer :=
  mkTcpServer v (sv_listen_addr_ r) (sv_name_ r) (sv_acceptor_ r)
    (sv_thread_pool_ r) (sv_thread_init_cb_ r) (sv_connection_cb_ r)
    (sv_message_cb_ r) (sv_write_complete_cb_ r) (sv_started_ r)
    (sv_connections_ r).
Definition set_sv_listen_addr_ (v : list byte) (r : TcpServer) : TcpServer :=
  mkTcpServer (sv_loop_ r) v (sv_name_ r) (sv_acceptor_ r) (sv_thread_pool_ r)
    (sv_thread_init_cb_ r) (sv_connection_cb_ r) (sv_message_cb_ r)
    (sv_write_complete_cb_ r) (sv_started_ r) (sv_connections_ r).
Definition set_sv_name_ (v : string) (r : TcpServer) : TcpServer :=
  mkTcpServer (sv_loop_ r) (sv_listen_addr_ r) v (sv_acceptor_ r)
    (sv_thread_pool_ r) (sv_thread_init_cb_ r) (sv_connection_cb_ r)
    (sv_message_cb_ r) (sv_write_complete_cb_ r) (sv_started_ r)
    (sv_connections_ r).
Definition set_sv_acceptor_ (v : nat) (r : TcpServer) : TcpServer :=
  mkTcpServer (sv_loop_ r) (sv_listen_addr_ r) (sv_name_ r) v
    (sv_thread_pool_ r) (sv_thread_init_cb_ r) (sv_connection_cb_ r)
    (sv_message_cb_ r) (sv_write_complete_cb_ r) (sv_started_ r)
    (sv_connections_ r).
Definition set_sv_thread_pool_ (v : EventLoopThreadPool) (r : TcpServer) : TcpServer :=
  mkTcpServer (sv_loop_ r) (sv_listen_addr_ r) (sv_name_ r) (sv_acceptor_ r) v
    (sv_thread_init_cb_ r) (sv_connection_cb_ r) (sv_message_cb_ r)
    (sv_write_complete_cb_ r) (sv_started_ r) (sv_connections_ r).
Definition set_sv_thread_init_cb_ (v : option nat) (r : TcpServer) : TcpServer :=
  mkTcpServer (sv_loop_ r) (sv_listen_addr_ r) (sv_name_ r) (sv_acceptor_ r)
    (sv_thread_pool_ r) v (sv_connection_cb_ r) (sv_message_cb_ r)
    (sv_write_complete_cb_ r) (sv_started_ r) (sv_connections_ r).
Definition set_sv_connection_cb_ (v : option conn_cb) (r : TcpServer) : TcpServer :=
  mkTcpServer (sv_loop_ r) (sv_listen_addr_ r) (sv_name_ r) (sv_acceptor_ r)
    (sv_thread_pool_ r) (sv_thread_init_cb_ r) v (sv_message_cb_ r)
    (sv_write_complete_cb_ r) (sv_started_ r) (sv_connections_ r).
Definition set_sv_message_cb_ (v : option conn_cb) (r : TcpServer) : TcpServer :=
  mkTcpServer (sv_loop_ r) (sv_listen_addr_ r) (sv_name_ r) (sv_acceptor_ r)
    (sv_thread_pool_ r) (sv_thread_init_cb_ r) (sv_connection_cb_ r) v
    (sv_write_complete_cb_ r) (sv_started_ r) (sv_connections_ r).
Definition set_sv_write_complete_cb_ (v : option nat) (r : TcpServer) : TcpServer :=
  mkTcpServer (sv_loop_ r) (sv_listen_addr_ r) (sv_name_ r) (sv_acceptor_ r)
    (sv_thread_pool_ r) (sv_thread_init_cb_ r) (sv_connection_cb_ r)
    (sv_message_cb_ r) v (sv_started_ r) (sv_connections_ r).
Definition set_sv_started_ (v : bool) (r : TcpServer) : TcpServer :=
  mkTcpServer (sv_loop_ r) (sv_listen_addr_ r) (sv_name_ r) (sv_acceptor_ r)
    (sv_thread_pool_ r) (sv_thread_init_cb_ r) (sv_connection_cb_ r)
    (sv_message_cb_ r) (sv_write_complete_cb_ r) v (sv_connections_ r).
Definition set_sv_connections_ (v : gmap string nat) (r : TcpServer) : TcpServer :=
  mkTcpServer (sv_loop_ r) (sv_listen_addr_ r) (sv_name_ r) (sv_acceptor_ r)
    (sv_thread_pool_ r) (sv_thread_init_cb_ r) (sv_connection_cb_ r)
    (sv_message_cb_ r) (sv_write_complete_cb_ r) (sv_started_ r) v.

(** The state of the process: the running thread and its [errno], the
    history of system calls and callbacks, the live objects by address, the
    thread-local [tThreadEventLoop], and the two function-local statics. *)
Record World := mkWorld {
  w_tid : nat;
  w_errno : Z;
  w_hist : list event;
  w_chans : gmap nat Channel;
  w_timers : gmap nat Timer;
  w_loops : gmap nat EventLoop;
  w_conns : gmap nat TcpConnection;
  w_accs : gmap nat Acceptor;
  w_servers : gmap nat TcpServer;
  w_tls : gmap nat nat;
  w_next_conn_id_ : Z;
  w_next_index_ : Z;
}.

Definition set_w_tid (v : nat) (r : World) : World :=
  mkWorld v (w_errno r) (w_hist r) (w_chans r) (w_timers r) (w_loops r)
    (w_conns r) (w_accs r) (w_servers r) (w_tls r) (w_next_conn_id_ r)
    (w_next_index_ r).
Definition set_w_errno (v : Z) (r : World) : World :=
  mkWorld (w_tid r) v (w_hist r) (w_chans r) (w_timers r) (w_loops r)
    (w_conns r) (w_accs r) (w_servers r) (w_tls r) (w_next_conn_id_ r)
    (w_next_index_ r).
Definition set_w_hist (v : list event) (r : World) : World :=
  mkWorld (w_tid r) (w_errno r) v (w_chans r) (w_timers r) (w_loops r)
    (w_conns r) (w_accs r) (w_servers r) (w_tls r) (w_next_conn_id_ r)
    (w_next_index_ r).
Definition set_w_chans (v : gmap nat Channel) (r : World) : World :=
  mkWorld (w_tid r) (w_errno r) (w_hist r) v (w_timers r) (w_loops r)
    (w_conns r) (w_accs r) (w_servers r) (w_tls r) (w_next_conn_id_ r)
    (w_next_index_ r).
Definition set_w_timers (v : gmap nat Timer) (r : World) : World :=
  mkWorld (w_tid r) (w_errno r) (w_hist r) (w_chans r) v (w_loops r)
    (w_conns r) (w_accs r) (w_servers r) (w_tls r) (w_next_conn_id_ r)
    (w_next_index_ r).
Definition set_w_loops (v : gmap nat EventLoop) (r : World) : World :=
  mkWorld (w_tid r) (w_errno r) (w_hist r) (w_chans r) (w_timers r) v
    (w_conns r) (w_accs r) (w_servers r) (w_tls r) (w_next_conn_id_ r)
    (w_next_index_ r).
Definition set_w_conns (v : gmap nat TcpConnection) (r : World) : World :=
  mkWorld (w_tid r) (w_errno r) (w_hist r) (w_chans r) (w_timers r)
    (w_loops r) v (w_accs r) (w_servers r) (w_tls r) (w_next_conn_id_ r)
    (w_next_index_ r).
Definition set_w_accs (v : gmap nat Acceptor) (r : World) : World :=
  mkWorld (w_tid r) (w_errno r) (w_hist r) (w_chans r) (w_timers r)
    (w_loops r) (w_conns r) v (w_servers r) (w_tls r) (w_next_conn_id_ r)
    (w_next_index_ r).
Definition set_w_servers (v : gmap nat TcpServer) (r : World) : World :=
  mkWorld (w_tid r) (w_errno r) (w_hist r) (w_chans r) (w_timers r)
    (w_loops r) (w_conns r) (w_accs r) v (w_tls r) (w_next_conn_id_ r)
    (w_next_index_ r).
Definition set_w_tls (v : gmap nat nat) (r : World) : World :=
  mkWorld (w_tid r) (w_errno r) (w_hist r) (w_chans r) (w_timers r)
    (w_loops r) (w_conns r) (w_accs r) (w_servers r) v (w_next_conn_id_ r)
    (w_next_index_ r).
Definition set_w_next_conn_id_ (v : Z) (r : World) : World :=
  mkWorld (w_tid r) (w_errno r) (w_hist r) (w_chans r) (w_timers r)
    (w_loops r) (w_conns r) (w_accs r) (w_servers r) (w_tls r) v
    (w_next_index_ r).
Definition set_w_next_index_ (v : Z) (r : World) : World :=
  mkWorld (w_tid r) (w_errno r) (w_hist r) (w_chans r) (w_timers r)
    (w_loops r) (w_conns r) (w_accs r) (w_servers r) (w_tls r)
    (w_next_conn_id_ r) v.

(** What no channel, timer or connection operation touches. *)
Definition others (w : World) := (w_accs w, w_servers w, w_tls w, w_next_conn_id_ w, w_next_index_ w).

Class UserCode := user_run : ucall → M World ().

(** ** Access to the world *)

Definition get_chan (c : nat) : M World Channel := w ← get; deref (w_chans w !! c).
Definition get_loop (l : nat) : M World EventLoop := w ← get; deref (w_loops w !! l).
Definition get_conn (c : nat) : M World TcpConnection := w ← get; deref (w_conns w !! c).
Definition get_timer (t : nat) : M World Timer := w ← get; deref (w_timers w !! t).

Definition get_acc (a : nat) : M World Acceptor := w ← get; deref (w_accs w !! a).
Definition get_server (s : nat) : M World TcpServer := w ← get; deref (w_servers w !! s).

Definition alter_chan (f : Channel → Channel) (c : nat) : M World () :=
  modify (λ w, set_w_chans (alter f c (w_chans w)) w).
Definition alter_loop (f : EventLoop → EventLoop) (l : nat) : M World () :=
  modify (λ w, set_w_loops (alter f l (w_loops w)) w).
Definition alter_conn (f : TcpConnection → TcpConnection) (c : nat) : M World () :=
  modify (λ w, set_w_conns (alter f c (w_conns w)) w).
Definition alter_timer (f : Timer → Timer) (t : nat) : M World () :=
  modify (λ w, set_w_timers (alter f t (w_timers w)) w).

Definition alter_acc (f : Acceptor → Acceptor) (a : nat) : M World () :=
  modify (λ w, set_w_accs (alter f a (w_accs w)) w).
Definition alter_server (f : TcpServer → TcpServer) (s : nat) : M World () :=
  modify (λ w, set_w_servers (alter f s (w_servers w)) w).

Definition alter_poller (f : EPoller → EPoller) : nat → M World () :=
  alter_loop (λ lp, set_el_poller_ (f (el_poller_ lp)) lp).
Definition alter_tq (f : TimerQueue → TimerQueue) : nat → M World () :=
  alter_loop (λ lp, set_el_timer_queue_ (f (el_timer_queue_ lp)) lp).

Section access_rules.
Implicit Types w : World.

Lemma wp_get_chan c ch Q E w :
  w_chans w !! c = Some ch → Q ch w → wp (get_chan c) Q E w.
Proof. intros H HQ. rw /get_chan. do 2 wp_step. by rw H. Qed.
Lemma wp_get_loop l lp Q E w :
  w_loops w !! l = Some lp → Q lp w → wp (get_loop l) Q E w.
Proof. intros H HQ. rw /get_loop. do 2 wp_step. by rw H. Qed.
Lemma wp_get_conn c cn Q E w :
  w_conns w !! c = Some cn → Q cn w → wp (get_conn c) Q E w.
Proof. intros H HQ. rw /get_conn. do 2 wp_step. by rw H. Qed.
Lemma wp_get_timer t tm Q E w :
  w_timers w !! t = Some tm → Q tm w → wp (get_timer t) Q E w.
Proof. intros H HQ. rw /get_timer. do 2 wp_step. by rw H. Qed.
End access_rules.

(** [BELOG_CRITICAL] ends the process. *)
Definition critical {A} : M World A := crash Exit2.

Section environment.
Context {os : OS} {user : UserCode}.

(** Issue a system call: the answer depends on the history, [errno] is set
    when it fails. *)
Definition syscall (c : call) : M World reply := λ w,
  let r := os_reply (w_hist w) c in
  Done r (set_w_hist (w_hist w ++ [Sys c r])
           (set_w_errno (if r_ret r <? 0 then r_errno r else w_errno w) w)).

(** The world after a system call. *)
Definition after_call (c : call) (w : World) : World :=
  let r := os_reply (w_hist w) c in
  set_w_hist (w_hist w ++ [Sys c r])
    (set_w_errno (if r_ret r <? 0 then r_errno r else w_errno w) w).

Lemma wp_syscall c Q E w :
  wp (syscall c) Q E w ↔ Q (os_reply (w_hist w) c) (after_call c w).
Proof. done. Qed.

Definition errno : M World Z := gets w_errno.

(** [TimeClock::now()], in nanoseconds. *)
Definition now : M World Z := λ w,
  let r := os_reply (w_hist w) ClockNow in
  Done (r_ret r) (set_w_hist (w_hist w ++ [Sys ClockNow r]) w).

Definition after_now (w : World) : World :=
  set_w_hist (w_hist w ++ [Sys ClockNow (os_reply (w_hist w) ClockNow)]) w.

Lemma wp_now Q E w :
  wp now Q E w ↔ Q (r_ret (os_reply (w_hist w) ClockNow)) (after_now w).
Proof. done. Qed.

(** Call application code. *)
Definition call_user (u : ucall) : M World () :=
  modify (λ w, set_w_hist (w_hist w ++ [User u]) w) ;; user_run u.
End environment.
