(* ===== verification/Kernel.v ===== *)
(** * Kernel: documented laws of the system calls

    The environment [OS] answers calls arbitrarily; a theorem that relies on
    the manual page of a call names the law as one of the classes below.
    [sample_os] is a small kernel that satisfies all of them: it accepts
    short writes of at most four bytes, reports every registered descriptor
    as readable, and has a clock that advances with the history. *)

From S2P Require Import Prelude Buffer World.

(** Address families (sys/socket.h). *)
Definition AF_INET : Z := 2.
Definition AF_INET6 : Z := 10.

(** epoll_ctl(2) documents EBADF, EINVAL and ENOENT as the only errors of
    EPOLL_CTL_DEL: removing a registered descriptor succeeds. *)
Class EpollDelOk (os : OS) : Prop :=
  epoll_del_ok : ∀ h epfd fd ev ptr, is_Some (interest epfd h !! fd) →
    r_ret (os h (EpollCtl epfd EPOLL_CTL_DEL fd ev ptr)) = 0.

(** epoll_ctl(2) returns 0 or -1. *)
Class EpollCtlRet (os : OS) : Prop :=
  epoll_ctl_ret : ∀ h epfd op fd ev ptr,
    let r := r_ret (os h (EpollCtl epfd op fd ev ptr)) in r = 0 ∨ r < 0.

(** What epoll_wait(2) documents: at most [maxevents] events, for distinct
    descriptors of the interest list, each carrying its [data]. *)
Class EpollWaitOk (os : OS) : Prop := epoll_wait_ok : ∀ h epfd maxevents timeout,
  0 < maxevents →
  let r := os h (EpollWait epfd maxevents timeout) in
  r_ret r ≤ maxevents ∧ ∃ fds, length fds = Z.to_nat (r_ret r) ∧ NoDup fds ∧
  Forall2 (λ fd e, ∃ ev0, interest epfd h !! fd = Some (ev0, e.2)) fds (r_events r).

(** send(2) sends at most the bytes it was given. *)
Class SendOk (os : OS) : Prop := send_ok : ∀ h fd d,
  r_ret (os h (SysSend fd d)) ≤ zlength d.

(** readv(2) fills at most the areas it was given and returns how much. *)
Class ReadvOk (os : OS) : Prop := sys_readv_ok : ∀ h fd,
  readv_ok (λ iov, let r := os h (SysReadv fd iov) in (r_ret r, r_data r)).

(** The clock as last read. *)
Definition clock_step (t : Z) (e : event) : Z :=
  match e with Sys ClockNow r => r_ret r | _ => t end.
Definition clock (h : list event) : Z := foldl clock_step 0 h.

(** [TimeClock] is [std::chrono::system_clock], which an administrator can
    set back; the theorems that compare its readings assume that nobody does
    while the loop runs, and that it shows a time after the epoch. *)
Class ClockNotSetBack (os : OS) : Prop := {
  clock_after_epoch : ∀ h, 0 ≤ r_ret (os h ClockNow);
  clock_not_set_back : ∀ h, clock h ≤ r_ret (os h ClockNow);
}.

Lemma clock_app h e : clock (h ++ [e]) = clock_step (clock h) e.
Proof. by rw /clock foldl_app. Qed.

(** bind(2), ipv6(7): EINVAL when the address is shorter than its family
    needs; AF_INET6 needs more than the 16 bytes of a [sockaddr]. *)
Class BindLength (host : endian) (os : OS) : Prop := bind_length : ∀ h fd addr len,
  take 2 addr = object_bytes host 2 AF_INET6 → len < 24 →
  r_ret (os h (SysBind fd addr len)) < 0.

(** Calls that return a new descriptor. *)
Definition creates (c : call) : bool :=
  match c with
  | EventfdCreate | TimerfdCreate | EpollCreate | SysOpenNull | SysSocket _
  | SysAccept4 _ _ | SysAccept _ => true
  | _ => false
  end.

(** The descriptors that these calls opened and nothing has closed. *)
Definition fds_step (m : gset Z) (e : event) : gset Z :=
  match e with
  | Sys (SysClose fd) _ => m ∖ {[fd]}
  | Sys c r => if creates c && (0 <=? r_ret r) then {[r_ret r]} ∪ m else m
  | User _ => m
  end.
Definition open_fds (h : list event) : gset Z := foldl fds_step ∅ h.

Lemma open_fds_app h e : open_fds (h ++ [e]) = fds_step (open_fds h) e.
Proof. by rw /open_fds foldl_app. Qed.

(** open(2), socket(2) and the others: a new descriptor is not one that is
    open already. *)
Class FdFresh (os : OS) : Prop :=
  fd_fresh : ∀ h c, creates c = true → r_ret (os h c) ∉ open_fds h.

(** Addresses from the heap are new and not null. *)
Class HeapFresh (heap : Heap) : Prop :=
  heap_fresh : ∀ used, (heap_new used ∉ used) ∧ heap_new used ≠ O.

(** ** A small kernel *)

Definition EINVAL : Z := 22.

Definition ok (n : Z) : reply := mkReply n 0 [] [].

(** The next descriptor. *)
Definition next_fd (h : list event) : Z := 1 + foldr Z.max 2 (elements (open_fds h)).

(** The bytes every read delivers. *)
Definition sample_data : list byte := [Byte.x68; Byte.x69].

Definition sample_os : OS := λ h c,
  match c with
  | EpollWait epfd maxevents _ =>
      let ready := take (Z.to_nat maxevents) (map_to_list (interest epfd h)) in
      mkReply (zlength ready) 0 [] ((λ x, (1, x.2.2)) <$> ready)
  | SysSend _ d => ok (Z.min 4 (zlength d))
  | SysReadv _ iov => let d := take (Z.to_nat (foldr Z.add 0 iov)) sample_data in
                      mkReply (zlength d) 0 d []
  | EventfdWrite _ _ | EventfdRead _ | TimerfdRead _ => ok 8
  | EventfdCreate | TimerfdCreate | EpollCreate | SysOpenNull | SysSocket _
  | SysAccept4 _ _ | SysAccept _ => ok (next_fd h)
  | SysBind _ addr len =>
      if bool_decide (take 2 addr = object_bytes LittleEndian 2 AF_INET6) && (len <? 24)
      then mkReply (-1) EINVAL [] [] else ok 0
  | ClockNow => ok (Z.max 0 (clock h) + 1000)
  | _ => ok 0
  end.

#[export] Instance sample_del_ok : EpollDelOk sample_os.
Proof. done. Qed.
#[export] Instance sample_ctl_ret : EpollCtlRet sample_os.
Proof. by left. Qed.
#[export] Instance sample_wait_ok : EpollWaitOk sample_os.
Proof.
  intros h epfd n timeout Hn. simpl. set (ready := take _ _).
  assert (zlength ready ≤ n) by (rw /zlength length_take; lia). split; [done|].
  exists ready.*1. split_and!.
  - rw length_fmap /zlength. lia.
  - rw /ready fmap_take. eapply sublist_NoDup; [apply (NoDup_fst_map_to_list (interest epfd h))|apply sublist_take].
  - apply Forall2_fmap_2, Forall_Forall2_diag, Forall_forall.
    intros [fd [ev p]] Hin. exists ev. simpl. apply elem_of_map_to_list.
    eapply subseteq_take, Hin.
Qed.
#[export] Instance sample_send_ok : SendOk sample_os.
Proof. intros h fd d. simpl. lia. Qed.
#[export] Instance sample_readv_law : ReadvOk sample_os.
Proof.
  intros h fd iov Hpos _. simpl. split; [done|].
  assert (0 ≤ foldr Z.add 0 iov) by (induction Hpos; simpl; lia).
  rw /zlength length_take. lia.
Qed.

#[export] Instance sample_clock_not_set_back : ClockNotSetBack sample_os.
Proof. split; intros h; simpl; lia. Qed.

#[export] Instance sample_bind_length : BindLength LittleEndian sample_os.
Proof.
  intros h fd addr len Hf Hlen. simpl. rw bool_decide_eq_true_2 //.
  by destruct (Z.ltb_spec len 24); [|lia].
Qed.

#[export] Instance sample_fd_fresh : FdFresh sample_os.
Proof.
  intros h c Hc. assert (r_ret (sample_os h c) = next_fd h) as -> by by destruct c.
  rw /next_fd -elem_of_elements. generalize (elements (open_fds h)) as fds. intros fds Hin.
  assert (∀ x, x ∈ fds → x ≤ foldr Z.max 2 fds) as Hmax.
  { clear. induction fds as [|y fds IH]; intros x; [by intros ?%elem_of_nil|].
    intros [-> |Hx%IH]%elem_of_cons; simpl; lia. }
  apply Hmax in Hin. lia.
Qed.

(** Addresses are handed out above those in use. *)
#[export] Instance sample_heap : Heap := λ used, S (max_list (elements used)).
#[export] Instance sample_heap_fresh : HeapFresh sample_heap.
Proof.
  intros used. split; [|done]. rw /heap_new /sample_heap. intros Hin%elem_of_elements.
  apply max_list_elem_of_le in Hin. lia.
Qed.
