(* ===== verification/Poller.v ===== *)
(** * Poller: EPoller of src/poller.cpp and the event masks of Channel

    The poller keeps three views of a channel in step: the [channels_] map,
    the channel's own [index_], and the kernel's interest list, which is
    computed from the history of epoll_ctl(2) calls.  [poller_inv] states
    how they agree; every operation of the poller preserves it and only
    issues epoll_ctl calls that fit the interest list ([ctl_ok]). *)

From S2P Require Import Prelude Buffer World Kernel.

(** ** Event masks (sys/epoll.h, src/channel.cpp) *)

Definition EPOLLIN : Z := 1.
Definition EPOLLPRI : Z := 2.
Definition EPOLLOUT : Z := 4.
Definition EPOLLERR : Z := 8.
Definition EPOLLHUP : Z := 16.
Definition EPOLLRDHUP : Z := 8192.

Definition kNoneEvent : Z := 0.
Definition kReadEvent : Z := Z.lor EPOLLIN EPOLLPRI.
Definition kWriteEvent : Z := EPOLLOUT.

(** A mask used as a condition. *)
Definition test (mask ev : Z) : bool := negb (Z.land mask ev =? 0).

Definition IsNoneEvent (ch : Channel) : bool := ch_events_ ch =? kNoneEvent.
Definition IsReadEvent (ch : Channel) : bool := test (ch_events_ ch) kReadEvent.
Definition IsWriteEvent (ch : Channel) : bool := test (ch_events_ ch) kWriteEvent.

(** ** EPoller *)

Definition kEventsSize : Z := 32.
Definition kNewChannel : Z := -1.
Definition kAddedChannel : Z := 1.
Definition kDeletedChannel : Z := 2.

(** The state of a poller just constructed on [epoll_fd]. *)
Definition EPoller_new (epoll_fd : Z) : EPoller := mkEPoller ∅ epoll_fd kEventsSize.

Section operations.
Context {os : OS}.

(** [event.data.ptr] is the channel's address; the [int] mask becomes the
    [uint32_t] of [epoll_event]. *)
Definition update_epoll_operation (l : nat) (operation : Z) (c : nat) : M World () :=
  ch ← get_chan c;
  lp ← get_loop l;
  r ← syscall (EpollCtl (ep_epoll_fd_ (el_poller_ lp)) operation (ch_fd_ ch)
                 (wrap_u 4 (ch_events_ ch)) c);
  if r_ret r <? 0 then
    if operation =? EPOLL_CTL_DEL then mret () else critical
  else mret ().

Definition EPoller_UpdateChannel (l c : nat) : M World () :=
  ch ← get_chan c;
  let fd := ch_fd_ ch in
  let index := ch_index_ ch in
  if (index =? kNewChannel) || (index =? kDeletedChannel) then
    when (index =? kNewChannel)
      (alter_poller (λ ep, set_ep_channels_ (<[fd := c]> (ep_channels_ ep)) ep) l) ;;
    update_epoll_operation l EPOLL_CTL_ADD c ;;
    alter_chan (set_ch_index_ kAddedChannel) c
  else if IsNoneEvent ch then
    update_epoll_operation l EPOLL_CTL_DEL c ;;
    alter_chan (set_ch_index_ kDeletedChannel) c
  else update_epoll_operation l EPOLL_CTL_MOD c.

Definition EPoller_RemoveChannel (l c : nat) : M World () :=
  ch ← get_chan c;
  let fd := ch_fd_ ch in
  let index := ch_index_ ch in
  alter_poller (λ ep, set_ep_channels_ (delete fd (ep_channels_ ep)) ep) l ;;
  when (index =? kAddedChannel) (update_epoll_operation l EPOLL_CTL_DEL c) ;;
  alter_chan (set_ch_index_ kNewChannel) c.

Definition Poller_HasChannel (l c : nat) : M World bool :=
  ch ← get_chan c;
  lp ← get_loop l;
  mret (bool_decide (ep_channels_ (el_poller_ lp) !! ch_fd_ ch = Some c)).

(** [fill_actives]: for every ready event, store its mask into the channel
    it points to and collect the channel. *)
Fixpoint fill_actives (evs : list (Z * nat)) (actives : list nat) : M World (list nat) :=
  match evs with
  | [] => mret actives
  | (ev, c) :: evs' =>
      _ ← get_chan c;
      alter_chan (set_ch_revents_ (wrap_s 4 ev)) c ;;
      fill_actives evs' (actives ++ [c])
  end.

(** [Poll]: returns the new [actives] and the time.  [1.5 * n_readys] is
    exact in a [double] for every [int], so its conversion to [size_t] is
    the integer quotient. *)
Definition EPoller_Poll (l : nat) (timeout_ms : Z) (actives : list nat) : M World (Z * list nat) :=
  lp ← get_loop l;
  let ep := el_poller_ lp in
  r ← syscall (EpollWait (ep_epoll_fd_ ep) (ep_events_size ep) timeout_ms);
  let n_readys := r_ret r in
  t ← now;
  if 0 <? n_readys then
    actives' ← fill_actives (take (Z.to_nat n_readys) (r_events r)) actives;
    when (ep_events_size ep =? n_readys)
      (alter_poller (set_ep_events_size (3 * n_readys / 2)) l) ;;
    mret (t, actives')
  else if n_readys =? 0 then mret (t, actives)
  else
    e ← errno;
    if negb (e =? EINTR) then critical else mret (t, actives).
End operations.

(** ** The interest list *)

(** An epoll_ctl(2) call that fits the interest list it meets: the kernel
    never has a reason to answer EEXIST or ENOENT. *)
Definition ctl_fits (epfd : Z) (h : list event) (c : call) : Prop :=
  match c with
  | EpollCtl ep op fd _ _ =>
      ep = epfd →
      if op =? EPOLL_CTL_ADD then interest epfd h !! fd = None
      else is_Some (interest epfd h !! fd)
  | _ => True
  end.

(** Every epoll_ctl call of a history fitted when it was made. *)
Definition ctl_ok (epfd : Z) (h : list event) : Prop :=
  ∀ h1 c r h2, h = h1 ++ Sys c r :: h2 → ctl_fits epfd h1 c.

Lemma interest_snoc epfd h e :
  interest epfd (h ++ [e]) = interest_step epfd (interest epfd h) e.
Proof. by rw /interest foldl_app. Qed.

Lemma ctl_ok_snoc epfd h e :
  ctl_ok epfd h → (∀ c r, e = Sys c r → ctl_fits epfd h c) → ctl_ok epfd (h ++ [e]).
Proof.
  intros Hok He h1 c r h2 Heq.
  destruct (decide (h2 = [])) as [->|Hne].
  - apply app_inj_tail in Heq as [<- ->]. eauto.
  - destruct (exists_last Hne) as (h2' & e' & ->).
    rw app_comm_cons app_assoc in Heq. apply app_inj_tail in Heq as [-> _]. eauto.
Qed.

(** ** The invariant *)

Section invariant.

(** What the interest list holds for a registered channel. *)
Definition registration (w : World) (c : nat) : option (Z * nat) :=
  ch ← w_chans w !! c;
  if ch_index_ ch =? kAddedChannel then Some (wrap_u 4 (ch_events_ ch), c) else None.

(** The three views of a channel agree.  [dirty] names a channel whose
    [events_] were just changed and not yet passed on. *)
Record poller_inv (dirty : option nat) (l : nat) (w : World) : Prop := {
  pi_map : ∀ lp fd c, w_loops w !! l = Some lp →
    ep_channels_ (el_poller_ lp) !! fd = Some c →
    ∃ ch, w_chans w !! c = Some ch ∧ ch_fd_ ch = fd ∧ ch_loop_ ch = l ∧
      (ch_index_ ch = kAddedChannel ∨ ch_index_ ch = kDeletedChannel);
  pi_chan : ∀ lp c ch, w_loops w !! l = Some lp →
    w_chans w !! c = Some ch → ch_loop_ ch = l → ch_index_ ch ≠ kNewChannel →
    ep_channels_ (el_poller_ lp) !! ch_fd_ ch = Some c;
  pi_interest : ∀ lp fd, w_loops w !! l = Some lp →
    match ep_channels_ (el_poller_ lp) !! fd with
    | Some c =>
        if bool_decide (dirty = Some c)
        then (snd <$> interest (ep_epoll_fd_ (el_poller_ lp)) (w_hist w) !! fd) =
             (snd <$> registration w c)
        else interest (ep_epoll_fd_ (el_poller_ lp)) (w_hist w) !! fd = registration w c
    | None => interest (ep_epoll_fd_ (el_poller_ lp)) (w_hist w) !! fd = None
    end;
  pi_ctl : ∀ lp, w_loops w !! l = Some lp →
    ctl_ok (ep_epoll_fd_ (el_poller_ lp)) (w_hist w);
}.
End invariant.

Section preservation.
Context {os : OS} `{!EpollDelOk os, !EpollCtlRet os}.
Implicit Types w : World.

(** One epoll_ctl call: on success the interest list follows, a failing
    EPOLL_CTL_DEL is only logged, any other failure ends the process. *)
Lemma update_epoll_operation_ok l op c ch lp Q E w :
  w_chans w !! c = Some ch → w_loops w !! l = Some lp →
  let epfd := ep_epoll_fd_ (el_poller_ lp) in
  let ev := wrap_u 4 (ch_events_ ch) in
  let k := EpollCtl epfd op (ch_fd_ ch) ev c in
  ctl_fits epfd (w_hist w) k →
  op = EPOLL_CTL_ADD ∨ op = EPOLL_CTL_MOD ∨ op = EPOLL_CTL_DEL →
  (r_ret (os_reply (w_hist w) k) = 0 → Q () (after_call k w)) →
  (op ≠ EPOLL_CTL_DEL → E Exit2 (after_call k w)) →
  wp (update_epoll_operation l op c) Q E w.
Proof.
  intros Hc Hl epfd ev k Hfits Hop HQ HE. rw /update_epoll_operation.
  wp_step. eapply wp_get_chan; [done|]. wp_step. eapply wp_get_loop; [done|].
  wp_step. apply wp_syscall. fold epfd ev k.
  destruct (epoll_ctl_ret (w_hist w) epfd op (ch_fd_ ch) ev c) as [Hr|Hr];
    rw -/k -/(os_reply (w_hist w) k) in Hr.
  - rw Hr /=. wp_step. eauto.
  - destruct (Z.ltb_spec (r_ret (os_reply (w_hist w) k)) 0); [|lia].
    destruct (Z.eqb_spec op EPOLL_CTL_DEL) as [->|Hne]; [|by apply HE].
    simpl in Hfits. pose proof (epoll_del_ok (w_hist w) epfd (ch_fd_ ch) ev c (Hfits eq_refl)) as H0.
    rw -/k -/(os_reply (w_hist w) k) in H0. lia.
Qed.

(** What a poller operation on channel [c] of loop [l] changes: the index
    becomes [i], the map of the loop's poller, and at most one epoll_ctl
    call is made. *)
Record poll_frame (l c : nat) (i : Z) (w w' : World) : Prop := {
  pf_tid : w_tid w' = w_tid w;
  pf_conns : w_conns w' = w_conns w;
  pf_timers : w_timers w' = w_timers w;
  pf_chan : w_chans w' = alter (set_ch_index_ i) c (w_chans w);
  pf_loops : ∃ m, w_loops w' =
    alter (λ lp, set_el_poller_ (set_ep_channels_ m (el_poller_ lp)) lp) l (w_loops w);
  pf_hist : w_hist w' = w_hist w ∨ ∃ epfd op fd ev r,
    w_hist w' = w_hist w ++ [Sys (EpollCtl epfd op fd ev c) r];
  pf_others : others w' = others w;
}.

(** How the views look after [c] was (re-)registered with index [i]. *)
Lemma poller_inv_update l c ch lp lp' i w w' :
  poller_inv (Some c) l w →
  w_chans w !! c = Some ch → ch_loop_ ch = l → w_loops w !! l = Some lp →
  (ch_index_ ch = kNewChannel → ep_channels_ (el_poller_ lp) !! ch_fd_ ch = None) →
  i = kAddedChannel ∨ i = kDeletedChannel →
  w_chans w' = alter (set_ch_index_ i) c (w_chans w) →
  w_loops w' !! l = Some lp' →
  el_poller_ lp' =
    set_ep_channels_ (<[ch_fd_ ch := c]> (ep_channels_ (el_poller_ lp))) (el_poller_ lp) →
  let epfd := ep_epoll_fd_ (el_poller_ lp) in
  interest epfd (w_hist w') =
    (if i =? kAddedChannel then <[ch_fd_ ch := (wrap_u 4 (ch_events_ ch), c)]>
     else delete (ch_fd_ ch)) (interest epfd (w_hist w)) →
  ctl_ok epfd (w_hist w') →
  poller_inv None l w'.
Proof.
  intros Hinv Hc Hcl Hl Hnew Hi Hch' Hl' Hp' epfd Hint Hctl.
  assert (w_chans w' !! c = Some (set_ch_index_ i ch)) as Hc'.
  { by rw Hch' lookup_alter_eq Hc. }
  assert (∀ c', c' ≠ c → w_chans w' !! c' = w_chans w !! c') as Hne.
  { intros c' ?. by rw Hch' lookup_alter_ne. }
  assert (∀ lp0, w_loops w' !! l = Some lp0 → lp0 = lp') as Huniq by (intros; congruence).
  split.
  - intros lp0 fd c' ->%Huniq. rw Hp' /=. intros [[<- <-]|[Hfd Hm]]%lookup_insert_Some.
    { exists (set_ch_index_ i ch). simpl. naive_solver. }
    destruct (pi_map _ _ _ Hinv lp fd c' Hl Hm) as (ch0 & Hc0 & ? & ? & ?).
    exists ch0. rw Hne; [congruence|done].
  - intros lp0 c' ch' ->%Huniq Hch Hloop Hidx. rw Hp' /=.
    destruct (decide (c' = c)) as [->|Hcc]; [simplify_eq; by rw lookup_insert_eq|].
    rw Hne // in Hch.
    pose proof (pi_chan _ _ _ Hinv lp c' ch' Hl Hch Hloop Hidx) as Hm.
    rw lookup_insert_ne //. intros Heq. rw -Heq in Hm.
    destruct (decide (ch_index_ ch = kNewChannel)) as [Hn|Hn].
    + rw Hnew // in Hm.
    + rw (pi_chan _ _ _ Hinv lp c ch) // in Hm. congruence.
  - intros lp0 fd ->%Huniq. rw Hp' /= -/epfd Hint.
    pose proof (pi_interest _ _ _ Hinv lp fd Hl) as Hold.
    destruct (decide (fd = ch_fd_ ch)) as [->|Hfd].
    + rw lookup_insert_eq /= /registration Hc' /=.
      destruct Hi as [->| ->]; simpl; [apply lookup_insert_eq|apply lookup_delete_eq].
    + rw lookup_insert_ne //.
      assert (∀ x, (if i =? kAddedChannel then <[ch_fd_ ch := x]> else delete (ch_fd_ ch))
        (interest epfd (w_hist w)) !! fd = interest epfd (w_hist w) !! fd) as ->.
      { intros x. destruct (i =? kAddedChannel); by simplify_map_eq. }
      destruct (ep_channels_ (el_poller_ lp) !! fd) as [c'|] eqn:Hm; [|done]. simpl.
      destruct (pi_map _ _ _ Hinv lp fd c' Hl Hm) as (ch0 & Hc0 & ? & ? & ?).
      assert (c' ≠ c) as Hcc by congruence.
      rw bool_decide_eq_false_2 in Hold; [congruence|].
      rw Hold /registration Hne //.
  - intros lp0 ->%Huniq. by rw Hp'.
Qed.

(** How the views look after [c] was taken out. *)
Lemma poller_inv_remove d l c ch lp lp' w w' :
  poller_inv d l w → (d = None ∨ d = Some c) →
  w_chans w !! c = Some ch → ch_loop_ ch = l → w_loops w !! l = Some lp →
  (ch_index_ ch = kNewChannel → ep_channels_ (el_poller_ lp) !! ch_fd_ ch = None) →
  w_chans w' = alter (set_ch_index_ kNewChannel) c (w_chans w) →
  w_loops w' !! l = Some lp' →
  el_poller_ lp' =
    set_ep_channels_ (delete (ch_fd_ ch) (ep_channels_ (el_poller_ lp))) (el_poller_ lp) →
  let epfd := ep_epoll_fd_ (el_poller_ lp) in
  interest epfd (w_hist w') = delete (ch_fd_ ch) (interest epfd (w_hist w)) →
  ctl_ok epfd (w_hist w') →
  poller_inv None l w'.
Proof.
  intros Hinv Hd Hc Hcl Hl Hnew Hch' Hl' Hp' epfd Hint Hctl.
  assert (w_chans w' !! c = Some (set_ch_index_ kNewChannel ch)) as Hc'.
  { by rw Hch' lookup_alter_eq Hc. }
  assert (∀ c', c' ≠ c → w_chans w' !! c' = w_chans w !! c') as Hne.
  { intros c' ?. by rw Hch' lookup_alter_ne. }
  assert (∀ lp0, w_loops w' !! l = Some lp0 → lp0 = lp') as Huniq by (intros; congruence).
  assert (∀ fd c', fd ≠ ch_fd_ ch → ep_channels_ (el_poller_ lp) !! fd = Some c' → c' ≠ c) as Hoth.
  { intros fd c' Hfd Hm ->. destruct (pi_map _ _ _ Hinv lp fd c Hl Hm) as (?&?&?&_). congruence. }
  split.
  - intros lp0 fd c' ->%Huniq. rw Hp' /=. intros [Hfd Hm]%lookup_delete_Some.
    destruct (pi_map _ _ _ Hinv lp fd c' Hl Hm) as (ch0 & Hc0 & ? & ? & ?).
    exists ch0. rw Hne //. by eapply Hoth, Hm.
  - intros lp0 c' ch' ->%Huniq Hch Hloop Hidx. rw Hp' /=.
    destruct (decide (c' = c)) as [->|Hcc]; [simplify_eq; done|].
    rw Hne // in Hch.
    pose proof (pi_chan _ _ _ Hinv lp c' ch' Hl Hch Hloop Hidx) as Hm.
    rw lookup_delete_ne //. intros Heq. rw -Heq in Hm.
    destruct (decide (ch_index_ ch = kNewChannel)) as [Hn|Hn].
    + rw Hnew // in Hm.
    + rw (pi_chan _ _ _ Hinv lp c ch) // in Hm. congruence.
  - intros lp0 fd ->%Huniq. rw Hp' /= -/epfd Hint.
    pose proof (pi_interest _ _ _ Hinv lp fd Hl) as Hold.
    destruct (decide (fd = ch_fd_ ch)) as [->|Hfd]; [by rw !lookup_delete_eq|].
    rw !lookup_delete_ne //.
    destruct (ep_channels_ (el_poller_ lp) !! fd) as [c'|] eqn:Hm; [|done]. simpl.
    assert (c' ≠ c) as Hcc by by eapply Hoth.
    rw bool_decide_eq_false_2 in Hold; [destruct Hd; congruence|].
    rw Hold /registration Hne //.
  - intros lp0 ->%Huniq. by rw Hp'.
Qed.

Lemma interest_ctl_ok epfd h op fd ev c r :
  r_ret r = 0 →
  interest epfd (h ++ [Sys (EpollCtl epfd op fd ev c) r]) =
  (if op =? EPOLL_CTL_DEL then delete fd else <[fd := (ev, c)]>) (interest epfd h).
Proof.
  intros Hr. rw interest_snoc /= Z.eqb_refl Hr /=. by destruct (op =? EPOLL_CTL_DEL).
Qed.

Lemma poller_inv_weaken c l w : poller_inv None l w → poller_inv (Some c) l w.
Proof.
  intros [H1 H2 H3 H4]. split; [done|done| |done]. intros lp fd Hl.
  specialize (H3 lp fd Hl). destruct (_ !! fd) as [c'|]; [|done]. simpl in H3.
  case_bool_decide; [by rw H3|done].
Qed.

(** Reading the registration of [c] off the invariant. *)
Lemma registered_view c l lp ch w :
  poller_inv (Some c) l w → w_loops w !! l = Some lp → w_chans w !! c = Some ch →
  ch_loop_ ch = l →
  (ch_index_ ch = kNewChannel → ep_channels_ (el_poller_ lp) !! ch_fd_ ch = None) →
  (ch_index_ ch = kAddedChannel →
     is_Some (interest (ep_epoll_fd_ (el_poller_ lp)) (w_hist w) !! ch_fd_ ch)) ∧
  (ch_index_ ch ≠ kAddedChannel →
     interest (ep_epoll_fd_ (el_poller_ lp)) (w_hist w) !! ch_fd_ ch = None) ∧
  (ch_index_ ch ≠ kNewChannel →
     ep_channels_ (el_poller_ lp) !! ch_fd_ ch = Some c ∧
     (ch_index_ ch = kAddedChannel ∨ ch_index_ ch = kDeletedChannel)).
Proof.
  intros Hinv Hl Hc Hcl Hnew.
  pose proof (pi_interest _ _ _ Hinv lp (ch_fd_ ch) Hl) as Hi.
  destruct (decide (ch_index_ ch = kNewChannel)) as [Hn|Hn].
  { rw Hnew // in Hi. split_and!; [by rw Hn|done|done]. }
  pose proof (pi_chan _ _ _ Hinv lp c ch Hl Hc Hcl Hn) as Hm.
  destruct (pi_map _ _ _ Hinv lp _ c Hl Hm) as (ch0 & ? & _ & _ & Hidx). simplify_eq.
  rw Hm bool_decide_eq_true_2 // /registration Hc /= in Hi.
  split_and!; [..|by intros].
  - intros Ha. rw Ha /= in Hi. destruct (interest _ _ !! _); [eauto|done].
  - intros Ha. destruct (Z.eqb_spec (ch_index_ ch) kAddedChannel); [done|].
    by destruct (interest _ _ !! _).
Qed.

(** Replacing the map of a poller. *)
Definition with_channels (m : gmap Z nat) (lp : EventLoop) : EventLoop :=
  set_el_poller_ (set_ep_channels_ m (el_poller_ lp)) lp.

Lemma with_channels_id l lp (loops : gmap nat EventLoop) :
  loops !! l = Some lp →
  alter (with_channels (ep_channels_ (el_poller_ lp))) l loops = loops.
Proof.
  intros Hl. apply alter_id. intros lp' ?. simplify_eq. by destruct lp as [? ? ? ? []].
Qed.

(** The conditional entry into [channels_]: afterwards the channel is
    there, whether it was new or only deleted from the interest list. *)
Lemma enter_channel_ok l c ch lp w :
  w_loops w !! l = Some lp →
  (ch_index_ ch ≠ kNewChannel → ep_channels_ (el_poller_ lp) !! ch_fd_ ch = Some c) →
  wp (when (ch_index_ ch =? kNewChannel)
        (alter_poller (λ ep, set_ep_channels_ (<[ch_fd_ ch := c]> (ep_channels_ ep)) ep) l))
    (λ _ w1, w1 = set_w_loops (alter (with_channels
       (<[ch_fd_ ch := c]> (ep_channels_ (el_poller_ lp)))) l (w_loops w)) w) only_exit w.
Proof.
  intros Hl Hreg. destruct (Z.eqb_spec (ch_index_ ch) kNewChannel) as [Hn|Hn]; simpl.
  - rw /alter_poller /alter_loop. wp_step. f_equal. apply alter_ext.
    intros lp' ?. by simplify_eq.
  - wp_step. rw insert_id; [by apply Hreg|]. rw with_channels_id //. by destruct w.
Qed.

(** The world with [c] entered into [channels_] and, at the end, with its
    new index. *)
Definition entered (l c : nat) (ch : Channel) (lp : EventLoop) (w : World) : World :=
  set_w_loops (alter (with_channels
    (<[ch_fd_ ch := c]> (ep_channels_ (el_poller_ lp)))) l (w_loops w)) w.
Definition indexed (i : Z) (c : nat) (w : World) : World :=
  set_w_chans (alter (set_ch_index_ i) c (w_chans w)) w.

Lemma entered_id l c ch lp w :
  w_loops w !! l = Some lp → ep_channels_ (el_poller_ lp) !! ch_fd_ ch = Some c →
  entered l c ch lp w = w.
Proof. intros Hl Hm. rw /entered insert_id // with_channels_id //. by destruct w. Qed.

Lemma indexed_id i c ch w :
  w_chans w !! c = Some ch → ch_index_ ch = i → indexed i c w = w.
Proof.
  intros Hc Hi. rw /indexed alter_id; [|by destruct w].
  intros ch' ?. simplify_eq. by destruct ch.
Qed.

(** The common part of the three branches: one fitting epoll_ctl call on an
    entered channel, then the index that belongs to it. *)
Lemma ctl_registers_ok op l c ch lp w :
  poller_inv (Some c) l w → w_chans w !! c = Some ch → ch_loop_ ch = l →
  w_loops w !! l = Some lp →
  (ch_index_ ch = kNewChannel → ep_channels_ (el_poller_ lp) !! ch_fd_ ch = None) →
  op = EPOLL_CTL_ADD ∨ op = EPOLL_CTL_MOD ∨ op = EPOLL_CTL_DEL →
  let epfd := ep_epoll_fd_ (el_poller_ lp) in
  let i := if op =? EPOLL_CTL_DEL then kDeletedChannel else kAddedChannel in
  ctl_fits epfd (w_hist w) (EpollCtl epfd op (ch_fd_ ch) (wrap_u 4 (ch_events_ ch)) c) →
  wp (update_epoll_operation l op c)
    (λ _ w2, poller_inv None l (indexed i c w2) ∧ poll_frame l c i w (indexed i c w2) ∧
       w_chans w2 !! c = Some ch)
    only_exit (entered l c ch lp w).
Proof.
  intros Hinv Hc Hcl Hl Hnew Hop epfd i Hfits.
  set (m' := <[ch_fd_ ch := c]> (ep_channels_ (el_poller_ lp))).
  assert (Hl' : w_loops (entered l c ch lp w) !! l = Some (with_channels m' lp)).
  { by rw /entered /= lookup_alter_eq Hl. }
  eapply (update_epoll_operation_ok l op c ch (with_channels m' lp)); [done|done|exact Hfits|done| |done].
  intros Hr. simpl in Hr. split_and!.
  - eapply (poller_inv_update l c ch lp (with_channels m' lp) i w); try done.
    + rw /i. destruct (op =? EPOLL_CTL_DEL); auto.
    + simpl. rw -/epfd interest_ctl_ok // /i. by destruct (op =? EPOLL_CTL_DEL).
    + simpl. apply ctl_ok_snoc; [by eapply pi_ctl|]. by intros ? ? [= <- <-].
  - split; simpl; try done; [by exists m'|]. right. by repeat eexists.
  - done.
Qed.

(** The [index_] a channel has after an update. *)
Definition next_index (ch : Channel) : Z :=
  if (ch_index_ ch =? kNewChannel) || (ch_index_ ch =? kDeletedChannel) then kAddedChannel
  else if IsNoneEvent ch then kDeletedChannel else kAddedChannel.

Lemma next_index_cases ch : next_index ch = kAddedChannel ∨ next_index ch = kDeletedChannel.
Proof. rw /next_index. destruct (_ || _), (IsNoneEvent ch); auto. Qed.

Lemma EPoller_UpdateChannel_ok l c ch lp w :
  poller_inv (Some c) l w → w_chans w !! c = Some ch → ch_loop_ ch = l →
  w_loops w !! l = Some lp →
  (ch_index_ ch = kNewChannel → ep_channels_ (el_poller_ lp) !! ch_fd_ ch = None) →
  wp (EPoller_UpdateChannel l c)
    (λ _ w', poller_inv None l w' ∧ poll_frame l c (next_index ch) w w') only_exit w.
Proof.
  intros Hinv Hc Hcl Hl Hnew.
  destruct (registered_view c l lp ch w) as (Hadd & Hdel & Hreg); [done..|].
  rw /EPoller_UpdateChannel /next_index. wp_step. eapply wp_get_chan; [done|].
  destruct ((ch_index_ ch =? kNewChannel) || (ch_index_ ch =? kDeletedChannel)) eqn:Hidx.
  - wp_step. eapply wp_conseq; [apply (enter_channel_ok l c ch lp); [done|by apply Hreg]|].
    intros [] w1 ->. wp_step. eapply wp_conseq.
    { apply (ctl_registers_ok EPOLL_CTL_ADD l c ch lp w); auto.
      intros _. apply Hdel. unfold kNewChannel, kDeletedChannel, kAddedChannel in *; lia. }
    intros [] w2 (? & ? & _). rw /alter_chan. wp_step. eauto.
  - destruct Hreg as [Hm Hidx']; [unfold kNewChannel in *; lia|].
    assert (ch_index_ ch = kAddedChannel) as Ha
      by (unfold kNewChannel, kDeletedChannel, kAddedChannel in *; lia).
    pose proof (entered_id l c ch lp w Hl Hm) as Hw.
    destruct (IsNoneEvent ch).
    + wp_step. rw -{2}Hw. eapply wp_conseq.
      { apply (ctl_registers_ok EPOLL_CTL_DEL l c ch lp w); auto. intros _. by apply Hadd. }
      intros [] w2 (? & ? & _). rw /alter_chan. wp_step. eauto.
    + rw -{2}Hw. eapply wp_conseq.
      { apply (ctl_registers_ok EPOLL_CTL_MOD l c ch lp w); auto. intros _. by apply Hadd. }
      intros [] w2 (Hi & Hf & Hc2). rw (indexed_id _ c ch) // in Hi Hf.
Qed.

(** Taking [c] out of the map and the interest list settles the views; a
    channel that was not in the interest list needs no call. *)
Lemma remove_settles l c ch lp w w2 :
  poller_inv (Some c) l w → w_chans w !! c = Some ch → ch_loop_ ch = l →
  w_loops w !! l = Some lp →
  (ch_index_ ch = kNewChannel → ep_channels_ (el_poller_ lp) !! ch_fd_ ch = None) →
  let epfd := ep_epoll_fd_ (el_poller_ lp) in
  let m' := delete (ch_fd_ ch) (ep_channels_ (el_poller_ lp)) in
  w_tid w2 = w_tid w → w_conns w2 = w_conns w → w_timers w2 = w_timers w →
  others w2 = others w →
  w_chans w2 = w_chans w → w_loops w2 = alter (with_channels m') l (w_loops w) →
  (w_hist w2 = w_hist w ∧ interest epfd (w_hist w) !! ch_fd_ ch = None ∨
   ∃ ev r, r_ret r = 0 ∧ is_Some (interest epfd (w_hist w) !! ch_fd_ ch) ∧
     w_hist w2 = w_hist w ++ [Sys (EpollCtl epfd EPOLL_CTL_DEL (ch_fd_ ch) ev c) r]) →
  poller_inv None l (indexed kNewChannel c w2) ∧
  poll_frame l c kNewChannel w (indexed kNewChannel c w2).
Proof.
  intros Hinv Hc Hcl Hl Hnew epfd m' Ht Hcn Htm Hot Hch Hlo Hh.
  pose proof (pi_ctl _ _ _ Hinv lp Hl) as Hctl. split.
  - eapply (poller_inv_remove (Some c) l c ch lp (with_channels m' lp) w); try done; simpl.
    + by right.
    + by rw Hch.
    + by rw Hlo lookup_alter_eq Hl.
    + destruct Hh as [[-> Hn]|(ev & r & Hr & Hs & ->)]; [by rw delete_id|].
      by rw -/epfd interest_ctl_ok.
    + destruct Hh as [[-> Hn]|(ev & r & Hr & Hs & ->)]; [done|].
      apply ctl_ok_snoc; [done|]. intros ? ? [= <- <-]. by intros _.
  - split; simpl; try done; [by rw Hch|rw Hlo; by exists m'|].
    destruct Hh as [[-> Hn]|(ev & r & Hr & Hs & ->)]; [by left|right; by repeat eexists].
Qed.

Lemma EPoller_RemoveChannel_ok l c ch lp w :
  poller_inv (Some c) l w → w_chans w !! c = Some ch → ch_loop_ ch = l →
  w_loops w !! l = Some lp →
  (ch_index_ ch = kNewChannel → ep_channels_ (el_poller_ lp) !! ch_fd_ ch = None) →
  wp (EPoller_RemoveChannel l c)
    (λ _ w', poller_inv None l w' ∧ poll_frame l c kNewChannel w w') never w.
Proof.
  intros Hinv Hc Hcl Hl Hnew.
  destruct (registered_view c l lp ch w) as (Hadd & Hdel & Hreg); [done..|].
  rw /EPoller_RemoveChannel. wp_step. eapply wp_get_chan; [done|].
  wp_step. rw /alter_poller /alter_loop. wp_step. wp_step.
  set (m' := delete (ch_fd_ ch) (ep_channels_ (el_poller_ lp))).
  set (w1 := set_w_loops _ w).
  assert (Hloops : w_loops w1 = alter (with_channels m') l (w_loops w)).
  { simpl. apply alter_ext. intros lp' ?. by simplify_eq. }
  assert (Hl1 : w_loops w1 !! l = Some (with_channels m' lp)).
  { by rw Hloops lookup_alter_eq Hl. }
  set (epfd := ep_epoll_fd_ (el_poller_ lp)) in *.
  destruct (Z.eqb_spec (ch_index_ ch) kAddedChannel) as [Ha|Ha]; simpl.
  - eapply (update_epoll_operation_ok l EPOLL_CTL_DEL c ch (with_channels m' lp)); [done|done| |by right; right| |done].
    { intros _. by apply Hadd. }
    intros Hr. simpl in Hr. rw /alter_chan. wp_step.
    apply (remove_settles l c ch lp); try done. right. eauto 10.
  - wp_step. rw /alter_chan. wp_step.
    apply (remove_settles l c ch lp); try done. left. auto.
Qed.
End preservation.

(** ** Worlds a poller cannot tell apart *)

(** System calls other than epoll_ctl and close, and calls of application
    code, do not touch interest lists. *)
Definition quiet (e : event) : bool :=
  match e with Sys (EpollCtl _ _ _ _ _) _ | Sys (SysClose _) _ => false | _ => true end.

Lemma interest_quiet epfd h evs :
  forallb quiet evs = true → interest epfd (h ++ evs) = interest epfd h.
Proof.
  rw /interest foldl_app. generalize (foldl (interest_step epfd) ∅ h) as m.
  induction evs as [|e evs IH]; intros m Hq; [done|].
  simpl in Hq. apply andb_prop in Hq as [He Hq]. simpl. rw IH //.
  by destruct e as [[] ?|].
Qed.

Lemma ctl_ok_quiet epfd h evs :
  forallb quiet evs = true → ctl_ok epfd h → ctl_ok epfd (h ++ evs).
Proof.
  revert h. induction evs as [|e evs IH]; intros h Hq Hok; [by rw app_nil_r|].
  simpl in Hq. apply andb_prop in Hq as [He Hq].
  rw cons_middle app_assoc. apply IH; [done|]. apply ctl_ok_snoc; [done|].
  intros c r ->. by destruct c.
Qed.

(** What the poller reads of a channel. *)
Definition chan_core (ch : Channel) : nat * Z * Z * Z :=
  (ch_loop_ ch, ch_fd_ ch, ch_events_ ch, ch_index_ ch).

Definition poller_view (l : nat) (w : World) : option (gmap Z nat * Z) :=
  (λ lp, (ep_channels_ (el_poller_ lp), ep_epoll_fd_ (el_poller_ lp))) <$> w_loops w !! l.

Record poller_equiv (l : nat) (w w' : World) : Prop := {
  pe_view : poller_view l w = poller_view l w';
  pe_chans : ∀ c, chan_core <$> w_chans w !! c = chan_core <$> w_chans w' !! c;
  pe_interest : ∀ epfd, interest epfd (w_hist w) = interest epfd (w_hist w');
  pe_ctl : ∀ epfd, ctl_ok epfd (w_hist w) ↔ ctl_ok epfd (w_hist w');
}.

#[export] Instance poller_equiv_equivalence l : Equivalence (poller_equiv l).
Proof.
  split.
  - by split.
  - intros w w' []. split; intros; symmetry; auto.
  - intros w1 w2 w3 [] []. split; intros; etrans; eauto.
Qed.

Lemma poller_inv_equiv d l w w' : poller_equiv l w w' → poller_inv d l w → poller_inv d l w'.
Proof.
  intros [Hv Hch Hi Hct] [H1 H2 H3 H4].
  assert (∀ lp', w_loops w' !! l = Some lp' → ∃ lp, w_loops w !! l = Some lp ∧
    ep_channels_ (el_poller_ lp) = ep_channels_ (el_poller_ lp') ∧
    ep_epoll_fd_ (el_poller_ lp) = ep_epoll_fd_ (el_poller_ lp')) as Hlp.
  { intros lp' Hl'. rw /poller_view Hl' /= in Hv.
    destruct (w_loops w !! l) as [lp|]; simplify_eq/=. eauto. }
  assert (∀ c ch', w_chans w' !! c = Some ch' → ∃ ch, w_chans w !! c = Some ch ∧
    chan_core ch = chan_core ch') as Hback.
  { intros c ch' Hc. specialize (Hch c). rw Hc /= in Hch.
    destruct (w_chans w !! c) as [ch|]; [|done]. exists ch. split; [done|]. by apply (inj Some). }
  assert (∀ c, registration w' c = registration w c) as Hreg.
  { intros c. specialize (Hch c). rw /registration.
    destruct (w_chans w !! c) as [ch|], (w_chans w' !! c) as [ch'|]; try done.
    apply (inj Some) in Hch. unfold chan_core in Hch. simpl. by injection Hch as _ _ -> ->. }
  split.
  - intros lp' fd c Hl' Hm. destruct (Hlp _ Hl') as (lp & Hl & Heq & _).
    rw -Heq in Hm. destruct (H1 lp fd c Hl Hm) as (ch & Hc & Hrest).
    specialize (Hch c). rw Hc /= in Hch. destruct (w_chans w' !! c) as [ch'|]; [|done].
    exists ch'. apply (inj Some) in Hch. unfold chan_core in Hch. injection Hch as <- <- _ <-. done.
  - intros lp' c ch' Hl' Hc Hlo Hix. destruct (Hlp _ Hl') as (lp & Hl & Heq & _).
    destruct (Hback _ _ Hc) as (ch & Hc0 & Hcore). unfold chan_core in Hcore.
    injection Hcore as Hlo' Hfd' _ Hix'. rw -Heq -Hfd'. eapply H2; eauto; congruence.
  - intros lp' fd Hl'. destruct (Hlp _ Hl') as (lp & Hl & Heq1 & Heq2).
    specialize (H3 lp fd Hl). rw -Heq1 -Heq2 -Hi.
    destruct (_ !! fd); [|done]. by rw Hreg.
  - intros lp' Hl'. destruct (Hlp _ Hl') as (lp & Hl & _ & Heq2). rw -Heq2. apply Hct. eauto.
Qed.

(** Quiet history and unchanged views give an indistinguishable world. *)
Lemma poller_equiv_quiet l evs w w' :
  poller_view l w = poller_view l w' →
  (∀ c, chan_core <$> w_chans w !! c = chan_core <$> w_chans w' !! c) →
  w_hist w' = w_hist w ++ evs → forallb quiet evs = true → poller_equiv l w w'.
Proof.
  intros Hv Hc Hh Hq. split; [done|done| |]; intros epfd; rw Hh.
  - by rw interest_quiet.
  - split; [by apply ctl_ok_quiet|]. intros Hok h1 c r h2 Heq. eapply Hok.
    by rw Heq -app_assoc.
Qed.

#[export] Instance poller_inv_proper d l : Proper (poller_equiv l ==> iff) (poller_inv d l).
Proof. intros w w' H. split; apply poller_inv_equiv; [done|by symmetry]. Qed.

(** ** Polling *)

(** The channels after the ready masks were stored. *)
Definition store_revents (evs : list (Z * nat)) (m : gmap nat Channel) : gmap nat Channel :=
  foldl (λ m e, alter (set_ch_revents_ (wrap_s 4 e.1)) e.2 m) m evs.

Lemma store_revents_core evs m c :
  chan_core <$> store_revents evs m !! c = chan_core <$> m !! c.
Proof.
  revert m. induction evs as [|[ev p] evs IH]; intros m; [done|]. simpl. rw IH lookup_alter.
  case_decide; [|done]. subst. by destruct (m !! c).
Qed.

Lemma store_revents_is_Some evs m c : is_Some (store_revents evs m !! c) ↔ is_Some (m !! c).
Proof. by rw -!(fmap_is_Some chan_core) store_revents_core. Qed.

Lemma store_revents_notin evs m c : c ∉ evs.*2 → store_revents evs m !! c = m !! c.
Proof.
  revert m. induction evs as [|[ev p] evs IH]; intros m Hn; [done|].
  simpl in *. apply not_elem_of_cons in Hn as [Hne Hn]. rw IH // lookup_alter_ne //.
Qed.

Lemma store_revents_in evs m ev c ch :
  NoDup evs.*2 → (ev, c) ∈ evs → m !! c = Some ch →
  store_revents evs m !! c = Some (set_ch_revents_ (wrap_s 4 ev) ch).
Proof.
  revert m. induction evs as [|[ev' p] evs IH]; intros m Hnd Hin Hc; [by inv Hin|].
  simpl in *. apply NoDup_cons in Hnd as [Hp Hnd].
  apply elem_of_cons in Hin as [[= -> ->]|Hin].
  - rw store_revents_notin // lookup_alter_eq Hc //.
  - apply IH; [done|done|]. rw lookup_alter_ne //. intros ->.
    apply Hp. apply list_elem_of_fmap. by exists (ev, c).
Qed.

Lemma fill_actives_ok evs acts w :
  (∀ ev c, (ev, c) ∈ evs → is_Some (w_chans w !! c)) →
  fill_actives evs acts w =
    Done (acts ++ evs.*2) (set_w_chans (store_revents evs (w_chans w)) w).
Proof.
  revert acts w. induction evs as [|[ev c] evs IH]; intros acts w Hlive.
  { rw /= app_nil_r. by destruct w. }
  destruct (Hlive ev c) as [ch Hc]; [by left|]. cbn [fill_actives].
  rw /mbind /M_bind /get_chan /get /mbind /M_bind /= Hc /=.
  rw IH; last by rw -app_assoc.
  intros ev' c' Hin. simpl. rw lookup_alter. case_decide; subst; [by rw Hc|].
  eapply Hlive. by right.
Qed.

Section polling.
Context {os : OS} `{!EpollWaitOk os}.

(** A registered pointer is a live channel of the loop. *)
Lemma interest_live l lp fd ev c w :
  poller_inv None l w → w_loops w !! l = Some lp →
  interest (ep_epoll_fd_ (el_poller_ lp)) (w_hist w) !! fd = Some (ev, c) →
  ∃ ch, w_chans w !! c = Some ch ∧ ch_fd_ ch = fd ∧ ch_loop_ ch = l ∧
    ch_index_ ch = kAddedChannel ∧ ev = wrap_u 4 (ch_events_ ch).
Proof.
  intros Hinv Hl Hint. pose proof (pi_interest _ _ _ Hinv lp fd Hl) as Hi. rw Hint in Hi.
  destruct (ep_channels_ (el_poller_ lp) !! fd) as [c'|] eqn:Hm; [|done].
  simpl in Hi. destruct (pi_map _ _ _ Hinv lp fd c' Hl Hm) as (ch & Hc & Hfd & Hlo & _).
  rw /registration Hc /= in Hi.
  destruct (Z.eqb_spec (ch_index_ ch) kAddedChannel); simplify_eq. eauto 10.
Qed.

(** Ready events of distinct descriptors belong to distinct channels. *)
Lemma ready_ok l lp w fds (evs : list (Z * nat)) :
  poller_inv None l w → w_loops w !! l = Some lp → NoDup fds →
  Forall2 (λ fd e, ∃ ev0, interest (ep_epoll_fd_ (el_poller_ lp)) (w_hist w) !! fd =
    Some (ev0, e.2)) fds evs →
  NoDup evs.*2 ∧ ∀ ev c, (ev, c) ∈ evs → ∃ ch, w_chans w !! c = Some ch ∧ ch_fd_ ch ∈ fds ∧
    ch_loop_ ch = l ∧ ch_index_ ch = kAddedChannel.
Proof.
  intros Hinv Hl Hnd H2. induction H2 as [|fd [ev c] fds evs [ev0 Hi] H2 IH].
  { split; [constructor|]. by intros ? ? ?%not_elem_of_nil. }
  apply NoDup_cons in Hnd as [Hfd Hnd]. destruct (IH Hnd) as [Hnd' Hlive]. simpl in Hi.
  destruct (interest_live l lp fd ev0 c w Hinv Hl Hi) as (ch & Hc & Hf & Hlo & Hix & _). split.
  - simpl. apply NoDup_cons. split; [|done].
    intros ([ev' c'] & -> & Hin)%list_elem_of_fmap.
    destruct (Hlive _ _ Hin) as (ch' & Hc' & Hin' & _). simpl in *. by simplify_eq.
  - intros ev' c' [[= -> ->]|Hin]%elem_of_cons.
    + exists ch. split_and!; try done. rw Hf. by left.
    + destruct (Hlive _ _ Hin) as (ch' & ? & ? & ? & ?). exists ch'. split_and!; [done|by right|done..].
Qed.

(** The buffer for ready events grows by half when it was filled. *)
Definition grown (size n_readys : Z) : Z :=
  if (0 <? n_readys) && (size =? n_readys) then 3 * n_readys / 2 else size.

Definition with_events_size (n : Z) (lp : EventLoop) : EventLoop :=
  set_el_poller_ (set_ep_events_size n (el_poller_ lp)) lp.

(** What [Poll] leaves behind: the ready masks are stored, the clock was
    read once after epoll_wait. *)
Record poll_post (l : nat) (lp : EventLoop) (rep : reply) (k : call) (w w' : World) : Prop := {
  pp_inv : poller_inv None l w';
  pp_chans : w_chans w' = store_revents (r_events rep) (w_chans w);
  pp_loops : w_loops w' =
    <[l := with_events_size (grown (ep_events_size (el_poller_ lp)) (r_ret rep)) lp]> (w_loops w);
  pp_hist : ∃ r, w_hist w' = w_hist w ++ [Sys k rep; Sys ClockNow r];
  pp_conns : w_conns w' = w_conns w;
  pp_timers : w_timers w' = w_timers w;
  pp_tid : w_tid w' = w_tid w;
  pp_others : others w' = others w;
}.

Lemma with_events_size_id lp : with_events_size (ep_events_size (el_poller_ lp)) lp = lp.
Proof. by destruct lp as [? ? ? ? []]. Qed.

Lemma EPoller_Poll_ok l lp timeout w :
  poller_inv None l w → w_loops w !! l = Some lp → 0 < ep_events_size (el_poller_ lp) →
  let k := EpollWait (ep_epoll_fd_ (el_poller_ lp)) (ep_events_size (el_poller_ lp)) timeout in
  let rep := os_reply (w_hist w) k in
  wp (EPoller_Poll l timeout [])
    (λ r w', r.2 = (r_events rep).*2 ∧ NoDup r.2 ∧
       (∀ ev c, (ev, c) ∈ r_events rep → ∃ ch, w_chans w !! c = Some ch ∧
          ch_loop_ ch = l ∧ ch_index_ ch = kAddedChannel ∧
          w_chans w' !! c = Some (set_ch_revents_ (wrap_s 4 ev) ch)) ∧
       poll_post l lp rep k w w')
    (λ f w', f = Exit2 ∧ r_ret rep < 0 ∧ w_errno w' ≠ EINTR) w.
Proof.
  intros Hinv Hl Hsize k rep. rw /EPoller_Poll. wp_step. eapply wp_get_loop; [done|].
  destruct (epoll_wait_ok (w_hist w) (ep_epoll_fd_ (el_poller_ lp))
    (ep_events_size (el_poller_ lp)) timeout Hsize) as (Hmax & fds & Hlen & Hfds & Hreg).
  rw -/k -/(os_reply (w_hist w) k) -/rep in Hmax Hlen Hreg.
  destruct (ready_ok l lp w fds (r_events rep)) as [Hnd Hlive]; [done..|].
  apply Forall2_length in Hreg.
  wp_step. apply wp_syscall. fold k rep. wp_step. apply wp_now. set (w1 := after_now _).
  assert (Hh : ∃ r, w_hist w1 = w_hist w ++ [Sys k rep; Sys ClockNow r]).
  { eexists. by rw /w1 /= -app_assoc. }
  assert (∀ sz w', w_chans w' = store_revents (r_events rep) (w_chans w) →
    w_loops w' = <[l := with_events_size sz lp]> (w_loops w) → w_hist w' = w_hist w1 →
    poller_inv None l w') as Hsettle.
  { intros sz w' Hch Hlo Hw'. destruct Hh as [r Hh].
    rw -(poller_equiv_quiet l [Sys k rep; Sys ClockNow r] w w'); [| |by rw Hw'|done|done].
    - by rw /poller_view Hlo lookup_insert_eq Hl.
    - intros c. by rw Hch store_revents_core. }
  destruct (Z.ltb_spec 0 (r_ret rep)) as [Hpos|Hneg]; last first.
  { assert (r_events rep = []) as Hnil by (apply length_zero_iff_nil; lia).
    assert (grown (ep_events_size (el_poller_ lp)) (r_ret rep) = ep_events_size (el_poller_ lp)) as Hg.
    { rw /grown. by destruct (Z.ltb_spec 0 (r_ret rep)); [lia|]. }
    assert (poll_post l lp rep k w w1) as Hpost.
    { split; try done; [eapply (Hsettle (ep_events_size (el_poller_ lp)))|by rw Hnil|];
        rw ?Hnil ?Hg ?with_events_size_id ?insert_id //. }
    assert ([] = (r_events rep).*2 ∧ NoDup (A:=nat) [] ∧ (∀ ev c, (ev, c) ∈ r_events rep →
      ∃ ch, w_chans w !! c = Some ch ∧ ch_loop_ ch = l ∧ ch_index_ ch = kAddedChannel ∧
        w_chans w1 !! c = Some (set_ch_revents_ (wrap_s 4 ev) ch)) ∧ poll_post l lp rep k w w1).
    { rw Hnil. split_and!; [done|constructor|by intros ? ? ?%not_elem_of_nil|done]. }
    destruct (Z.eqb_spec (r_ret rep) 0); [by wp_step|]. wp_step. apply wp_gets.
    destruct (Z.eqb_spec (w_errno w1) EINTR); simpl; [by wp_step|]. split_and!; [done|lia|done]. }
  rw take_ge; [lia|]. wp_step. eapply wp_of_done; [apply fill_actives_ok|].
  { intros ev c (ch & ? & _)%Hlive. by exists ch. }
  set (w2 := set_w_chans _ w1). wp_step.
  apply (wp_conseq _ (λ _ w', w' = set_w_loops (<[l := with_events_size
    (grown (ep_events_size (el_poller_ lp)) (r_ret rep)) lp]> (w_loops w)) w2)).
  { rw /grown. destruct (Z.ltb_spec 0 (r_ret rep)); [|lia]. simpl.
    destruct (_ =? _); simpl; last first.
    { wp_step. by rw with_events_size_id insert_id. }
    rw /alter_poller /alter_loop. wp_step. f_equal. apply map_eq. intros l'.
    rw lookup_alter lookup_insert. case_decide; [subst|done]. by rw Hl. }
  intros [] w' ->. wp_step. simpl. split_and!; try done.
  - intros ev c Hin. destruct (Hlive _ _ Hin) as (ch & ? & _ & ? & ?).
    exists ch. split_and!; try done. by apply store_revents_in.
  - split; try done. by eapply Hsettle.
Qed.
End polling.
