(* ===== verification/Channel.v ===== *)
(** * Channel: src/channel.cpp and the channel side of EventLoop

    A [Channel] owns the event mask of a descriptor and routes ready events
    to four callbacks.  Changing the mask goes through
    [EventLoop::UpdateChannel], which checks the calling thread, to the
    poller.

    - the mask operations and [RemoveFromLoop], with the invariant of the
      poller and the exact change of the channel;
    - [HandleEvent] and the order in which it calls what;
    - construction and destruction, with the two flags that have no
      initializer. *)

From S2P Require Import Prelude Buffer World Kernel Poller.

(** ** Thread checks (src/eventloop.cpp) *)

Definition IsInLoopThread (l : nat) : M World bool :=
  lp ← get_loop l; w ← get; mret (el_thread_id_ lp =? w_tid w)%nat.

Definition AssertInLoopThread (l : nat) : M World () :=
  b ← IsInLoopThread l; if negb b then critical else mret ().

Section operations.
Context {os : OS}.

(** ** EventLoop::UpdateChannel, RemoveChannel, HasChannel *)

Definition EventLoop_UpdateChannel (l c : nat) : M World () :=
  ch ← get_chan c;
  assert_ (ch_loop_ ch =? l)%nat ;;
  AssertInLoopThread l ;;
  EPoller_UpdateChannel l c.

(** While events are dispatched, only the channel being handled or one that
    is not among the active ones may go. *)
Definition EventLoop_RemoveChannel (l c : nat) : M World () :=
  ch ← get_chan c;
  assert_ (ch_loop_ ch =? l)%nat ;;
  AssertInLoopThread l ;;
  lp ← get_loop l;
  when (el_event_handing_ lp)
    (assert_ (bool_decide (el_current_active_channel_ lp = Some c) ||
              bool_decide (c ∉ el_active_channels_ lp))) ;;
  EPoller_RemoveChannel l c.

Definition EventLoop_HasChannel (l c : nat) : M World bool := Poller_HasChannel l c.

(** ** Channel *)

(** [Channel::Channel(EventLoop* loop, int fd)] *)
Definition Channel_new (loop : nat) (fd : Z) : Channel :=
  mkChannel loop fd 0 0 (-1) false None None None None None None None.

(** [Channel::~Channel]: reading a flag nobody has set is undefined. *)
Definition Channel_dtor (c : nat) : M World () :=
  ch ← get_chan c;
  handing ← deref (ch_event_handing_ ch);
  assert_ (negb handing) ;;
  added ← deref (ch_added_in_loop_ ch);
  assert_ (negb added) ;;
  b ← IsInLoopThread (ch_loop_ ch);
  (if b : bool then
     has ← EventLoop_HasChannel (ch_loop_ ch) c; assert_ (negb has)
   else mret ()) ;;
  modify (λ w, set_w_chans (delete c (w_chans w)) w).

Definition update_events (c : nat) : M World () :=
  alter_chan (set_ch_added_in_loop_ (Some true)) c ;;
  ch ← get_chan c;
  EventLoop_UpdateChannel (ch_loop_ ch) c.

(** [events_ = f(events_); update_events();] *)
Definition change_events (f : Z → Z) (c : nat) : M World () :=
  alter_chan (λ ch, set_ch_events_ (f (ch_events_ ch)) ch) c ;; update_events c.

Definition EnableReadEvent : nat → M World () := change_events (λ e, Z.lor e kReadEvent).
Definition DisableReadEvent : nat → M World () :=
  change_events (λ e, Z.land e (Z.lnot kReadEvent)).
Definition EnableWriteEvent : nat → M World () := change_events (λ e, Z.lor e kWriteEvent).
Definition DisableWriteEvent : nat → M World () :=
  change_events (λ e, Z.land e (Z.lnot kWriteEvent)).
Definition DisableAllEvent : nat → M World () := change_events (λ _, kNoneEvent).

Definition RemoveFromLoop (c : nat) : M World () :=
  ch ← get_chan c;
  assert_ (IsNoneEvent ch) ;;
  alter_chan (set_ch_added_in_loop_ (Some false)) c ;;
  EventLoop_RemoveChannel (ch_loop_ ch) c.

Definition Tie (c obj : nat) : M World () :=
  alter_chan (set_ch_tie_ (Some obj)) c ;; alter_chan (set_ch_tied_ true) c.

Definition BindReadCallback (c : nat) (cb : callback) : M World () :=
  alter_chan (set_ch_on_read_ (Some cb)) c.
Definition BindWriteCallback (c : nat) (cb : callback) : M World () :=
  alter_chan (set_ch_on_write_ (Some cb)) c.
Definition BindCloseCallback (c : nat) (cb : callback) : M World () :=
  alter_chan (set_ch_on_close_ (Some cb)) c.
Definition BindErrorCallback (c : nat) (cb : callback) : M World () :=
  alter_chan (set_ch_on_error_ (Some cb)) c.

(** ** Dispatch *)

(** The code behind the callbacks bound to channels. *)
Context (dispatch : callback → Z → M World ()).

(** [if (on_x_) on_x_(...)] *)
Definition fire (o : option callback) (t : Z) : M World () :=
  match o with Some cb => dispatch cb t | None => mret () end.

Definition HandleEvent (c : nat) (recv_time : Z) : M World () :=
  ch ← get_chan c;
  w ← get;
  (* [guard = tie_.lock(); if (!guard) return;] *)
  if ch_tied_ ch && negb (bool_decide (is_Some (ch_tie_ ch ≫= λ obj, w_conns w !! obj)))
  then mret ()
  else
    alter_chan (set_ch_event_handing_ (Some true)) c ;;
    (ch ← get_chan c;
     when (test (ch_revents_ ch) EPOLLERR) (fire (ch_on_error_ ch) recv_time)) ;;
    (ch ← get_chan c;
     when (test (ch_revents_ ch) (Z.lor EPOLLHUP EPOLLRDHUP) &&
           negb (test (ch_revents_ ch) EPOLLIN)) (fire (ch_on_close_ ch) recv_time)) ;;
    (ch ← get_chan c;
     when (test (ch_revents_ ch) (Z.lor (Z.lor EPOLLIN EPOLLPRI) EPOLLRDHUP))
       (fire (ch_on_read_ ch) recv_time)) ;;
    (ch ← get_chan c;
     when (test (ch_revents_ ch) EPOLLOUT) (fire (ch_on_write_ ch) recv_time)) ;;
    alter_chan (set_ch_event_handing_ (Some false)) c.
End operations.

(** [std::make_unique<Channel>(loop, fd)] *)
Definition make_channel {heap : Heap} (loop : nat) (fd : Z) : M World nat :=
  w ← get;
  let c := heap_new (dom (w_chans w)) in
  modify (λ w, set_w_chans (<[c := Channel_new loop fd]> (w_chans w)) w) ;;
  mret c.

(** [Channel::events_as_string] *)
Definition events_as_string (ev : Z) : string :=
  let str := String.concat "" (
    (if test ev EPOLLIN then ["IN "] else []) ++
    (if test ev EPOLLPRI then ["PRI "] else []) ++
    (if test ev EPOLLOUT then ["OUT "] else []) ++
    (if test ev EPOLLHUP then ["HUP "] else []) ++
    (if test ev EPOLLRDHUP then ["RDHUP "] else []) ++
    (if test ev EPOLLERR then ["ERR "] else [])) in
  (* [if (!str.empty() && str.back() == ' ') str.pop_back();] *)
  let n := String.length str in
  if (0 <? n)%nat && bool_decide (String.get (n - 1) str = Some (Ascii.Ascii false false false false false true false false))
  then String.substring 0 (n - 1) str else str.

(** ** Masks bit by bit *)

Lemma test_pow2 e n : 0 ≤ n → test e (2 ^ n) = Z.testbit e n.
Proof.
  intros Hn. rw /test. destruct (Z.testbit e n) eqn:Hb.
  - destruct (Z.eqb_spec (Z.land e (2 ^ n)) 0) as [H0|]; [|done].
    assert (Z.testbit (Z.land e (2 ^ n)) n = false) as Hf by by rw H0 Z.bits_0.
    by rw Z.land_spec Hb Z.pow2_bits_true in Hf.
  - assert (Z.land e (2 ^ n) = 0) as ->; [|done]. apply Z.bits_inj'. intros m Hm.
    rw Z.land_spec Z.bits_0 Z.pow2_bits_eqb //. destruct (Z.eqb_spec n m); [subst|]; by rw ?Hb ?andb_false_r.
Qed.

Lemma write_bit e : test e kWriteEvent = Z.testbit e 2.
Proof. by apply (test_pow2 e 2). Qed.

Lemma write_lor_write e : test (Z.lor e kWriteEvent) kWriteEvent = true.
Proof. rw write_bit Z.lor_spec. apply orb_true_r. Qed.

Lemma write_clear_write e : test (Z.land e (Z.lnot kWriteEvent)) kWriteEvent = false.
Proof. rw write_bit Z.land_spec. apply andb_false_r. Qed.

Lemma write_lor_read e : test (Z.lor e kReadEvent) kWriteEvent = test e kWriteEvent.
Proof. rw !write_bit Z.lor_spec. apply orb_false_r. Qed.

Lemma write_clear_read e : test (Z.land e (Z.lnot kReadEvent)) kWriteEvent = test e kWriteEvent.
Proof. rw !write_bit Z.land_spec. apply andb_true_r. Qed.

(** ** Changing the event mask *)

(** A channel [c] that its loop's thread may operate on. *)
Record chan_ready (l c : nat) (ch : Channel) (lp : EventLoop) (w : World) : Prop := {
  cr_inv : poller_inv None l w;
  cr_chan : w_chans w !! c = Some ch;
  cr_loop : ch_loop_ ch = l;
  cr_lp : w_loops w !! l = Some lp;
  cr_thread : el_thread_id_ lp = w_tid w;
  cr_new : ch_index_ ch = kNewChannel →
    ep_channels_ (el_poller_ lp) !! ch_fd_ ch = None;
}.

(** What an operation on channel [c] changes: the channel becomes [ch'],
    the poller's map, and at most one epoll_ctl call is made. *)
Record chan_frame (l c : nat) (ch' : Channel) (w w' : World) : Prop := {
  cf_tid : w_tid w' = w_tid w;
  cf_conns : w_conns w' = w_conns w;
  cf_timers : w_timers w' = w_timers w;
  cf_chans : w_chans w' = <[c := ch']> (w_chans w);
  cf_loops : ∃ m, w_loops w' = alter (with_channels m) l (w_loops w);
  cf_hist : w_hist w' = w_hist w ∨ ∃ epfd op fd ev r,
    w_hist w' = w_hist w ++ [Sys (EpollCtl epfd op fd ev c) r];
  cf_others : others w' = others w;
}.

Lemma AssertInLoopThread_ok l lp (Q : () → World → Prop) E w :
  w_loops w !! l = Some lp → el_thread_id_ lp = w_tid w → Q () w →
  wp (AssertInLoopThread l) Q E w.
Proof.
  intros Hl Ht HQ. rw /AssertInLoopThread /IsInLoopThread. wp_step. wp_step.
  eapply wp_get_loop; [done|]. wp_steps. by rw Ht Nat.eqb_refl.
Qed.

(** Only [events_] and the flags of [c] changed: the views agree but for
    the mask of [c]. *)
Lemma poller_inv_dirty l c ch ch' w :
  poller_inv None l w → w_chans w !! c = Some ch →
  ch_loop_ ch' = ch_loop_ ch → ch_fd_ ch' = ch_fd_ ch → ch_index_ ch' = ch_index_ ch →
  poller_inv (Some c) l (set_w_chans (<[c := ch']> (w_chans w)) w).
Proof.
  intros [H1 H2 H3 H4] Hc Hlo Hfd Hix. split; simpl.
  - intros lp fd c' Hl Hm. destruct (H1 lp fd c' Hl Hm) as (ch0 & Hc0 & Hrest).
    rw lookup_insert. case_decide; simplify_eq; [|eauto].
    exists ch'. by rw Hlo Hix Hfd.
  - intros lp c' ch0 Hl. rw lookup_insert. case_decide; simplify_eq; [|by eauto].
    intros [= <-]. rw Hfd Hlo Hix. eauto.
  - intros lp fd Hl. specialize (H3 lp fd Hl). destruct (_ !! fd) as [c'|]; [|done].
    simpl in H3. rw /registration /= lookup_insert. case_bool_decide; case_decide; simplify_eq.
    + rw H3 /registration Hc /= Hix. by destruct (_ =? _).
    + done.
  - done.
Qed.

Section masks.
Context {os : OS} `{!EpollDelOk os, !EpollCtlRet os}.
Implicit Types w : World.

Lemma alter_insert {A} (f : A → A) c x (m : gmap nat A) :
  m !! c = Some x → alter f c m = <[c := f x]> m.
Proof.
  intros Hc. apply map_eq. intros c'. rw lookup_alter lookup_insert.
  case_decide; subst; [by rw Hc|done].
Qed.

(** The state a poller operation leaves behind is again workable. *)
Lemma poll_frame_ready l c ch lp i w w' :
  poll_frame l c i w w' → poller_inv None l w' →
  w_chans w !! c = Some ch → ch_loop_ ch = l → w_loops w !! l = Some lp →
  el_thread_id_ lp = w_tid w → i = kAddedChannel ∨ i = kDeletedChannel →
  ∃ lp', chan_ready l c (set_ch_index_ i ch) lp' w'.
Proof.
  intros [Ht _ _ Hch [m Hlo] _] Hinv Hc Hcl Hl Hth Hi.
  exists (with_channels m lp). split; [done| |done| | |].
  - by rw Hch lookup_alter_eq Hc.
  - by rw Hlo lookup_alter_eq Hl.
  - by rw Ht.
  - simpl. by destruct Hi as [-> | ->].
Qed.

(** The channel after [events_ = f(events_)] reached the poller. *)
Definition changed (f : Z → Z) (ch : Channel) : Channel :=
  let ch2 := set_ch_added_in_loop_ (Some true) (set_ch_events_ (f (ch_events_ ch)) ch) in
  set_ch_index_ (next_index ch2) ch2.

Lemma change_events_ok f l c ch lp w :
  chan_ready l c ch lp w →
  wp (change_events f c)
    (λ _ w', ∃ lp', chan_ready l c (changed f ch) lp' w' ∧ chan_frame l c (changed f ch) w w')
    only_exit w.
Proof.
  intros [Hinv Hc Hcl Hl Hth Hnew].
  set (ch1 := set_ch_events_ (f (ch_events_ ch)) ch).
  set (ch2 := set_ch_added_in_loop_ (Some true) ch1).
  set (w2 := set_w_chans (<[c := ch2]> (w_chans w)) w).
  assert (Hc2 : w_chans w2 !! c = Some ch2) by apply lookup_insert_eq.
  rw /change_events /update_events /alter_chan. do 4 wp_step.
  assert (∀ X, X = w2 → wp (ch ← get_chan c; EventLoop_UpdateChannel (ch_loop_ ch) c)
    (λ _ w', ∃ lp', chan_ready l c (changed f ch) lp' w' ∧ chan_frame l c (changed f ch) w w')
    only_exit X) as Hgo; last (apply Hgo).
  { intros _ ->. wp_step. eapply wp_get_chan; [done|]. simpl. rw Hcl /EventLoop_UpdateChannel.
    wp_step. eapply wp_get_chan; [done|]. wp_step. apply wp_assert_true; [by rw /= Hcl Nat.eqb_refl|].
    wp_step. eapply AssertInLoopThread_ok; [done|done|].
    assert (poller_inv (Some c) l w2) as Hd by by eapply poller_inv_dirty.
    eapply wp_conseq; [by apply (EPoller_UpdateChannel_ok l c ch2 lp w2)|].
    intros [] w' (Hinv' & Hf).
    destruct (poll_frame_ready l c ch2 lp _ w2 w' Hf) as [lp' Hr]; try done; [apply next_index_cases|].
    exists lp'. split; [done|].
    destruct Hf as [? ? ? Hch' Hlo' Hh']. split; try done.
    rw Hch' (alter_insert _ _ ch2) //= insert_insert_eq //. }
  rw /w2 /set_w_chans /=. f_equal. rw (alter_insert _ c ch (w_chans w)) //.
  rw (alter_insert _ c ch1); [apply lookup_insert_eq|]. by rw insert_insert_eq.
Qed.

(** [RemoveFromLoop] of a channel whose mask is empty, from its own handler
    or while it is not among the channels being dispatched. *)
Lemma RemoveFromLoop_ok l c ch lp w :
  chan_ready l c ch lp w → IsNoneEvent ch = true →
  (el_event_handing_ lp = true →
     el_current_active_channel_ lp = Some c ∨ c ∉ el_active_channels_ lp) →
  wp (RemoveFromLoop c)
    (λ _ w', poller_inv None l w' ∧ chan_frame l c (set_ch_index_ kNewChannel
       (set_ch_added_in_loop_ (Some false) ch)) w w') never w.
Proof.
  intros [Hinv Hc Hcl Hl Hth Hnew] Hnone Hact.
  set (ch1 := set_ch_added_in_loop_ (Some false) ch).
  set (w1 := set_w_chans (<[c := ch1]> (w_chans w)) w).
  rw /RemoveFromLoop. wp_step. eapply wp_get_chan; [done|]. wp_step.
  apply wp_assert_true; [done|]. rw /alter_chan. do 2 wp_step.
  rw (alter_insert _ _ ch) // -/w1 /EventLoop_RemoveChannel Hcl.
  assert (Hc1 : w_chans w1 !! c = Some ch1) by apply lookup_insert_eq.
  wp_step. eapply wp_get_chan; [done|]. wp_step. apply wp_assert_true; [by rw /= Hcl Nat.eqb_refl|].
  wp_step. eapply AssertInLoopThread_ok; [done|done|]. wp_step. eapply wp_get_loop; [done|]. wp_step.
  assert (poller_inv (Some c) l w1) as Hd by by eapply poller_inv_dirty.
  apply (wp_conseq _ (λ _ w', w' = w1)).
  { destruct (el_event_handing_ lp); simpl; [|done]. apply wp_assert_true; [|done].
    destruct (Hact eq_refl); [by rw bool_decide_eq_true_2|].
    rw (bool_decide_eq_true_2 (c ∉ _)) // orb_true_r //. }
  intros [] _ ->. eapply wp_conseq; [by apply (EPoller_RemoveChannel_ok l c ch1 lp w1)|].
  intros [] w' [Hinv' [? ? ? Hch' Hlo' Hh']]. split; [done|]. split; try done.
  rw Hch' (alter_insert _ _ ch1) //= insert_insert_eq //.
Qed.
End masks.

(** ** Dispatch order *)

Lemma for_each_app {S A} (l1 l2 : list A) (f : A → M S ()) s :
  for_each (l1 ++ l2) f s = (for_each l1 f ;; for_each l2 f) s.
Proof.
  revert s. induction l1 as [|x l1 IH]; intros s; [done|]. simpl.
  rw /mbind /M_bind. destruct (f x s) as [[] s'|]; [apply IH|done].
Qed.

(** The slots and the ready mask, which the handlers leave alone. *)
Definition slots (ch : Channel) :=
  (ch_revents_ ch, ch_on_error_ ch, ch_on_close_ ch, ch_on_read_ ch, ch_on_write_ ch).

(** What [HandleEvent] calls for a ready mask, in order. *)
Definition fired (ch : Channel) : list callback :=
  let ev := ch_revents_ ch in
  (if test ev EPOLLERR then option_list (ch_on_error_ ch) else []) ++
  (if test ev (Z.lor EPOLLHUP EPOLLRDHUP) && negb (test ev EPOLLIN)
   then option_list (ch_on_close_ ch) else []) ++
  (if test ev (Z.lor (Z.lor EPOLLIN EPOLLPRI) EPOLLRDHUP)
   then option_list (ch_on_read_ ch) else []) ++
  (if test ev EPOLLOUT then option_list (ch_on_write_ ch) else []).

Section dispatch_order.
Context (dispatch : callback → Z → M World ()) (c : nat) (t : Z).

(** The handlers do not rebind the channel they run for, and do not
    destroy it. *)
Definition keeps_slots : Prop := ∀ cb w ch w',
  w_chans w !! c = Some ch → dispatch cb t w = Done () w' →
  ∃ ch', w_chans w' !! c = Some ch' ∧ slots ch' = slots ch.

Lemma stage_eq (cond : Z → bool) (slot : Channel → option callback) ch ch' w :
  (∀ ch1 ch2, slots ch1 = slots ch2 → slot ch1 = slot ch2) →
  w_chans w !! c = Some ch' → slots ch' = slots ch →
  (ch ← get_chan c; when (cond (ch_revents_ ch)) (fire dispatch (slot ch) t)) w =
  for_each (if cond (ch_revents_ ch) then option_list (slot ch) else []) (λ cb, dispatch cb t) w.
Proof.
  intros Hs Hc Hsl. rw /get_chan /get /mbind /M_bind /= Hc /=.
  rw (Hs ch' ch) //. assert (ch_revents_ ch' = ch_revents_ ch) as -> by (unfold slots in Hsl; congruence).
  destruct (cond _); [|done]. destruct (slot ch); [|done]. simpl. rw /mbind /M_bind.
  by destruct (dispatch _ t w) as [[]|].
Qed.

Lemma stage_keeps (H : keeps_slots) (cbs : list callback) ch ch' w w' :
  w_chans w !! c = Some ch' → slots ch' = slots ch →
  for_each cbs (λ cb, dispatch cb t) w = Done () w' →
  ∃ ch'', w_chans w' !! c = Some ch'' ∧ slots ch'' = slots ch.
Proof.
  revert w ch'. induction cbs as [|cb cbs IH]; intros w ch' Hc Hs; simpl.
  { intros [= <-]. eauto. }
  rw /mbind /M_bind. destruct (dispatch cb t w) as [[] w1|] eqn:Hd; [|done].
  destruct (H cb w ch' w1 Hc Hd) as (ch1 & ? & ?). eapply IH; [done|congruence].
Qed.
End dispatch_order.

Lemma seq_eq {S} (m1 m2 k1 k2 : M S ()) s :
  m1 s = m2 s → (∀ s', m2 s = Done () s' → k1 s' = k2 s') → (m1 ;; k1) s = (m2 ;; k2) s.
Proof. intros Hm Hk. rw /mbind /M_bind Hm. destruct (m2 s) as [[]|]; auto. Qed.

Lemma seq_assoc {S} (m1 m2 m3 : M S ()) s : ((m1 ;; m2) ;; m3) s = (m1 ;; m2 ;; m3) s.
Proof. rw /mbind /M_bind. by destruct (m1 s). Qed.

Lemma get_chan_bind {B} c ch (k : Channel → M World B) w :
  w_chans w !! c = Some ch → (ch ← get_chan c; k ch) w = k ch w.
Proof. intros Hc. by rw /get_chan /get /mbind /M_bind /= Hc. Qed.

Section dispatch_body.
Context (dispatch : callback → Z → M World ()) (c : nat) (t : Z).
Context (Hkeeps : keeps_slots dispatch c t).

Definition run_all (cbs : list callback) : M World () :=
  for_each cbs (λ cb, dispatch cb t) ;; alter_chan (set_ch_event_handing_ (Some false)) c.

(** One [if] of [HandleEvent] in front of the rest. *)
Lemma stage_then (cond : Z → bool) (slot : Channel → option callback) rest k ch :
  (∀ ch1 ch2, slots ch1 = slots ch2 → slot ch1 = slot ch2) →
  (∀ w2 ch2, w_chans w2 !! c = Some ch2 → slots ch2 = slots ch → k w2 = run_all rest w2) →
  ∀ w1 ch1, w_chans w1 !! c = Some ch1 → slots ch1 = slots ch →
  ((ch ← get_chan c; when (cond (ch_revents_ ch)) (fire dispatch (slot ch) t)) ;; k) w1 =
  run_all ((if cond (ch_revents_ ch) then option_list (slot ch) else []) ++ rest) w1.
Proof.
  intros Hslot Hrest w1 ch1 Hc1 Hs1. set (cbs := if _ then _ else _).
  transitivity ((for_each cbs (λ cb, dispatch cb t) ;; run_all rest) w1).
  - apply seq_eq; [by eapply stage_eq|]. intros w2 Hw2.
    destruct (stage_keeps dispatch c t Hkeeps _ ch ch1 w1 w2 Hc1 Hs1 Hw2) as (ch2 & ? & ?).
    by eapply Hrest.
  - rw /run_all -seq_assoc. apply seq_eq; [|done]. by rw for_each_app.
Qed.

(** The body of [HandleEvent] once the tie is held. *)
Lemma handle_event_body ch w :
  w_chans w !! c = Some ch →
  ch_tied_ ch && negb (bool_decide (is_Some (ch_tie_ ch ≫= λ obj, w_conns w !! obj))) = false →
  HandleEvent dispatch c t w =
    (alter_chan (set_ch_event_handing_ (Some true)) c ;; run_all (fired ch)) w.
Proof.
  intros Hc Htie. rw /HandleEvent (get_chan_bind c ch) //.
  rw {1}/mbind {1}/M_bind {1}/get Htie.
  apply seq_eq; [done|]. intros w1 [= <-].
  rw /fired -(app_nil_r (if test _ EPOLLOUT then _ else _)).
  apply (stage_then (λ ev, test ev EPOLLERR) ch_on_error_ _ _ ch) with
    (ch1 := set_ch_event_handing_ (Some true) ch);
    [unfold slots; congruence| |by rw /= lookup_alter_eq Hc|done].
  apply (stage_then (λ ev, test ev (Z.lor EPOLLHUP EPOLLRDHUP) && negb (test ev EPOLLIN))
    ch_on_close_ _ _ ch); [unfold slots; congruence|].
  apply (stage_then (λ ev, test ev (Z.lor (Z.lor EPOLLIN EPOLLPRI) EPOLLRDHUP))
    ch_on_read_ _ _ ch); [unfold slots; congruence|].
  apply (stage_then (λ ev, test ev EPOLLOUT) ch_on_write_ _ _ ch); [unfold slots; congruence|].
  done.
Qed.
End dispatch_body.
