(* ===== verification/Sample.v ===== *)
(** * Sample: a small concrete world

    One loop on thread 0 with its wakeup and timer channels and one
    connection, before any channel was registered.  It shows that the
    hypotheses of the theorems can be met and serves to run the definitions
    on concrete inputs. *)

From S2P Require Import Prelude Buffer World Kernel Poller Channel.

(** A loop none of whose channels was registered. *)
Lemma poller_inv_fresh l w :
  (∀ lp, w_loops w !! l = Some lp → ep_channels_ (el_poller_ lp) = ∅) →
  (∀ c ch, w_chans w !! c = Some ch → ch_index_ ch = kNewChannel) →
  forallb quiet (w_hist w) = true → poller_inv None l w.
Proof.
  intros Hm Hch Hq. assert (∀ epfd, interest epfd (w_hist w) = ∅) as Hi.
  { intros epfd. by apply (interest_quiet epfd []). }
  split.
  - intros lp fd c Hl. by rw (Hm lp Hl) lookup_empty.
  - intros lp c ch _ Hc _ Hn. by destruct (Hn (Hch c ch Hc)).
  - intros lp fd Hl. by rw (Hm lp Hl) lookup_empty Hi lookup_empty.
  - intros lp _. apply (ctl_ok_quiet _ []); [done|]. intros h1 c r h2 H.
    by destruct h1.
Qed.

Definition sample_timer_queue : TimerQueue := mkTimerQueue 5 3 [] false ∅ [].

Definition sample_loop : EventLoop :=
  mkEventLoop false false 0 false (EPoller_new 3) 0 [] None false [] 4 2 sample_timer_queue.

Definition sample_buffer : Buffer := mkBuffer (replicate 1032 Byte.x00) kCheapPrepend kCheapPrepend.

Definition sample_conn : TcpConnection :=
  mkTcpConnection 1 "conn" 9 10 [] [] Connecting true 16 (Some 7%nat)
    (Some (UserCb 5)) (Some (UserCloseCb 6)) (Some DefaultCb) (Some 8%nat)
    sample_buffer sample_buffer.

Definition sample_world : World :=
  mkWorld 0 0 []
    {[ 2%nat := Channel_new 1 4; 3%nat := Channel_new 1 5; 10%nat := Channel_new 1 9 ]}
    ∅ {[ 1%nat := sample_loop ]} {[ 20%nat := sample_conn ]} ∅ ∅ {[ 0%nat := 1%nat ]} 0 0.

Lemma sample_channel c ch :
  w_chans sample_world !! c = Some ch →
  (c, ch) ∈ [(2%nat, Channel_new 1 4); (3%nat, Channel_new 1 5); (10%nat, Channel_new 1 9)].
Proof.
  unfold sample_world; cbn [w_chans]. intros H. repeat apply lookup_insert_Some in H as [[<- <-]|[_ H]]; [set_solver..|]. apply lookup_singleton_Some in H as [<- <-]. set_solver.
Qed.

Lemma sample_poller_inv : poller_inv None 1 sample_world.
Proof.
  apply poller_inv_fresh; [|intros c ch H%sample_channel; set_solver|done].
  by intros lp [= <-].
Qed.
