(* ===== verification/Reactor.v ===== *)
(** * Reactor: what a loop's channels and the kernel's interest list promise

    The contract of [Channel], [EventLoop::UpdateChannel] and [EPoller]
    taken together, stated over an abstract map from channels to an event
    mask and one of three views: [Absent] from the poller, [Parked] (known
    to the poller, not in the interest list), [Armed] (in the interest
    list).  The operations refine it, and the interest list that results
    from the epoll_ctl calls is exactly the armed part. *)

From S2P Require Import Prelude Buffer World Kernel Poller Channel Sample.

(** ** The abstract reactor *)

Inductive view := Absent | Parked | Armed.

#[export] Instance view_eq_dec : EqDecision view.
Proof. solve_decision. Defined.

Abbreviation reactor := (gmap nat (view * Z)).

Inductive mask_op := EnableRead | DisableRead | EnableWrite | DisableWrite | DisableAll.

Inductive chan_op :=
  | OpMask (m : mask_op) (c : nat)
  | OpRemove (c : nat).

Definition mask_fun (m : mask_op) (e : Z) : Z :=
  match m with
  | EnableRead => Z.lor e kReadEvent
  | DisableRead => Z.land e (Z.lnot kReadEvent)
  | EnableWrite => Z.lor e kWriteEvent
  | DisableWrite => Z.land e (Z.lnot kWriteEvent)
  | DisableAll => kNoneEvent
  end.

(** An armed channel whose mask becomes empty is parked; any other update
    arms the channel, also with an empty mask. *)
Definition next_view (v : view) (e : Z) : view :=
  match v with Armed => if e =? kNoneEvent then Parked else Armed | _ => Armed end.

(** [None]: the operation is not allowed. *)
Definition spec_op (o : chan_op) (s : reactor) : option reactor :=
  match o with
  | OpMask m c =>
      '(v, e) ← s !! c;
      let e' := mask_fun m e in Some (<[c := (next_view v e', e')]> s)
  | OpRemove c =>
      '(v, e) ← s !! c;
      if e =? kNoneEvent then Some (<[c := (Absent, e)]> s) else None
  end.

Fixpoint spec_ops (ops : list chan_op) (s : reactor) : option reactor :=
  match ops with [] => Some s | o :: ops' => spec_op o s ≫= spec_ops ops' end.

(** ** The concrete operations and the abstraction *)

Section operations.
Context {os : OS}.

Definition exec_op (o : chan_op) : M World () :=
  match o with
  | OpMask EnableRead c => EnableReadEvent c
  | OpMask DisableRead c => DisableReadEvent c
  | OpMask EnableWrite c => EnableWriteEvent c
  | OpMask DisableWrite c => DisableWriteEvent c
  | OpMask DisableAll c => DisableAllEvent c
  | OpRemove c => RemoveFromLoop c
  end.

Lemma exec_mask m c : exec_op (OpMask m c) = change_events (mask_fun m) c.
Proof. by destruct m. Qed.
End operations.

Definition abs_view (i : Z) : view :=
  if i =? kAddedChannel then Armed else if i =? kNewChannel then Absent else Parked.

Definition abs_chan (l : nat) (ch : Channel) : option (view * Z) :=
  if (ch_loop_ ch =? l)%nat then Some (abs_view (ch_index_ ch), ch_events_ ch) else None.

(** The channels of loop [l]. *)
Definition abs_reactor (l : nat) (w : World) : reactor := omap (abs_chan l) (w_chans w).

(** A loop on its own thread, whose live channels have distinct
    descriptors. *)
Record loop_ok (l : nat) (w : World) : Prop := {
  lo_inv : poller_inv None l w;
  lo_loop : ∃ lp, w_loops w !! l = Some lp ∧ el_thread_id_ lp = w_tid w;
  lo_fds : ∀ c1 c2 ch1 ch2, w_chans w !! c1 = Some ch1 → w_chans w !! c2 = Some ch2 →
    ch_loop_ ch1 = l → ch_loop_ ch2 = l → ch_fd_ ch1 = ch_fd_ ch2 → c1 = c2;
}.

(** [EventLoop::RemoveChannel] may be called for [c] now. *)
Definition removable (l c : nat) (w : World) : Prop := ∀ lp,
  w_loops w !! l = Some lp → el_event_handing_ lp = true →
  el_current_active_channel_ lp = Some c ∨ c ∉ el_active_channels_ lp.

(** What the interest list holds, read off the abstract reactor. *)
Definition armed_entry (l : nat) (w : World) (s : reactor) (fd : Z) (x : Z * nat) : Prop :=
  ∃ ch e, w_chans w !! x.2 = Some ch ∧ ch_loop_ ch = l ∧ ch_fd_ ch = fd ∧
    s !! x.2 = Some (Armed, e) ∧ x.1 = wrap_u 4 e.

Lemma abs_lookup l c w x :
  abs_reactor l w !! c = Some x ↔ ∃ ch, w_chans w !! c = Some ch ∧ ch_loop_ ch = l ∧
    x = (abs_view (ch_index_ ch), ch_events_ ch).
Proof.
  rw /abs_reactor lookup_omap. destruct (w_chans w !! c) as [ch|]; simpl; [|by split; [|intros (? & ? & _)]].
  rw /abs_chan. destruct (Nat.eqb_spec (ch_loop_ ch) l) as [Hl|Hl].
  - split; [intros [= <-]; by exists ch|intros (? & [= <-] & _ & ->); done].
  - split; [done|]. by intros (? & [= <-] & ? & _).
Qed.

(** With distinct descriptors every channel of the loop can be worked on. *)
Lemma loop_ok_ready l c ch w :
  loop_ok l w → w_chans w !! c = Some ch → ch_loop_ ch = l →
  ∃ lp, chan_ready l c ch lp w.
Proof.
  intros [Hinv (lp & Hl & Ht) Hfds] Hc Hcl. exists lp. split; try done.
  intros Hn. destruct (ep_channels_ (el_poller_ lp) !! ch_fd_ ch) as [c'|] eqn:Hm; [|done].
  destruct (pi_map _ _ _ Hinv lp _ c' Hl Hm) as (ch' & Hc' & Hfd & Hlo & Hi).
  assert (c = c') as <- by by eapply Hfds. simplify_eq.
  destruct Hi; unfold kNewChannel, kAddedChannel, kDeletedChannel in *; lia.
Qed.

(** An operation that keeps the loop and descriptor of its channel keeps
    the loop in order. *)
Lemma loop_ok_frame l c ch ch' w w' :
  loop_ok l w → poller_inv None l w' → chan_frame l c ch' w w' →
  w_chans w !! c = Some ch → ch_loop_ ch' = ch_loop_ ch → ch_fd_ ch' = ch_fd_ ch →
  loop_ok l w' ∧ (∀ c', removable l c' w → removable l c' w').
Proof.
  intros [Hinv (lp & Hl & Ht) Hfds] Hinv' [Htid _ _ Hch [m Hlo] _] Hc Hlo' Hfd'. split.
  - split; [done| |].
    + exists (with_channels m lp). rw Hlo lookup_alter_eq Hl Htid. done.
    + assert (∀ c0 ch0, w_chans w' !! c0 = Some ch0 → ∃ ch1, w_chans w !! c0 = Some ch1 ∧
        ch_loop_ ch1 = ch_loop_ ch0 ∧ ch_fd_ ch1 = ch_fd_ ch0) as Hback.
      { intros c0 ch0. rw Hch lookup_insert. case_decide; simplify_eq; [|eauto].
        intros [= <-]. eauto. }
      intros c1 c2 ch1 ch2 (d1 & ? & ? & ?)%Hback (d2 & ? & ? & ?)%Hback ? ? ?.
      eapply (Hfds c1 c2 d1 d2); congruence.
  - intros c' Hr lp'. rw Hlo lookup_alter_eq Hl. intros [= <-]. simpl. by apply Hr.
Qed.

(** The abstract state after channel [c] became [ch']. *)
Lemma abs_insert l c ch' w w' :
  w_chans w' = <[c := ch']> (w_chans w) → ch_loop_ ch' = l →
  abs_reactor l w' = <[c := (abs_view (ch_index_ ch'), ch_events_ ch')]> (abs_reactor l w).
Proof.
  intros Hch Hl. rw /abs_reactor Hch. apply map_eq. intros c0.
  rw lookup_omap !lookup_insert. case_decide; [|by rw lookup_omap].
  by rw /= /abs_chan Hl Nat.eqb_refl.
Qed.

Lemma ready_index l c ch lp w :
  chan_ready l c ch lp w →
  ch_index_ ch = kNewChannel ∨ ch_index_ ch = kAddedChannel ∨ ch_index_ ch = kDeletedChannel.
Proof.
  intros [Hinv Hc Hcl Hl _ _].
  destruct (decide (ch_index_ ch = kNewChannel)) as [|Hn]; [by left|right].
  pose proof (pi_chan _ _ _ Hinv lp c ch Hl Hc Hcl Hn) as Hm.
  destruct (pi_map _ _ _ Hinv lp _ c Hl Hm) as (ch0 & ? & _ & _ & Hidx). by simplify_eq.
Qed.

Lemma abs_view_next ch :
  ch_index_ ch = kNewChannel ∨ ch_index_ ch = kAddedChannel ∨ ch_index_ ch = kDeletedChannel →
  abs_view (next_index ch) = next_view (abs_view (ch_index_ ch)) (ch_events_ ch).
Proof.
  rw /next_index /abs_view /next_view /IsNoneEvent. intros [-> |[-> | ->]]; try done.
  simpl. by destruct (ch_events_ ch =? kNoneEvent).
Qed.

Section refinement.
Context {os : OS} `{!EpollDelOk os, !EpollCtlRet os}.
Implicit Types w : World.

(** What one operation leaves behind. *)
Definition op_post (l : nat) (s' : reactor) (w w' : World) : Prop :=
  loop_ok l w' ∧ abs_reactor l w' = s' ∧ (∀ c, removable l c w → removable l c w') ∧
  ∀ c, (λ ch, (ch_loop_ ch, ch_fd_ ch)) <$> w_chans w' !! c =
       (λ ch, (ch_loop_ ch, ch_fd_ ch)) <$> w_chans w !! c.

Lemma op_post_intro l c ch ch' s' w w' :
  loop_ok l w → poller_inv None l w' → chan_frame l c ch' w w' →
  w_chans w !! c = Some ch → ch_loop_ ch = l → ch_loop_ ch' = l → ch_fd_ ch' = ch_fd_ ch →
  s' = <[c := (abs_view (ch_index_ ch'), ch_events_ ch')]> (abs_reactor l w) →
  op_post l s' w w'.
Proof.
  intros Hok Hinv' Hf Hc Hcl Hcl' Hfd ->.
  destruct (loop_ok_frame l c ch ch' w w') as [Hok' Hrem]; try done; [congruence|].
  pose proof (cf_chans _ _ _ _ _ Hf) as Hch. split_and!; try done.
  - by apply abs_insert.
  - intros c0. rw Hch lookup_insert. case_decide; [subst c0|done]. by rw Hc /= Hcl' Hcl Hfd.
Qed.

Lemma exec_op_ok l o s' w :
  loop_ok l w → (∀ c, o = OpRemove c → removable l c w) →
  spec_op o (abs_reactor l w) = Some s' →
  wp (exec_op o) (λ _ w', op_post l s' w w') only_exit w.
Proof.
  intros Hok Hrem Hspec. destruct o as [m c|c]; simpl in Hspec.
  - apply bind_Some in Hspec as ([v e] & (ch & Hc & Hcl & [= -> ->])%abs_lookup & [= <-]).
    destruct (loop_ok_ready l c ch w) as [lp Hr]; [done..|]. rw exec_mask.
    eapply wp_conseq; [by apply (change_events_ok _ l c ch lp)|].
    intros [] w' (lp' & Hr' & Hf).
    eapply (op_post_intro l c ch); [done|apply Hr'|done..|].
    do 2 f_equal. symmetry. apply abs_view_next. exact (ready_index l c ch lp w Hr).
  - apply bind_Some in Hspec as ([v e] & (ch & Hc & Hcl & [= -> ->])%abs_lookup & Hspec).
    destruct (Z.eqb_spec (ch_events_ ch) kNoneEvent) as [Hz|]; simplify_eq.
    destruct (loop_ok_ready (ch_loop_ ch) c ch w) as [lp Hr]; [done..|].
    eapply wp_mono; [apply (RemoveFromLoop_ok (ch_loop_ ch) c ch lp); [done| |]| |done].
    + by apply Z.eqb_eq.
    + apply (Hrem c eq_refl). apply Hr.
    + intros [] w' [Hinv' Hf]. by eapply (op_post_intro _ c ch).
Qed.

(** The armed part of the abstract reactor is the interest list. *)
Lemma interest_armed l lp w fd x :
  loop_ok l w → w_loops w !! l = Some lp →
  interest (ep_epoll_fd_ (el_poller_ lp)) (w_hist w) !! fd = Some x ↔
  armed_entry l w (abs_reactor l w) fd x.
Proof.
  intros Hok Hl. pose proof (lo_inv _ _ Hok) as Hinv. destruct x as [ev c]. split.
  - intros Hi. destruct (interest_live l lp fd ev c w) as (ch & Hc & Hfd & Hcl & Hix & ->); [done..|].
    exists ch, (ch_events_ ch). split_and!; try done. simpl. apply abs_lookup.
    exists ch. by rw Hix.
  - intros (ch & e & Hc & Hcl & Hfd & (ch' & Hc' & _ & [= Hv ->])%abs_lookup & Hev). simpl in *.
    simplify_eq. unfold abs_view in Hv.
    destruct (Z.eqb_spec (ch_index_ ch) kAddedChannel) as [Hix|]; [|by destruct (_ =? _)].
    pose proof (pi_interest _ _ _ Hinv lp (ch_fd_ ch) Hl) as Hi.
    rw (pi_chan _ _ _ Hinv lp c ch) // in Hi; [by rw Hix|].
    by rw /= /registration Hc /= Hix in Hi.
Qed.

Lemma exec_ops_ok l ops s' w :
  loop_ok l w → (∀ c, OpRemove c ∈ ops → removable l c w) →
  spec_ops ops (abs_reactor l w) = Some s' →
  wp (for_each ops exec_op) (λ _ w', op_post l s' w w') only_exit w.
Proof.
  revert w. induction ops as [|o ops IH]; intros w Hok Hrem Hspec; simpl in *.
  { wp_step. by simplify_eq. }
  apply bind_Some in Hspec as (s1 & Ho & Hspec). wp_step.
  eapply wp_conseq; [apply (exec_op_ok l o s1)|]; [done| |done|].
  { intros c ->. apply Hrem. by left. }
  intros [] w1 (Hok1 & <- & Hrem1 & Hk1).
  eapply wp_conseq; [apply IH; [done| |done]|].
  { intros c Hc. apply Hrem1, Hrem. by right. }
  intros [] w' (Hok' & Habs' & Hrem' & Hk'). split_and!; auto. intros c. by rw Hk'.
Qed.

(** C6: any sequence of mask changes and removals on a loop's channels that
    the abstract reactor allows runs without a failed assertion or undefined
    behaviour (at worst the process exits because the kernel refuses an
    epoll_ctl), ends in the abstract state computed by [spec_ops], leaves in
    the kernel's interest list exactly the armed channels under their
    descriptors and masks, and has made only epoll_ctl calls that fitted the
    interest list they met. *)
Theorem reactor_refines l ops s' w :
  loop_ok l w → (∀ c, OpRemove c ∈ ops → removable l c w) →
  spec_ops ops (abs_reactor l w) = Some s' →
  wp (for_each ops exec_op) (λ _ w', loop_ok l w' ∧ abs_reactor l w' = s' ∧
    ∀ lp, w_loops w' !! l = Some lp →
      let epfd := ep_epoll_fd_ (el_poller_ lp) in
      (∀ fd x, interest epfd (w_hist w') !! fd = Some x ↔ armed_entry l w s' fd x) ∧
      ctl_ok epfd (w_hist w')) only_exit w.
Proof.
  intros Hok Hrem Hspec. eapply wp_conseq; [by apply (exec_ops_ok l ops s')|].
  intros [] w' (Hok' & Habs & _ & Hk). split_and!; try done. intros lp Hl. split.
  - intros fd x. rw (interest_armed l lp w') // Habs. rw /armed_entry.
    specialize (Hk x.2).
    split; intros (ch & e & Hc & Hcl & Hfd & Hs & Hev); rw Hc /= in Hk;
      apply eq_sym in Hk + idtac; apply fmap_Some in Hk as (ch' & Hc' & [= ? ?]);
      exists ch', e; split_and!; congruence.
  - apply (pi_ctl _ _ _ (lo_inv _ _ Hok')). done.
Qed.
End refinement.

(** The sample world with a connection being read, written, closed and
    removed while the wakeup channel stays armed. *)
Definition sample_ops : list chan_op :=
  [OpMask EnableRead 2; OpMask EnableRead 10; OpMask EnableWrite 10; OpMask DisableWrite 10;
   OpMask DisableAll 10; OpRemove 10].

Definition sample_final : reactor :=
  {[ 2%nat := (Armed, 3); 3%nat := (Absent, 0); 10%nat := (Absent, 0) ]}.

Lemma sample_loop_ok : loop_ok 1 sample_world.
Proof.
  split; [exact sample_poller_inv|by exists sample_loop|].
  intros c1 c2 ch1 ch2 H1%sample_channel H2%sample_channel _ _.
  rw !elem_of_cons in H1 H2. intros Hfd.
  destruct H1 as [[= -> ->]|[[= -> ->]|[[= -> ->]|H1%elem_of_nil]]], H2 as [[= -> ->]|[[= -> ->]|[[= -> ->]|H2%elem_of_nil]]]; done.
Qed.

Lemma reactor_refines_witness :
  wp (for_each sample_ops (exec_op (os := sample_os))) (λ _ w',
    loop_ok 1 w' ∧ abs_reactor 1 w' = sample_final ∧
    ∀ lp, w_loops w' !! 1%nat = Some lp →
      let epfd := ep_epoll_fd_ (el_poller_ lp) in
      (∀ fd x, interest epfd (w_hist w') !! fd = Some x ↔
         armed_entry 1 sample_world sample_final fd x) ∧
      ctl_ok epfd (w_hist w')) only_exit sample_world.
Proof.
  apply (reactor_refines 1 sample_ops sample_final sample_world).
  - exact sample_loop_ok.
  - intros c _ lp [= <-]. done.
  - by vm_compute.
Defined.

(** ** Polling *)

Section polling.
Context {os : OS} `{!EpollWaitOk os}.

Lemma grown_spec size n :
  0 < size → n ≤ size →
  0 < grown size n ∧ size ≤ grown size n ∧ (32 ≤ size → size < grown size n ↔ n = size).
Proof.
  intros Hs Hn. rw /grown.
  destruct (Z.ltb_spec 0 n), (Z.eqb_spec size n); simpl; [|lia..]. subst.
  pose proof (Z.div_mod (3 * n) 2 ltac:(done)). pose proof (Z.mod_pos_bound (3 * n) 2 ltac:(done)).
  lia.
Qed.

(** C36: [Poll] returns the channels of the ready events, each once; every
    one of them is a live channel of this loop that is armed, and now holds
    the kernel's mask; all other channels are untouched, the three views
    still agree, and the event buffer grows by half exactly when it was
    filled.  The only way to fail is the exit after an error of epoll_wait
    other than EINTR. *)
Theorem poll_reports_live_channels l lp timeout w :
  poller_inv None l w → w_loops w !! l = Some lp → 0 < ep_events_size (el_poller_ lp) →
  let k := EpollWait (ep_epoll_fd_ (el_poller_ lp)) (ep_events_size (el_poller_ lp)) timeout in
  let rep := os_reply (w_hist w) k in
  wp (EPoller_Poll l timeout [])
    (λ r w', r.2 = (r_events rep).*2 ∧ NoDup r.2 ∧
       (∀ ev c, (ev, c) ∈ r_events rep → ∃ ch, w_chans w !! c = Some ch ∧
          ch_loop_ ch = l ∧ abs_view (ch_index_ ch) = Armed ∧
          w_chans w' !! c = Some (set_ch_revents_ (wrap_s 4 ev) ch)) ∧
       (∀ c, c ∉ r.2 → w_chans w' !! c = w_chans w !! c) ∧
       poller_inv None l w' ∧
       ∃ lp', w_loops w' !! l = Some lp' ∧
         let old := ep_events_size (el_poller_ lp) in
         let new := ep_events_size (el_poller_ lp') in
         0 < new ∧ old ≤ new ∧ (32 ≤ old → old < new ↔ r_ret rep = old))
    (λ f w', f = Exit2 ∧ r_ret rep < 0 ∧ w_errno w' ≠ EINTR) w.
Proof.
  intros Hinv Hl Hsize k rep.
  eapply wp_conseq; [by apply (EPoller_Poll_ok l lp)|]. fold k rep.
  intros r w' (Hr & Hnd & Hev & [Hinv' Hch Hlo _ _ _ _]). split_and!; try done.
  - intros ev c Hin. destruct (Hev ev c Hin) as (ch & ? & ? & Hix & ?). exists ch. by rw Hix.
  - intros c Hc. rw Hch. apply store_revents_notin. by rw -Hr.
  - exists (with_events_size (grown (ep_events_size (el_poller_ lp)) (r_ret rep)) lp).
    rw Hlo lookup_insert_eq. split; [done|]. simpl. apply grown_spec; [done|].
    by destruct (epoll_wait_ok (w_hist w) (ep_epoll_fd_ (el_poller_ lp)) _ timeout Hsize).
Qed.
End polling.

(** The sample world with its wakeup channel and its connection armed. *)
Definition armed_ops : list chan_op := [OpMask EnableRead 2; OpMask EnableRead 10].
Definition armed_world : World := final (for_each armed_ops (exec_op (os := sample_os))) sample_world.
Definition armed_loop : EventLoop := default sample_loop (w_loops armed_world !! 1%nat).

Lemma armed_world_ok : loop_ok 1 armed_world.
Proof.
  assert (wp (for_each armed_ops (exec_op (os := sample_os))) (λ _ w', op_post 1
    {[ 2%nat := (Armed, 3); 3%nat := (Absent, 0); 10%nat := (Armed, 3) ]} sample_world w')
    only_exit sample_world) as H.
  { apply exec_ops_ok; [exact sample_loop_ok| |by vm_compute]. intros c Hc. set_solver. }
  apply wp_final in H as [_ [H _]]; [exact H|by vm_compute].
Qed.

Lemma poll_reports_live_channels_witness :
  wp (EPoller_Poll (os := sample_os) 1 8192 [])
    (λ r w', r.2 = [10; 2]%nat ∧ poller_inv None 1 w' ∧
       ch_revents_ <$> w_chans w' !! 10%nat = Some EPOLLIN)
    (λ _ _, False) armed_world.
Proof.
  eapply wp_mono.
  - apply (poll_reports_live_channels (os := sample_os) 1 armed_loop 8192 armed_world).
    + apply armed_world_ok.
    + by vm_compute.
    + by vm_compute.
  - intros r w' (-> & _ & Hev & _ & Hinv & _). split_and!; [by vm_compute|done|].
    destruct (Hev 1 10%nat) as (ch & _ & _ & _ & ->); [|done].
    apply (bool_decide_unpack _). by vm_compute.
  - intros f w' (_ & Hr & _). revert Hr. by vm_compute.
Defined.

(** ** Dispatch *)

(** C37: [HandleEvent] of a channel whose tied owner is gone calls nothing
    and changes nothing; otherwise, provided the handlers leave the channel's
    slots and ready mask alone, it calls exactly the bound callbacks selected
    by [fired], in the order error, close, read, write, between setting and
    clearing [event_handing_], although the code reads the mask afresh before
    each of them. *)
Theorem handle_event_dispatch dispatch c t ch w :
  keeps_slots dispatch c t → w_chans w !! c = Some ch →
  let owner := ch_tie_ ch ≫= λ obj, w_conns w !! obj in
  HandleEvent dispatch c t w =
    if ch_tied_ ch && negb (bool_decide (is_Some owner)) then Done () w
    else (alter_chan (set_ch_event_handing_ (Some true)) c ;;
          for_each (fired ch) (λ cb, dispatch cb t) ;;
          alter_chan (set_ch_event_handing_ (Some false)) c) w.
Proof.
  intros Hk Hc owner. destruct (ch_tied_ ch && _) eqn:Htie.
  - rw /HandleEvent (get_chan_bind c ch) // {1}/mbind {1}/M_bind {1}/get -/owner Htie. done.
  - rw (handle_event_body dispatch c t Hk ch w Hc Htie). done.
Qed.

(** Handlers that only record that they were called. *)
Definition recorder (cb : callback) (t : Z) : M World () :=
  modify (λ w, set_w_hist (w_hist w ++ [User (UChannel (match cb with CbUser u => u | _ => O end))]) w).

Definition hup_channel : Channel :=
  set_ch_on_read_ (Some (CbUser 1)) (set_ch_on_write_ (Some (CbUser 2))
    (set_ch_on_close_ (Some (CbUser 3)) (set_ch_on_error_ (Some (CbUser 4))
      (set_ch_revents_ (Z.lor EPOLLERR (Z.lor EPOLLHUP EPOLLOUT)) (Channel_new 1 9))))).
Definition hup_world : World := set_w_chans {[ 10%nat := hup_channel ]} sample_world.

Lemma handle_event_dispatch_witness :
  HandleEvent recorder 10 0 hup_world =
    (alter_chan (set_ch_event_handing_ (Some true)) 10 ;;
     for_each [CbUser 4; CbUser 3; CbUser 2] (λ cb, recorder cb 0) ;;
     alter_chan (set_ch_event_handing_ (Some false)) 10) hup_world.
Proof.
  refine (handle_event_dispatch recorder 10 0 hup_channel hup_world _ _).
  - intros cb w ch w' Hc [= <-]. by exists ch.
  - done.
Defined.

(** The destructor of a channel that was dispatched and taken out. *)
Lemma Channel_dtor_done c ch lp w :
  w_chans w !! c = Some ch → w_loops w !! ch_loop_ ch = Some lp →
  ch_event_handing_ ch = Some false → ch_added_in_loop_ ch = Some false →
  ep_channels_ (el_poller_ lp) !! ch_fd_ ch ≠ Some c →
  Channel_dtor c w = Done () (set_w_chans (delete c (w_chans w)) w).
Proof.
  intros Hc Hl Hh Ha Hm. rw /Channel_dtor (get_chan_bind c ch) // Ha Hh.
  rw /mbind /M_bind /= /IsInLoopThread /get_loop /mbind /M_bind /= Hl /=. destruct (_ =? _)%nat; [|done].
  rw /EventLoop_HasChannel /Poller_HasChannel /get_chan /get_loop /mbind /M_bind /= Hc /= Hl /=.
  by rw bool_decide_eq_false_2.
Qed.

(** Destroying a channel that was registered and removed in order, but
    for which no event was ever dispatched, reads [event_handing_], which has
    no initializer: the behaviour is undefined.  Once an event was dispatched
    the destructor of a removed channel passes all its checks. *)
Lemma channel_dtor_needs_dispatch l c ch lp w :
  chan_ready l c ch lp w → ch_index_ ch = kNewChannel → ch_added_in_loop_ ch = Some false →
  (ch_event_handing_ ch = None → Channel_dtor c w = Crash UB w) ∧
  (ch_event_handing_ ch = Some false →
     Channel_dtor c w = Done () (set_w_chans (delete c (w_chans w)) w)).
Proof.
  intros [_ Hc Hcl Hl Ht Hnew] Hn Hadd.
  split; intros Hh; [by rw /Channel_dtor (get_chan_bind c ch) // Hh|].
  apply (Channel_dtor_done c ch lp); [done|by rw Hcl|done|done|by rw Hnew].
Qed.

Definition removed_world : World := final (for_each sample_ops (exec_op (os := sample_os))) sample_world.

Lemma channel_dtor_needs_dispatch_witness :
  Channel_dtor 10 removed_world = Crash UB removed_world.
Proof.
  assert (chan_ready 1 10 (default (Channel_new 1 9) (w_chans removed_world !! 10%nat))
    (default sample_loop (w_loops removed_world !! 1%nat)) removed_world) as Hr.
  { assert (wp (for_each sample_ops (exec_op (os := sample_os)))
      (λ _ w', op_post 1 sample_final sample_world w') only_exit sample_world) as H.
    { apply exec_ops_ok; [exact sample_loop_ok| |by vm_compute]. by intros c _ lp [= <-]. }
    apply wp_final in H as [_ [H _]]; [|by vm_compute].
    split; [apply H|by vm_compute..]. }
  apply (channel_dtor_needs_dispatch 1 10 _ _ _ Hr); by vm_compute.
Defined.
