(* ===== verification/EventLoop.v ===== *)
(** * EventLoop: the task queue and the main loop of src/eventloop.cpp

    [QueueInLoop], [RunInLoop], [Stop] and the wakeup descriptor, and the
    main loop [Start]: poll, dispatch the active channels, then run the
    tasks that were queued before the swap.  [Start] is given as the body of
    its [while] and a loop with a bound on the number of rounds; the tasks
    and the channel callbacks it runs are parameters. *)

From S2P Require Import Prelude Buffer World Kernel Poller Channel.

Definition kPollTimeoutMs : Z := 8192.

Section operations.
Context {os : OS}.

(** ** Wakeup *)

Definition set_wakeup (l : nat) : M World () :=
  lp ← get_loop l; _ ← syscall (EventfdWrite (el_wakeup_fd_ lp) 1); mret ().

Definition reset_wakeup (l : nat) : M World () :=
  lp ← get_loop l; _ ← syscall (EventfdRead (el_wakeup_fd_ lp)); mret ().

(** ** Tasks *)

Definition QueueInLoop (l : nat) (cb : Functor) : M World () :=
  alter_loop (λ lp, set_el_pendings_ (el_pendings_ lp ++ [cb]) lp) l ;;
  b ← IsInLoopThread l;
  lp ← get_loop l;
  when (negb b || el_calling_pendings_ lp) (set_wakeup l).

(** [RunInLoop(cb)]: [body] is what calling [cb] does. *)
Definition RunInLoop (l : nat) (cb : Functor) (body : M World ()) : M World () :=
  b ← IsInLoopThread l;
  if b : bool then body else QueueInLoop l cb.

Definition Stop (l : nat) : M World () :=
  alter_loop (set_el_quitting_ true) l ;;
  b ← IsInLoopThread l;
  when (negb b) (set_wakeup l).

(** ** The main loop *)

Context (dispatch : callback → Z → M World ()).
Context (run_functor : Functor → M World ()).
(** What it means for the program that closures are destroyed. *)
Context (drop_tasks : list Functor → M World ()).

(** [poll_return_time_ = poller_->Poll(kPollTimeoutMs, active_channels_)] *)
Definition poll_phase (l : nat) : M World () :=
  alter_loop (set_el_active_channels_ []) l ;;
  r ← EPoller_Poll l kPollTimeoutMs [];
  alter_loop (set_el_active_channels_ r.2) l ;;
  alter_loop (set_el_poll_return_time_ r.1) l.

Definition event_phase (l : nat) : M World () :=
  alter_loop (set_el_event_handing_ true) l ;;
  lp ← get_loop l;
  for_each (el_active_channels_ lp) (λ c,
    alter_loop (set_el_current_active_channel_ (Some c)) l ;;
    lp' ← get_loop l;
    HandleEvent dispatch c (el_poll_return_time_ lp')) ;;
  alter_loop (set_el_current_active_channel_ None) l ;;
  alter_loop (set_el_event_handing_ false) l.

(** The tasks are taken out in one go, so that those queued meanwhile wait
    for the next round; the vector they were moved to goes out of scope
    before the flag is cleared. *)
Definition pending_phase (l : nat) : M World () :=
  alter_loop (set_el_calling_pendings_ true) l ;;
  lp ← get_loop l;
  alter_loop (set_el_pendings_ []) l ;;
  for_each (el_pendings_ lp) run_functor ;;
  drop_tasks (el_pendings_ lp) ;;
  alter_loop (set_el_calling_pendings_ false) l.

Definition loop_round (l : nat) : M World () :=
  poll_phase l ;; event_phase l ;; pending_phase l.

(** [while (quitting_.load() == false) round]: [true] when the condition
    ended the loop, [false] when [fuel] rounds were not enough. *)
Fixpoint loop_while (fuel : nat) (l : nat) : M World bool :=
  lp ← get_loop l;
  if el_quitting_ lp then mret true
  else match fuel with
       | O => mret false
       | S fuel' => loop_round l ;; loop_while fuel' l
       end.

Definition Start (fuel : nat) (l : nat) : M World bool :=
  AssertInLoopThread l ;;
  lp ← get_loop l;
  assert_ (negb (el_running_ lp)) ;;
  assert_ (negb (el_quitting_ lp)) ;;
  alter_loop (set_el_running_ true) l ;;
  ended ← loop_while fuel l;
  (if ended : bool then alter_loop (set_el_running_ false) l else mret ()) ;;
  mret ended.
End operations.
