(* ===== verification/Timer.v ===== *)
(** * Timer and TimerQueue: src/timer.cpp and src/timer_queue.cpp

    Time points are nanoseconds in an [int64_t]; a [double] number of
    seconds becomes a duration by the multiplication and truncation the code
    writes, done here in binary64 arithmetic.

    [timers_] is a [std::set] of (time, pointer) pairs: a strictly sorted
    list under the lexicographic order, the null pointer being address 0. *)

From S2P Require Import Prelude Buffer World Kernel Poller Channel EventLoop.

(** ** Durations *)

Definition prec : Z := 53.
Definition emax : Z := 1024.

(** [1e9] *)
Definition d_1e9 : double := S754_finite false 8388608000000000 (-23).

Definition double_mul (x y : double) : double := SFmul prec emax x y.
Definition double_gt0 (x : double) : bool := SFltb (S754_zero false) x.

Definition in_int64 (x : Z) : bool := (- 2 ^ 63 <=? x) && (x <? 2 ^ 63).

(** [static_cast<int64_t>(x)]: truncation, undefined outside the range. *)
Definition to_int64 (x : double) : option Z :=
  match x with
  | S754_zero _ => Some 0
  | S754_finite s m e =>
      let a := if 0 <=? e then Z.pos m * 2 ^ e else Z.pos m / 2 ^ (- e) in
      let v := if s then - a else a in
      if in_int64 v then Some v else None
  | _ => None
  end.

(** [static_cast<TimePoint::rep>(sec * 1e9)] *)
Definition nanoseconds (sec : double) : option Z := to_int64 (double_mul sec d_1e9).

(** [t + d] on a time point: signed overflow is undefined. *)
Definition add_ns (t d : Z) : option Z := if in_int64 (t + d) then Some (t + d) else None.

(** [t1 - t2] on time points, likewise. *)
Definition sub_ns (t1 t2 : Z) : option Z := if in_int64 (t1 - t2) then Some (t1 - t2) else None.

(** ** Timer *)

Definition InvalidTimePoint : Z := 0.

Definition Timer_new (cb : Functor) (when_ : Z) (interval : double) : Timer :=
  mkTimer when_ (double_gt0 interval) interval cb.

(** [Timer::Restart]: [None] when the arithmetic is undefined. *)
Definition Restart (now : Z) (tm : Timer) : option Timer :=
  if tm_repeat_ tm then
    d ← nanoseconds (tm_interval_ tm);
    e ← add_ns now d;
    Some (set_tm_expiration_ e tm)
  else Some (set_tm_expiration_ InvalidTimePoint tm).

(** ** [std::set<TimerEntry>] *)

Abbreviation entry := (Z * nat)%type.

Definition entry_ltb (x y : entry) : bool :=
  (x.1 <? y.1) || ((x.1 =? y.1) && (x.2 <? y.2)%nat).

(** [insert]: the set afterwards and whether the element was new. *)
Fixpoint set_insert (x : entry) (s : list entry) : list entry * bool :=
  match s with
  | [] => ([x], true)
  | y :: s' =>
      if entry_ltb x y then (x :: s, true)
      else if entry_ltb y x then let '(s'', b) := set_insert x s' in (y :: s'', b)
      else (s, false)
  end.

Definition set_find (x : entry) (s : list entry) : bool := bool_decide (x ∈ s).
Definition set_erase (x : entry) (s : list entry) : list entry := filter (λ y, y ≠ x) s.

(** The elements before [lower_bound(x)] and the rest. *)
Fixpoint split_lower_bound (x : entry) (s : list entry) : list entry * list entry :=
  match s with
  | [] => ([], [])
  | y :: s' =>
      if entry_ltb y x then let '(a, b) := split_lower_bound x s' in (y :: a, b)
      else ([], s)
  end.

(** ** TimerQueue *)

(** [details::how_long_from_now] given the time [now]; the difference of two
    time points is an [int64_t] as well, and its overflow is undefined. *)
Definition how_long (now time : Z) : option (Z * Z) :=
  if time <=? now then Some (0, 1)
  else
    diff ← sub_ns time now;
    let s := diff / 1000000000 in
    let n := diff - s * 1000000000 in
    Some (s, n).

Section operations.
Context {os : OS} {heap : Heap}.

Definition get_tq (l : nat) : M World TimerQueue :=
  lp ← get_loop l; mret (el_timer_queue_ lp).

(** [details::set_timerfd] *)
Definition set_timerfd (fd exp : Z) : M World () :=
  t ← now;
  val ← deref (how_long t exp);
  r ← syscall (TimerfdSettime fd val.1 val.2);
  if negb (r_ret r =? 0) then critical else mret ().

(** [details::reset_timerfd] *)
Definition reset_timerfd (fd : Z) : M World () :=
  _ ← syscall (TimerfdRead fd); mret ().

(** [TimerQueue::insert] *)
Definition insert (l t : nat) : M World bool :=
  AssertInLoopThread l ;;
  tm ← get_timer t;
  tq ← get_tq l;
  let when_ := tm_expiration_ tm in
  let earliest_changed :=
    match tq_timers_ tq with [] => true | it :: _ => when_ <? it.1 end in
  let '(s', fresh) := set_insert (when_, t) (tq_timers_ tq) in
  alter_tq (set_tq_timers_ s') l ;;
  assert_ fresh ;;
  mret earliest_changed.

(** The lambda of [AddTimer]. *)
Definition add_timer_in_loop (l t : nat) : M World () :=
  earliest_changed ← insert l t;
  if earliest_changed : bool then
    tm ← get_timer t; tq ← get_tq l; set_timerfd (tq_timerfd_ tq) (tm_expiration_ tm)
  else mret ().

(** [TimerQueue::AddTimer]; the address of the new timer stands for the
    returned [TimerWeakPtr]. *)
Definition AddTimer (l : nat) (cb : Functor) (when_ : Z) (interval : double) : M World nat :=
  w ← get;
  let t := heap_new (dom (w_timers w)) in
  modify (λ w, set_w_timers (<[t := Timer_new cb when_ interval]> (w_timers w)) w) ;;
  RunInLoop l (FAddTimer l t) (add_timer_in_loop l t) ;;
  mret t.

(** [timer_wk.lock()] finds the timer while something owns it: the set, the
    cancelled set, the expired vector being processed, or the closure of an
    [AddTimer] that has not run yet. *)
Definition timer_owned (lp : EventLoop) (t : nat) : bool :=
  let tq := el_timer_queue_ lp in
  bool_decide (t ∈ (tq_timers_ tq).*2) || bool_decide (t ∈ tq_canceling_timers_ tq) ||
  bool_decide (t ∈ tq_expired tq) ||
  existsb (λ f, match f with FAddTimer _ t' => (t' =? t)%nat | _ => false end) (el_pendings_ lp).

(** The lambda of [CancelTimer]. *)
Definition cancel_timer_in_loop (l t : nat) : M World () :=
  lp ← get_loop l;
  if negb (timer_owned lp t) then mret ()
  else
    tm ← get_timer t;
    let tq := el_timer_queue_ lp in
    let x := (tm_expiration_ tm, t) in
    if set_find x (tq_timers_ tq) then
      let s' := set_erase x (tq_timers_ tq) in
      alter_tq (set_tq_timers_ s') l ;;
      assert_ (length (tq_timers_ tq) - length s' =? 1)%nat
    else when (tq_calling_expired_timers_ tq)
      (alter_tq (λ tq, set_tq_canceling_timers_ ({[t]} ∪ tq_canceling_timers_ tq) tq) l).

Definition CancelTimer (l t : nat) : M World () :=
  RunInLoop l (FCancelTimer l t) (cancel_timer_in_loop l t).

(** ** The read callback of the timer descriptor *)

Context (run_functor : Functor → M World ()).

(** Take the timers that are due out of the set. *)
Definition take_expired (l : nat) (now : Z) : M World (list entry) :=
  tq ← get_tq l;
  let '(expired, rest) := split_lower_bound (now, O) (tq_timers_ tq) in
  assert_ (match rest with [] => true | e :: _ => now <? e.1 end) ;;
  alter_tq (λ tq, set_tq_expired expired.*2 (set_tq_timers_ rest tq)) l ;;
  mret expired.

(** Run their callbacks. *)
Definition run_expired (l : nat) (expired : list entry) : M World () :=
  alter_tq (set_tq_calling_expired_timers_ true) l ;;
  alter_tq (set_tq_canceling_timers_ ∅) l ;;
  for_each expired (λ e, tm ← get_timer e.2; run_functor (tm_callback_ tm)) ;;
  alter_tq (set_tq_calling_expired_timers_ false) l.

(** Put the repeating ones back that were not cancelled meanwhile. *)
Definition restart_expired (l : nat) (now : Z) (expired : list entry) : M World () :=
  for_each expired (λ e,
    tm ← get_timer e.2;
    if negb (tm_repeat_ tm) then mret ()
    else
      tq ← get_tq l;
      if bool_decide (e.2 ∈ tq_canceling_timers_ tq) then mret ()
      else
        tm' ← deref (Restart now tm);
        alter_timer (λ _, tm') e.2 ;;
        _ ← insert l e.2; mret ()).

(** Arm the descriptor for the earliest timer. *)
Definition rearm (l : nat) : M World () :=
  tq ← get_tq l;
  next_expired_time ←
    match tq_timers_ tq with
    | [] => mret InvalidTimePoint
    | e :: _ => tm ← get_timer e.2; mret (tm_expiration_ tm)
    end;
  if negb (next_expired_time =? InvalidTimePoint)
  then set_timerfd (tq_timerfd_ tq) next_expired_time else mret ().

Definition handle_timerfd (l : nat) : M World () :=
  AssertInLoopThread l ;;
  t ← now;
  tq ← get_tq l;
  reset_timerfd (tq_timerfd_ tq) ;;
  expired ← take_expired l t;
  run_expired l expired ;;
  restart_expired l t expired ;;
  rearm l ;;
  alter_tq (set_tq_expired []) l.

(** ** EventLoop::RunAt, RunAfter, RunEvery, CancelTimer *)

Definition d_zero : double := S754_zero false.

Definition RunAt (l : nat) (time : Z) (cb : Functor) : M World nat := AddTimer l cb time d_zero.

Definition RunAfter (l : nat) (delay : double) (cb : Functor) : M World nat :=
  t ← now;
  d ← deref (nanoseconds delay);
  t' ← deref (add_ns t d);
  AddTimer l cb t' d_zero.

Definition RunEvery (l : nat) (interval : double) (cb : Functor) : M World nat :=
  t ← now;
  d ← deref (nanoseconds interval);
  t' ← deref (add_ns t d);
  AddTimer l cb t' interval.
End operations.
