(* ===== verification/Socket.v ===== *)
(** * Socket: src/socket.cpp and src/socket_ops.cpp

    The wrappers around the socket system calls, with what they do on
    failure: log and go on, or end the process.  A [sockaddr_storage] is the
    list of its 128 bytes; the address the kernel returns is written into
    it up to the length the caller passed. *)

From S2P Require Import Prelude Buffer World Kernel.

Definition SOL_SOCKET : Z := 1.
Definition SO_REUSEADDR : Z := 2.
Definition SO_KEEPALIVE : Z := 9.
Definition SO_REUSEPORT : Z := 15.
Definition IPPROTO_TCP : Z := 6.
Definition TCP_NODELAY : Z := 1.

Definition ENFILE : Z := 23.
Definition ECONNABORTED : Z := 103.
Definition EPROTO : Z := 71.
Definition EPERM : Z := 1.

(** [sizeof(sockaddr_storage)], [sizeof(sockaddr)], the size of a pointer. *)
Definition sizeof_storage : Z := 128.
Definition sizeof_sockaddr : Z := 16.
Definition sizeof_pointer : Z := 8.

Definition zero_storage : list byte := replicate 128 Byte.x00.

(** The kernel writes an address into a zeroed [sockaddr_storage], at most
    [addrlen] bytes of it. *)
Definition written_storage (addrlen : Z) (addr : list byte) : list byte :=
  write_at 0 (take (Z.to_nat addrlen) (take 128 addr)) zero_storage.

Section operations.
Context {os : OS}.

(** A call whose failure is only logged. *)
Definition logged (c : call) : M World () := _ ← syscall c; mret ().
(** A call whose failure ends the process. *)
Definition or_die (c : call) : M World Z :=
  r ← syscall c; if r_ret r <? 0 then critical else mret (r_ret r).

(** ** benet::sockets *)

Definition create_nonblocking_or_die (family : Z) : M World Z := or_die (SysSocket family).
Definition bind_or_die (sockfd : Z) (addr : list byte) : M World () :=
  _ ← or_die (SysBind sockfd (take (Z.to_nat sizeof_sockaddr) addr) sizeof_sockaddr); mret ().
Definition listen_or_die (sockfd : Z) : M World () := _ ← or_die (SysListen sockfd); mret ().

(** The errors after which [accept] lets the server go on. *)
Definition accept_errno_ok (e : Z) : bool :=
  (e =? EAGAIN) || (e =? ECONNABORTED) || (e =? EINTR) || (e =? EPROTO) || (e =? EPERM) ||
  (e =? EMFILE).

(** [accept(sockfd, &addr)] into a zeroed [addr]: [addrlen] is
    [sizeof(addr)], the size of the pointer.  Returns the descriptor and
    the storage. *)
Definition accept (sockfd : Z) : M World (Z * list byte) :=
  let addrlen := sizeof_pointer in
  r ← syscall (SysAccept4 sockfd addrlen);
  if r_ret r <? 0 then
    e ← errno;
    if accept_errno_ok e then mret (r_ret r, zero_storage) else critical
  else mret (r_ret r, written_storage addrlen (r_data r)).

Definition sockets_close (sockfd : Z) : M World () := logged (SysClose sockfd).
Definition shutdown_write (sockfd : Z) : M World () := logged (SysShutdownWr sockfd).

Definition get_socket_error (sockfd : Z) : M World Z :=
  r ← syscall (GetSockError sockfd);
  if r_ret r <? 0 then errno else mret (le_value (r_data r)).

Definition get_local_addr (sockfd : Z) : M World (list byte) :=
  r ← syscall (SysGetsockname sockfd sizeof_storage);
  mret (if r_ret r <? 0 then zero_storage else written_storage sizeof_storage (r_data r)).

Definition get_peer_addr (sockfd : Z) : M World (list byte) :=
  r ← syscall (SysGetpeername sockfd sizeof_storage);
  mret (if r_ret r <? 0 then zero_storage else written_storage sizeof_storage (r_data r)).

(** The wrappers that only pass on the call. *)
Definition connect (sockfd : Z) (addr : list byte) : M World Z :=
  r ← syscall (SysConnect sockfd (take (Z.to_nat sizeof_sockaddr) addr) sizeof_sockaddr); mret (r_ret r).
Definition sockets_read (sockfd count : Z) : M World (Z * list byte) :=
  r ← syscall (SysRead sockfd count); mret (r_ret r, r_data r).
Definition sockets_readv (sockfd : Z) (iov : list Z) : M World (Z * list byte) :=
  r ← syscall (SysReadv sockfd iov); mret (r_ret r, r_data r).
Definition sockets_write (sockfd : Z) (buf : list byte) : M World Z :=
  r ← syscall (SysWrite sockfd buf); mret (r_ret r).
Definition sockets_send (sockfd : Z) (buf : list byte) : M World Z :=
  r ← syscall (SysSend sockfd buf); mret (r_ret r).

(** ** class Socket *)

Definition Socket_dtor (sockfd : Z) : M World () := sockets_close sockfd.
Definition Socket_Bind (sockfd : Z) (addr : list byte) : M World () := bind_or_die sockfd addr.
Definition Socket_Listen (sockfd : Z) : M World () := listen_or_die sockfd.

(** [Socket::Accept(&peer_addr)]: [peer_addr] is set on success only. *)
Definition Socket_Accept (sockfd : Z) : M World (Z * option (list byte)) :=
  '(connfd, addr) ← accept sockfd;
  mret (connfd, if 0 <=? connfd then Some addr else None).

Definition ShutdownWrite (sockfd : Z) : M World () := shutdown_write sockfd.

Definition optval (on : bool) : Z := if on then 1 else 0.
Definition SetTcpNodelay (sockfd : Z) (on : bool) : M World () :=
  logged (SysSetsockopt sockfd IPPROTO_TCP TCP_NODELAY (optval on)).
Definition SetReuseAddr (sockfd : Z) (on : bool) : M World () :=
  logged (SysSetsockopt sockfd SOL_SOCKET SO_REUSEADDR (optval on)).
Definition SetReusePort (sockfd : Z) (on : bool) : M World () :=
  logged (SysSetsockopt sockfd SOL_SOCKET SO_REUSEPORT (optval on)).
Definition SetKeepAlive (sockfd : Z) (on : bool) : M World () :=
  logged (SysSetsockopt sockfd SOL_SOCKET SO_KEEPALIVE (optval on)).
End operations.
