(* ===== verification/TcpConnection.v ===== *)
(** * TcpConnection: src/tcp_connection.cpp

    One definition per member function, with the lambdas it hands to the
    loop as definitions of their own ([..._in_loop]).  The four states and
    the compare-exchange transitions between them are those of the source.

    The callbacks an application registers are calls of [UserCode]; the
    close callback, which the library binds to [TcpServer], is the
    parameter [close_code]. *)

From S2P Require Import Prelude Buffer World Kernel Poller Channel EventLoop Timer Socket.

(** [state_as_string] *)
Definition state_as_string (s : State) : string :=
  match s with
  | Disconnected => "Disconnected"
  | Connecting => "Connecting"
  | Connected => "Connected"
  | Disconnecting => "Disconnecting"
  end.

(** ** The buffers of a connection *)

(** Run a buffer operation on a member buffer. *)
Definition on_buffer {A} (g : TcpConnection → Buffer)
    (p : Buffer → TcpConnection → TcpConnection) (c : nat) (m : M Buffer A) : M World A :=
  cn ← get_conn c;
  zoom (λ _, g cn) (λ b w, set_w_conns (<[c := p b cn]> (w_conns w)) w) m.
Definition on_input {A} : nat → M Buffer A → M World A :=
  on_buffer tc_input_buffer_ set_tc_input_buffer_.
Definition on_output {A} : nat → M Buffer A → M World A :=
  on_buffer tc_output_buffer_ set_tc_output_buffer_.

(** The readable bytes at [Peek()]. *)
Definition peek_all : M Buffer (list byte) :=
  b ← get; load (Peek b) (Peek b + ReadableBytes b).

(** The [len] bytes at [msg + off]. *)
Definition sub_range (msg : list byte) (off len : Z) : M World (list byte) :=
  if (0 <=? off) && (0 <=? len) && (off + len <=? zlength msg)
  then mret (slice off (off + len) msg) else crash UB.

Definition IsConnected (cn : TcpConnection) : bool := bool_decide (tc_state_ cn = Connected).
Definition IsDisconnected (cn : TcpConnection) : bool := bool_decide (tc_state_ cn = Disconnected).
Definition set_state (s : State) : nat → M World () := alter_conn (set_tc_state_ s).

(** [state_.compare_exchange_strong(expected, desired)] *)
Definition compare_exchange (c : nat) (expected desired : State) : M World bool :=
  cn ← get_conn c;
  if bool_decide (tc_state_ cn = expected) then set_state desired c ;; mret true else mret false.

Definition kHighWaterMark : Z := 128 * 1024 * 1024.

Section operations.
Context {os : OS} {heap : Heap} {user : UserCode}.

(** The code behind a bound [CloseCallback]. *)
Context (close_code : close_cb → nat → M World ()).

(** ** Calling the callbacks *)

Definition call_connection (c : nat) : M World () :=
  cn ← get_conn c;
  match tc_on_connection_ cn with
  | None => crash BadFunctionCall
  | Some DefaultCb => mret ()   (* default_connection_callback only logs *)
  | Some (UserCb u) => call_user (UConnection u c)
  end.

Definition default_message_callback (c : nat) : M World () := on_input c RetrieveAll.

Definition call_message (c : nat) (t : Z) : M World () :=
  cn ← get_conn c;
  match tc_on_message_ cn with
  | None => crash BadFunctionCall
  | Some DefaultCb => default_message_callback c
  | Some (UserCb u) => call_user (UMessage u c t)
  end.

Definition call_close (c : nat) : M World () :=
  cn ← get_conn c;
  match tc_on_close_ cn with
  | None => crash BadFunctionCall
  | Some cb => close_code cb c
  end.

(** [if (on_write_complete_) loop_->QueueInLoop(...)] *)
Definition queue_write_complete (c : nat) : M World () :=
  cn ← get_conn c;
  match tc_on_write_complete_ cn with
  | Some u => QueueInLoop (tc_loop_ cn) (FWriteComplete u c)
  | None => mret ()
  end.

(** ** Closing and errors *)

Definition handle_error (c : nat) : M World () :=
  cn ← get_conn c; ch ← get_chan (tc_channel_ cn);
  _ ← get_socket_error (ch_fd_ ch); mret ().

Definition handle_error_with_code (c : nat) (errcode : Z) : M World () :=
  cn ← get_conn c; ch ← get_chan (tc_channel_ cn);
  _ ← get_socket_error (ch_fd_ ch); mret ().

Definition handle_close (c : nat) : M World () :=
  cn ← get_conn c;
  AssertInLoopThread (tc_loop_ cn) ;;
  if bool_decide (tc_state_ cn ≠ Connected) && bool_decide (tc_state_ cn ≠ Disconnecting)
  then mret ()
  else
    set_state Disconnected c ;;
    DisableAllEvent (tc_channel_ cn) ;;
    ch ← get_chan (tc_channel_ cn);
    _ ← get_socket_error (ch_fd_ ch);
    call_connection c ;;
    call_close c.

(** ** Sending *)

(** The direct attempt of [send_in_loop]: [n_wrote], [n_remaining] and
    [fault_error] after it. *)
Definition send_directly (c : nat) (msg : list byte) : M World (Z * Z * bool) :=
  cn ← get_conn c;
  ch ← get_chan (tc_channel_ cn);
  let len := zlength msg in
  if negb (IsWriteEvent ch) && (ReadableBytes (tc_output_buffer_ cn) =? 0) then
    r ← syscall (SysSend (ch_fd_ ch) msg);
    let n_wrote := r_ret r in
    if 0 <=? n_wrote then
      let n_remaining := u64 (len - n_wrote) in
      when (n_remaining =? 0) (queue_write_complete c) ;;
      mret (n_wrote, n_remaining, false)
    else
      e ← errno;
      if negb (e =? EAGAIN) && negb (e =? EWOULDBLOCK)
      then mret (0, len, (e =? EPIPE) || (e =? ECONNRESET))
      else mret (0, len, false)
  else mret (0, len, false).

(** The rest goes to the output buffer. *)
Definition buffer_rest (c : nat) (msg : list byte) (n_wrote n_remaining : Z) : M World () :=
  cn ← get_conn c;
  let old_buf_len := ReadableBytes (tc_output_buffer_ cn) in
  (if (tc_high_water_mark_ cn <=? u64 (old_buf_len + n_remaining)) &&
      (old_buf_len <? tc_high_water_mark_ cn)
   then match tc_on_high_water_mark_ cn with
        | Some u => QueueInLoop (tc_loop_ cn)
                      (FHighWaterMark u c (u64 (old_buf_len + n_remaining)))
        | None => mret ()
        end
   else mret ()) ;;
  data ← sub_range msg n_wrote n_remaining;
  on_output c (Append data) ;;
  ch ← get_chan (tc_channel_ cn);
  when (negb (IsWriteEvent ch)) (EnableWriteEvent (tc_channel_ cn)).

Definition send_in_loop (c : nat) (msg : list byte) : M World () :=
  cn ← get_conn c;
  AssertInLoopThread (tc_loop_ cn) ;;
  if bool_decide (tc_state_ cn ≠ Connected) then mret ()
  else
    '(n_wrote, n_remaining, fault_error) ← send_directly c msg;
    if fault_error : bool then
      e ← errno;
      handle_error_with_code c e ;; handle_close c
    else if n_remaining <=? 0 then mret ()
    else buffer_rest c msg n_wrote n_remaining.

(** [Send(const void*, size_t)] and [Send(std::string_view)] *)
Definition Send (c : nat) (msg : list byte) : M World () :=
  cn ← get_conn c;
  if bool_decide (tc_state_ cn ≠ Connected) then mret ()
  else
    b ← IsInLoopThread (tc_loop_ cn);
    if b : bool then send_in_loop c msg
    else RunInLoop (tc_loop_ cn) (FSendInLoop c msg) (send_in_loop c msg).

(** [Send(Buffer* buf)], [buf] being the input buffer of connection [src]. *)
Definition Send_buffer (c src : nat) : M World () :=
  cn ← get_conn c;
  if bool_decide (tc_state_ cn ≠ Connected) then mret ()
  else
    b ← IsInLoopThread (tc_loop_ cn);
    if b : bool then
      msg ← on_input src peek_all;
      send_in_loop c msg ;;
      on_input src RetrieveAll
    else
      message ← on_input src RetrieveAllAsString;
      RunInLoop (tc_loop_ cn) (FSendInLoop c message) (send_in_loop c message).

(** ** Shutting down *)

(** The lambda of [Shutdown]. *)
Definition shutdown_in_loop (c : nat) : M World () :=
  cn ← get_conn c;
  AssertInLoopThread (tc_loop_ cn) ;;
  ch ← get_chan (tc_channel_ cn);
  when (negb (IsWriteEvent ch)) (ShutdownWrite (tc_socket_ cn)).

Definition Shutdown (c : nat) : M World () :=
  ok ← compare_exchange c Connected Disconnecting;
  if ok : bool then
    cn ← get_conn c; RunInLoop (tc_loop_ cn) (FShutdown c) (shutdown_in_loop c)
  else mret ().

(** The lambda of [ForceClose]. *)
Definition force_close_in_loop (c : nat) : M World () :=
  cn ← get_conn c;
  AssertInLoopThread (tc_loop_ cn) ;;
  when (bool_decide (tc_state_ cn = Connected) || bool_decide (tc_state_ cn = Disconnecting))
    (handle_close c).

Definition ForceClose (c : nat) : M World () :=
  ok ← compare_exchange c Connected Disconnecting;
  cn ← get_conn c;
  when (ok || bool_decide (tc_state_ cn = Disconnecting))
    (QueueInLoop (tc_loop_ cn) (FForceClose c)).

(** The lambda of [ForceCloseDelay]: the weak pointer may be dead. *)
Definition force_close_weak (c : nat) : M World () :=
  w ← get; match w_conns w !! c with Some _ => ForceClose c | None => mret () end.

Definition ForceCloseDelay (c : nat) (sec : double) : M World () :=
  cn ← get_conn c; _ ← RunAfter (tc_loop_ cn) sec (FForceCloseWeak c); mret ().

Definition SetTcpNoDelay (c : nat) (on : bool) : M World () :=
  cn ← get_conn c; SetTcpNodelay (tc_socket_ cn) on.

(** ** Reading on and off *)

Definition start_read_in_loop (c : nat) : M World () :=
  cn ← get_conn c;
  AssertInLoopThread (tc_loop_ cn) ;;
  ch ← get_chan (tc_channel_ cn);
  when (negb (tc_reading_ cn) || negb (IsReadEvent ch))
    (EnableReadEvent (tc_channel_ cn) ;; alter_conn (set_tc_reading_ true) c).

Definition StartRead (c : nat) : M World () :=
  cn ← get_conn c; RunInLoop (tc_loop_ cn) (FStartRead c) (start_read_in_loop c).

Definition stop_read_in_loop (c : nat) : M World () :=
  cn ← get_conn c;
  AssertInLoopThread (tc_loop_ cn) ;;
  ch ← get_chan (tc_channel_ cn);
  when (tc_reading_ cn || IsReadEvent ch)
    (DisableReadEvent (tc_channel_ cn) ;; alter_conn (set_tc_reading_ false) c).

Definition StopRead (c : nat) : M World () :=
  cn ← get_conn c; RunInLoop (tc_loop_ cn) (FStopRead c) (stop_read_in_loop c).

(** ** Life cycle *)

Definition ConnectionEstablished (c : nat) : M World () :=
  cn ← get_conn c;
  AssertInLoopThread (tc_loop_ cn) ;;
  assert_ (bool_decide (tc_state_ cn = Connecting)) ;;
  set_state Connected c ;;
  Tie (tc_channel_ cn) c ;;
  EnableReadEvent (tc_channel_ cn) ;;
  call_connection c.

Definition ConnectionDestroyed (c : nat) : M World () :=
  cn ← get_conn c;
  AssertInLoopThread (tc_loop_ cn) ;;
  ok ← compare_exchange c Connected Disconnected;
  when ok (DisableAllEvent (tc_channel_ cn) ;; call_connection c) ;;
  RemoveFromLoop (tc_channel_ cn).

(** The connections that timers hold weak pointers to. *)
Definition weak_target (f : Functor) : option nat :=
  match f with FForceCloseWeak c => Some c | _ => None end.
Definition weak_refs (tms : gmap nat Timer) : gset nat :=
  list_to_set (omap (λ x, weak_target (tm_callback_ x.2)) (map_to_list tms)).

Lemma elem_of_weak_refs c tms :
  c ∈ weak_refs tms ↔ ∃ t tm, tms !! t = Some tm ∧ weak_target (tm_callback_ tm) = Some c.
Proof.
  rw /weak_refs elem_of_list_to_set list_elem_of_omap. split.
  - intros ([t tm] & Hin & Hc). exists t, tm. by apply elem_of_map_to_list in Hin.
  - intros (t & tm & Hin & Hc). exists (t, tm). by rw elem_of_map_to_list.
Qed.

(** The constructor binds the channel's slots and turns keep-alive on.  The
    object is known by the control block of its shared pointers, which stays
    in use as long as there is a weak pointer. *)
Definition TcpConnection_new (loop : nat) (sockfd : Z) (local_addr peer_addr : list byte)
    (name : string) : M World nat :=
  w ← get;
  let c := heap_new (dom (w_conns w) ∪ weak_refs (w_timers w)) in
  ch ← make_channel loop sockfd;
  buf ← match Buffer_new kInitialSize with inr b => mret b | inl f => crash f end;
  modify (λ w, set_w_conns (<[c := mkTcpConnection loop name sockfd ch local_addr peer_addr
    Connecting true kHighWaterMark None None None None None buf buf]> (w_conns w)) w) ;;
  BindReadCallback ch (CbHandleRead c) ;;
  BindWriteCallback ch (CbHandleWrite c) ;;
  BindCloseCallback ch (CbHandleClose c) ;;
  BindErrorCallback ch (CbHandleError c) ;;
  SetKeepAlive sockfd true ;;
  mret c.

(** The destructor, then the members: the channel, the socket. *)
Definition TcpConnection_dtor (c : nat) : M World () :=
  cn ← get_conn c;
  assert_ (bool_decide (tc_state_ cn = Disconnected)) ;;
  Channel_dtor (tc_channel_ cn) ;;
  Socket_dtor (tc_socket_ cn) ;;
  modify (λ w, set_w_conns (delete c (w_conns w)) w).

(** ** Event handlers *)

Definition handle_read (c : nat) (receive_time : Z) : M World () :=
  cn ← get_conn c;
  AssertInLoopThread (tc_loop_ cn) ;;
  ch ← get_chan (tc_channel_ cn);
  r ← syscall (SysReadv (ch_fd_ ch) (read_iov (tc_input_buffer_ cn)));
  n ← on_input c (ReadFd (λ _, (r_ret r, r_data r)));
  if 0 <? n then call_message c receive_time
  else if n =? 0 then handle_close c
  else
    e ← errno;
    if (e =? EAGAIN) || (e =? EWOULDBLOCK) then mret ()
    else if e =? EINTR then mret ()
    else handle_error_with_code c e ;; handle_close c.

(** The lambda at the end of [handle_write]. *)
Definition shutdown_drained (c : nat) : M World () :=
  cn ← get_conn c;
  ch ← get_chan (tc_channel_ cn);
  when (negb (IsWriteEvent ch)) (ShutdownWrite (tc_socket_ cn)).

Definition handle_write (c : nat) : M World () :=
  cn ← get_conn c;
  AssertInLoopThread (tc_loop_ cn) ;;
  ch ← get_chan (tc_channel_ cn);
  if negb (IsWriteEvent ch) then mret ()
  else
    data ← on_output c peek_all;
    r ← syscall (SysSend (ch_fd_ ch) data);
    let n := r_ret r in
    if n <=? 0 then
      e ← errno;
      if (e =? EAGAIN) || (e =? EWOULDBLOCK) then mret ()
      else if e =? EINTR then mret ()
      else handle_error_with_code c e ;; handle_close c
    else
      on_output c (Retrieve n) ;;
      cn ← get_conn c;
      if 0 <? ReadableBytes (tc_output_buffer_ cn) then mret ()
      else
        DisableWriteEvent (tc_channel_ cn) ;;
        queue_write_complete c ;;
        cn ← get_conn c;
        if bool_decide (tc_state_ cn = Disconnecting)
        then RunInLoop (tc_loop_ cn) (FShutdownDrained c) (shutdown_drained c)
        else mret ().
End operations.

(** ** Binding *)

Definition BindConnectionCallback (c : nat) (cb : option conn_cb) : M World () :=
  alter_conn (set_tc_on_connection_ cb) c.
Definition Conn_BindCloseCallback (c : nat) (cb : option close_cb) : M World () :=
  alter_conn (set_tc_on_close_ cb) c.
Definition BindMessageCallback (c : nat) (cb : option conn_cb) : M World () :=
  alter_conn (set_tc_on_message_ cb) c.
Definition BindWriteCompleteCallback (c : nat) (cb : option nat) : M World () :=
  alter_conn (set_tc_on_write_complete_ cb) c.
Definition BindHighWaterMarkCallback (c : nat) (cb : option nat) (mark : Z) : M World () :=
  alter_conn (set_tc_on_high_water_mark_ cb) c ;; alter_conn (set_tc_high_water_mark_ mark) c.
