(* ===== verification/ConnInv.v ===== *)
(** * ConnInv: the invariant of a connection and its primitive steps

    [conn_ok] ties a connection to its channel, its loop and its two
    buffers.  What an outside observer sees of a connection is read off the
    history: the bytes the kernel accepted, the FINs requested, the
    callbacks made ([obs]).  Every primitive the handlers are made of gets
    one lemma: what it does to the connection, and that the observation
    stays or how it grows. *)

From S2P Require Import Prelude Buffer World Kernel Poller Channel Reactor EventLoop Timer Socket TcpConnection.

(** ** Observations *)

Definition fin_step (fd : Z) (e : event) : list () :=
  match e with Sys (SysShutdownWr f) _ => if f =? fd then [()] else [] | _ => [] end.
Definition fins (fd : Z) (h : list event) : list () := h ≫= fin_step fd.

(** The connection and close callbacks made for connection [c]. *)
Definition note_step (c : nat) (e : event) : list ucall :=
  match e with
  | User (UConnection u c') => if (c' =? c)%nat then [UConnection u c'] else []
  | User (UClose u c') => if (c' =? c)%nat then [UClose u c'] else []
  | _ => []
  end.
Definition notes (c : nat) (h : list event) : list ucall := h ≫= note_step c.

Definition obs (c : nat) (fd : Z) (h : list event) : list byte * list () * list ucall :=
  (sent fd h, fins fd h, notes c h).

Lemma sent_app fd h evs : sent fd (h ++ evs) = sent fd h ++ sent fd evs.
Proof. apply bind_app. Qed.
Lemma fins_app fd h evs : fins fd (h ++ evs) = fins fd h ++ fins fd evs.
Proof. apply bind_app. Qed.
Lemma notes_app c h evs : notes c (h ++ evs) = notes c h ++ notes c evs.
Proof. apply bind_app. Qed.

(** An event nobody at the other end of the connection can see. *)
Definition inert (c : nat) (fd : Z) (e : event) : bool :=
  match e with
  | Sys (SysSend f _) _ | Sys (SysShutdownWr f) _ | Sys (SysClose f) _ => negb (f =? fd)
  | User (UConnection _ c') | User (UClose _ c') => negb (c' =? c)%nat
  | _ => true
  end.

Lemma obs_inert_1 c fd e :
  inert c fd e = true → sent fd [e] = [] ∧ fins fd [e] = [] ∧ notes c [e] = [].
Proof.
  intros H. rw /sent /fins /notes.
  destruct e as [[] r|[]]; simpl in *; try done; by destruct (_ =? _) || destruct (_ =? _)%nat.
Qed.

Lemma obs_inert c fd h evs :
  forallb (inert c fd) evs = true → obs c fd (h ++ evs) = obs c fd h.
Proof.
  revert h. induction evs as [|e evs IH]; intros h; simpl; [by rw app_nil_r|].
  intros [He Hevs]%andb_prop. rw cons_middle app_assoc IH //.
  destruct (obs_inert_1 c fd e He) as (Hs & Hf & Hn).
  by rw /obs sent_app fins_app notes_app Hs Hf Hn !app_nil_r.
Qed.

(** ** The invariant *)

(** While a connection of a server is open, the server knows it: it exists,
    its loop runs on this thread or is another loop, and its map has the
    connection under its name. *)
Definition home_open (c : nat) (cn : TcpConnection) (w : World) : Prop :=
  match tc_on_close_ cn with
  | Some (RemoveConnection s) => ∃ sv base, w_servers w !! s = Some sv ∧
      w_loops w !! sv_loop_ sv = Some base ∧
      (sv_loop_ sv = tc_loop_ cn ∨ el_thread_id_ base ≠ w_tid w) ∧
      sv_connections_ sv !! tc_name_ cn = Some c
  | _ => True
  end.

(** What [home_open] reads of the world. *)
Definition home_frame (w w' : World) : Prop :=
  w_servers w' = w_servers w ∧ w_tid w' = w_tid w ∧
  ∀ l, el_thread_id_ <$> w_loops w' !! l = el_thread_id_ <$> w_loops w !! l.

Record conn_ok (c : nat) (cn : TcpConnection) (ch : Channel) (lp : EventLoop) (w : World) : Prop := {
  co_conn : w_conns w !! c = Some cn;
  co_ready : chan_ready (tc_loop_ cn) (tc_channel_ cn) ch lp w;
  co_fd : ch_fd_ ch = tc_socket_ cn;
  co_in : inv (tc_input_buffer_ cn);
  co_out : inv (tc_output_buffer_ cn);
  co_home : tc_state_ cn ≠ Disconnected → home_open c cn w;
}.

(** The parts of a connection no handler changes. *)
Definition conn_core (cn : TcpConnection) :=
  (tc_loop_ cn, tc_channel_ cn, tc_socket_ cn, tc_name_ cn, tc_on_connection_ cn, tc_on_close_ cn,
   tc_on_message_ cn, tc_on_write_complete_ cn, tc_on_high_water_mark_ cn, tc_high_water_mark_ cn).

Lemma home_open_frame c cn cn' w w' :
  home_frame w w' → conn_core cn' = conn_core cn → home_open c cn w → home_open c cn' w'.
Proof.
  intros (Hs & Ht & Hl) [= El _ _ En _ Ec _ _ _ _]. rw /home_open Ec El En Hs Ht.
  destruct (tc_on_close_ cn) as [[s|]|]; try done. intros (sv & base & ? & Hb & ? & ?).
  specialize (Hl (sv_loop_ sv)). rw Hb in Hl. apply fmap_Some in Hl as (base' & ? & Heq).
  exists sv, base'. by rw -Heq.
Qed.

Lemma home_frame_chan l c ch w w' : chan_frame l c ch w w' → home_frame w w'.
Proof.
  intros [Ht _ _ _ [m Hl] _ Ho]. injection Ho as _ Hs _ _ _. split_and!; [done|done|].
  intros l'. rw Hl lookup_alter. case_decide; [subst|done]. by destruct (w_loops w !! _).
Qed.

Section primitives.
Context {os : OS} `{!EpollDelOk os, !EpollCtlRet os}.
Implicit Types (w : World) (cn : TcpConnection) (ch : Channel) (lp : EventLoop).

Lemma wp_conn_thread c cn ch lp (Q : () → World → Prop) E w :
  conn_ok c cn ch lp w → Q () w → wp (AssertInLoopThread (tc_loop_ cn)) Q E w.
Proof. intros [_ [? ? ? ? ? ?] _ _ _ _]. by eapply AssertInLoopThread_ok. Qed.

Lemma wp_IsInLoopThread l lp (Q : bool → World → Prop) E w :
  w_loops w !! l = Some lp → Q (el_thread_id_ lp =? w_tid w)%nat w →
  wp (IsInLoopThread l) Q E w.
Proof. intros Hl HQ. rw /IsInLoopThread. wp_step. eapply wp_get_loop; [done|]. by wp_steps. Qed.

Lemma wp_in_thread c cn ch lp (Q : bool → World → Prop) E w :
  conn_ok c cn ch lp w → Q true w → wp (IsInLoopThread (tc_loop_ cn)) Q E w.
Proof.
  intros [_ [_ _ _ Hl Ht _] _ _ _ _] HQ. eapply wp_IsInLoopThread; [done|].
  by rw Ht Nat.eqb_refl.
Qed.

(** A world that differs in what the poller does not look at. *)
Lemma chan_ready_quiet l c ch lp lp' evs w w' :
  chan_ready l c ch lp w → w_chans w' = w_chans w → w_loops w' !! l = Some lp' →
  el_poller_ lp' = el_poller_ lp → el_thread_id_ lp' = el_thread_id_ lp → w_tid w' = w_tid w →
  w_hist w' = w_hist w ++ evs → forallb quiet evs = true → chan_ready l c ch lp' w'.
Proof.
  intros [Hinv Hc Hcl Hl Ht Hnew] Hch Hl' Hp Hth Htid Hh Hq. split.
  - rw -(poller_equiv_quiet l evs w w'); [by rw /poller_view Hl Hl' /= Hp|by rw Hch|done..].
  - by rw Hch.
  - done.
  - done.
  - congruence.
  - by rw Hp.
Qed.

Lemma conn_ok_call c cn ch lp k w :
  conn_ok c cn ch lp w → quiet (Sys k (os_reply (w_hist w) k)) = true →
  conn_ok c cn ch lp (after_call k w).
Proof.
  intros [Hc Hr Hfd Hi Ho Hh] Hq. split; try done.
  eapply chan_ready_quiet; try done; [apply Hr|simpl; by rw andb_true_r].
Qed.

(** Updating the connection object itself. *)
Lemma conn_ok_alter c cn cn' ch lp w :
  conn_ok c cn ch lp w →
  conn_core cn' = conn_core cn → (tc_state_ cn' ≠ Disconnected → tc_state_ cn ≠ Disconnected) →
  inv (tc_input_buffer_ cn') → inv (tc_output_buffer_ cn') →
  conn_ok c cn' ch lp (set_w_conns (<[c := cn']> (w_conns w)) w).
Proof.
  intros [Hc Hr Hfd Hi Ho Hh] Hcore Hst Hi' Ho'. pose proof Hcore as [= Hl Hch Hso _ _ _ _ _ _ _].
  split; try done.
  - apply lookup_insert_eq.
  - rw Hl Hch. eapply (chan_ready_quiet _ _ _ lp lp []); try done; [apply Hr|]. by rw /= app_nil_r.
  - by rw Hso.
  - intros H. eapply home_open_frame, Hh, Hst, H; [by split_and!|done].
Qed.

Lemma wp_alter_conn (f : TcpConnection → TcpConnection) c cn (Q : () → World → Prop) E w :
  w_conns w !! c = Some cn → Q () (set_w_conns (<[c := f cn]> (w_conns w)) w) →
  wp (alter_conn f c) Q E w.
Proof. intros Hc HQ. rw /alter_conn. wp_step. by rw (alter_insert f c cn). Qed.

(** ** The task queue *)

(** What queueing [cb] on [l] does. *)
Record queued (l : nat) (lp : EventLoop) (cb : Functor) (w w' : World) : Prop := {
  qd_loops : w_loops w' = <[l := set_el_pendings_ (el_pendings_ lp ++ [cb]) lp]> (w_loops w);
  qd_chans : w_chans w' = w_chans w;
  qd_conns : w_conns w' = w_conns w;
  qd_timers : w_timers w' = w_timers w;
  qd_tid : w_tid w' = w_tid w;
  qd_others : others w' = others w;
  qd_hist : ∃ r, w_hist w' = w_hist w ++
    (if negb (el_thread_id_ lp =? w_tid w)%nat || el_calling_pendings_ lp
     then [Sys (EventfdWrite (el_wakeup_fd_ lp) 1) r] else []);
}.

Lemma QueueInLoop_ok l lp cb E w :
  w_loops w !! l = Some lp → wp (QueueInLoop l cb) (λ _, queued l lp cb w) E w.
Proof.
  intros Hl. rw /QueueInLoop /alter_loop. wp_step. wp_step. rw (alter_insert _ l lp) //.
  set (lp' := set_el_pendings_ _ lp). set (w1 := set_w_loops _ w).
  assert (Hl1 : w_loops w1 !! l = Some lp') by apply lookup_insert_eq.
  wp_step. eapply wp_IsInLoopThread; [done|]. wp_step. eapply wp_get_loop; [done|]. simpl.
  destruct (negb _ || _) eqn:Hw; simpl; last first.
  { wp_step. split; try done. exists (ok 0). by rw Hw app_nil_r. }
  rw /set_wakeup. wp_step. eapply wp_get_loop; [done|]. wp_step. apply wp_syscall. wp_step.
  split; try done. eexists. by rw Hw.
Qed.

Lemma home_frame_queued l lp cb w w' :
  w_loops w !! l = Some lp → queued l lp cb w w' → home_frame w w'.
Proof.
  intros Hlp [Hl _ _ _ Ht Ho _]. injection Ho as _ Hs _ _ _. split_and!; [done|done|].
  intros l'. rw Hl lookup_insert. case_decide; [subst; by rw Hlp|done].
Qed.

Lemma conn_ok_queued c cn ch lp cb w w' :
  conn_ok c cn ch lp w → queued (tc_loop_ cn) lp cb w w' →
  conn_ok c cn ch (set_el_pendings_ (el_pendings_ lp ++ [cb]) lp) w' ∧
  obs c (tc_socket_ cn) (w_hist w') = obs c (tc_socket_ cn) (w_hist w).
Proof.
  intros [Hc Hr Hfd Hi Ho Hhome] Hq. pose proof Hq as [Hlo Hch Hcn _ Ht _ [r Hh]]. split.
  - split; try done; [by rw Hcn| |].
    2:{ intros H. eapply home_open_frame, Hhome, H; [|done]. by eapply home_frame_queued, Hq; apply Hr. }
    eapply (chan_ready_quiet _ _ _ lp); try done; [by rw Hlo lookup_insert_eq|].
    by destruct (_ || _).
  - rw Hh. apply obs_inert. by destruct (_ || _).
Qed.

(** ** The channel *)

Lemma wp_change_events f c cn ch lp w :
  conn_ok c cn ch lp w →
  wp (change_events f (tc_channel_ cn))
    (λ _ w', ∃ lp', conn_ok c cn (changed f ch) lp' w' ∧
       el_pendings_ lp' = el_pendings_ lp ∧ home_frame w w' ∧
       obs c (tc_socket_ cn) (w_hist w') = obs c (tc_socket_ cn) (w_hist w)) only_exit w.
Proof.
  intros [Hc Hr Hfd Hi Ho Hhome].
  eapply wp_conseq; [by apply (change_events_ok f (tc_loop_ cn) (tc_channel_ cn) ch lp)|].
  intros [] w' (lp' & Hr' & Hf). pose proof (home_frame_chan _ _ _ _ _ Hf) as Hhf.
  destruct Hf as [Ht Hcn _ _ [m Hlo] Hh _]. exists lp'. split_and!.
  - split; try done; [by rw Hcn|]. intros H. by eapply home_open_frame, Hhome, H.
  - pose proof (cr_lp _ _ _ _ _ Hr') as Hl'. rw Hlo lookup_alter_eq (cr_lp _ _ _ _ _ Hr) in Hl'.
    by injection Hl' as <-.
  - done.
  - destruct Hh as [-> |(? & ? & ? & ? & ? & ->)]; [done|]. by apply obs_inert.
Qed.

(** The same for [DisableAllEvent], with what it leaves to the dispatch. *)
Lemma disable_all_ok c cn ch lp w :
  conn_ok c cn ch lp w →
  wp (DisableAllEvent (tc_channel_ cn))
    (λ _ w', ∃ lp', conn_ok c cn (changed (λ _, kNoneEvent) ch) lp' w' ∧
       (removable (tc_loop_ cn) (tc_channel_ cn) w → removable (tc_loop_ cn) (tc_channel_ cn) w') ∧
       home_frame w w' ∧
       obs c (tc_socket_ cn) (w_hist w') = obs c (tc_socket_ cn) (w_hist w)) only_exit w.
Proof.
  intros [Hc Hr Hfd Hi Ho Hhome].
  eapply wp_conseq; [by apply (change_events_ok _ (tc_loop_ cn) (tc_channel_ cn) ch lp)|].
  intros [] w' (lp' & Hr' & Hf). pose proof (home_frame_chan _ _ _ _ _ Hf) as Hhf.
  destruct Hf as [Ht Hcn _ _ [m Hlo] Hh _]. exists lp'. split_and!.
  - split; try done; [by rw Hcn|]. intros H. by eapply home_open_frame, Hhome, H.
  - intros Hrem lp0. rw Hlo lookup_alter_eq (cr_lp _ _ _ _ _ Hr). intros [= <-]. simpl.
    apply Hrem, Hr.
  - done.
  - destruct Hh as [-> |(? & ? & ? & ? & ? & ->)]; [done|]. by apply obs_inert.
Qed.

(** Tying the channel to its owner. *)
Lemma conn_ok_chan c cn ch ch' lp w :
  conn_ok c cn ch lp w → chan_core ch' = chan_core ch →
  conn_ok c cn ch' lp (set_w_chans (<[tc_channel_ cn := ch']> (w_chans w)) w).
Proof.
  intros [Hc [Hinv Hch Hcl Hl Ht Hnew] Hfd Hi Ho Hhome] [= H1 H2 H3 H4]. split; try done; [|congruence].
  split; try done.
  - eapply poller_inv_equiv, Hinv. apply (poller_equiv_quiet _ []); [done| |by rw /= app_nil_r|done].
    intros c'. simpl. rw lookup_insert. case_decide; [subst|done].
    rw Hch /chan_core /=. congruence.
  - apply lookup_insert_eq.
  - congruence.
  - rw H2 H4. done.
Qed.

Lemma wp_Tie c obj cn ch lp w :
  conn_ok c cn ch lp w →
  wp (Tie (tc_channel_ cn) obj) (λ _ w',
    conn_ok c cn (set_ch_tied_ true (set_ch_tie_ (Some obj) ch)) lp w' ∧ w_hist w' = w_hist w)
    only_exit w.
Proof.
  intros Hok. pose proof (cr_chan _ _ _ _ _ (co_ready _ _ _ _ _ Hok)) as Hc.
  rw /Tie /alter_chan. wp_step. wp_step. wp_step. simpl. split; [|done].
  rw (alter_insert (set_ch_tie_ (Some obj)) _ ch) //.
  rw (alter_insert (set_ch_tied_ true) _ (set_ch_tie_ (Some obj) ch)); [apply lookup_insert_eq|].
  rw insert_insert_eq. exact (conn_ok_chan c cn ch (set_ch_tied_ true (set_ch_tie_ (Some obj) ch)) lp w Hok eq_refl).
Qed.

(** ** The output buffer *)

Lemma wp_on_output {A} (m : M Buffer A) c cn (Q : A → World → Prop) E w P :
  w_conns w !! c = Some cn → wp m P never (tc_output_buffer_ cn) →
  (∀ a b, P a b → Q a (set_w_conns (<[c := set_tc_output_buffer_ b cn]> (w_conns w)) w)) →
  wp (on_output c m) Q E w.
Proof.
  intros Hc Hm HQ. rw /on_output /on_buffer. wp_step. eapply wp_get_conn; [done|].
  apply wp_zoom. eapply wp_mono; [exact Hm|by apply HQ|done].
Qed.

Lemma wp_on_input {A} (m : M Buffer A) c cn (Q : A → World → Prop) E w P :
  w_conns w !! c = Some cn → wp m P never (tc_input_buffer_ cn) →
  (∀ a b, P a b → Q a (set_w_conns (<[c := set_tc_input_buffer_ b cn]> (w_conns w)) w)) →
  wp (on_input c m) Q E w.
Proof.
  intros Hc Hm HQ. rw /on_input /on_buffer. wp_step. eapply wp_get_conn; [done|].
  apply wp_zoom. eapply wp_mono; [exact Hm|by apply HQ|done].
Qed.

Lemma peek_all_ok b : inv b → wp peek_all (λ r b', r = content b ∧ b' = b) never b.
Proof.
  intros Hb. rw /peek_all. do 2 wp_step. rw ReadableBytes_eq //.
  apply wp_load; [binv; lia..|]. split; [|done]. rw /content. f_equal. binv. lia.
Qed.

Lemma conn_id_world c cn w :
  w_conns w !! c = Some cn → set_w_conns (<[c := cn]> (w_conns w)) w = w.
Proof. intros Hc. rw insert_id //. by destruct w. Qed.
End primitives.
