(* ===== verification/ConnSteps.v ===== *)
(** * ConnSteps: the handlers of a connection, one by one

    What [send_in_loop], [handle_write], [handle_close] and the other member
    functions of [TcpConnection] do to a connection in order, on the thread
    of its loop.  Application callbacks are required to be calm: they may do
    anything but touch this connection's channel and output or speak on its
    descriptor. *)

From S2P Require Import Prelude Buffer World Kernel Poller Channel Reactor EventLoop Timer Socket TcpConnection ConnInv.

(** ** Callbacks *)

(** What a callback leaves of connection [c]: only its input buffer may
    change, and does not grow; it does not interfere with the dispatch, nor
    with the server the connection belongs to. *)
Definition calm (c : nat) (cn : TcpConnection) (ch : Channel) (w w' : World) : Prop :=
  ∃ b lp', conn_ok c (set_tc_input_buffer_ b cn) ch lp' w' ∧
    size b ≤ size (tc_input_buffer_ cn) ∧
    obs c (tc_socket_ cn) (w_hist w') = obs c (tc_socket_ cn) (w_hist w) ∧
    (removable (tc_loop_ cn) (tc_channel_ cn) w → removable (tc_loop_ cn) (tc_channel_ cn) w') ∧
    (home_open c cn w → home_open c cn w').

(** Notifications about [c], and messages for it. *)
Definition tells (c : nat) (u : ucall) : bool :=
  match u with UConnection _ c' | UClose _ c' => (c' =? c)%nat | _ => false end.
Definition brings (c : nat) (u : ucall) : bool :=
  match u with UMessage _ c' _ => (c' =? c)%nat | _ => false end.

(** The application's connection and close callbacks for [c] are calm, and
    its message callback is. *)
Class CalmUser (c : nat) (user : UserCode) : Prop := calm_user : ∀ u cn ch lp w,
  tells c u = true → conn_ok c cn ch lp w →
  wp (user_run u) (λ _ w', calm c cn ch w w') only_exit w.
Class CalmMessage (c : nat) (user : UserCode) : Prop := calm_message : ∀ u cn ch lp w,
  brings c u = true → conn_ok c cn ch lp w →
  wp (user_run u) (λ _ w', calm c cn ch w w') only_exit w.

(** The note a close callback leaves in the history. *)
Definition close_note (cb : close_cb) (c : nat) : list ucall :=
  match cb with UserCloseCb u => [UClose u c] | RemoveConnection _ => [] end.
Definition conn_note (cb : conn_cb) (c : nat) : list ucall :=
  match cb with UserCb u => [UConnection u c] | DefaultCb => [] end.

(** [w'] extends the observation of [w] by bytes, FINs and notes. *)
Definition obs_grows (c : nat) (fd : Z) (d : list byte) (f : list ()) (n : list ucall) (w w' : World) : Prop :=
  obs c fd (w_hist w') =
    (sent fd (w_hist w) ++ d, fins fd (w_hist w) ++ f, notes c (w_hist w) ++ n).

(** The close callback of a connection that its server still knows. *)
Class CalmClose (c : nat) (close_code : close_cb → nat → M World ()) : Prop :=
  calm_close : ∀ cb cn ch lp w, conn_ok c cn ch lp w → tc_state_ cn = Disconnected →
    tc_on_close_ cn = Some cb → home_open c cn w →
    wp (close_code cb c) (λ _ w', ∃ b lp', conn_ok c (set_tc_input_buffer_ b cn) ch lp' w' ∧
      size b ≤ size (tc_input_buffer_ cn) ∧
      obs_grows c (tc_socket_ cn) [] [] (close_note cb c) w w') only_exit w.

Lemma obs_same c fd w w' :
  obs c fd (w_hist w') = obs c fd (w_hist w) ↔ obs_grows c fd [] [] [] w w'.
Proof. rw /obs_grows !app_nil_r. done. Qed.

Lemma obs_grows_trans c fd d1 d2 f1 f2 n1 n2 w1 w2 w3 :
  obs_grows c fd d1 f1 n1 w1 w2 → obs_grows c fd d2 f2 n2 w2 w3 →
  obs_grows c fd (d1 ++ d2) (f1 ++ f2) (n1 ++ n2) w1 w3.
Proof. rw /obs_grows /obs. intros [= H1 H2 H3] ->. by rw H1 H2 H3 !app_assoc. Qed.

(** One event that is seen. *)
Lemma obs_event c fd e w w' :
  w_hist w' = w_hist w ++ [e] → obs_grows c fd (sent fd [e]) (fins fd [e]) (notes c [e]) w w'.
Proof. intros H. by rw /obs_grows /obs H sent_app fins_app notes_app. Qed.

(** A send(2) is seen as the bytes the kernel took, a shutdown(2) as a FIN. *)
Lemma obs_send c fd d r w w' :
  w_hist w' = w_hist w ++ [Sys (SysSend fd d) r] →
  obs_grows c fd (take (Z.to_nat (r_ret r)) d) [] [] w w'.
Proof.
  intros H. pose proof (obs_event c fd _ w w' H) as Ho.
  rw /sent /= Z.eqb_refl app_nil_r /= in Ho. destruct (Z.leb_spec 0 (r_ret r)); [done|].
  rw (_ : Z.to_nat (r_ret r) = O); [lia|done].
Qed.

Lemma obs_fin c fd r w w' :
  w_hist w' = w_hist w ++ [Sys (SysShutdownWr fd) r] → obs_grows c fd [] [()] [] w w'.
Proof.
  intros H. pose proof (obs_event c fd _ w w' H) as Ho. by rw /fins /= Z.eqb_refl /= in Ho.
Qed.

(** Reading the three parts off. *)
Lemma obs_grows_inv c fd d f n w w' :
  obs_grows c fd d f n w w' →
  sent fd (w_hist w') = sent fd (w_hist w) ++ d ∧
  fins fd (w_hist w') = fins fd (w_hist w) ++ f ∧
  notes c (w_hist w') = notes c (w_hist w) ++ n.
Proof. by intros [= H1 H2 H3]. Qed.

Section handlers.
Context {os : OS} {heap : Heap} {user : UserCode} (close_code : close_cb → nat → M World ()).
Context `{!EpollDelOk os, !EpollCtlRet os, !SendOk os, !ReadvOk os}.
Context (c : nat) `{!CalmUser c user, !CalmClose c close_code}.
Implicit Types (w : World) (cn : TcpConnection) (ch : Channel) (lp : EventLoop).

(** ** Closing *)

Lemma conn_ok_hist cn ch lp e w :
  conn_ok c cn ch lp w → quiet e = true →
  conn_ok c cn ch lp (set_w_hist (w_hist w ++ [e]) w).
Proof.
  intros [Hc Hr Hfd Hi Ho Hh] Hq. split; try done.
  eapply (chan_ready_quiet _ _ _ lp lp [e]); try done; [apply Hr|by rw /= andb_true_r].
Qed.

Lemma call_connection_ok cn ch lp cb w :
  conn_ok c cn ch lp w → tc_on_connection_ cn = Some cb →
  wp (call_connection c) (λ _ w', ∃ b lp', conn_ok c (set_tc_input_buffer_ b cn) ch lp' w' ∧
    size b ≤ size (tc_input_buffer_ cn) ∧
    obs_grows c (tc_socket_ cn) [] [] (conn_note cb c) w w' ∧
    (removable (tc_loop_ cn) (tc_channel_ cn) w → removable (tc_loop_ cn) (tc_channel_ cn) w') ∧
    (home_open c cn w → home_open c cn w'))
    only_exit w.
Proof.
  intros Hok Hcb. rw /call_connection. wp_step. eapply wp_get_conn; [apply Hok|]. rw Hcb.
  destruct cb as [|u].
  - wp_step. exists (tc_input_buffer_ cn), lp. split_and!; [|done|by apply obs_same|done|done].
    by destruct cn.
  - rw /call_user. wp_step. wp_step. set (w1 := set_w_hist _ w).
    assert (conn_ok c cn ch lp w1) as Hok1 by by apply conn_ok_hist.
    eapply wp_conseq; [apply (calm_user (UConnection u c) cn ch lp); [apply Nat.eqb_refl|done]|].
    intros [] w' (b & lp' & Hok' & Hb & Ho & Hrem & Hhome). exists b, lp'. split_and!; [done|done| |done|done].
    apply (obs_grows_trans _ _ [] [] [] [] (conn_note (UserCb u) c) [] w w1 w'); [|by apply obs_same].
    pose proof (obs_event c (tc_socket_ cn) (User (UConnection u c)) w w1 eq_refl) as He.
    by rw /notes /= Nat.eqb_refl in He.
Qed.

(** The error handlers only ask the socket and log. *)
Lemma handle_error_code_ok cn ch lp e w :
  conn_ok c cn ch lp w →
  wp (handle_error_with_code c e) (λ _ w', conn_ok c cn ch lp w' ∧
    obs c (tc_socket_ cn) (w_hist w') = obs c (tc_socket_ cn) (w_hist w)) only_exit w.
Proof.
  intros Hok. rw /handle_error_with_code. wp_step. eapply wp_get_conn; [apply Hok|].
  wp_step. eapply wp_get_chan; [apply Hok|]. wp_step. rw /get_socket_error. wp_step.
  apply wp_syscall. set (k := GetSockError _).
  apply (wp_conseq _ (λ _ w', w' = after_call k w)).
  { destruct (_ <? 0); [rw /errno|]; by wp_step. }
  intros _ _ ->. wp_step. split; [by apply conn_ok_call|by apply obs_inert].
Qed.

(** The connection once it was closed. *)
Definition closed (b : Buffer) cn : TcpConnection :=
  set_tc_input_buffer_ b (set_tc_state_ Disconnected cn).

(** [handle_close] up to the close callback. *)
Lemma handle_close_until cn ch lp cb cb' (Q : () → World → Prop) w :
  conn_ok c cn ch lp w → tc_state_ cn = Connected ∨ tc_state_ cn = Disconnecting →
  tc_on_connection_ cn = Some cb → tc_on_close_ cn = Some cb' →
  (∀ b lp' w', conn_ok c (closed b cn) (changed (λ _, kNoneEvent) ch) lp' w' →
     size b ≤ size (tc_input_buffer_ cn) → home_open c (closed b cn) w' →
     obs_grows c (tc_socket_ cn) [] [] (conn_note cb c) w w' →
     (removable (tc_loop_ cn) (tc_channel_ cn) w → removable (tc_loop_ cn) (tc_channel_ cn) w') →
     wp (close_code cb' c) Q only_exit w') →
  wp (handle_close close_code c) Q only_exit w.
Proof.
  intros Hok Hst Hcb Hcb' HQ. rw /handle_close. wp_step. eapply wp_get_conn; [apply Hok|]. wp_step.
  eapply wp_conn_thread; [done|].
  destruct (bool_decide _ && bool_decide _) eqn:Hb.
  { apply andb_prop in Hb as [H1%bool_decide_eq_true H2%bool_decide_eq_true]. by destruct Hst. }
  wp_step. eapply wp_alter_conn; [apply Hok|]. set (cn1 := set_tc_state_ Disconnected cn).
  set (w1 := set_w_conns _ w). assert (conn_ok c cn1 ch lp w1) as Hok1 by by eapply (conn_ok_alter c cn); try apply Hok.
  wp_step. eapply wp_conseq; [by apply (disable_all_ok c cn1 ch lp)|].
  intros [] w2 (lp2 & Hok2 & Hrem2 & Hhf & Ho2). simpl.
  assert (home_open c cn1 w2) as Hhome2.
  { eapply home_open_frame; [exact Hhf|done|]. eapply (home_open_frame c cn cn1 w); [by split_and!|done|].
    apply (co_home _ _ _ _ _ Hok). by destruct Hst as [-> | ->]. }
  wp_step. eapply wp_get_chan; [apply Hok2|].
  wp_step. rw /get_socket_error. wp_step. apply wp_syscall. set (k := GetSockError _).
  assert (conn_ok c cn1 (changed (λ _, kNoneEvent) ch) lp2 (after_call k w2)) as Hok3.
  { by apply conn_ok_call. }
  assert (obs_grows c (tc_socket_ cn) [] [] [] w (after_call k w2)) as Ho3.
  { apply obs_same. rw -Ho2. by apply obs_inert. }
  apply (wp_conseq _ (λ _ w', w' = after_call k w2)).
  { destruct (_ <? 0); [rw /errno|]; by wp_step. }
  intros _ _ ->. wp_step. eapply wp_conseq; [by eapply (call_connection_ok cn1)|].
  intros [] w4 (b & lp4 & Hok4 & Hb4 & Ho4 & Hrem4 & Hhome4). rw /call_close. wp_step.
  eapply wp_get_conn; [apply Hok4|]. simpl. rw Hcb'.
  apply (HQ b lp4 w4); [done|done|exact (Hhome4 Hhome2)| |by auto].
  by apply (obs_grows_trans _ _ [] [] [] [] [] _ w (after_call k w2) w4 Ho3).
Qed.

Lemma handle_close_ok cn ch lp cb cb' w :
  conn_ok c cn ch lp w → tc_state_ cn = Connected ∨ tc_state_ cn = Disconnecting →
  tc_on_connection_ cn = Some cb → tc_on_close_ cn = Some cb' →
  wp (handle_close close_code c) (λ _ w', ∃ b lp',
    conn_ok c (closed b cn) (changed (λ _, kNoneEvent) ch) lp' w' ∧
    size b ≤ size (tc_input_buffer_ cn) ∧
    obs_grows c (tc_socket_ cn) [] [] (conn_note cb c ++ close_note cb' c) w w') only_exit w.
Proof.
  intros Hok Hst Hcb Hcb'. eapply (handle_close_until cn); [done..|].
  intros b lp1 w1 Hok1 Hb1 Hhome1 Ho1 _. eapply wp_conseq; [by eapply calm_close|].
  intros [] w5 (b5 & lp5 & Hok5 & Hb5 & Ho5). exists b5, lp5. simpl in Hb5.
  split_and!; [done|simpl in *; lia|].
  by apply (obs_grows_trans _ _ [] [] [] [] _ _ w w1 w5).
Qed.

Lemma handle_close_skip cn ch lp (Q : () → World → Prop) E w :
  conn_ok c cn ch lp w → tc_state_ cn = Disconnected → Q () w →
  wp (handle_close close_code c) Q E w.
Proof.
  intros Hok Hst HQ. rw /handle_close. wp_step. eapply wp_get_conn; [apply Hok|]. wp_step.
  eapply wp_conn_thread; [done|]. rw Hst /=. by wp_step.
Qed.
(** ** Sending *)

Lemma queue_write_complete_ok cn ch lp w :
  conn_ok c cn ch lp w →
  wp (queue_write_complete c) (λ _ w', ∃ lp', conn_ok c cn ch lp' w' ∧
    el_pendings_ lp' = el_pendings_ lp ++
      match tc_on_write_complete_ cn with Some u => [FWriteComplete u c] | None => [] end ∧
    obs_grows c (tc_socket_ cn) [] [] [] w w') only_exit w.
Proof.
  intros Hok. rw /queue_write_complete. wp_step. eapply wp_get_conn; [apply Hok|].
  destruct (tc_on_write_complete_ cn) as [u|].
  - eapply wp_conseq; [by eapply QueueInLoop_ok, co_ready|]. intros [] w' Hq.
    destruct (conn_ok_queued c cn ch lp _ w w' Hok Hq) as [Hok' Ho].
    eexists. split_and!; [done|done|by apply obs_same].
  - wp_step. exists lp. rw app_nil_r. split_and!; [done|done|by apply obs_same].
Qed.

(** [n] bytes of [msg] were handed to the kernel, the rest is left. *)
Record sent_part (msg : list byte) cn ch lp (r : Z * Z * bool) (w w' : World) : Prop := {
  sp_ok : ∃ lp', conn_ok c cn ch lp' w' ∧ (0 < zlength msg → el_pendings_ lp' = el_pendings_ lp ++
    (if r.1.2 =? 0 then
       match tc_on_write_complete_ cn with Some u => [FWriteComplete u c] | None => [] end
     else []));
  sp_n : 0 ≤ r.1.1 ∧ 0 ≤ r.1.2 ∧ r.1.1 + r.1.2 = zlength msg;
  sp_obs : obs_grows c (tc_socket_ cn) (take (Z.to_nat r.1.1) msg) [] [] w w';
  sp_direct : 0 < r.1.1 → content (tc_output_buffer_ cn) = [] ∧ IsWriteEvent ch = false;
  sp_fault : r.2 = true → r.1.1 = 0;
}.

Lemma send_directly_ok msg cn ch lp w :
  conn_ok c cn ch lp w → zlength msg ≤ vector_max_size →
  wp (send_directly c msg) (λ r w', sent_part msg cn ch lp r w w') only_exit w.
Proof.
  intros Hok Hlen. pose proof (zlength_nonneg msg). rw /send_directly. wp_step. eapply wp_get_conn; [apply Hok|].
  wp_step. eapply wp_get_chan; [apply Hok|].
  pose proof (zlength_content _ (co_out _ _ _ _ _ Hok)) as Hout.
  assert (∀ w1 b, conn_ok c cn ch lp w1 → obs_grows c (tc_socket_ cn) [] [] [] w w1 →
    sent_part msg cn ch lp (0, zlength msg, b) w w1) as Hnone.
  { intros w1 b Hok1 Ho. split; simpl; [exists lp; split; [done|intros ?]|lia|done|lia|done].
    destruct (Z.eqb_spec (zlength msg) 0); [lia|]. by rw app_nil_r. }
  destruct (negb (IsWriteEvent ch) && _) eqn:Hdirect; last first.
  { wp_step. apply Hnone; [done|by apply obs_same]. }
  apply andb_prop in Hdirect as [Hw%negb_true_iff Hz%Z.eqb_eq].
  assert (content (tc_output_buffer_ cn) = []) as Hnil.
  { apply length_zero_iff_nil. unfold zlength in Hout. lia. }
  wp_step. apply wp_syscall. rw (co_fd _ _ _ _ _ Hok). set (k := SysSend (tc_socket_ cn) msg).
  set (r := os_reply (w_hist w) k).
  assert (r_ret r ≤ zlength msg) as Hr by apply send_ok.
  assert (conn_ok c cn ch lp (after_call k w)) as Hok1 by by apply conn_ok_call.
  pose proof (obs_send c (tc_socket_ cn) msg r w (after_call k w) eq_refl) as Ho.
  destruct (Z.leb_spec 0 (r_ret r)) as [Hge|Hlt]; last first.
  { rw (_ : Z.to_nat (r_ret r) = O) /= in Ho; [lia|].
    wp_step. apply wp_gets. destruct (negb _ && negb _); wp_step; by apply Hnone. }
  wp_step. rw u64_small; [slia|].
  destruct (Z.eqb_spec (zlength msg - r_ret r) 0) as [Hall|Hrest]; simpl.
  - eapply wp_conseq; [by apply (queue_write_complete_ok cn ch lp)|].
    intros [] w' (lp' & Hok' & Hp & Ho'). wp_step. split; simpl; [|lia| |done|done].
    + exists lp'. split; [done|]. intros _. by rw Hp Hall.
    + rw -(app_nil_r (take _ msg)). by apply (obs_grows_trans _ _ _ [] [] [] [] [] w _ w' Ho).
  - do 2 wp_step. split; simpl; [exists lp; split; [done|intros _]|lia|done|done|done].
    destruct (Z.eqb_spec (zlength msg - r_ret r) 0); [done|]. by rw app_nil_r.
Qed.

(** The high-water callback is queued when the buffer crosses the mark. *)
Definition high_water cn (n : Z) : list Functor :=
  let old := zlength (content (tc_output_buffer_ cn)) in
  if (tc_high_water_mark_ cn <=? old + n) && (old <? tc_high_water_mark_ cn) then
    match tc_on_high_water_mark_ cn with Some u => [FHighWaterMark u c (old + n)] | None => [] end
  else [].

(** [msg] from offset [n] on was buffered. *)
Definition buffered (d : list byte) cn ch lp (w w' : World) : Prop :=
  ∃ b ch' lp', conn_ok c (set_tc_output_buffer_ b cn) ch' lp' w' ∧
    content b = content (tc_output_buffer_ cn) ++ d ∧
    size b ≤ size (tc_output_buffer_ cn) + zlength d ∧
    IsWriteEvent ch' = true ∧ ch_events_ ch' = Z.lor (ch_events_ ch) kWriteEvent ∧
    el_pendings_ lp' = el_pendings_ lp ++ high_water cn (zlength d) ∧
    obs_grows c (tc_socket_ cn) [] [] [] w w'.

Lemma high_water_ok cn ch lp n w :
  conn_ok c cn ch lp w → 0 ≤ n → size (tc_output_buffer_ cn) + n ≤ vector_max_size →
  let old_buf_len := ReadableBytes (tc_output_buffer_ cn) in
  wp (if (tc_high_water_mark_ cn <=? u64 (old_buf_len + n)) &&
         (old_buf_len <? tc_high_water_mark_ cn)
      then match tc_on_high_water_mark_ cn with
           | Some u => QueueInLoop (tc_loop_ cn) (FHighWaterMark u c (u64 (old_buf_len + n)))
           | None => mret ()
           end
      else mret ())
    (λ _ w', ∃ lp', conn_ok c cn ch lp' w' ∧
      el_pendings_ lp' = el_pendings_ lp ++ high_water cn n ∧
      obs_grows c (tc_socket_ cn) [] [] [] w w') only_exit w.
Proof.
  intros Hok Hn Hmax. simpl. rw /high_water. rw (zlength_content _ (co_out _ _ _ _ _ Hok)).
  pose proof (co_out _ _ _ _ _ Hok) as Hb. rw (ReadableBytes_eq _ Hb).
  rw u64_small; [binv; slia|].
  assert (∀ w', w' = w → ∃ lp', conn_ok c cn ch lp' w' ∧ el_pendings_ lp' = el_pendings_ lp ++ [] ∧
    obs_grows c (tc_socket_ cn) [] [] [] w w') as Hid.
  { intros _ ->. exists lp. rw app_nil_r. split_and!; [done|done|by apply obs_same]. }
  destruct (_ && _); [|wp_step; eauto]. destruct (tc_on_high_water_mark_ cn) as [u|]; [|wp_step; eauto].
  eapply wp_conseq; [by eapply QueueInLoop_ok, co_ready|]. intros [] w' Hq.
  destruct (conn_ok_queued c cn ch lp _ w w' Hok Hq) as [Hok' Ho].
  eexists. split_and!; [done|done|by apply obs_same].
Qed.

Lemma sub_range_ok msg off len (Q : list byte → World → Prop) E w :
  0 ≤ off → 0 ≤ len → off + len = zlength msg → Q (drop (Z.to_nat off) msg) w →
  wp (sub_range msg off len) Q E w.
Proof.
  intros H1 H2 H3 HQ. rw /sub_range.
  destruct (Z.leb_spec 0 off), (Z.leb_spec 0 len), (Z.leb_spec (off + len) (zlength msg)); try lia.
  simpl. wp_step. rw /slice take_ge //. rw length_drop. unfold zlength in H3. lia.
Qed.

Lemma buffer_rest_ok msg n rem cn ch lp w :
  conn_ok c cn ch lp w → 0 ≤ n → 0 < rem → n + rem = zlength msg →
  size (tc_output_buffer_ cn) + rem ≤ vector_max_size →
  wp (buffer_rest c msg n rem)
    (λ _ w', buffered (drop (Z.to_nat n) msg) cn ch lp w w') only_exit w.
Proof.
  intros Hok Hn Hrem Hlen Hmax.
  assert (zlength (drop (Z.to_nat n) msg) = rem) as Hd.
  { unfold zlength in *. rw length_drop. lia. }
  rw /buffer_rest. wp_step. eapply wp_get_conn; [apply Hok|]. wp_step.
  eapply wp_conseq; [apply (high_water_ok cn ch lp rem w); [done|lia|done]|].
  intros [] w1 (lp1 & Hok1 & Hp1 & Ho1). wp_step. apply sub_range_ok; [lia..|].
  wp_step. eapply wp_on_output; [apply Hok1|apply Append_ok; [apply Hok1|lia]|].
  intros [] b (Hb & Hcont & _ & _ & Hsize). set (w2 := set_w_conns _ w1).
  assert (conn_ok c (set_tc_output_buffer_ b cn) ch lp1 w2) as Hok2.
  { by eapply (conn_ok_alter c cn); try apply Hok1. }
  assert (obs_grows c (tc_socket_ cn) [] [] [] w w2) as Ho2 by done.
  wp_step. eapply wp_get_chan; [apply Hok2|].
  destruct (IsWriteEvent ch) eqn:Hw; simpl.
  - wp_step. exists b, ch, lp1. split_and!; [done|done|lia|done| |by rw Hp1 Hd|done].
    unfold IsWriteEvent in Hw. rw write_bit in Hw. apply Z.bits_inj'. intros i Hi.
    rw Z.lor_spec (Z.pow2_bits_eqb 2) //. destruct (Z.eqb_spec 2 i) as [<-|]; [by rw Hw|by rw orb_false_r].
  - eapply wp_conseq; [by apply (wp_change_events _ c (set_tc_output_buffer_ b cn) ch lp1)|].
    intros [] w3 (lp3 & Hok3 & Hp3 & _ & Ho3). exists b, (changed (λ e, Z.lor e kWriteEvent) ch), lp3.
    split_and!; [done|done|lia|apply write_lor_write|done|by rw Hp3 Hp1 Hd|].
    by apply (obs_grows_trans _ _ [] [] [] [] [] [] w w2 w3 Ho2), obs_same.
Qed.
End handlers.
