(* ===== verification/ConnSpec.v ===== *)
(** * ConnSpec: what a connection promises

    The byte stream, the FIN and the notifications of a connection over any
    sequence of requests and events handled on the thread of its loop. *)

From S2P Require Import Prelude Buffer World Kernel Poller Channel Sample Reactor EventLoop Timer Socket TcpConnection ConnInv ConnSteps.

(** ** Requests and events *)

Inductive conn_op :=
  | OSend (msg : list byte)        (* Send, from the loop's thread *)
  | OSendTask (msg : list byte)    (* the task a Send from another thread queued *)
  | OShutdown
  | OForceClose
  | OForceCloseTask                (* the task ForceClose queued *)
  | OStartRead
  | OStopRead
  | OReadable (t : Z)              (* the four channel callbacks *)
  | OWritable
  | OHangup
  | OError.

(** The bytes an operation asks to send; the room it needs in the buffers. *)
Definition op_msg (o : conn_op) : list byte :=
  match o with OSend msg | OSendTask msg => msg | _ => [] end.
Definition op_in (o : conn_op) : Z := match o with OReadable _ => kExtraBufSize | _ => 0 end.

Definition need_out (ops : list conn_op) : Z := foldr (λ o n, zlength (op_msg o) + n) 0 ops.
Definition need_in (ops : list conn_op) : Z := foldr (λ o n, op_in o + n) 0 ops.

Section stream.
Context {os : OS} {heap : Heap} {user : UserCode} (close_code : close_cb → nat → M World ()).
Context `{!EpollDelOk os, !EpollCtlRet os, !SendOk os, !ReadvOk os}.
Context (c : nat) `{!CalmUser c user, !CalmMessage c user, !CalmClose c close_code}.
(** The callbacks bound to the connection, the notes about it, and the FINs
    and bytes an earlier connection sent on the same descriptor. *)
Context (cb : conn_cb) (cb' : close_cb) (N : list ucall) (F : list ()) (S0 : list byte).
Implicit Types (w : World) (cn : TcpConnection) (ch : Channel) (lp : EventLoop) (S : list byte).

Definition conn_exec (o : conn_op) : M World () :=
  match o with
  | OSend msg => Send close_code c msg
  | OSendTask msg => send_in_loop close_code c msg
  | OShutdown => Shutdown c
  | OForceClose => ForceClose c
  | OForceCloseTask => force_close_in_loop close_code c
  | OStartRead => StartRead c
  | OStopRead => StopRead c
  | OReadable t => handle_read close_code c t
  | OWritable => handle_write close_code c
  | OHangup => handle_close close_code c
  | OError => handle_error c
  end.

(** ** The invariant *)

(** Write events are wanted exactly while bytes wait. *)
Definition write_rule cn ch : Prop :=
  IsWriteEvent ch = negb (bool_decide (content (tc_output_buffer_ cn) = [])).

(** [S] is the stream accepted so far. *)
Definition stream_at S cn ch w : Prop :=
  let fd := tc_socket_ cn in
  let out := content (tc_output_buffer_ cn) in
  let h := w_hist w in
  match tc_state_ cn with
  | Connecting => False
  | Connected => sent fd h ++ out = S ∧ fins fd h = F ∧ write_rule cn ch ∧ notes c h = N
  | Disconnecting =>
      sent fd h ++ out = S ∧ (fins fd h ≠ F → out = []) ∧ write_rule cn ch ∧ notes c h = N
  | Disconnected =>
      sent fd h `prefix_of` S ∧ (fins fd h ≠ F → sent fd h = S) ∧ IsWriteEvent ch = false ∧
      notes c h = N ++ conn_note cb c ++ close_note cb' c
  end.

(** The buffers have room for [ro] more bytes out and [ri] more in. *)
Record conn_live (ro ri : Z) cn ch lp w : Prop := {
  cl_ok : conn_ok c cn ch lp w;
  cl_connection : tc_on_connection_ cn = Some cb;
  cl_close : tc_on_close_ cn = Some cb';
  cl_message : is_Some (tc_on_message_ cn);
  cl_out : size (tc_output_buffer_ cn) + ro ≤ vector_max_size;
  cl_in : size (tc_input_buffer_ cn) + ri ≤ vector_max_size;
}.

Definition stream_inv S (ro ri : Z) w : Prop :=
  ∃ cn ch lp, conn_live ro ri cn ch lp w ∧ stream_at S cn ch w.

(** The state of the connection. *)
Definition conn_state w : option State := tc_state_ <$> w_conns w !! c.

Lemma conn_live_room ro ri ro' ri' cn ch lp w :
  conn_live ro ri cn ch lp w → ro' ≤ ro → ri' ≤ ri → conn_live ro' ri' cn ch lp w.
Proof. intros [] ? ?. split; [done..|lia|lia]. Qed.

Lemma live_state ro ri cn ch lp w : conn_live ro ri cn ch lp w → conn_state w = Some (tc_state_ cn).
Proof. intros [[Hc _ _ _ _] _ _ _ _ _]. by rw /conn_state Hc. Qed.

Lemma not_connecting S cn ch w :
  stream_at S cn ch w → tc_state_ cn = Disconnected ∨ (tc_state_ cn = Connected ∨ tc_state_ cn = Disconnecting).
Proof. rw /stream_at. destruct (tc_state_ cn); auto. done. Qed.

(** Steps that leave the observation, the output and the write bit alone. *)
Lemma stream_at_same S cn ch cn' ch' w w' :
  stream_at S cn ch w →
  tc_state_ cn' = tc_state_ cn → tc_socket_ cn' = tc_socket_ cn →
  tc_output_buffer_ cn' = tc_output_buffer_ cn → IsWriteEvent ch' = IsWriteEvent ch →
  obs c (tc_socket_ cn) (w_hist w') = obs c (tc_socket_ cn) (w_hist w) → stream_at S cn' ch' w'.
Proof.
  rw /stream_at /write_rule. intros Hat -> -> -> -> [= -> -> ->]. done.
Qed.

(** Asking the socket for its error changes nothing. *)
Lemma socket_error_stream S ro ri w :
  stream_inv S ro ri w →
  wp (cn ← get_conn c; ch ← get_chan (tc_channel_ cn); _ ← get_socket_error (ch_fd_ ch); mret ())
    (λ _ w', stream_inv S ro ri w' ∧ conn_state w' = conn_state w) only_exit w.
Proof.
  intros (cn & ch & lp & [Hok ? ? ? ? ?] & Hat).
  eapply wp_conseq; [by apply (handle_error_code_ok c cn ch lp 0)|]. intros [] w' [Hok' Ho].
  split; [|by rw /conn_state (co_conn _ _ _ _ _ Hok) (co_conn _ _ _ _ _ Hok')].
  exists cn, ch, lp. split; [by split|]. by eapply (stream_at_same S cn ch).
Qed.

(** ** Closing *)

(** A connection that is not yet closed and whose stream is [S] at best is
    closed, whatever was still buffered. *)
Lemma close_stream S ro ri cn ch lp w :
  conn_live ro ri cn ch lp w → tc_state_ cn = Connected ∨ tc_state_ cn = Disconnecting →
  sent (tc_socket_ cn) (w_hist w) `prefix_of` S →
  (fins (tc_socket_ cn) (w_hist w) ≠ F → sent (tc_socket_ cn) (w_hist w) = S) →
  notes c (w_hist w) = N →
  wp (handle_close close_code c)
    (λ _ w', stream_inv S ro ri w' ∧ conn_state w' = Some Disconnected) only_exit w.
Proof.
  intros [Hok Hcb Hcb' Hm Ho Hi] Hst Hpre Hfin Hn.
  eapply wp_conseq; [by eapply handle_close_ok|].
  intros [] w' (b & lp' & Hok' & Hb & Hobs). rw /obs_grows /obs !app_nil_r in Hobs.
  injection Hobs as Hs Hf Hno. split.
  - exists (closed b cn), (changed (λ _, kNoneEvent) ch), lp'. split.
    + split; try done; simpl; lia.
    + rw /stream_at /= Hs Hf Hno Hn. done.
  - by rw /conn_state (co_conn _ _ _ _ _ Hok').
Qed.

(** The same after the error handler looked at the socket. *)
Lemma error_close_stream S ro ri e cn ch lp w :
  conn_live ro ri cn ch lp w → tc_state_ cn = Connected ∨ tc_state_ cn = Disconnecting →
  sent (tc_socket_ cn) (w_hist w) `prefix_of` S →
  (fins (tc_socket_ cn) (w_hist w) ≠ F → sent (tc_socket_ cn) (w_hist w) = S) →
  notes c (w_hist w) = N →
  wp (handle_error_with_code c e ;; handle_close close_code c)
    (λ _ w', stream_inv S ro ri w' ∧ conn_state w' = Some Disconnected) only_exit w.
Proof.
  intros [Hok ? ? ? ? ?] Hst Hpre Hfin Hn. wp_step.
  eapply wp_conseq; [by apply (handle_error_code_ok c cn ch lp e)|].
  intros [] w' [Hok' [= Hs Hf Hno]].
  eapply (close_stream S ro ri cn ch lp); [by split|done|..]; by rw ?Hs ?Hf ?Hno.
Qed.

Lemma handle_close_stream S ro ri w :
  stream_inv S ro ri w →
  wp (handle_close close_code c)
    (λ _ w', stream_inv S ro ri w' ∧ conn_state w' = Some Disconnected) only_exit w.
Proof.
  intros (cn & ch & lp & Hlive & Hat).
  destruct (not_connecting _ _ _ _ Hat) as [Hst|Hst].
  { eapply handle_close_skip; [apply Hlive|done|]. split; [by exists cn, ch, lp|].
    by rw (live_state _ _ _ _ _ _ Hlive) Hst. }
  eapply close_stream; [done|done|..]; rw /stream_at in Hat;
    destruct Hst as [Hst|Hst]; rw Hst in Hat; destruct Hat as (<- & Hf & _ & Hn); try done;
    try (by eexists).
  intros Hne. by rw Hf // app_nil_r.
Qed.
Lemma error_close_inv S e ro ri w :
  stream_inv S ro ri w →
  wp (handle_error_with_code c e ;; handle_close close_code c)
    (λ _ w', stream_inv S ro ri w' ∧ conn_state w' = Some Disconnected) only_exit w.
Proof.
  intros Hinv. wp_step. eapply wp_conseq; [by apply socket_error_stream|].
  intros [] w' [Hinv' _]. by apply handle_close_stream.
Qed.

(** ** Sending *)

(** What an operation with message [msg] does to the stream: it is accepted
    as a whole while the connection is up, and ignored otherwise. *)
Definition op_post S msg ro ri w w' : Prop :=
  ∃ S', stream_inv S' ro ri w' ∧
    (conn_state w = Some Connected → S' = S ++ msg) ∧
    (conn_state w ≠ Some Connected → S' = S ∧ conn_state w' ≠ Some Connected).

Lemma op_post_refl S msg ro ri w :
  stream_inv S ro ri w → conn_state w ≠ Some Connected → op_post S msg ro ri w w.
Proof. intros. by exists S. Qed.

(** After a message was sent in part or buffered. *)
Lemma sent_live S msg ro ri cn ch lp r w w1 :
  conn_live (zlength msg + ro) ri cn ch lp w → 0 ≤ ro → stream_at S cn ch w →
  tc_state_ cn = Connected → sent_part c msg cn ch lp r w w1 →
  let fd := tc_socket_ cn in
  (∃ lp1, conn_live (zlength msg + ro) ri cn ch lp1 w1) ∧
  sent fd (w_hist w1) = sent fd (w_hist w) ++ take (Z.to_nat r.1.1) msg ∧
  fins fd (w_hist w1) = F ∧ notes c (w_hist w1) = N.
Proof.
  intros [Hok ? ? ? ? ?] Hro Hat Hst [(lp1 & Hok1 & _) _ Ho _ _] fd.
  rw /stream_at Hst in Hat. destruct Hat as (HS & Hf & _ & Hn).
  rw /obs_grows /obs !app_nil_r in Ho. injection Ho as Hs' Hf' Hn'. split; [exists lp1; by split|].
  by rw Hs' Hf' Hn' -/fd Hf Hn.
Qed.

(** Bytes written directly followed by bytes buffered extend the stream by
    the message, because nothing was waiting when it was written. *)
Lemma split_stream (snt out S msg : list byte) (n : Z) :
  snt ++ out = S → 0 ≤ n → (0 < n → out = []) →
  (snt ++ take (Z.to_nat n) msg) ++ out ++ drop (Z.to_nat n) msg = S ++ msg.
Proof.
  intros <- Hn Hdirect. destruct (decide (0 < n)) as [Hpos|].
  - rw (Hdirect Hpos) /= -app_assoc take_drop app_nil_r //.
  - assert (n = 0) as -> by lia. by rw /= app_nil_r drop_0 app_assoc.
Qed.

Lemma buffered_stream S d ro ri cn ch lp w w' :
  conn_live (zlength d + ro) ri cn ch lp w → tc_state_ cn = Connected →
  sent (tc_socket_ cn) (w_hist w) ++ content (tc_output_buffer_ cn) ++ d = S → d ≠ [] →
  fins (tc_socket_ cn) (w_hist w) = F → notes c (w_hist w) = N →
  buffered c d cn ch lp w w' → stream_inv S ro ri w'.
Proof.
  intros [Hok ? ? ? ? ?] Hst HS Hd Hf Hn (b & ch2 & lp2 & Hok2 & Hb & Hbs & Hw2 & _ & _ & Ho2).
  rw /obs_grows /obs !app_nil_r in Ho2. injection Ho2 as Hs2 Hf2 Hn2.
  exists (set_tc_output_buffer_ b cn), ch2, lp2. split; [split; try done; simpl; lia|].
  rw /stream_at /= Hst Hs2 Hf2 Hn2 Hb. split_and!; try done.
  rw /write_rule Hw2 /= Hb bool_decide_eq_false_2 //. by intros [_ ?]%app_eq_nil.
Qed.

Lemma send_in_loop_stream S msg ro ri w :
  stream_inv S (zlength msg + ro) ri w → 0 ≤ ro →
  wp (send_in_loop close_code c msg) (λ _ w', op_post S msg ro ri w w') only_exit w.
Proof.
  intros (cn & ch & lp & Hlive & Hat) Hro.
  assert (Hst0 := live_state _ _ _ _ _ _ Hlive). pose proof (zlength_nonneg msg) as Hz.
  rw /send_in_loop. wp_step. eapply wp_get_conn; [apply Hlive|]. wp_step.
  eapply wp_conn_thread; [apply Hlive|]. case_bool_decide as Hst.
  { wp_step. apply op_post_refl; [|by rw Hst0; congruence].
    exists cn, ch, lp. split; [|done]. eapply conn_live_room; [done|lia|done]. }
  pose proof Hlive as [Hok _ _ _ Hout _].
  assert (Hsz : 0 ≤ size (tc_output_buffer_ cn)) by apply zlength_nonneg.
  assert (∀ w', stream_inv (S ++ msg) ro ri w' → op_post S msg ro ri w w') as Hacc.
  { intros w' Hinv. exists (S ++ msg). split_and!; [done|done|]. by rw Hst0 Hst. }
  wp_step. eapply wp_conseq; [apply (send_directly_ok c msg cn ch lp); [done|lia]|].
  intros [[n rem] fault] w1 Hpart.
  destruct (sent_live S msg ro ri cn ch lp _ w w1 Hlive Hro Hat Hst Hpart) as ((lp1 & Hlive1) & Hs1 & Hf1 & Hn1).
  destruct Hpart as [_ (Hn0 & Hrem0 & Hsum) _ Hdirect Hfault]; simpl in *.
  rw /stream_at Hst in Hat. destruct Hat as (HS & _ & Hrule & _).
  destruct fault.
  - wp_step. apply wp_gets. rw (Hfault eq_refl) app_nil_r in Hs1.
    eapply wp_conseq; [eapply (error_close_stream (S ++ msg)); [done|by left|..]|].
    + rw Hs1 -HS -app_assoc. by eexists.
    + by rw Hf1.
    + done.
    + intros [] w' [(cn' & ch' & lp' & Hl' & Hat') _]. apply Hacc. exists cn', ch', lp'.
      split; [|done]. eapply conn_live_room; [done|lia|done].
  - assert (Hglue := split_stream _ _ S msg n HS Hn0 (λ H, proj1 (Hdirect H))). rw -Hs1 in Hglue.
    destruct (Z.leb_spec rem 0) as [Hdone|Hmore].
    + wp_step. apply Hacc. exists cn, ch, lp1.
      split; [eapply conn_live_room; [done|lia|done]|]. rw /stream_at Hst. split_and!; try done.
      by rw drop_ge ?app_nil_r // in Hglue; unfold zlength in Hsum; lia.
    + eapply wp_conseq; [apply (buffer_rest_ok c msg n rem cn ch lp1); [apply Hlive1|lia..]|].
      intros [] w2 Hbuf. apply Hacc.
      assert (zlength (drop (Z.to_nat n) msg) = rem) as Hd by (unfold zlength in *; rw length_drop; lia).
      eapply (buffered_stream (S ++ msg) _ ro ri _ _ _ w1); [..|exact Hbuf]; try done.
      * eapply conn_live_room; [done|lia|done].
      * intros Hnil. rw Hnil in Hd. unfold zlength in Hd. simpl in Hd. lia.
Qed.
Lemma op_post_keep S ro ri w w' :
  stream_inv S ro ri w' → (conn_state w ≠ Some Connected → conn_state w' ≠ Some Connected) →
  op_post S [] ro ri w w'.
Proof. intros Hinv Hst. exists S. rw app_nil_r. auto. Qed.

Lemma Send_stream S msg ro ri w :
  stream_inv S (zlength msg + ro) ri w → 0 ≤ ro →
  wp (Send close_code c msg) (λ _ w', op_post S msg ro ri w w') only_exit w.
Proof.
  intros Hinv Hro. pose proof Hinv as (cn & ch & lp & Hlive & Hat).
  assert (Hst0 := live_state _ _ _ _ _ _ Hlive). pose proof (zlength_nonneg msg) as Hz.
  rw /Send. wp_step. eapply wp_get_conn; [apply Hlive|]. case_bool_decide as Hst.
  - wp_step. apply op_post_refl; [|by rw Hst0; congruence].
    exists cn, ch, lp. split; [|done]. eapply conn_live_room; [done|lia|done].
  - wp_step. eapply wp_in_thread; [apply Hlive|]. by apply send_in_loop_stream.
Qed.

(** ** Draining the output buffer *)

(** The part of the stream a connection that is not closed must satisfy. *)
Definition open_at S cn ch w : Prop :=
  (tc_state_ cn = Connected ∨ tc_state_ cn = Disconnecting) ∧
  sent (tc_socket_ cn) (w_hist w) ++ content (tc_output_buffer_ cn) = S ∧
  (tc_state_ cn = Connected → fins (tc_socket_ cn) (w_hist w) = F) ∧
  (fins (tc_socket_ cn) (w_hist w) ≠ F → content (tc_output_buffer_ cn) = []) ∧
  notes c (w_hist w) = N.

Lemma open_stream S cn ch w : open_at S cn ch w → write_rule cn ch → stream_at S cn ch w.
Proof.
  intros (Hst & HS & Hf & Hf' & Hn) Hr. rw /stream_at. destruct Hst as [Hst|Hst]; rw Hst; auto.
Qed.

Lemma stream_open S cn ch w :
  stream_at S cn ch w → tc_state_ cn = Connected ∨ tc_state_ cn = Disconnecting →
  open_at S cn ch w ∧ write_rule cn ch.
Proof.
  rw /stream_at /open_at. intros Hat [Hst|Hst]; rw Hst in Hat |- *;
    destruct Hat as (HS & Hf & Hr & Hn); split_and!; auto; try congruence; by rw Hf.
Qed.

(** [sockets::shutdown_write] is seen as a FIN. *)
Lemma shutdown_write_stream S ro ri cn ch lp w :
  conn_live ro ri cn ch lp w → open_at S cn ch w → tc_state_ cn = Disconnecting →
  content (tc_output_buffer_ cn) = [] → write_rule cn ch →
  wp (ShutdownWrite (tc_socket_ cn))
    (λ _ w', stream_inv S ro ri w' ∧ conn_state w' = Some Disconnecting) only_exit w.
Proof.
  intros [Hok ? ? ? ? ?] (_ & HS & _ & _ & Hn) Hst Hnil Hr.
  rw /ShutdownWrite /shutdown_write /logged. wp_step. apply wp_syscall. wp_step.
  set (k := SysShutdownWr _).
  destruct (obs_grows_inv _ _ _ _ _ _ _ (obs_fin c (tc_socket_ cn) (os_reply (w_hist w) k) w
    (after_call k w) eq_refl)) as (Hs & _ & Hno). rw !app_nil_r in Hs Hno.
  assert (conn_ok c cn ch lp (after_call k w)) as Hok' by by apply conn_ok_call. split.
  - exists cn, ch, lp. split; [by split|]. rw /stream_at Hst. split_and!; try done.
    + by rw Hs.
    + by rw Hno.
  - by rw /conn_state (co_conn _ _ _ _ _ Hok') /= Hst.
Qed.

Lemma drained_stream S ro ri cn ch lp w :
  conn_live ro ri cn ch lp w → open_at S cn ch w → content (tc_output_buffer_ cn) = [] →
  wp (DisableWriteEvent (tc_channel_ cn) ;; queue_write_complete c ;;
      cn ← get_conn c;
      if bool_decide (tc_state_ cn = Disconnecting)
      then RunInLoop (tc_loop_ cn) (FShutdownDrained c) (shutdown_drained c)
      else mret ())
    (λ _ w', stream_inv S ro ri w' ∧ conn_state w' = conn_state w) only_exit w.
Proof.
  intros Hlive Hopen Hnil. rw (live_state _ _ _ _ _ _ Hlive). destruct Hlive as [Hok ? ? ? ? ?].
  wp_step. eapply wp_conseq; [by apply (wp_change_events _ c cn ch lp)|].
  intros [] w1 (lp1 & Hok1 & _ & _ & Ho1). set (ch1 := changed _ ch) in *. wp_step.
  eapply wp_conseq; [by apply (queue_write_complete_ok c cn ch1 lp1)|].
  intros [] w2 (lp2 & Hok2 & _ & Ho2). apply obs_same in Ho2. rw Ho1 in Ho2.
  injection Ho2 as Hs Hf Hn.
  assert (conn_live ro ri cn ch1 lp2 w2) as Hlive2 by by split.
  assert (open_at S cn ch1 w2) as Hopen2 by by rw /open_at Hs Hf Hn.
  assert (write_rule cn ch1) as Hrule.
  { rw /write_rule Hnil /=. apply write_clear_write. }
  wp_step. eapply wp_get_conn; [apply Hok2|]. case_bool_decide as Hst.
  - rw /RunInLoop. wp_step. eapply wp_in_thread; [done|]. rw /shutdown_drained. wp_step.
    eapply wp_get_conn; [apply Hok2|]. wp_step. eapply wp_get_chan; [apply Hok2|].
    assert (IsWriteEvent ch1 = false) as Hw by apply write_clear_write.
    rw Hw Hst /=. by eapply shutdown_write_stream.
  - wp_step. split; [exists cn, ch1, lp2; split; [done|by apply open_stream]|].
    by rw (live_state _ _ _ _ _ _ Hlive2).
Qed.
(** A failed send is retried later or closes the connection. *)
Lemma write_failed_stream S ro ri cn ch lp w :
  conn_live ro ri cn ch lp w → open_at S cn ch w → write_rule cn ch →
  wp (e ← errno;
      if (e =? EAGAIN) || (e =? EWOULDBLOCK) then mret ()
      else if e =? EINTR then mret ()
      else handle_error_with_code c e ;; handle_close close_code c)
    (λ _ w', stream_inv S ro ri w' ∧
       (conn_state w ≠ Some Connected → conn_state w' ≠ Some Connected)) only_exit w.
Proof.
  intros Hlive Hopen Hr.
  assert (stream_inv S ro ri w) as Hinv.
  { exists cn, ch, lp. split; [done|by apply open_stream]. }
  wp_step. apply wp_gets. destruct (_ || _); [by wp_step|]. destruct (_ =? _); [by wp_step|].
  eapply wp_conseq; [by apply (error_close_inv S)|]. intros [] w' [? ->]. auto.
Qed.

(** [n > 0] bytes went out. *)
Lemma retrieved_open S n cn ch lp ro ri r w :
  conn_live ro ri cn ch lp w → open_at S cn ch w →
  let out := content (tc_output_buffer_ cn) in
  let k := SysSend (tc_socket_ cn) out in
  let w1 := after_call k w in
  out ≠ [] → os_reply (w_hist w) k = r → r_ret r = n → 0 < n ≤ zlength out →
  wp (on_output c (Retrieve n)) (λ _ w2, ∃ cn2,
    conn_live ro ri cn2 ch lp w2 ∧ open_at S cn2 ch w2 ∧
    tc_state_ cn2 = tc_state_ cn ∧ tc_channel_ cn2 = tc_channel_ cn ∧
    content (tc_output_buffer_ cn2) = drop (Z.to_nat n) out) only_exit w1.
Proof.
  intros [Hok ? ? ? ? ?] (Hst & HS & Hf & Hf' & Hn) out k w1 Hne Hr Hret Hb.
  assert (conn_ok c cn ch lp w1) as Hok1 by by apply conn_ok_call.
  assert (w_hist w1 = w_hist w ++ [Sys k r]) as Hh by by rw -Hr.
  destruct (obs_grows_inv _ _ _ _ _ _ _ (obs_send c (tc_socket_ cn) out r w w1 Hh)) as (Hs1 & Hf1 & Hn1).
  rw !app_nil_r in Hf1 Hn1. rw Hret in Hs1.
  eapply wp_on_output; [apply Hok1|apply Retrieve_ok; [apply Hok1|unfold out in Hb; lia]|].
  intros [] b (Hbi & Hbc & _ & Hbs). exists (set_tc_output_buffer_ b cn). split_and!; try done.
  - split; try done; simpl; [|by rw Hbs]. by apply (conn_ok_alter c cn _ ch lp w1); try apply Hok1.
  - assert (fins (tc_socket_ cn) (w_hist w) = F) as Hnofin.
    { destruct (decide (fins (tc_socket_ cn) (w_hist w) = F)) as [|Hx]; [done|]. by destruct (Hne (Hf' Hx)). }
    rw /open_at /= Hs1 Hf1 Hn1 Hbc. split_and!; try done.
    + by rw -app_assoc take_drop.
Qed.

Lemma handle_write_stream S ro ri w :
  stream_inv S ro ri w →
  wp (handle_write close_code c) (λ _ w', op_post S [] ro ri w w') only_exit w.
Proof.
  intros Hinv. pose proof Hinv as (cn & ch & lp & Hlive & Hat). pose proof Hlive as [Hok _ _ _ _ _].
  assert (Hst0 := live_state _ _ _ _ _ _ Hlive).
  rw /handle_write. wp_step. eapply wp_get_conn; [apply Hok|]. wp_step.
  eapply wp_conn_thread; [done|]. wp_step. eapply wp_get_chan; [apply Hok|].
  destruct (IsWriteEvent ch) eqn:Hw; simpl; last first.
  { wp_step. by apply op_post_keep. }
  destruct (not_connecting _ _ _ _ Hat) as [Hst|Hst].
  { rw /stream_at Hst Hw in Hat. by destruct Hat as (_ & _ & ? & _). }
  destruct (stream_open _ _ _ _ Hat Hst) as [Hopen Hrule].
  assert (content (tc_output_buffer_ cn) ≠ []) as Hne.
  { rw /write_rule Hw in Hrule. symmetry in Hrule. by apply negb_true_iff, bool_decide_eq_false in Hrule. }
  wp_step. eapply wp_on_output; [apply Hok|apply peek_all_ok, Hok|]. intros ? ? [-> ->].
  rw (_ : set_tc_output_buffer_ _ cn = cn); [by destruct cn|]. rw conn_id_world; [apply Hok|].
  wp_step. apply wp_syscall. rw (co_fd _ _ _ _ _ Hok). set (k := SysSend _ _).
  assert (r_ret (os_reply (w_hist w) k) ≤ zlength (content (tc_output_buffer_ cn))) as Hmax by apply send_ok.
  destruct (Z.leb_spec (r_ret (os_reply (w_hist w) k)) 0) as [Hfail|Hpos].
  - assert (conn_live ro ri cn ch lp (after_call k w)) as Hlive1.
    { destruct Hlive. split; try done. by apply conn_ok_call. }
    eapply wp_conseq; [eapply (write_failed_stream S ro ri cn ch lp); [done| |done]|].
    + destruct (obs_grows_inv _ _ _ _ _ _ _ (obs_send c (tc_socket_ cn) _ (os_reply (w_hist w) k) w
        (after_call k w) eq_refl)) as (Hs & Hf & Hn).
      rw (_ : Z.to_nat _ = O) /= ?app_nil_r in Hs; [lia|]. rw !app_nil_r in Hf Hn.
      by rw /open_at Hs Hf Hn.
    + intros [] w' [Hinv' Hst']. by apply op_post_keep.
  - wp_step. eapply wp_conseq; [by eapply (retrieved_open S _ cn ch lp ro ri _ w)|].
    intros [] w2 (cn2 & Hlive2 & Hopen2 & Hst2 & Hch2 & Hc2). wp_step.
    eapply wp_get_conn; [apply Hlive2|].
    rw -(zlength_content _ (co_out _ _ _ _ _ (cl_ok _ _ _ _ _ _ Hlive2))).
    destruct (Z.ltb_spec 0 (zlength (content (tc_output_buffer_ cn2)))) as [Hleft|Hall].
    + wp_step. apply op_post_keep; [|by rw (live_state _ _ _ _ _ _ Hlive2) Hst2 Hst0].
      exists cn2, ch, lp. split; [done|]. apply open_stream; [done|].
      rw /write_rule Hw bool_decide_eq_false_2 //. intros Hz. by rw Hz in Hleft.
    + eapply wp_conseq; [apply (drained_stream S ro ri cn2 ch lp); [done|done|]|].
      * apply length_zero_iff_nil. unfold zlength in Hall. lia.
      * intros [] w' [Hinv' Hst']. apply op_post_keep; [done|].
        by rw Hst' (live_state _ _ _ _ _ _ Hlive2) Hst2 Hst0.
Qed.
(** ** Reading *)

Lemma call_message_stream S t ro ri cn ch lp w :
  conn_live ro ri cn ch lp w → stream_at S cn ch w →
  wp (call_message c t) (λ _ w', stream_inv S ro ri w' ∧ conn_state w' = conn_state w) only_exit w.
Proof.
  intros Hlive Hat. rw (live_state _ _ _ _ _ _ Hlive). destruct Hlive as [Hok Hcb Hcb' [mcb Hm] Ho Hi].
  rw /call_message. wp_step. eapply wp_get_conn; [apply Hok|]. rw Hm. destruct mcb as [|u].
  - rw /default_message_callback.
    eapply wp_on_input; [apply Hok|apply RetrieveAll_ok, Hok|]. intros [] b (Hb & _ & _ & Hs).
    set (w1 := set_w_conns _ w).
    assert (conn_ok c (set_tc_input_buffer_ b cn) ch lp w1) as Hok1.
    { by apply (conn_ok_alter c cn _ ch lp w); try apply Hok. }
    split; [|by rw /conn_state (co_conn _ _ _ _ _ Hok1)].
    exists (set_tc_input_buffer_ b cn), ch, lp. split; [split; simpl; try done; try lia; by eexists|].
    by eapply (stream_at_same S cn ch).
  - rw /call_user. wp_step. wp_step. set (w1 := set_w_hist _ w).
    assert (conn_ok c cn ch lp w1) as Hok1 by by apply conn_ok_hist.
    eapply wp_conseq; [eapply calm_message; [apply Nat.eqb_refl|done]|]. intros [] w' (b & lp' & Hok' & Hb & Hobs & _).
    split; [|by rw /conn_state (co_conn _ _ _ _ _ Hok')].
    exists (set_tc_input_buffer_ b cn), ch, lp'. split; [split; simpl; try done; try lia; by eexists|].
    eapply (stream_at_same S cn ch); try done. rw Hobs. by apply obs_inert.
Qed.

(** How [handle_read] ends when no bytes were delivered. *)
Definition ends_read (m : M World ()) : Prop :=
  m = mret () ∨ m = handle_close close_code c ∨
  ∃ e, m = (handle_error_with_code c e ;; handle_close close_code c).

Lemma ends_read_stream S ro ri m w :
  stream_inv S ro ri w → ends_read m →
  wp m (λ _ w', stream_inv S ro ri w' ∧ (w' = w ∨ conn_state w' = Some Disconnected)) only_exit w.
Proof.
  intros Hinv [-> |[-> |[e ->]]].
  - wp_step. auto.
  - eapply wp_conseq; [by apply (handle_close_stream S)|]. intros [] w' []. auto.
  - eapply wp_conseq; [by apply (error_close_inv S)|]. intros [] w' []. auto.
Qed.

(** [handle_read] up to the message callback or its end: the bytes the kernel
    delivered are appended to the input buffer. *)
Lemma handle_read_split S t ro ri cn ch lp (Q : () → World → Prop) w :
  conn_live ro (kExtraBufSize + ri) cn ch lp w → stream_at S cn ch w → 0 ≤ ri →
  let r := os_reply (w_hist w) (SysReadv (tc_socket_ cn) (read_iov (tc_input_buffer_ cn))) in
  (∀ b w2, 0 < r_ret r → conn_live ro ri (set_tc_input_buffer_ b cn) ch lp w2 →
     stream_at S (set_tc_input_buffer_ b cn) ch w2 →
     content b = content (tc_input_buffer_ cn) ++ r_data r →
     size b ≤ size (tc_input_buffer_ cn) + kExtraBufSize → wp (call_message c t) Q only_exit w2) →
  (∀ b w2 m, r_ret r ≤ 0 → conn_live ro ri (set_tc_input_buffer_ b cn) ch lp w2 →
     stream_at S (set_tc_input_buffer_ b cn) ch w2 → content b = content (tc_input_buffer_ cn) →
     size b ≤ size (tc_input_buffer_ cn) + kExtraBufSize → ends_read m → wp m Q only_exit w2) →
  wp (handle_read close_code c t) Q only_exit w.
Proof.
  intros Hlive Hat Hri r Hmsg Hkeep. pose proof Hlive as [Hok Hcb Hcb' Hm Ho Hi].
  rw /handle_read. wp_step. eapply wp_get_conn; [apply Hok|]. wp_step.
  eapply wp_conn_thread; [done|]. wp_step. eapply wp_get_chan; [apply Hok|]. wp_step. apply wp_syscall.
  rw (co_fd _ _ _ _ _ Hok). set (k := SysReadv _ _). fold k r. set (w1 := after_call k w).
  assert (conn_ok c cn ch lp w1) as Hok1 by by apply conn_ok_call.
  wp_step. eapply wp_on_input; [apply Hok1| |].
  { rw /wp (ReadFd_ext _ (λ iov, let r := os_reply (w_hist w) (SysReadv (tc_socket_ cn) iov) in
      (r_ret r, r_data r))) //. apply ReadFd_ok; [apply Hok|apply sys_readv_ok|lia]. }
  intros n b (Hn & Hb & Hcont & _ & _ & Hbs). change (n = r_ret r) in Hn. subst n.
  change (content b = content (tc_input_buffer_ cn) ++ (if 0 <=? r_ret r then r_data r else [])) in Hcont.
  set (w2 := set_w_conns _ w1). set (cn2 := set_tc_input_buffer_ b cn).
  assert (conn_live ro ri cn2 ch lp w2) as Hlive2.
  { split; simpl; try done; [|lia]. by apply (conn_ok_alter c cn _ ch lp w1); try apply Hok1. }
  assert (stream_at S cn2 ch w2) as Hat2.
  { eapply (stream_at_same S cn ch); try done. by apply obs_inert. }
  destruct (Z.ltb_spec 0 (r_ret r)) as [Hpos|Hneg].
  { apply (Hmsg b); try done. by rw Hcont; destruct (Z.leb_spec 0 (r_ret r)); [|lia]. }
  assert (content b = content (tc_input_buffer_ cn)) as Hsame.
  { rw Hcont. destruct (Z.leb_spec 0 (r_ret r)); [|by rw app_nil_r].
    assert (Forall (Z.le 0) (read_iov (tc_input_buffer_ cn))) as Hpos by apply read_iov_nonneg, Hok.
    destruct (sys_readv_ok (w_hist w) (tc_socket_ cn) _ Hpos) as [Hz _]; [done|]. fold k in Hz.
    assert (r_data r = []) as ->; [|by rw app_nil_r]. apply length_zero_iff_nil.
    rw /zlength in Hz. change (r_ret r = Z.of_nat (length (r_data r))) in Hz. lia. }
  assert (∀ m, ends_read m → wp m Q only_exit w2) as Hend by by intros m; apply (Hkeep b).
  rw /ends_read in Hend. destruct (r_ret r =? 0); [by auto|].
  wp_step. apply wp_gets. destruct (_ || _); [by auto|]. destruct (_ =? _); [by auto|]. by eauto.
Qed.

Lemma handle_read_stream S t ro ri w :
  stream_inv S ro (kExtraBufSize + ri) w → 0 ≤ ri →
  wp (handle_read close_code c t) (λ _ w', op_post S [] ro ri w w') only_exit w.
Proof.
  intros (cn & ch & lp & Hlive & Hat) Hri. assert (Hst0 := live_state _ _ _ _ _ _ Hlive).
  eapply (handle_read_split S t ro ri cn ch lp); [done|done|done|..].
  - intros b w2 _ Hlive2 Hat2 _ _. eapply wp_conseq; [by eapply (call_message_stream S)|].
    intros [] w' [Hinv' Hs]. apply op_post_keep; [done|].
    by rw Hs Hst0 (live_state _ _ _ _ _ _ Hlive2).
  - intros b w2 m _ Hlive2 Hat2 _ _ Hm. eapply wp_conseq; [apply (ends_read_stream S ro ri m); [|done]|].
    { by eexists _, ch, lp. }
    intros [] w' [Hinv' [-> |Hd]]; (apply op_post_keep; [done|]); [|by rw Hd].
    by rw Hst0 (live_state _ _ _ _ _ _ Hlive2).
Qed.
(** ** Shutting down, force-closing, reading on and off *)

(** The compare-exchange of [Shutdown] and [ForceClose]. *)
Lemma disconnecting_stream S ro ri w :
  stream_inv S ro ri w →
  wp (compare_exchange c Connected Disconnecting)
    (λ ok w', stream_inv S ro ri w' ∧ conn_state w' ≠ Some Connected ∧
       ok = bool_decide (conn_state w = Some Connected) ∧
       (ok = true → conn_state w' = Some Disconnecting) ∧ (ok = false → w' = w)) only_exit w.
Proof.
  intros (cn & ch & lp & Hlive & Hat). assert (Hst0 := live_state _ _ _ _ _ _ Hlive).
  pose proof Hlive as [Hok ? ? ? ? ?].
  rw /compare_exchange. wp_step. eapply wp_get_conn; [apply Hok|]. case_bool_decide as Hst.
  - wp_step. eapply wp_alter_conn; [apply Hok|]. set (cn1 := set_tc_state_ Disconnecting cn).
    set (w1 := set_w_conns _ w). assert (conn_ok c cn1 ch lp w1) as Hok1.
    { apply (conn_ok_alter c cn _ ch lp w); try apply Hok; [done|]. by rw Hst. }
    wp_step. assert (conn_live ro ri cn1 ch lp w1) as Hlive1 by by split.
    assert (Hst1 := live_state _ _ _ _ _ _ Hlive1).
    rw Hst0 Hst bool_decide_eq_true_2 //. split_and!; [|by rw Hst1|done|done|done].
    exists cn1, ch, lp. split; [done|].
    destruct (stream_open _ _ _ _ Hat (or_introl Hst)) as [(_ & HS & Hf & Hf' & Hn) Hr].
    apply open_stream; [|done]. split_and!; simpl; auto.
  - wp_step. rw Hst0 bool_decide_eq_false_2; [congruence|]. split_and!; [by exists cn, ch, lp|congruence|done..].
Qed.

Lemma Shutdown_stream S ro ri w :
  stream_inv S ro ri w → wp (Shutdown c) (λ _ w', op_post S [] ro ri w w') only_exit w.
Proof.
  intros Hinv. rw /Shutdown. wp_step. eapply wp_conseq; [by apply disconnecting_stream|].
  intros [] w1 (Hinv1 & Hst1 & _ & Hst & _); [|wp_step; by apply op_post_keep].
  destruct Hinv1 as (cn & ch & lp & Hlive & Hat). pose proof Hlive as [Hok _ _ _ _ _].
  specialize (Hst eq_refl). rw (live_state _ _ _ _ _ _ Hlive) in Hst. injection Hst as Hst.
  wp_step. eapply wp_get_conn; [apply Hok|]. rw /RunInLoop. wp_step.
  eapply wp_in_thread; [done|]. rw /shutdown_in_loop. wp_step. eapply wp_get_conn; [apply Hok|].
  wp_step. eapply wp_conn_thread; [done|]. wp_step. eapply wp_get_chan; [apply Hok|].
  destruct (stream_open _ _ _ _ Hat (or_intror Hst)) as [Hopen Hr].
  destruct (IsWriteEvent ch) eqn:Hw; simpl.
  - wp_step. apply op_post_keep; [by exists cn, ch, lp|done].
  - eapply wp_conseq; [eapply (shutdown_write_stream S); try done|].
    + rw /write_rule Hw in Hr. symmetry in Hr. by apply negb_false_iff, bool_decide_eq_true in Hr.
    + intros [] w' [Hinv' Hst']. apply op_post_keep; [done|]. by rw Hst'.
Qed.

Lemma ForceClose_stream S ro ri w :
  stream_inv S ro ri w → wp (ForceClose c) (λ _ w', op_post S [] ro ri w w') only_exit w.
Proof.
  intros Hinv. rw /ForceClose. wp_step. eapply wp_conseq; [by apply disconnecting_stream|].
  intros ok w1 ((cn & ch & lp & Hlive & Hat) & Hst1 & _). pose proof Hlive as [Hok ? ? ? ? ?].
  wp_step. eapply wp_get_conn; [apply Hok|].
  destruct (ok || _); simpl; [|wp_step; apply op_post_keep; [by exists cn, ch, lp|done]].
  eapply wp_conseq; [by eapply QueueInLoop_ok, co_ready|]. intros [] w' Hq.
  destruct (conn_ok_queued c cn ch lp _ w1 w' Hok Hq) as [Hok' Ho].
  assert (conn_live ro ri cn ch (set_el_pendings_ (el_pendings_ lp ++ [FForceClose c]) lp) w')
    as Hlive' by by split.
  apply op_post_keep; [eexists _, _, _; split; [done|by eapply (stream_at_same S cn ch)]|].
  by rw (live_state _ _ _ _ _ _ Hlive') -(live_state _ _ _ _ _ _ Hlive).
Qed.

Lemma force_close_stream S ro ri w :
  stream_inv S ro ri w →
  wp (force_close_in_loop close_code c) (λ _ w', op_post S [] ro ri w w') only_exit w.
Proof.
  intros Hinv. pose proof Hinv as (cn & ch & lp & Hlive & Hat).
  rw /force_close_in_loop. wp_step. eapply wp_get_conn; [apply Hlive|]. wp_step.
  eapply wp_conn_thread; [apply Hlive|]. destruct (_ || _); simpl.
  - eapply wp_conseq; [by apply (handle_close_stream S)|]. intros [] w' [? Hst']. apply op_post_keep; [done|]. by rw Hst'.
  - wp_step. by apply op_post_keep.
Qed.

(** [StartRead] and [StopRead] on the loop's thread. *)
Lemma toggle_read_stream S ro ri f v (cond : TcpConnection → Channel → bool) cb0 w :
  (∀ e, test (f e) kWriteEvent = test e kWriteEvent) →
  stream_inv S ro ri w →
  wp (cn ← get_conn c;
      RunInLoop (tc_loop_ cn) cb0
        (cn ← get_conn c;
         AssertInLoopThread (tc_loop_ cn) ;;
         ch ← get_chan (tc_channel_ cn);
         when (cond cn ch)
           (change_events f (tc_channel_ cn) ;; alter_conn (set_tc_reading_ v) c)))
    (λ _ w', op_post S [] ro ri w w') only_exit w.
Proof.
  intros Hf Hinv. pose proof Hinv as (cn & ch & lp & Hlive & Hat). pose proof Hlive as [Hok ? ? ? ? ?].
  wp_step. eapply wp_get_conn; [apply Hok|]. rw /RunInLoop. wp_step. eapply wp_in_thread; [done|].
  wp_step. eapply wp_get_conn; [apply Hok|]. wp_step. eapply wp_conn_thread; [done|].
  wp_step. eapply wp_get_chan; [apply Hok|].
  destruct (cond cn ch); simpl; [|wp_step; by apply op_post_keep].
  wp_step. eapply wp_conseq; [by apply (wp_change_events f c cn ch lp)|].
  intros [] w1 (lp1 & Hok1 & _ & _ & Ho1). eapply wp_alter_conn; [apply Hok1|].
  set (cn2 := set_tc_reading_ v cn). set (w2 := set_w_conns _ w1).
  assert (conn_ok c cn2 (changed f ch) lp1 w2) as Hok2.
  { by apply (conn_ok_alter c cn _ _ lp1 w1); try apply Hok1. }
  assert (conn_live ro ri cn2 (changed f ch) lp1 w2) as Hlive2 by by split.
  apply op_post_keep.
  - exists cn2, (changed f ch), lp1. split; [done|]. eapply (stream_at_same S cn ch); try done.
    apply Hf.
  - by rw (live_state _ _ _ _ _ _ Hlive2) (live_state _ _ _ _ _ _ Hlive).
Qed.
(** ** Any sequence of operations *)

Lemma conn_exec_ok S o ro ri w :
  stream_inv S (zlength (op_msg o) + ro) (op_in o + ri) w → 0 ≤ ro → 0 ≤ ri →
  wp (conn_exec o) (λ _ w', op_post S (op_msg o) ro ri w w') only_exit w.
Proof.
  intros Hinv Hro Hri. destruct o; simpl in *.
  - by apply Send_stream.
  - by apply send_in_loop_stream.
  - by apply Shutdown_stream.
  - by apply ForceClose_stream.
  - by apply force_close_stream.
  - apply (toggle_read_stream S ro ri _ true (λ cn ch, negb (tc_reading_ cn) || negb (IsReadEvent ch)));
      [apply write_lor_read|done].
  - apply (toggle_read_stream S ro ri _ false (λ cn ch, tc_reading_ cn || IsReadEvent ch));
      [apply write_clear_read|done].
  - by apply handle_read_stream.
  - by apply handle_write_stream.
  - eapply wp_conseq; [by apply (handle_close_stream S)|]. intros [] w' [? Hst].
    apply op_post_keep; [done|]. by rw Hst.
  - eapply wp_conseq; [by apply (socket_error_stream S)|]. intros [] w' [? Hst].
    apply op_post_keep; [done|]. by rw Hst.
Qed.

Lemma need_nonneg ops : 0 ≤ need_out ops ∧ 0 ≤ need_in ops.
Proof.
  induction ops as [|o ops [IH1 IH2]]; [done|]. simpl.
  pose proof (zlength_nonneg (op_msg o)). destruct o; simpl in *; unfold kExtraBufSize in *; lia.
Qed.

Lemma conn_execs_ok S ops w :
  stream_inv S (need_out ops) (need_in ops) w →
  wp (for_each ops conn_exec) (λ _ w', ∃ k,
    stream_inv (S ++ concat (take k (op_msg <$> ops))) 0 0 w' ∧
    (conn_state w ≠ Some Connected → k = O ∧ conn_state w' ≠ Some Connected) ∧
    (conn_state w' = Some Connected → k = length ops)) only_exit w.
Proof.
  revert S w. induction ops as [|o ops IH]; intros S w Hinv.
  { simpl. wp_step. exists O. by rw app_nil_r. }
  destruct (need_nonneg ops) as [H1 H2]. cbn [for_each]. wp_step.
  eapply wp_conseq; [by apply (conn_exec_ok S o (need_out ops) (need_in ops))|].
  intros [] w1 (S1 & Hinv1 & Hacc & Hrej).
  eapply wp_conseq; [by apply (IH S1)|].
  intros [] w' (k & Hinv' & Hdown & Hup).
  destruct (decide (conn_state w = Some Connected)) as [Hst|Hst].
  - rw (Hacc Hst) -app_assoc in Hinv'. exists (Datatypes.S k). split_and!; [done|done|].
    intros H'. by rw (Hup H').
  - destruct (Hrej Hst) as [-> Hst1]. destruct (Hdown Hst1) as [-> Hst'].
    exists O. split_and!; done.
Qed.

(** ** Establishing a connection *)

(** A connection just constructed, with its callbacks bound. *)
Record conn_fresh ops cn ch lp w : Prop := {
  fr_live : conn_live (need_out ops) (need_in ops) cn ch lp w;
  fr_state : tc_state_ cn = Connecting;
  fr_out : content (tc_output_buffer_ cn) = [];
  fr_events : ch_events_ ch = kNoneEvent;
  fr_sent : sent (tc_socket_ cn) (w_hist w) = S0;
  fr_fins : fins (tc_socket_ cn) (w_hist w) = F;
  fr_notes : N = notes c (w_hist w) ++ conn_note cb c;
}.

Lemma established_stream ops cn ch lp w :
  conn_fresh ops cn ch lp w →
  wp (ConnectionEstablished c)
    (λ _ w', stream_inv S0 (need_out ops) (need_in ops) w' ∧ conn_state w' = Some Connected)
    only_exit w.
Proof.
  intros [[Hok Hcb Hcb' Hm Hro Hri] Hst Hout Hev Hs Hf Hn].
  rw /ConnectionEstablished. wp_step. eapply wp_get_conn; [apply Hok|]. wp_step.
  eapply wp_conn_thread; [done|]. wp_step. apply wp_assert_true; [by apply bool_decide_eq_true|].
  wp_step. eapply wp_alter_conn; [apply Hok|]. set (cn1 := set_tc_state_ Connected cn).
  set (w1 := set_w_conns _ w).
  assert (conn_ok c cn1 ch lp w1) as Hok1 by
    (apply (conn_ok_alter c cn _ ch lp w); try apply Hok; [done|by rw Hst]).
  wp_step. eapply wp_conseq; [by apply (wp_Tie c c cn1 ch lp)|]. intros [] w2 (Hok2 & Hh2).
  set (ch2 := set_ch_tied_ true _) in Hok2.
  wp_step. eapply wp_conseq; [by apply (wp_change_events _ c cn1 ch2 lp)|].
  intros [] w3 (lp3 & Hok3 & _ & _ & Ho3).
  eapply wp_conseq; [by eapply (call_connection_ok c cn1)|].
  intros [] w4 (b & lp4 & Hok4 & Hb & Ho4 & _).
  apply obs_grows_inv in Ho4 as (Hs4 & Hf4 & Hn4). injection Ho3 as Hs3 Hf3 Hn3.
  rw Hs3 Hh2 Hs app_nil_r in Hs4. rw Hf3 Hh2 Hf app_nil_r in Hf4. rw Hn3 Hh2 -Hn in Hn4.
  split; [|by rw /conn_state (co_conn _ _ _ _ _ Hok4)].
  eexists _, _, lp4. split; [split; [exact Hok4|..]; simpl in *; first [done|lia]|].
  rw /stream_at /= Hs4 Hf4 Hn4. split_and!; try done; [by rw Hout app_nil_r|].
  rw /write_rule /= Hout. rw /IsWriteEvent /= write_lor_read Hev. done.
Qed.

(** C4: whatever the application asks of a connection and whatever happens
    to it, on the thread of its loop, from the moment it is established:
    the handlers never fail an assertion or run into undefined behaviour;
    while the connection is open the bytes the kernel accepted (after those
    of earlier connections on the same descriptor) followed by the bytes
    still buffered are exactly the messages of the [Send]s in order, and
    write events are wanted exactly while bytes wait; a FIN is only requested
    once everything accepted was handed over, and nothing is sent after it;
    the application is told about the connection once when it
    comes up and once, followed by the close callback, when it goes down.
    Messages are accepted up to the first request or event that ends the
    connected state, so a prefix of the requests is honoured, and all of them
    while the connection is still up. *)
Theorem connection_stream ops cn ch lp w :
  conn_fresh ops cn ch lp w →
  wp (ConnectionEstablished c ;; for_each ops conn_exec) (λ _ w', ∃ k cn' ch' lp',
    conn_ok c cn' ch' lp' w' ∧
    stream_at (S0 ++ concat (take k (op_msg <$> ops))) cn' ch' w' ∧
    (tc_state_ cn' = Connected → k = length ops)) only_exit w.
Proof.
  intros Hfresh. wp_step. eapply wp_conseq; [by eapply established_stream|].
  intros [] w1 [Hinv1 _]. eapply wp_conseq; [by apply (conn_execs_ok S0 ops)|].
  intros [] w' (k & (cn' & ch' & lp' & Hlive & Hat) & _ & Hup).
  exists k, cn', ch', lp'. split_and!; [apply Hlive|done|].
  intros Hst. apply Hup. by rw (live_state _ _ _ _ _ _ Hlive) Hst.
Qed.
End stream.

(** ** The sample connection *)

(** An application whose callbacks do nothing further. *)
Definition quiet_user : UserCode := λ _, mret ().
Definition sample_close {user : UserCode} (cb : close_cb) (c : nat) : M World () :=
  match cb with UserCloseCb u => call_user (UClose u c) | RemoveConnection _ => mret () end.

Lemma calm_refl c cn ch lp w : conn_ok c cn ch lp w → calm c cn ch w w.
Proof. intros Hok. exists (tc_input_buffer_ cn), lp. split_and!; [by destruct cn|done..]. Qed.

#[export] Instance quiet_user_calm c : CalmUser c quiet_user.
Proof. intros u cn ch lp w _ Hok. rw /user_run /quiet_user. wp_step. by eapply calm_refl. Qed.
#[export] Instance quiet_message_calm c : CalmMessage c quiet_user.
Proof. intros u cn ch lp w _ Hok. rw /user_run /quiet_user. wp_step. by eapply calm_refl. Qed.

#[export] Instance sample_close_calm c : CalmClose c (sample_close (user := quiet_user)).
Proof.
  intros [s|u] cn ch lp w Hok _ _ _; rw /sample_close.
  - wp_step. destruct (calm_refl c cn ch lp w Hok) as (b & lp' & ? & ? & ? & _).
    exists b, lp'. split_and!; [done..|by apply obs_same].
  - rw /call_user. wp_step. wp_step. set (w1 := set_w_hist _ w).
    rw /user_run /quiet_user. wp_step.
    exists (tc_input_buffer_ cn), lp. split_and!; [|done|].
    + apply (conn_ok_hist c cn ch lp (User (UClose u c)) w) in Hok; [|done]. by destruct cn.
    + pose proof (obs_event c (tc_socket_ cn) (User (UClose u c)) w w1 eq_refl) as He.
      by rw /notes /= Nat.eqb_refl in He.
Qed.

Definition sample_msg : list byte := replicate 10 Byte.x61.
Definition sample_requests : list conn_op :=
  [OSend sample_msg; OReadable 0; OSendTask sample_data; OWritable; OShutdown; OSend sample_msg;
   OWritable; OHangup; OForceClose].

Lemma sample_conn_ok : conn_ok 20 sample_conn (Channel_new 1 9) sample_loop sample_world.
Proof.
  destruct (loop_ok_ready 1 10 (Channel_new 1 9) sample_world) as [lp Hr];
    [exact sample_loop_ok|by vm_compute..|].
  assert (lp = sample_loop) as ->.
  { pose proof (cr_lp _ _ _ _ _ Hr) as Hl. by injection Hl. }
  split; try done; by apply (Buffer_new_inv kInitialSize).
Qed.

Lemma connection_stream_witness :
  wp (ConnectionEstablished (os := sample_os) (user := quiet_user) 20 ;;
      for_each sample_requests (conn_exec (os := sample_os) (user := quiet_user)
        (sample_close (user := quiet_user)) 20))
    (λ _ w', ∃ k cn' ch' lp', conn_ok 20 cn' ch' lp' w' ∧
      stream_at 20 (UserCb 5) (UserCloseCb 6) [UConnection 5 20] []
        (concat (take k (op_msg <$> sample_requests))) cn' ch' w' ∧
      (tc_state_ cn' = Connected → k = length sample_requests)) only_exit sample_world.
Proof.
  apply (connection_stream (os := sample_os) (user := quiet_user)
    (sample_close (user := quiet_user)) 20 (UserCb 5) (UserCloseCb 6) [UConnection 5 20] [] []
    sample_requests sample_conn (Channel_new 1 9) sample_loop sample_world).
  split; try done. split; try done. exact sample_conn_ok.
Defined.

(** All twelve bytes accepted before the shutdown reach the kernel, in three
    sends of at most four bytes, then the FIN. *)
Example sample_stream_runs :
  let w' := final (ConnectionEstablished (os := sample_os) (user := quiet_user) 20 ;;
    for_each sample_requests (conn_exec (os := sample_os) (user := quiet_user)
      (sample_close (user := quiet_user)) 20)) sample_world in
  sent 9 (w_hist w') = sample_msg ++ sample_data ∧ length (fins 9 (w_hist w')) = 1%nat ∧
  notes 20 (w_hist w') = [UConnection 5 20; UConnection 5 20; UClose 6 20].
Proof. by vm_compute. Qed.

(** The sample world once the connection is up. *)
Definition up_world : World :=
  final (ConnectionEstablished (os := sample_os) (user := quiet_user) 20) sample_world.
Definition up_conn : TcpConnection := default sample_conn (w_conns up_world !! 20%nat).
Definition up_chan : Channel := default (Channel_new 1 9) (w_chans up_world !! 10%nat).
Definition up_loop : EventLoop := default sample_loop (w_loops up_world !! 1%nat).

Lemma up_conn_ok : conn_ok 20 up_conn up_chan up_loop up_world.
Proof.
  assert (stream_inv 20 (UserCb 5) (UserCloseCb 6) [UConnection 5 20] [] [] 0 0 up_world)
    as (cn & ch & lp & [Hok _ _ _ _ _] & _).
  { assert (conn_fresh 20 (UserCb 5) (UserCloseCb 6) [UConnection 5 20] [] [] [] sample_conn
      (Channel_new 1 9) sample_loop sample_world) as Hf.
    { split; try done. split; try done. exact sample_conn_ok. }
    apply (established_stream (os := sample_os) (user := quiet_user)) in Hf; [|apply _].
    apply wp_final in Hf as [_ [H _]]; [exact H|by vm_compute]. }
  assert (cn = up_conn) as ->.
  { pose proof (co_conn _ _ _ _ _ Hok) as H. by rw /up_conn H. }
  assert (ch = up_chan) as ->.
  { pose proof (cr_chan _ _ _ _ _ (co_ready _ _ _ _ _ Hok)) as H.
    rw (_ : tc_channel_ up_conn = 10%nat) in H; [by vm_compute|]. by rw /up_chan H. }
  assert (lp = up_loop) as ->; [|done].
  pose proof (cr_lp _ _ _ _ _ (co_ready _ _ _ _ _ Hok)) as H.
  rw (_ : tc_loop_ up_conn = 1%nat) in H; [by vm_compute|]. by rw /up_loop H.
Qed.
