(* ===== verification/ConnLife.v ===== *)
(** * ConnLife: threads, notifications and the end of a connection

    - what [Send] and [Shutdown] do when another thread calls them;
    - which callbacks a send queues;
    - [ConnectionDestroyed], the last thing that happens to a connection. *)

From S2P Require Import Prelude Buffer World Kernel Poller Channel Sample Reactor EventLoop Timer Socket TcpConnection ConnInv ConnSteps ConnSpec.

(** Run [m] on thread [t]. *)
Definition as_thread {A} (t : nat) (m : M World A) : M World A :=
  old ← gets w_tid; modify (set_w_tid t) ;; a ← m; modify (set_w_tid old) ;; mret a.

Section threads.
Context {os : OS} {heap : Heap} {user : UserCode} (close_code : close_cb → nat → M World ()).
Implicit Types (w : World) (cn : TcpConnection) (ch : Channel) (lp : EventLoop).

(** Handing a task to a loop from outside queues it and wakes the loop. *)
Lemma RunInLoop_other l lp cb body E w :
  w_loops w !! l = Some lp → el_thread_id_ lp ≠ w_tid w →
  wp (RunInLoop l cb body) (λ _, queued l lp cb w) E w.
Proof.
  intros Hl Ht. rw /RunInLoop. wp_step. eapply wp_IsInLoopThread; [done|].
  rw (proj2 (Nat.eqb_neq _ _) Ht). by apply QueueInLoop_ok.
Qed.

(** What calls from outside leave of a connection: its state may have
    moved, tasks were queued, nothing was sent. *)
Record touched (c : nat) cn lp (s : State) (tasks : list Functor) (w w' : World) : Prop := {
  to_conns : w_conns w' = <[c := set_tc_state_ s cn]> (w_conns w);
  to_chans : w_chans w' = w_chans w;
  to_loops : w_loops w' = <[tc_loop_ cn := set_el_pendings_ (el_pendings_ lp ++ tasks) lp]> (w_loops w);
  to_others : others w' = others w;
  to_tid : w_tid w' = w_tid w;
  to_hist : ∃ evs, w_hist w' = w_hist w ++ evs ∧
    forallb (λ e, match e with Sys (EventfdWrite _ _) _ => true | _ => false end) evs = true;
}.

Lemma touched_ok c cn ch lp s tasks w w' :
  conn_ok c cn ch lp w → tc_state_ cn ≠ Disconnected → touched c cn lp s tasks w w' →
  conn_ok c (set_tc_state_ s cn) ch (set_el_pendings_ (el_pendings_ lp ++ tasks) lp) w' ∧
  obs c (tc_socket_ cn) (w_hist w') = obs c (tc_socket_ cn) (w_hist w).
Proof.
  intros [Hc Hr Hfd Hi Ho Hhome] Hst [Hcn Hch Hlo Hot Ht (evs & Hh & Hq)]. injection Hot as _ Hsv _ _ _. split.
  - split; try done; [by rw Hcn lookup_insert_eq| |].
    2:{ intros _. eapply home_open_frame, Hhome, Hst; [|done]. split_and!; [done|done|].
        intros l. rw Hlo lookup_insert. case_decide; [subst; by rw (cr_lp _ _ _ _ _ Hr)|done]. }
    eapply (chan_ready_quiet _ _ _ lp _ evs w); try done; [by rw Hlo lookup_insert_eq|].
    eapply forallb_mono, Hq. by intros [[] r|].
  - rw Hh. apply obs_inert. eapply forallb_mono, Hq. by intros [[] r|].
Qed.
(** [Send] and then [Shutdown] from a thread other than the loop's. *)
Lemma send_shutdown_outside c msg t cn ch lp E w :
  conn_ok c cn ch lp w → t ≠ el_thread_id_ lp → tc_state_ cn = Connected →
  wp (as_thread t (Send close_code c msg ;; Shutdown c))
    (λ _, touched c cn lp Disconnecting [FSendInLoop c msg; FShutdown c] w) E w.
Proof.
  intros Hok Ht Hst. pose proof (cr_lp _ _ _ _ _ (co_ready _ _ _ _ _ Hok)) as Hl.
  pose proof (co_conn _ _ _ _ _ Hok) as Hc.
  rw /as_thread. wp_step. apply wp_gets. wp_step. wp_step. set (w0 := set_w_tid t w).
  wp_step. wp_step. rw /Send. wp_step. eapply wp_get_conn; [done|].
  rw bool_decide_eq_false_2; [by intros []|]. wp_step. eapply wp_IsInLoopThread; [done|].
  rw (proj2 (Nat.eqb_neq (el_thread_id_ lp) t)) //.
  eapply wp_conseq; [by apply (RunInLoop_other _ lp)|]. intros [] w1 [Hlo1 Hch1 Hcn1 _ Ht1 Hot1 [r1 Hh1]].
  rw /Shutdown /compare_exchange. wp_step. wp_step. eapply wp_get_conn; [by rw Hcn1|].
  rw bool_decide_eq_true_2 //. wp_step. eapply wp_alter_conn; [by rw Hcn1|]. wp_step.
  set (w2 := set_w_conns _ w1). wp_step. eapply wp_get_conn; [apply lookup_insert_eq|]. simpl.
  set (lp1 := set_el_pendings_ _ lp) in Hlo1.
  assert (w_loops w2 !! tc_loop_ cn = Some lp1) as Hl2 by by rw /w2 /= Hlo1 lookup_insert_eq.
  eapply wp_conseq; [apply (RunInLoop_other _ lp1); [done|by rw /= Ht1]|].
  intros [] w3 [Hlo3 Hch3 Hcn3 _ Ht3 Hot3 [r3 Hh3]]. wp_step. wp_step. wp_step.
  split; simpl.
  - by rw Hcn3 /= Hcn1.
  - by rw Hch3 /= Hch1.
  - by rw Hlo3 /= Hlo1 insert_insert_eq -app_assoc.
  - etrans; [exact Hot3|exact Hot1].
  - done.
  - rw Hh3 /= Hh1 /= -app_assoc. eexists. split; [done|]. by destruct (_ || _), (_ || _).
Qed.

(** C19: [Send(msg)] followed by [Shutdown()] from a thread other than the
    loop's loses the message: the first queues it, the second leaves the
    connected state at once, so that when the loop runs the two tasks the
    message is rejected and the FIN goes out without it.  (On the loop's own
    thread the same two calls send the message before the FIN.) *)
Theorem cross_thread_message_dropped c msg t cn ch lp w :
  conn_ok c cn ch lp w → t ≠ el_thread_id_ lp → tc_state_ cn = Connected →
  IsWriteEvent ch = false →
  let fd := tc_socket_ cn in
  wp (as_thread t (Send close_code c msg ;; Shutdown c)) (λ _ w1,
    (∃ lp1, w_loops w1 !! tc_loop_ cn = Some lp1 ∧
       el_pendings_ lp1 = el_pendings_ lp ++ [FSendInLoop c msg; FShutdown c]) ∧
    wp (send_in_loop close_code c msg ;; shutdown_in_loop c) (λ _ w2,
      sent fd (w_hist w2) = sent fd (w_hist w) ∧
      fins fd (w_hist w2) = fins fd (w_hist w) ++ [()]) never w1) never w.
Proof.
  intros Hok Ht Hst Hw fd. eapply wp_conseq; [by apply (send_shutdown_outside c msg t cn ch lp)|].
  intros [] w1 Hto. destruct (touched_ok c cn ch lp _ _ w w1 Hok ltac:(by rw Hst) Hto) as [Hok1 Ho].
  split; [eexists; split; [by rw (to_loops _ _ _ _ _ _ _ Hto) lookup_insert_eq|done]|].
  wp_step. rw /send_in_loop. wp_step. eapply wp_get_conn; [apply Hok1|]. wp_step.
  eapply wp_conn_thread; [done|]. simpl. wp_step.
  rw /shutdown_in_loop. wp_step. eapply wp_get_conn; [apply Hok1|]. wp_step.
  eapply wp_conn_thread; [done|]. wp_step. eapply wp_get_chan; [apply Hok1|]. rw Hw /=.
  rw /ShutdownWrite /shutdown_write /logged. wp_step. apply wp_syscall. wp_step.
  injection Ho as Hs Hf _.
  destruct (obs_grows_inv _ _ _ _ _ _ _ (obs_fin c fd (os_reply (w_hist w1) (SysShutdownWr fd)) w1
    (after_call (SysShutdownWr fd) w1) eq_refl)) as (Hs2 & Hf2 & _).
  by rw Hs2 Hf2 Hs Hf app_nil_r.
Qed.
End threads.

Lemma cross_thread_message_dropped_witness :
  wp (as_thread 3 (Send (os := sample_os) (user := quiet_user) (sample_close (user := quiet_user)) 20
        sample_msg ;; Shutdown (os := sample_os) 20)) (λ _ w1,
    (∃ lp1, w_loops w1 !! 1%nat = Some lp1 ∧
       el_pendings_ lp1 = [FSendInLoop 20 sample_msg; FShutdown 20]) ∧
    wp (send_in_loop (os := sample_os) (user := quiet_user) (sample_close (user := quiet_user)) 20
          sample_msg ;; shutdown_in_loop (os := sample_os) 20) (λ _ w2,
      sent 9 (w_hist w2) = [] ∧ fins 9 (w_hist w2) = [()]) never w1) never up_world.
Proof.
  apply (cross_thread_message_dropped (os := sample_os) (user := quiet_user)
    (sample_close (user := quiet_user)) 20 sample_msg 3 up_conn up_chan up_loop up_world).
  - exact up_conn_ok.
  - by vm_compute.
  - by vm_compute.
  - by vm_compute.
Defined.

(** ** The end of a connection *)

Section destroying.
Context {os : OS} {heap : Heap} {user : UserCode}.
Context `{!EpollDelOk os, !EpollCtlRet os}.
Context (c : nat) `{!CalmUser c user}.
Implicit Types (w : World) (cn : TcpConnection) (ch : Channel) (lp : EventLoop).

(** The connection is down, its channel out of the loop. *)
Definition taken_out cn (n : list ucall) w w' : Prop := ∃ b ch',
  w_conns w' !! c = Some (closed b cn) ∧ w_chans w' !! tc_channel_ cn = Some ch' ∧
  ch_index_ ch' = kNewChannel ∧ ch_added_in_loop_ ch' = Some false ∧ IsNoneEvent ch' = true ∧
  poller_inv None (tc_loop_ cn) w' ∧ obs_grows c (tc_socket_ cn) [] [] n w w'.

Lemma take_out_ok cn ch lp w :
  conn_ok c cn ch lp w → tc_state_ cn = Disconnected → IsNoneEvent ch = true →
  removable (tc_loop_ cn) (tc_channel_ cn) w →
  wp (RemoveFromLoop (tc_channel_ cn)) (λ _ w', taken_out cn [] w w') never w.
Proof.
  intros [Hc Hr Hfd Hi Ho _] Hst Hnone Hrem.
  eapply wp_conseq; [apply (RemoveFromLoop_ok (tc_loop_ cn) _ ch lp); [done|done|]|].
  { apply Hrem, Hr. }
  intros [] w' [Hinv [Ht Hcn _ Hch _ Hh]].
  eexists (tc_input_buffer_ cn), _. rw Hcn Hch lookup_insert_eq. split_and!; try done.
  - rw Hc. f_equal. rw /closed -Hst. by destruct cn.
  - apply obs_same. destruct Hh as [-> |(? & ? & ? & ? & ? & ->)]; [done|]. by apply obs_inert.
Qed.

(** Destroying a closed connection takes its channel out of the loop. *)
Lemma destroy_closed_eq cn ch lp w :
  conn_ok c cn ch lp w → tc_state_ cn = Disconnected →
  ConnectionDestroyed c w = RemoveFromLoop (tc_channel_ cn) w.
Proof.
  intros Hok Hst. pose proof (co_ready _ _ _ _ _ Hok) as [_ Hch _ Hl Ht _].
  rw /ConnectionDestroyed /get_conn /mbind /M_bind /= (co_conn _ _ _ _ _ Hok) /=.
  rw /AssertInLoopThread /IsInLoopThread /get_loop /mbind /M_bind /= Hl /= Ht Nat.eqb_refl /=.
  by rw /compare_exchange /get_conn /mbind /M_bind /= (co_conn _ _ _ _ _ Hok) /= Hst.
Qed.

(** C17: [ConnectionDestroyed], which ends a connection, completes from the
    connected state (the application is told) and from the disconnected state
    when the channel wants no events, and leaves the connection disconnected
    and its channel out of the poller.  In every other case in which the
    channel still wants events, in particular while the connection is
    disconnecting, an assertion fails. *)
Theorem connection_destroyed cn ch lp cb w :
  conn_ok c cn ch lp w → tc_on_connection_ cn = Some cb →
  removable (tc_loop_ cn) (tc_channel_ cn) w →
  (tc_state_ cn = Connected →
     wp (ConnectionDestroyed c) (λ _ w', taken_out cn (conn_note cb c) w w') only_exit w) ∧
  (tc_state_ cn = Disconnected → IsNoneEvent ch = true →
     wp (ConnectionDestroyed c) (λ _ w', taken_out cn [] w w') never w) ∧
  (tc_state_ cn ≠ Connected → IsNoneEvent ch = false →
     ConnectionDestroyed c w = Crash AssertFailed w).
Proof.
  intros Hok Hcb Hrem. pose proof (co_conn _ _ _ _ _ Hok) as Hc. split_and!.
  - intros Hst. rw /ConnectionDestroyed. wp_step. eapply wp_get_conn; [done|]. wp_step.
    eapply wp_conn_thread; [done|]. wp_step. rw /compare_exchange. wp_step.
    eapply wp_get_conn; [done|]. rw bool_decide_eq_true_2 //. wp_step.
    eapply wp_alter_conn; [done|]. wp_step. wp_step. simpl.
    set (cn1 := set_tc_state_ Disconnected cn). set (w1 := set_w_conns _ w).
    assert (conn_ok c cn1 ch lp w1) as Hok1 by by apply (conn_ok_alter c cn _ ch lp w); try apply Hok.
    wp_step. eapply wp_conseq; [by apply (disable_all_ok c cn1 ch lp)|].
    intros [] w2 (lp2 & Hok2 & Hrem2 & _ & Ho2). specialize (Hrem2 Hrem).
    eapply wp_conseq; [by eapply (call_connection_ok c cn1)|].
    intros [] w3 (b & lp3 & Hok3 & _ & Ho3 & Hrem3 & _). specialize (Hrem3 Hrem2).
    eapply wp_mono; [by eapply (take_out_ok (set_tc_input_buffer_ b cn1))| |done].
    intros [] w' (b' & ch' & Hcn' & Hrest). exists b', ch'. split; [done|].
    destruct Hrest as (? & ? & ? & ? & ? & Ho'). split_and!; try done.
    rw -(app_nil_r (conn_note cb c)).
    apply (obs_grows_trans _ _ [] [] [] [] _ _ w w3 w'); [|done].
    apply (obs_grows_trans _ _ [] [] [] [] [] _ w w2 w3); [by apply obs_same|done].
  - intros Hst Hnone. eapply wp_same; [by apply (destroy_closed_eq cn ch lp)|].
    by apply (take_out_ok cn ch lp).
  - intros Hst Hnone. pose proof (co_ready _ _ _ _ _ Hok) as [_ Hch _ Hl Ht _].
    rw /ConnectionDestroyed /get_conn /mbind /M_bind /= Hc /=.
    rw /AssertInLoopThread /IsInLoopThread /get_loop /mbind /M_bind /= Hl /= Ht Nat.eqb_refl /=.
    rw /compare_exchange /get_conn /mbind /M_bind /= Hc /= bool_decide_eq_false_2 //=.
    by rw /RemoveFromLoop /get_chan /mbind /M_bind /= Hch /= Hnone.
Qed.
End destroying.

(** The sample connection is destroyed while it is up. *)
Lemma connection_destroyed_witness :
  wp (ConnectionDestroyed (os := sample_os) (user := quiet_user) 20)
    (λ _ w', taken_out 20 up_conn [UConnection 5 20] up_world w') only_exit up_world.
Proof.
  refine (proj1 (connection_destroyed (os := sample_os) (user := quiet_user) 20 up_conn up_chan
    up_loop (UserCb 5) up_world up_conn_ok _ _) _).
  - by vm_compute.
  - intros lp Hl. by injection Hl as <-.
  - by vm_compute.
Defined.

Definition crashed {S A} (f : failure) (o : outcome S A) : bool :=
  match o with Crash f' _ => bool_decide (f' = f) | Done _ _ => false end.

(** ... while it is being shut down ... *)
Example destroy_disconnecting_sample :
  crashed AssertFailed (ConnectionDestroyed (os := sample_os) (user := quiet_user) 20
    (final (Shutdown (os := sample_os) 20) up_world)) = true.
Proof. by vm_compute. Qed.

(** ... and after [StartRead] was called on it once it was closed. *)
Example destroy_after_start_read_sample :
  crashed AssertFailed (ConnectionDestroyed (os := sample_os) (user := quiet_user) 20
    (final (handle_close (os := sample_os) (user := quiet_user) (sample_close (user := quiet_user)) 20 ;;
            StartRead (os := sample_os) 20) up_world)) = true.
Proof. by vm_compute. Qed.

(** ** Notifications of a send *)

Section notifications.
Context {os : OS} {heap : Heap} {user : UserCode} (close_code : close_cb → nat → M World ()).
Context `{!EpollDelOk os, !EpollCtlRet os, !SendOk os}.
Context (c : nat) `{!CalmUser c user, !CalmClose c close_code}.
Implicit Types (w : World) (cn : TcpConnection) (ch : Channel) (lp : EventLoop).

(** C18: a non-empty message on a connected connection is cut at some [n]:
    the kernel takes the first [n] bytes and the rest is appended to the
    output buffer, unless the send fails because the peer is gone and the
    connection is closed.  The write-complete callback is queued exactly when
    the kernel took everything, the high-water callback exactly when the
    rest takes the buffer from below the mark to or above it, with the new
    length. *)
Theorem send_notifications msg cn ch lp cb cb' w :
  conn_ok c cn ch lp w → tc_state_ cn = Connected →
  tc_on_connection_ cn = Some cb → tc_on_close_ cn = Some cb' →
  0 < zlength msg → size (tc_output_buffer_ cn) + zlength msg ≤ vector_max_size →
  let fd := tc_socket_ cn in
  wp (send_in_loop close_code c msg) (λ _ w', ∃ n cn' ch' lp',
    conn_ok c cn' ch' lp' w' ∧ 0 ≤ n ≤ zlength msg ∧
    sent fd (w_hist w') = sent fd (w_hist w) ++ take (Z.to_nat n) msg ∧
    (tc_state_ cn' = Disconnected ∧ n = 0 ∨
     tc_state_ cn' = Connected ∧
     content (tc_output_buffer_ cn') = content (tc_output_buffer_ cn) ++ drop (Z.to_nat n) msg ∧
     el_pendings_ lp' = el_pendings_ lp ++
       (if n =? zlength msg then
          match tc_on_write_complete_ cn with Some u => [FWriteComplete u c] | None => [] end
        else high_water c cn (zlength msg - n)))) only_exit w.
Proof.
  intros Hok Hst Hcb Hcb' Hlen Hroom fd. pose proof (zlength_nonneg (buffer_ (tc_output_buffer_ cn))) as Hsz.
  rw /send_in_loop. wp_step. eapply wp_get_conn; [apply Hok|]. wp_step.
  eapply wp_conn_thread; [done|]. rw bool_decide_eq_false_2; [by intros []|]. wp_step.
  eapply wp_conseq; [apply (send_directly_ok c msg cn ch lp); [done|unfold size in *; lia]|].
  intros [[n rem] fault] w1 [(lp1 & Hok1 & Hp1) (Hn & Hrem & Hsum) Ho1 _ Hfault]; simpl in *.
  specialize (Hp1 Hlen). apply obs_grows_inv in Ho1 as (Hs1 & _ & _).
  destruct fault.
  - rw (Hfault eq_refl) app_nil_r in Hs1. wp_step. apply wp_gets. wp_step.
    eapply wp_conseq; [by apply (handle_error_code_ok c cn ch lp1)|]. intros [] w2 [Hok2 Ho2].
    eapply wp_conseq; [eapply (handle_close_ok close_code c cn ch lp1 cb cb'); auto|].
    intros [] w' (b & lp' & Hok' & _ & Ho'). apply obs_grows_inv in Ho' as (Hs' & _ & _).
    eexists 0, _, _, lp'. split_and!; [done|lia|lia| |by left].
    injection Ho2 as Hs2 _ _. by rw Hs' Hs2 Hs1 !app_nil_r.
  - destruct (Z.leb_spec rem 0).
    + wp_step. exists n, cn, ch, lp1. split_and!; [done|lia|lia|done|right].
      split_and!; [done| |].
      * rw drop_ge ?app_nil_r //. unfold zlength in Hsum. lia.
      * rw Hp1. do 2 f_equal. destruct (Z.eqb_spec rem 0), (Z.eqb_spec n (zlength msg)); try lia. done.
    + eapply wp_conseq; [apply (buffer_rest_ok c msg n rem cn ch lp1); [done|lia..]|].
      intros [] w' (b & ch' & lp' & Hok' & Hb & _ & _ & _ & Hp' & Ho').
      apply obs_grows_inv in Ho' as (Hs' & _ & _).
      exists n, (set_tc_output_buffer_ b cn), ch', lp'. split_and!; [done|lia|lia| |right].
      { by rw Hs' Hs1 app_nil_r. }
      split_and!; [done|done|]. rw Hp' Hp1.
      destruct (Z.eqb_spec rem 0), (Z.eqb_spec n (zlength msg)); try lia. rw app_nil_r. do 2 f_equal.
      unfold zlength in *. rw length_drop. lia.
Qed.
End notifications.

Definition long_msg : list byte := replicate 30 Byte.x62.

Lemma send_notifications_witness :
  wp (send_in_loop (os := sample_os) (user := quiet_user) (sample_close (user := quiet_user)) 20 long_msg)
    (λ _ w', ∃ n cn' ch' lp',
    conn_ok 20 cn' ch' lp' w' ∧ 0 ≤ n ≤ 30 ∧
    sent 9 (w_hist w') = take (Z.to_nat n) long_msg ∧
    (tc_state_ cn' = Disconnected ∧ n = 0 ∨
     tc_state_ cn' = Connected ∧
     content (tc_output_buffer_ cn') = drop (Z.to_nat n) long_msg ∧
     el_pendings_ lp' =
       (if n =? 30 then [FWriteComplete 8 20] else high_water 20 up_conn (30 - n)))) only_exit up_world.
Proof.
  refine (send_notifications (os := sample_os) (user := quiet_user)
    (sample_close (user := quiet_user)) 20 long_msg up_conn up_chan up_loop (UserCb 5)
    (UserCloseCb 6) up_world up_conn_ok _ _ _ _ _); by vm_compute.
Defined.

(** Four bytes go out; the other twenty-six cross the mark of sixteen. *)
Example long_send_sample :
  let w' := final (send_in_loop (os := sample_os) (user := quiet_user)
    (sample_close (user := quiet_user)) 20 long_msg) up_world in
  sent 9 (w_hist w') = take 4 long_msg ∧
  (el_pendings_ <$> w_loops w' !! 1%nat) = Some [FHighWaterMark 7 20 26].
Proof. by vm_compute. Qed.
