(* ===== verification/TimerSpec.v ===== *)
(** * TimerSpec: what the timer queue promises

    The set of timers is sorted by expiration, every entry carries the
    expiration its timer has, a time point within the range of [int64_t], and the timers being fired are apart from it.
    Adding, cancelling and firing keep this; firing takes exactly the timers
    that are due, and the descriptor is armed for the earliest one. *)

From S2P Require Import Prelude Buffer World Kernel Poller Channel Sample Reactor EventLoop Timer Socket TcpConnection ConnInv.

(** ** Sorted sets *)

Definition entry_lt (x y : entry) : Prop := entry_ltb x y = true.

Lemma entry_lt_spec x y : entry_lt x y ↔ x.1 < y.1 ∨ (x.1 = y.1 ∧ (x.2 < y.2)%nat).
Proof.
  rw /entry_lt /entry_ltb. destruct (Z.ltb_spec x.1 y.1), (Z.eqb_spec x.1 y.1), (Nat.ltb_spec x.2 y.2);
    simpl; split; intros; try done; lia.
Qed.

Lemma entry_ltb_false x y : entry_ltb x y = false → entry_ltb y x = false → x = y.
Proof.
  intros H1 H2. assert (¬ entry_lt x y) as Hx by by rw /entry_lt H1.
  assert (¬ entry_lt y x) as Hy by by rw /entry_lt H2.
  rw !entry_lt_spec in Hx Hy. destruct x as [a b], y as [a' b']; simpl in *. f_equal; lia.
Qed.

#[export] Instance entry_lt_trans : Transitive entry_lt.
Proof. intros x y z. rw !entry_lt_spec. lia. Qed.
#[export] Instance entry_lt_irrefl : Irreflexive entry_lt.
Proof. intros x. rw /complement entry_lt_spec. lia. Qed.

Abbreviation sorted := (StronglySorted entry_lt).

Lemma sorted_NoDup s : sorted s → NoDup s.
Proof.
  induction 1 as [|x s Hs IH Hx]; [constructor|]. apply NoDup_cons. split; [|done].
  intros Hin. rw Forall_forall in Hx. by destruct (irreflexivity entry_lt x (Hx x Hin)).
Qed.

Lemma set_insert_in x s y : y ∈ (set_insert x s).1 ↔ y = x ∨ y ∈ s.
Proof.
  induction s as [|z s IH]; simpl; [set_solver|].
  destruct (entry_ltb x z) eqn:H1; [set_solver|]. destruct (entry_ltb z x) eqn:H2.
  - destruct (set_insert x s) as [s' b]. simpl in *. set_solver.
  - rw (entry_ltb_false x z H1 H2). set_solver.
Qed.

Lemma set_insert_sorted x s : sorted s → sorted (set_insert x s).1.
Proof.
  induction 1 as [|z s Hs IH Hz]; simpl; [by repeat constructor|].
  destruct (entry_ltb x z) eqn:H1.
  - constructor; [by constructor|]. constructor; [done|].
    eapply Forall_impl; [done|]. intros y Hy. by etrans.
  - destruct (entry_ltb z x) eqn:H2; [|by constructor].
    destruct (set_insert x s) as [s' b] eqn:Hi. simpl in *. constructor; [done|].
    apply Forall_forall. intros y Hy.
    pose proof (set_insert_in x s y) as Hin. rw Hi /= in Hin. apply Hin in Hy as [->|Hy]; [done|].
    rw Forall_forall in Hz. by apply Hz.
Qed.

Lemma set_insert_fresh x s : sorted s → (set_insert x s).2 = bool_decide (x ∉ s).
Proof.
  induction 1 as [|z s Hs IH Hz]; simpl; [done|].
  destruct (entry_ltb x z) eqn:H1.
  - simpl. symmetry. apply bool_decide_eq_true. intros [->|Hin]%elem_of_cons.
    + by destruct (irreflexivity entry_lt z).
    + rw Forall_forall in Hz. destruct (irreflexivity entry_lt x). by transitivity z; [|apply Hz].
  - destruct (entry_ltb z x) eqn:H2.
    + destruct (set_insert x s) as [s' b]. simpl in *. rw IH. apply bool_decide_ext.
      rw not_elem_of_cons. split; [|tauto]. intros ?. split; [|done]. intros ->.
      by destruct (irreflexivity entry_lt z).
    + rw (entry_ltb_false x z H1 H2). simpl. symmetry. apply bool_decide_eq_false. set_solver.
Qed.

(** [insert] returns whether the new first element is the inserted one. *)
Lemma set_insert_head x s :
  sorted s → x ∉ s → head (set_insert x s).1 =
    match s with [] => Some x | y :: _ => Some (if entry_ltb x y then x else y) end.
Proof.
  intros Hs Hx. destruct s as [|y s]; [done|]. simpl. destruct (entry_ltb x y) eqn:H1; [done|].
  destruct (entry_ltb y x) eqn:H2; [by destruct (set_insert x s)|].
  by destruct Hx; rw (entry_ltb_false x y H1 H2); left.
Qed.

Lemma set_insert_first x s :
  match s with [] => true | y :: _ => x.1 <? y.1 end = true →
  ∃ rest, (set_insert x s).1 = x :: rest.
Proof.
  destruct s as [|y s]; [by eexists|]. simpl. intros Hlt. by rw /entry_ltb Hlt /=; eexists.
Qed.

(** The cut at [lower_bound]. *)
Lemma split_lower_bound_spec x s a b :
  sorted s → split_lower_bound x s = (a, b) →
  s = a ++ b ∧ Forall (λ y, entry_lt y x) a ∧ Forall (λ y, ¬ entry_lt y x) b.
Proof.
  intros Hs. revert a b. induction Hs as [|z s Hs IH Hz]; intros a b; simpl.
  { intros [= <- <-]. by repeat constructor. }
  destruct (entry_ltb z x) eqn:H.
  - destruct (split_lower_bound x s) as [a' b']. intros [= <- <-].
    destruct (IH a' b' eq_refl) as (-> & Ha & Hb). split_and!; [done|by constructor|done].
  - intros [= <- <-]. split_and!; [done|constructor|]. constructor; [by rw /entry_lt H|].
    eapply Forall_impl; [done|]. intros y Hy Hyx. assert (entry_lt z x) as Hzx by by etrans.
    by rw /entry_lt H in Hzx.
Qed.

Lemma sorted_app_l a b : sorted (a ++ b) → sorted a.
Proof. apply StronglySorted_app_1_l. Qed.
Lemma sorted_app_r a b : sorted (a ++ b) → sorted b.
Proof. apply StronglySorted_app_1_r. Qed.

(** Selecting keeps the order. *)
Lemma sorted_filter (P : entry → Prop) `{!∀ x, Decision (P x)} s : sorted s → sorted (filter P s).
Proof.
  induction 1 as [|z s Hs IH Hz]; [constructor|].
  rw filter_cons. case_decide; [|done]. constructor; [done|].
  apply Forall_forall. intros y [_ Hy]%list_elem_of_filter. rw Forall_forall in Hz. auto.
Qed.

Lemma set_erase_sorted x s : sorted s → sorted (set_erase x s).
Proof. apply sorted_filter. Qed.

Lemma set_erase_in x s y : y ∈ set_erase x s ↔ y ≠ x ∧ y ∈ s.
Proof. by rw /set_erase list_elem_of_filter. Qed.

Lemma set_erase_notin x s : x ∉ s → set_erase x s = s.
Proof.
  rw /set_erase. induction s as [|z s IH]; [done|]. intros [Hz Hs]%not_elem_of_cons.
  rw filter_cons decide_True; [by intros ->|]. by rw IH.
Qed.

Lemma set_erase_length x s : sorted s → x ∈ s → length s = Datatypes.S (length (set_erase x s)).
Proof.
  intros Hs%sorted_NoDup. induction Hs as [|z s Hz Hs IH]; [by intros ?%elem_of_nil|].
  intros Hx. rw {1}/set_erase filter_cons. case_decide as Hzx.
  - apply elem_of_cons in Hx as [->|Hx]; [done|]. simpl. by rw IH.
  - subst z. rw -/(set_erase x s) set_erase_notin //.
Qed.

(** ** The invariant *)

Record queue_ok (tms : gmap nat Timer) (tq : TimerQueue) : Prop := {
  qo_sorted : sorted (tq_timers_ tq);
  qo_entry : ∀ e t, (e, t) ∈ tq_timers_ tq →
    t ≠ O ∧ ∃ tm, tms !! t = Some tm ∧ tm_expiration_ tm = e;
  qo_expired : ∀ t, t ∈ tq_expired tq → (t ∉ (tq_timers_ tq).*2) ∧ t ≠ O ∧ is_Some (tms !! t);
  qo_nodup : NoDup (tq_expired tq);
  qo_range : Forall (λ x, in_int64 x.1 = true) (tq_timers_ tq);
}.

(** The loop runs on the current thread, its timer queue is in order, and
    everything that owns a timer owns an existing one. *)
Definition tq_ok (l : nat) (lp : EventLoop) (w : World) : Prop :=
  w_loops w !! l = Some lp ∧ el_thread_id_ lp = w_tid w ∧
  queue_ok (w_timers w) (el_timer_queue_ lp) ∧
  ∀ t, timer_owned lp t = true → is_Some (w_timers w !! t).

(** The same while the fired timers are put back: [ex] are those still
    waiting for it. *)
Definition tq_at (l : nat) (lp : EventLoop) (ex : list nat) (w : World) : Prop :=
  w_loops w !! l = Some lp ∧ el_thread_id_ lp = w_tid w ∧
  queue_ok (w_timers w) (set_tq_expired ex (el_timer_queue_ lp)) ∧
  ∀ t, timer_owned lp t = true → is_Some (w_timers w !! t).

Lemma tq_at_ok l lp w : tq_at l lp (tq_expired (el_timer_queue_ lp)) w ↔ tq_ok l lp w.
Proof. rw /tq_at /tq_ok. by destruct (el_timer_queue_ lp). Qed.

(** Who owns a timer. *)
Lemma timer_owned_spec lp t :
  timer_owned lp t = true ↔
    t ∈ (tq_timers_ (el_timer_queue_ lp)).*2 ∨ t ∈ tq_canceling_timers_ (el_timer_queue_ lp) ∨
    t ∈ tq_expired (el_timer_queue_ lp) ∨ ∃ l, FAddTimer l t ∈ el_pendings_ lp.
Proof.
  rw /timer_owned !orb_true_iff !bool_decide_eq_true existsb_exists.
  assert ((∃ x, In x (el_pendings_ lp) ∧ match x with FAddTimer _ t' => (t' =? t)%nat | _ => false end = true)
    ↔ ∃ l, FAddTimer l t ∈ el_pendings_ lp) as ->; [|tauto]. split.
  - intros (f & Hin%list_elem_of_In & Hf). destruct f; try done. apply Nat.eqb_eq in Hf as ->. eauto.
  - intros (l & Hin%list_elem_of_In). exists (FAddTimer l t). by rw Nat.eqb_refl.
Qed.

Lemma queue_ok_inj tms tq e e' t :
  queue_ok tms tq → (e, t) ∈ tq_timers_ tq → (e', t) ∈ tq_timers_ tq → e = e'.
Proof.
  intros Hq [_ (tm & Ht & <-)]%(qo_entry _ _ Hq) [_ (tm' & Ht' & <-)]%(qo_entry _ _ Hq). congruence.
Qed.

(** A timer that is not in the set may be put in. *)
Lemma queue_ok_insert tms tq t tm :
  queue_ok tms tq → tms !! t = Some tm → t ≠ O → t ∉ (tq_timers_ tq).*2 → t ∉ tq_expired tq →
  in_int64 (tm_expiration_ tm) = true →
  let x := (tm_expiration_ tm, t) in
  (set_insert x (tq_timers_ tq)).2 = true ∧
  queue_ok tms (set_tq_timers_ (set_insert x (tq_timers_ tq)).1 tq).
Proof.
  intros [Hs He Hx Hn Hr] Ht H0 Hnin Hnex Hrange x.
  assert (x ∉ tq_timers_ tq) as Hfresh.
  { intros Hin. apply Hnin, list_elem_of_fmap. by exists x. }
  split; [rw set_insert_fresh //; by apply bool_decide_eq_true|]. split; simpl.
  - by apply set_insert_sorted.
  - intros e t' [[= -> ->]|Hin]%set_insert_in; [by eauto|by apply He].
  - intros t' Hin. destruct (Hx t' Hin) as (Hn' & ? & ?). split_and!; [|done..].
    intros ([e t''] & -> & [[= -> ->]|Hin']%set_insert_in)%list_elem_of_fmap; simpl in *; [done|].
    apply Hn', list_elem_of_fmap. by exists (e, t'').
  - done.
  - rw Forall_forall in Hr. apply Forall_forall. intros y [-> |Hin]%set_insert_in; [done|by apply Hr].
Qed.

Lemma queue_ok_erase tms tq x :
  queue_ok tms tq → queue_ok tms (set_tq_timers_ (set_erase x (tq_timers_ tq)) tq).
Proof.
  intros [Hs He Hx Hn Hr]. split; simpl.
  - by apply set_erase_sorted.
  - intros e t [_ Hin]%set_erase_in. by apply He.
  - intros t Hin. destruct (Hx t Hin) as (Hn' & ? & ?). split_and!; [|done..].
    intros ([e t'] & -> & [_ Hin']%set_erase_in)%list_elem_of_fmap. simpl in *.
    apply Hn', list_elem_of_fmap. by exists (e, t').
  - done.
  - rw Forall_forall in Hr. apply Forall_forall. intros y [_ Hin]%set_erase_in. by apply Hr.
Qed.

(** A timer nobody holds may change. *)
Lemma queue_ok_timer tms tq t tm :
  queue_ok tms tq → t ∉ (tq_timers_ tq).*2 → queue_ok (<[t := tm]> tms) tq.
Proof.
  intros [Hs He Hx Hn] Hnin. split; try done.
  - intros e t' Hin. destruct (He e t' Hin) as (? & tm' & ? & ?). split; [done|].
    exists tm'. rw lookup_insert_ne //. intros ->. apply Hnin, list_elem_of_fmap. by exists (e, t').
  - intros t' Hin. destruct (Hx t' Hin) as (? & ? & ?). split_and!; [done..|].
    rw lookup_insert. by case_decide.
Qed.

Section operations.
Context {os : OS} {heap : Heap} `{!HeapFresh heap}.
Implicit Types (w : World) (lp : EventLoop).

(** Replacing the queue of a loop. *)
Definition with_tq (tq : TimerQueue) lp : EventLoop := set_el_timer_queue_ tq lp.

Lemma wp_alter_tq f l lp (Q : () → World → Prop) E w :
  w_loops w !! l = Some lp →
  Q () (set_w_loops (<[l := with_tq (f (el_timer_queue_ lp)) lp]> (w_loops w)) w) →
  wp (alter_tq f l) Q E w.
Proof. intros Hl HQ. rw /alter_tq /alter_loop. wp_step. by rw (alter_insert _ l lp). Qed.

Lemma wp_get_tq l lp Q E w :
  w_loops w !! l = Some lp → Q (el_timer_queue_ lp) w → wp (get_tq l) Q E w.
Proof. intros Hl HQ. rw /get_tq. wp_step. eapply wp_get_loop; [done|]. by wp_step. Qed.

(** [TimerQueue::insert]: the set gains the entry, the result tells whether
    it became the earliest. *)
Lemma insert_at l lp ex t tm E w :
  tq_at l lp ex w → w_timers w !! t = Some tm → t ≠ O →
  t ∉ (tq_timers_ (el_timer_queue_ lp)).*2 → t ∉ ex → in_int64 (tm_expiration_ tm) = true →
  let x := (tm_expiration_ tm, t) in
  let tq' := set_tq_timers_ (set_insert x (tq_timers_ (el_timer_queue_ lp))).1 (el_timer_queue_ lp) in
  wp (insert l t) (λ r w',
    r = (match tq_timers_ (el_timer_queue_ lp) with [] => true | y :: _ => tm_expiration_ tm <? y.1 end) ∧
    w' = set_w_loops (<[l := with_tq tq' lp]> (w_loops w)) w ∧ tq_at l (with_tq tq' lp) ex w') E w.
Proof.
  intros (Hl & Ht & Hq & Hown) Htm H0 Hnin Hnex Hrange x tq'.
  destruct (queue_ok_insert _ _ t tm Hq Htm H0 Hnin Hnex Hrange) as [Hfresh Hq'].
  rw /insert. wp_step. eapply AssertInLoopThread_ok; [done|done|].
  wp_step. eapply wp_get_timer; [done|]. wp_step. eapply wp_get_tq; [done|].
  fold x. rw (surjective_pairing (set_insert x _)).
  wp_step. eapply wp_alter_tq; [done|]. wp_step. apply wp_assert_true; [done|]. wp_step.
  split_and!; [done|done|]. split_and!; [apply lookup_insert_eq|done|done|]. simpl.
  intros t' Ho. apply timer_owned_spec in Ho as [Ho|Ho]; [|apply Hown, timer_owned_spec; by right].
  apply list_elem_of_fmap in Ho as ([e' t''] & -> & [[= -> ->]|Hin]%set_insert_in); [by eexists|].
  apply Hown, timer_owned_spec. left. apply list_elem_of_fmap. by eexists.
Qed.

Lemma insert_ok l lp t tm E w :
  tq_ok l lp w → w_timers w !! t = Some tm → t ≠ O →
  t ∉ (tq_timers_ (el_timer_queue_ lp)).*2 → t ∉ tq_expired (el_timer_queue_ lp) →
  in_int64 (tm_expiration_ tm) = true →
  let x := (tm_expiration_ tm, t) in
  let tq' := set_tq_timers_ (set_insert x (tq_timers_ (el_timer_queue_ lp))).1 (el_timer_queue_ lp) in
  wp (insert l t) (λ r w',
    r = (match tq_timers_ (el_timer_queue_ lp) with [] => true | y :: _ => tm_expiration_ tm <? y.1 end) ∧
    w' = set_w_loops (<[l := with_tq tq' lp]> (w_loops w)) w ∧ tq_ok l (with_tq tq' lp) w') E w.
Proof.
  intros Hok%tq_at_ok Htm H0 Hnin Hnex Hrange x tq'.
  eapply wp_conseq; [by eapply insert_at|]. intros r w' (? & ? & ?).
  split_and!; [done|done|]. by apply tq_at_ok.
Qed.

(** ** Arming the descriptor *)

(** What the last timerfd_settime(2) on [fd] asked for, counted from the
    clock read before it; a read(2) that succeeds shows that the timer, which
    does not repeat, has gone off. *)
Definition arm_step (fd : Z) (st : Z * option Z) (e : event) : Z * option Z :=
  match e with
  | Sys (TimerfdSettime fd' s n) r =>
      if (fd' =? fd) && (r_ret r =? 0) then (st.1, Some (st.1 + s * 1000000000 + n)) else st
  | Sys (TimerfdRead fd') r => if (fd' =? fd) && (0 <? r_ret r) then (st.1, None) else st
  | _ => (clock_step st.1 e, st.2)
  end.
Definition arming (fd : Z) (h : list event) : Z * option Z := foldl (arm_step fd) (0, None) h.
Definition deadline (fd : Z) (h : list event) : option Z := (arming fd h).2.

Lemma arming_app fd h e : arming fd (h ++ [e]) = arm_step fd (arming fd h) e.
Proof. by rw /arming foldl_app. Qed.

Lemma arming_clock fd h : (arming fd h).1 = clock h.
Proof.
  induction h as [|e h IH] using rev_ind; [done|]. rw arming_app clock_app.
  destruct e as [[] r|]; simpl; try done; by destruct (_ && _).
Qed.

(** [how_long_from_now]: never an interval that would disarm, a legal
    timespec, and exactly the time that is left. *)
Lemma how_long_exact now time s n :
  how_long now time = Some (s, n) →
  0 ≤ s ∧ 0 ≤ n < 1000000000 ∧ 0 < s * 1000000000 + n ∧
  now + s * 1000000000 + n = Z.max time (now + 1).
Proof.
  rw /how_long /sub_ns. destruct (Z.leb_spec time now); [intros [= <- <-]; lia|].
  destruct (in_int64 _); [|done]. intros [= <- <-].
  pose proof (Z.div_mod (time - now) 1000000000 ltac:(done)).
  pose proof (Z.mod_pos_bound (time - now) 1000000000 ltac:(done)). lia.
Qed.

(** After the epoch the difference does not overflow. *)
Lemma how_long_some now time : 0 ≤ now → in_int64 time = true → is_Some (how_long now time).
Proof.
  intros Hn [Hl Hu%Z.ltb_lt]%andb_prop. rw /how_long /sub_ns. destruct (Z.leb_spec time now); [by eexists|].
  rw (_ : in_int64 (time - now) = true); [|by eexists].
  apply andb_true_iff. split; [apply Z.leb_le|apply Z.ltb_lt]; lia.
Qed.

(** The descriptor will fire no later than the earliest timer is due (or at
    once when that is past). *)
Definition armed (lp : EventLoop) (h : list event) : Prop :=
  match tq_timers_ (el_timer_queue_ lp) with
  | [] => True
  | (e, _) :: _ => ∃ d, deadline (tq_timerfd_ (el_timer_queue_ lp)) h = Some d ∧
                     d ≤ Z.max e (clock h + 1)
  end.

(** The history grew by reading the clock and arming [fd] for [e]. *)
Definition set_for (fd e : Z) (w w' : World) : Prop := ∃ t s n r,
  how_long t e = Some (s, n) ∧ r_ret r = 0 ∧ clock (w_hist w) ≤ t ∧
  w_hist w' = w_hist w ++ [Sys ClockNow (os_reply (w_hist w) ClockNow); Sys (TimerfdSettime fd s n) r] ∧
  t = r_ret (os_reply (w_hist w) ClockNow) ∧
  w' = set_w_hist (w_hist w') (set_w_errno (w_errno w') w).

Lemma set_timerfd_ok `{!ClockNotSetBack os} fd e w :
  in_int64 e = true → wp (set_timerfd fd e) (λ _ w', set_for fd e w w') only_exit w.
Proof.
  intros Hrange. rw /set_timerfd. wp_step. apply wp_now. set (t := r_ret _).
  destruct (how_long_some t e (clock_after_epoch _) Hrange) as [[s n] Hl]. wp_step. eapply wp_deref; [exact Hl|].
  wp_step. apply wp_syscall. cbn [fst snd].
  destruct (Z.eqb_spec (r_ret (os_reply (w_hist (after_now w)) (TimerfdSettime fd s n))) 0) as [Hr|];
    simpl; [|done]. wp_step.
  eexists t, s, n, _. split_and!; [done|exact Hr|apply clock_not_set_back| |done|by destruct w].
  by rw /= -app_assoc.
Qed.

Lemma set_for_deadline fd e w w' :
  set_for fd e w w' →
  ∃ d, deadline fd (w_hist w') = Some d ∧ d ≤ Z.max e (clock (w_hist w') + 1) ∧
    clock (w_hist w) ≤ clock (w_hist w').
Proof.
  intros (t & s & n & r & Hl & Hr & Hc & Hh & -> & _).
  set (rep := os_reply (w_hist w) ClockNow) in *.
  destruct (how_long_exact (r_ret rep) e s n Hl) as (_ & _ & _ & Hx).
  assert (clock (w_hist w') = r_ret rep) as Hck.
  { by rw Hh cons_middle app_assoc !clock_app. }
  exists (r_ret rep + s * 1000000000 + n). split_and!; [|lia|lia].
  by rw /deadline Hh cons_middle app_assoc !arming_app /= Z.eqb_refl Hr.
Qed.
(** ** Requests *)

(** The application tasks run so far. *)
Definition task_step (e : event) : list nat := match e with User (UTask u) => [u] | _ => [] end.
Definition tasks (h : list event) : list nat := h ≫= task_step.

Lemma tasks_app h evs : tasks (h ++ evs) = tasks h ++ tasks evs.
Proof. apply bind_app. Qed.

(** What a request made on the loop's thread leaves alone: the timers that
    exist, the ones being fired, the cancellations noted so far. *)
Record tq_frame lp w lp' w' : Prop := {
  tf_tid : w_tid w' = w_tid w;
  tf_expired : tq_expired (el_timer_queue_ lp') = tq_expired (el_timer_queue_ lp);
  tf_calling : tq_calling_expired_timers_ (el_timer_queue_ lp') =
    tq_calling_expired_timers_ (el_timer_queue_ lp);
  tf_cancel : tq_canceling_timers_ (el_timer_queue_ lp) ⊆ tq_canceling_timers_ (el_timer_queue_ lp');
  tf_timers : ∀ t tm, w_timers w !! t = Some tm → w_timers w' !! t = Some tm;
  tf_fd : tq_timerfd_ (el_timer_queue_ lp') = tq_timerfd_ (el_timer_queue_ lp);
  tf_tasks : tasks (w_hist w') = tasks (w_hist w);
}.

Lemma tq_frame_refl lp w : tq_frame lp w lp w.
Proof. by split. Qed.

Lemma tq_frame_trans lp1 w1 lp2 w2 lp3 w3 :
  tq_frame lp1 w1 lp2 w2 → tq_frame lp2 w2 lp3 w3 → tq_frame lp1 w1 lp3 w3.
Proof. intros [] []. split; try congruence; [set_solver|eauto]. Qed.

(** Inserting an entry that does not come first keeps the arming. *)
Lemma armed_insert lp h t e s' :
  sorted (tq_timers_ (el_timer_queue_ lp)) → (e, t) ∉ tq_timers_ (el_timer_queue_ lp) →
  s' = (set_insert (e, t) (tq_timers_ (el_timer_queue_ lp))).1 →
  match tq_timers_ (el_timer_queue_ lp) with [] => true | y :: _ => e <? y.1 end = false →
  armed lp h → armed (with_tq (set_tq_timers_ s' (el_timer_queue_ lp)) lp) h.
Proof.
  intros Hs Hx Hs' Hearly. rw /armed /=.
  pose proof (set_insert_head (e, t) _ Hs Hx) as Hh. rw -Hs' in Hh.
  destruct (tq_timers_ (el_timer_queue_ lp)) as [|[e0 t0] s]; [done|]. simpl in Hearly.
  destruct s' as [|[e1 t1] s1]; [done|]. simpl in Hh. injection Hh as Hh.
  assert (e1 = e0) as ->; [|done].
  destruct (entry_ltb (e, t) (e0, t0)) eqn:Hlt; [|congruence].
  apply (entry_lt_spec (e, t) (e0, t0)) in Hlt. simpl in Hlt. injection Hh as -> _. lia.
Qed.

(** The lambda of [AddTimer]. *)
Lemma add_timer_in_loop_ok `{!ClockNotSetBack os} l lp t tm w :
  tq_ok l lp w → w_timers w !! t = Some tm → t ≠ O →
  t ∉ (tq_timers_ (el_timer_queue_ lp)).*2 → t ∉ tq_expired (el_timer_queue_ lp) →
  in_int64 (tm_expiration_ tm) = true →
  wp (add_timer_in_loop l t) (λ _ w', ∃ lp', tq_ok l lp' w' ∧
    (armed lp (w_hist w) → armed lp' (w_hist w')) ∧
    tq_frame lp w lp' w' ∧ w_timers w' = w_timers w ∧
    (∀ x, x ∈ tq_timers_ (el_timer_queue_ lp') ↔
       x = (tm_expiration_ tm, t) ∨ x ∈ tq_timers_ (el_timer_queue_ lp))) only_exit w.
Proof.
  intros Hok Htm H0 Hnin Hnex Hrange. rw /add_timer_in_loop. wp_step.
  eapply wp_conseq; [by apply (insert_ok l lp t tm)|].
  intros changed w1 (Hch & -> & Hok1). set (tq' := set_tq_timers_ _ _) in *. set (w1 := set_w_loops _ w) in *.
  assert (∀ x, x ∈ tq_timers_ tq' ↔ x = (tm_expiration_ tm, t) ∨ x ∈ tq_timers_ (el_timer_queue_ lp)) as Hin.
  { intros x. apply set_insert_in. }
  assert (tq_frame lp w (with_tq tq' lp) w1) as Hf by by split.
  destruct changed.
  - wp_step. eapply wp_get_timer; [done|]. wp_step. eapply wp_get_tq; [apply Hok1|].
    eapply wp_conseq; [by apply set_timerfd_ok|]. intros [] w2 Hset.
    pose proof (set_for_deadline _ _ _ _ Hset) as (d & Hd & Hle & _).
    destruct Hset as (? & ? & ? & ? & _ & _ & _ & Hh & _ & ->). exists (with_tq tq' lp).
    split_and!; [exact Hok1| |split; try done; by rw Hh /= tasks_app app_nil_r|done|done].
    destruct (set_insert_first (tm_expiration_ tm, t) (tq_timers_ (el_timer_queue_ lp)))
      as [rest Hrest]; [by symmetry|]. intros _. rw /armed /= Hrest. by exists d.
  - wp_step. exists (with_tq tq' lp). split_and!; [done| |done|done|done].
    destruct Hok as (_ & _ & Hq & _). eapply armed_insert; [apply Hq| |done|done].
    intros Hx. apply Hnin, list_elem_of_fmap. by exists (tm_expiration_ tm, t).
Qed.
Lemma AddTimer_ok `{!ClockNotSetBack os} l lp cb when_ interval w :
  tq_ok l lp w → in_int64 when_ = true →
  wp (AddTimer l cb when_ interval) (λ t w', ∃ lp', tq_ok l lp' w' ∧
    (armed lp (w_hist w) → armed lp' (w_hist w')) ∧
    tq_frame lp w lp' w' ∧ w_timers w !! t = None ∧
    w_timers w' = <[t := Timer_new cb when_ interval]> (w_timers w) ∧
    (∀ x, x ∈ tq_timers_ (el_timer_queue_ lp') ↔
       x = (when_, t) ∨ x ∈ tq_timers_ (el_timer_queue_ lp))) only_exit w.
Proof.
  intros (Hl & Ht & Hq & Hown) Hrange. rw /AddTimer. do 2 wp_step.
  set (t := heap_new _). destruct (heap_fresh (dom (w_timers w))) as [Hfr H0]. fold t in Hfr, H0.
  apply not_elem_of_dom in Hfr. wp_step. wp_step. set (w1 := set_w_timers _ w).
  assert (∀ t', timer_owned lp t' = true → t' ≠ t) as Hne.
  { intros t' [tm Htm]%Hown ->. congruence. }
  assert (t ∉ (tq_timers_ (el_timer_queue_ lp)).*2) as Hnin.
  { intros Hin. by apply (Hne t); [apply timer_owned_spec; left|]. }
  assert (tq_ok l lp w1) as Hok1.
  { split_and!; [done|done|by apply queue_ok_timer|]. intros t' Ho. rw /= lookup_insert_ne; auto.
    intros ->. by apply (Hne t'). }
  rw /RunInLoop. wp_step. wp_step. eapply wp_IsInLoopThread; [done|].
  rw (_ : (el_thread_id_ lp =? w_tid w1)%nat = true); [by rw Ht Nat.eqb_refl|].
  eapply wp_conseq; [apply (add_timer_in_loop_ok l lp t (Timer_new cb when_ interval)); try done|].
  { apply lookup_insert_eq. }
  { intros Hin. by apply (Hne t); [apply timer_owned_spec; right; right; left|]. }
  intros [] w' (lp' & Hok' & Harm' & [] & Htm' & Hin'). wp_step. exists lp'.
  split_and!; try done. split; try done. intros t' tm' Ht'. rw Htm' /= lookup_insert_ne //. congruence.
Qed.

(** Taking entries out keeps the arming. *)
Lemma armed_sub lp lp' h :
  sorted (tq_timers_ (el_timer_queue_ lp)) →
  (∀ x, x ∈ tq_timers_ (el_timer_queue_ lp') → x ∈ tq_timers_ (el_timer_queue_ lp)) →
  tq_timerfd_ (el_timer_queue_ lp') = tq_timerfd_ (el_timer_queue_ lp) →
  armed lp h → armed lp' h.
Proof.
  rw /armed. intros Hs Hsub ->.
  destruct (tq_timers_ (el_timer_queue_ lp')) as [|[e' t'] s']; [done|].
  specialize (Hsub (e', t') ltac:(by left)).
  destruct (tq_timers_ (el_timer_queue_ lp)) as [|[e t] s]; [by apply elem_of_nil in Hsub|].
  apply StronglySorted_inv in Hs as [_ Hs].
  intros (d & Hd & Hle). exists d. split; [done|].
  assert (e ≤ e'); [|lia]. apply elem_of_cons in Hsub as [[= -> ->]|Hsub]; [done|].
  rw Forall_forall in Hs. specialize (Hs _ Hsub). apply entry_lt_spec in Hs. simpl in Hs. lia.
Qed.

(** The set without the entry of a timer. *)
Lemma erase_timer_in tms tq t tm x :
  queue_ok tms tq → tms !! t = Some tm →
  x ∈ set_erase (tm_expiration_ tm, t) (tq_timers_ tq) ↔ x ∈ tq_timers_ tq ∧ x.2 ≠ t.
Proof.
  intros Hq Ht. rw set_erase_in. destruct x as [e t']. split; intros [H1 H2].
  - split; [done|]. intros Heq. simpl in Heq. subst t'. destruct (qo_entry _ _ Hq e t H2) as (_ & tm' & Ht' & <-). congruence.
  - split; [|done]. by intros [= -> ->].
Qed.

(** A cancelled timer is out of the set; when it is just being fired it is
    noted, so that it will not be put back. *)
Lemma cancel_timer_ok l lp t E w :
  tq_ok l lp w →
  wp (cancel_timer_in_loop l t) (λ _ w', ∃ lp', tq_ok l lp' w' ∧
    (armed lp (w_hist w) → armed lp' (w_hist w')) ∧
    tq_frame lp w lp' w' ∧ w_timers w' = w_timers w ∧
    (∀ x, x ∈ tq_timers_ (el_timer_queue_ lp') ↔ x ∈ tq_timers_ (el_timer_queue_ lp) ∧ x.2 ≠ t) ∧
    (tq_calling_expired_timers_ (el_timer_queue_ lp) = true → t ∈ tq_expired (el_timer_queue_ lp) →
       t ∈ tq_canceling_timers_ (el_timer_queue_ lp'))) E w.
Proof.
  intros (Hl & Ht & Hq & Hown). rw /cancel_timer_in_loop. wp_step. eapply wp_get_loop; [done|].
  destruct (timer_owned lp t) eqn:Ho; simpl; last first.
  { wp_step. exists lp. assert (¬ timer_owned lp t = true) as Hno by by rw Ho.
    rw timer_owned_spec in Hno. split_and!; try done; [|tauto].
    intros x. split; [|tauto]. intros Hin. split; [done|]. intros <-. apply Hno. left.
    apply list_elem_of_fmap. by exists x. }
  destruct (Hown t Ho) as [tm Htm]. wp_step. eapply wp_get_timer; [done|].
  rw /set_find. case_bool_decide as Hin.
  - wp_step. eapply wp_alter_tq; [done|]. set (lp' := with_tq _ lp).
    rw (set_erase_length _ _ (qo_sorted _ _ Hq) Hin).
    apply wp_assert_true; [apply Nat.eqb_eq; lia|]. exists lp'.
    assert (∀ x, x ∈ tq_timers_ (el_timer_queue_ lp') ↔ x ∈ tq_timers_ (el_timer_queue_ lp) ∧ x.2 ≠ t) as Hels.
    { intros x. by eapply erase_timer_in. }
    split_and!; [|by eapply armed_sub; [apply Hq|intros x []%Hels|]|by split|done|done|].
    + split_and!; [apply lookup_insert_eq|done|by apply queue_ok_erase|]. intros t' Ho'.
      apply Hown, timer_owned_spec. apply timer_owned_spec in Ho' as [Ho'|Ho']; [left|by right].
      apply list_elem_of_fmap in Ho' as (x & -> & []%Hels). apply list_elem_of_fmap. by exists x.
    + intros _ Hex. destruct (qo_expired _ _ Hq t Hex) as [Hnin _]. destruct Hnin.
      apply list_elem_of_fmap. by exists (tm_expiration_ tm, t).
  - assert (∀ x, x ∈ tq_timers_ (el_timer_queue_ lp) ↔ x ∈ tq_timers_ (el_timer_queue_ lp) ∧ x.2 ≠ t) as Hels.
    { intros x. rw -(erase_timer_in _ _ t tm) // set_erase_notin //. }
    destruct (tq_calling_expired_timers_ (el_timer_queue_ lp)) eqn:Hcall; simpl.
    + eapply wp_alter_tq; [done|]. set (lp' := with_tq _ lp). exists lp'.
      split_and!; [|done|split; try done; simpl; set_solver|done|done|simpl; set_solver].
      split_and!; [apply lookup_insert_eq|done|by destruct Hq|]. intros t' Ho'.
      apply timer_owned_spec in Ho'. simpl in Ho'. rw elem_of_union elem_of_singleton in Ho'.
      destruct (decide (t' = t)) as [->|]; [by eexists|]. apply Hown, timer_owned_spec. tauto.
    + wp_step. exists lp. by split_and!.
Qed.
End operations.
