(* ===== verification/TimerFire.v ===== *)
(** * TimerFire: firing the timers that are due

    The read callback of the timer descriptor: take the due timers out, run
    them, put the repeating ones back, arm the descriptor.  The callbacks of
    the timers are application tasks that may themselves add and cancel
    timers. *)

From S2P Require Import Prelude Buffer World Kernel Poller Channel Sample Reactor EventLoop Timer Socket TcpConnection ConnInv TimerSpec.

(** ** Taking the due timers *)

Lemma bind_ext_in {A B} (f g : A → list B) (l : list A) :
  (∀ x, x ∈ l → f x = g x) → l ≫= f = l ≫= g.
Proof.
  induction l as [|x l IH]; intros H; [done|]. csimpl. rw H; [by left|]. f_equal.
  apply IH. intros y Hy. apply H. by right.
Qed.

Section filters.
Context {A : Type} (P : A → Prop) `{!∀ x, Decision (P x)}.

Lemma filter_all l : Forall P l → filter P l = l.
Proof. induction 1 as [|x l Hx Hl IH]; [done|]. by rw filter_cons decide_True // IH. Qed.
Lemma filter_none l : Forall (λ x, ¬ P x) l → filter P l = [].
Proof. induction 1 as [|x l Hx Hl IH]; [done|]. by rw filter_cons decide_False. Qed.
End filters.

Definition due (now : Z) (s : list entry) : list entry := filter (λ e, e.1 < now) s.
Definition not_due (now : Z) (s : list entry) : list entry := filter (λ e, now < e.1) s.

(** The anchor [(now, nullptr)] separates the timers before [now] from the
    others. *)
Lemma split_anchor now s :
  sorted s → ∃ b, split_lower_bound (now, O) s = (due now s, b) ∧ s = due now s ++ b ∧
    Forall (λ e, now ≤ e.1) b.
Proof.
  intros Hs. destruct (split_lower_bound (now, O) s) as [a b] eqn:Hsp.
  destruct (split_lower_bound_spec _ _ _ _ Hs Hsp) as (-> & Ha & Hb).
  assert (∀ y : entry, entry_lt y (now, O) ↔ y.1 < now) as Hlt.
  { intros y. rw entry_lt_spec /=. lia. }
  assert (due now (a ++ b) = a) as Hdue.
  { rw /due filter_app filter_all ?filter_none ?app_nil_r //.
    - eapply Forall_impl; [exact Ha|]. intros y Hy. by apply Hlt.
    - eapply Forall_impl; [exact Hb|]. intros y Hy Hy'. by apply Hy, Hlt. }
  exists b. rw Hdue. split_and!; [done..|].
  eapply Forall_impl; [exact Hb|]. intros y Hy%(not_iff_compat (Hlt y)). lia.
Qed.

Section firing.
Context {os : OS} {heap : Heap} `{!HeapFresh heap, !ClockNotSetBack os}.
Implicit Types (w : World) (lp : EventLoop).

(** Forgetting the timers being fired. *)
Lemma tq_ok_at l lp w : tq_ok l lp w → tq_at l lp [] w.
Proof.
  intros (Hl & Ht & [? ? ? ?] & Ho). split_and!; [done|done| |done]. split; try done; [|apply NoDup_nil_2].
  by intros t ?%not_elem_of_nil.
Qed.

(** The queue once the due timers were moved to the vector of the handler. *)
Definition taken (now : Z) lp : EventLoop :=
  let tq := el_timer_queue_ lp in
  with_tq (set_tq_expired (due now (tq_timers_ tq)).*2
    (set_tq_timers_ (not_due now (tq_timers_ tq)) tq)) lp.

Lemma taken_ok l lp now w :
  tq_at l lp [] w → (∀ t, (now, t) ∉ tq_timers_ (el_timer_queue_ lp)) →
  tq_ok l (taken now lp) (set_w_loops (<[l := taken now lp]> (w_loops w)) w).
Proof.
  intros (Hl & Ht & Hq & Hown) Htie. pose proof Hq as [Hs He _ _ Hr]. simpl in Hs, He, Hr.
  assert (∀ x, x ∈ not_due now (tq_timers_ (el_timer_queue_ lp)) →
    now < x.1 ∧ x ∈ tq_timers_ (el_timer_queue_ lp)) as Hrest.
  { intros x. by rw /not_due list_elem_of_filter. }
  assert (∀ x, x ∈ due now (tq_timers_ (el_timer_queue_ lp)) →
    x.1 < now ∧ x ∈ tq_timers_ (el_timer_queue_ lp)) as Hdue.
  { intros x. by rw /due list_elem_of_filter. }
  split_and!; [apply lookup_insert_eq|done| |].
  - split; simpl.
    + by apply sorted_filter.
    + intros e t [_ Hin]%Hrest. by apply He.
    + intros t ([e t'] & -> & [Hlt Hin]%Hdue)%list_elem_of_fmap. simpl in *.
      destruct (He e t' Hin) as (? & tm & Htm & <-). split_and!; [|done|by eexists].
      intros ([e' t''] & -> & [Hlt' Hin']%Hrest)%list_elem_of_fmap. simpl in *.
      destruct (He e' _ Hin') as (_ & tm' & Htm' & <-). simplify_eq. lia.
    + apply NoDup_fmap_2_strong; [|by apply sorted_NoDup, sorted_filter].
      intros [e t] [e' t'] [_ H1]%Hdue [_ H2]%Hdue Heq. simpl in Heq. subst t'. f_equal.
      by eapply queue_ok_inj.
    + rw Forall_forall in Hr. apply Forall_forall. intros x [_ Hin]%Hrest. by apply Hr.
  - intros t Ho. apply timer_owned_spec in Ho. simpl in Ho. apply Hown, timer_owned_spec.
    destruct Ho as [Ho|[Ho|[Ho|Ho]]]; [left|by right; left|left|by right; right; right];
      apply list_elem_of_fmap in Ho as (x & -> & Hin); apply list_elem_of_fmap; exists x;
      (split; [done|]); [by apply Hrest|by apply Hdue].
Qed.
(** Without a tie the rest are the timers after [now]. *)
Lemma rest_not_due now s b :
  s = due now s ++ b → Forall (λ e, now ≤ e.1) b → (∀ t, (now, t) ∉ s) → b = not_due now s.
Proof.
  intros Hs Hb Htie. rw Hs /not_due filter_app filter_none.
  - apply Forall_forall. intros x [Hx _]%list_elem_of_filter. lia.
  - simpl. symmetry. apply filter_all, Forall_forall. intros [e t] Hin.
    rw Forall_forall in Hb. specialize (Hb _ Hin). simpl in *.
    assert (e ≠ now); [|lia]. intros ->. apply (Htie t). rw Hs. apply elem_of_app. by right.
Qed.

Lemma take_expired_ok l lp now E w :
  tq_at l lp [] w → (∀ t, (now, t) ∉ tq_timers_ (el_timer_queue_ lp)) →
  wp (take_expired l now) (λ r w', r = due now (tq_timers_ (el_timer_queue_ lp)) ∧
    w' = set_w_loops (<[l := taken now lp]> (w_loops w)) w ∧ tq_ok l (taken now lp) w') E w.
Proof.
  intros Hok Htie. pose proof Hok as (Hl & _ & Hq & _).
  rw /take_expired. wp_step. eapply wp_get_tq; [done|].
  destruct (split_anchor now (tq_timers_ (el_timer_queue_ lp)) (qo_sorted _ _ Hq)) as (b & -> & Hs & Hb).
  pose proof (rest_not_due now _ b Hs Hb Htie) as ->.
  wp_step. apply wp_assert_true.
  { destruct (not_due _ _) as [|e s'] eqn:Hnd; [done|]. apply Z.ltb_lt.
    assert (e ∈ not_due now (tq_timers_ (el_timer_queue_ lp))) as Hin by (rw Hnd; by left).
    by apply list_elem_of_filter in Hin as [? _]. }
  wp_step. eapply wp_alter_tq; [done|]. wp_step. split_and!; [done|done|]. by apply taken_ok.
Qed.

(** A timer that expires exactly at [now] is neither before the anchor nor
    after [now]. *)
Lemma take_expired_tie l lp now t w :
  tq_at l lp [] w → (now, t) ∈ tq_timers_ (el_timer_queue_ lp) →
  take_expired l now w = Crash AssertFailed w.
Proof.
  intros (Hl & _ & Hq & _) Hin. destruct (split_anchor now _ (qo_sorted _ _ Hq)) as (b & Hsp & Hs & Hb).
  rw /take_expired /get_tq /get_loop /mbind /M_bind /= Hl /= Hsp.
  assert ((now, t) ∈ b) as Hinb.
  { rw Hs in Hin. apply elem_of_app in Hin as [Hin|]; [|done].
    apply list_elem_of_filter in Hin as [Hlt _]. simpl in Hlt. lia. }
  destruct b as [|[e t'] b]; [by apply elem_of_nil in Hinb|].
  pose proof (qo_sorted _ _ Hq) as Hsd. rw Hs in Hsd. apply sorted_app_r in Hsd.
  apply StronglySorted_inv in Hsd as [_ Hsd]. apply Forall_cons in Hb as [Hb _]. simpl in Hb.
  assert (e = now) as ->.
  { apply elem_of_cons in Hinb as [[= -> ->]|Hinb]; [done|]. rw Forall_forall in Hsd.
    specialize (Hsd _ Hinb). apply entry_lt_spec in Hsd. simpl in Hsd. lia. }
  by rw /= Z.ltb_irrefl.
Qed.

(** C33: when the timer descriptor becomes readable at time [now], the
    timers taken out are exactly those with an expiration before [now], in
    the order of their expirations, and exactly those after [now] stay.  But
    when some timer expires at [now] to the nanosecond, the anchor
    [(now, nullptr)] does not cover it and the assertion that follows fails. *)
Theorem due_timers_exact l lp now w :
  tq_ok l lp w →
  let s := tq_timers_ (el_timer_queue_ lp) in
  ((∃ t, (now, t) ∈ s) → take_expired l now w = Crash AssertFailed w) ∧
  ((∀ t, (now, t) ∉ s) → ∃ w', take_expired l now w = Done (due now s) w' ∧
     sorted (due now s) ∧ (∀ x, x ∈ due now s ↔ x ∈ s ∧ x.1 < now) ∧
     ∃ lp', tq_ok l lp' w' ∧
       (∀ x, x ∈ tq_timers_ (el_timer_queue_ lp') ↔ x ∈ s ∧ now < x.1)).
Proof.
  intros Hok s. split.
  - intros [t Hin]. by eapply take_expired_tie; [apply tq_ok_at|].
  - intros Htie. destruct (wp_done _ _ _ (take_expired_ok l lp now never w (tq_ok_at _ _ _ Hok) Htie))
      as (r & w' & Hrun & -> & _ & Hok'). exists w'. destruct Hok as (_ & _ & Hq & _).
    split_and!; [done|by apply sorted_filter, Hq|intros x; rw /due list_elem_of_filter; tauto|].
    exists (taken now lp). split; [done|]. intros x. rw /= /not_due list_elem_of_filter. tauto.
Qed.
(** ** Callbacks *)

(** What an application may ask of the timers from a task. *)
Inductive timer_req :=
  | RAdd (cb : Functor) (when_ : Z) (interval : double)
  | RCancel (t : nat).

(** The time point that the 64 bits of a number stand for. *)
Definition time_point (t : Z) : Z := (t + 2 ^ 63) mod 2 ^ 64 - 2 ^ 63.

Lemma time_point_range t : in_int64 (time_point t) = true.
Proof.
  rw /in_int64 /time_point. pose proof (Z.mod_pos_bound (t + 2 ^ 63) (2 ^ 64) ltac:(done)).
  apply andb_true_iff. split; [apply Z.leb_le|apply Z.ltb_lt]; lia.
Qed.

Definition exec_req (l : nat) (r : timer_req) : M World () :=
  match r with
  | RAdd cb when_ interval => _ ← AddTimer l cb (time_point when_) interval; mret ()
  | RCancel t => CancelTimer l t
  end.

(** An application whose task [u] makes the requests [prog u]. *)
Definition timer_app (l : nat) (prog : nat → list timer_req) : UserCode := λ c,
  match c with UTask u => for_each (prog u) (exec_req l) | _ => mret () end.
Definition run_task (user : UserCode) (f : Functor) : M World () :=
  match f with FUser u => call_user (UTask u) | _ => mret () end.

Lemma exec_req_ok l r lp w :
  tq_ok l lp w →
  wp (exec_req l r) (λ _ w', ∃ lp', tq_ok l lp' w' ∧
    (armed lp (w_hist w) → armed lp' (w_hist w')) ∧ tq_frame lp w lp' w') only_exit w.
Proof.
  intros Hok. destruct r as [cb when_ interval|t]; simpl.
  - wp_step. eapply wp_conseq; [by apply AddTimer_ok, time_point_range|].
    intros t w' (lp' & ? & ? & ? & _). wp_step. eauto.
  - rw /CancelTimer /RunInLoop. pose proof Hok as (Hl & Ht & _). wp_step.
    eapply wp_IsInLoopThread; [done|]. rw Ht Nat.eqb_refl.
    eapply wp_conseq; [by apply cancel_timer_ok|]. intros [] w' (lp' & ? & ? & ? & _). eauto.
Qed.

Lemma exec_reqs_ok l rs lp w :
  tq_ok l lp w →
  wp (for_each rs (exec_req l)) (λ _ w', ∃ lp', tq_ok l lp' w' ∧
    (armed lp (w_hist w) → armed lp' (w_hist w')) ∧ tq_frame lp w lp' w') only_exit w.
Proof.
  revert lp w. induction rs as [|r rs IH]; intros lp w Hok; simpl.
  { wp_step. exists lp. split_and!; [done|done|apply tq_frame_refl]. }
  wp_step. eapply wp_conseq; [by apply exec_req_ok|]. intros [] w1 (lp1 & Hok1 & Ha1 & Hf1).
  eapply wp_conseq; [by apply (IH lp1)|]. intros [] w' (lp' & Hok' & Ha' & Hf').
  exists lp'. split_and!; [done|auto|by eapply tq_frame_trans].
Qed.

Section application.
Context (l : nat) (prog : nat → list timer_req).
Abbreviation run := (run_task (timer_app l prog)).

(** The task a timer runs. *)
Definition timer_task (tms : gmap nat Timer) (t : nat) : list nat :=
  match tms !! t with Some tm => match tm_callback_ tm with FUser u => [u] | _ => [] end | None => [] end.

(** Like a frame of requests, but tasks were run. *)
Record fire_frame (ran : list nat) lp w lp' w' : Prop := {
  ff_tid : w_tid w' = w_tid w;
  ff_expired : tq_expired (el_timer_queue_ lp') = tq_expired (el_timer_queue_ lp);
  ff_timers : ∀ t tm, w_timers w !! t = Some tm → w_timers w' !! t = Some tm;
  ff_fd : tq_timerfd_ (el_timer_queue_ lp') = tq_timerfd_ (el_timer_queue_ lp);
  ff_tasks : tasks (w_hist w') = tasks (w_hist w) ++ ran;
}.

Lemma fire_one_ok lp tm t w :
  tq_ok l lp w → w_timers w !! t = Some tm →
  wp (tm ← get_timer t; run (tm_callback_ tm)) (λ _ w', ∃ lp', tq_ok l lp' w' ∧
    fire_frame (timer_task (w_timers w) t) lp w lp' w') only_exit w.
Proof.
  intros Hok Htm. wp_step. eapply wp_get_timer; [done|]. rw /timer_task Htm /run_task.
  destruct (tm_callback_ tm) as [u| | | | | | | | | | | | | | |];
    try (wp_step; exists lp; split; [done|split; try done; by rw app_nil_r]).
  rw /call_user. wp_step. wp_step. set (w1 := set_w_hist _ w).
  assert (tq_ok l lp w1) as Hok1 by done.
  eapply wp_conseq; [by apply (exec_reqs_ok l (prog u) lp w1)|].
  intros [] w' (lp' & Hok' & _ & [? ? ? ? ? ? Htasks]). exists lp'. split; [done|].
  split; try done. by rw Htasks /= tasks_app.
Qed.

Lemma fire_all_ok ts lp w :
  tq_ok l lp w → (∀ e, e ∈ ts → is_Some (w_timers w !! e.2)) →
  wp (for_each ts (λ e : entry, tm ← get_timer e.2; run (tm_callback_ tm))) (λ _ w', ∃ lp',
    tq_ok l lp' w' ∧ fire_frame (ts.*2 ≫= timer_task (w_timers w)) lp w lp' w') only_exit w.
Proof.
  revert lp w. induction ts as [|e ts IH]; intros lp w Hok Hts; simpl.
  { wp_step. exists lp. split; [done|split; try done]. by rw app_nil_r. }
  destruct (Hts e) as [tm Htm]; [by left|]. wp_step.
  eapply wp_conseq; [by apply (fire_one_ok lp tm)|]. intros [] w1 (lp1 & Hok1 & Hf1).
  pose proof (ff_timers _ _ _ _ _ Hf1) as Hkeep.
  eapply wp_conseq; [apply (IH lp1 w1 Hok1)|].
  { intros e' Hin. destruct (Hts e') as [tm' ?]; [by right|]. exists tm'. auto. }
  intros [] w' (lp' & Hok' & Hf'). exists lp'. split; [done|].
  assert (ts.*2 ≫= timer_task (w_timers w1) = ts.*2 ≫= timer_task (w_timers w)) as Heq.
  { apply bind_ext_in. intros t (e' & -> & Hin)%list_elem_of_fmap. rw /timer_task.
    destruct (Hts e') as [tm' Htm']; [by right|]. by rw Htm' (Hkeep _ _ Htm'). }
  rw Heq in Hf'. destruct Hf1, Hf'. split; try congruence; [auto|]. rw ff_tasks1 ff_tasks0 app_assoc //.
Qed.

Lemma run_expired_ok ts lp w :
  tq_ok l lp w → (∀ e, e ∈ ts → e.2 ∈ tq_expired (el_timer_queue_ lp)) →
  wp (run_expired run l ts) (λ _ w', ∃ lp', tq_ok l lp' w' ∧
    fire_frame (ts.*2 ≫= timer_task (w_timers w)) lp w lp' w' ∧
    tq_calling_expired_timers_ (el_timer_queue_ lp') = false) only_exit w.
Proof.
  intros (Hl & Ht & Hq & Hown) Hts. rw /run_expired. wp_step. eapply wp_alter_tq; [done|].
  wp_step. eapply wp_alter_tq; [apply lookup_insert_eq|]. wp_step. simpl.
  rw insert_insert_eq. set (lp1 := with_tq _ _). set (w1 := set_w_loops _ _).
  assert (tq_ok l lp1 w1) as Hok1.
  { split_and!; [apply lookup_insert_eq|done|by destruct Hq|]. intros t Ho. apply Hown.
    rw timer_owned_spec. rw timer_owned_spec /= in Ho. set_solver. }
  eapply wp_conseq; [apply (fire_all_ok ts lp1 w1 Hok1)|].
  { intros e Hin. by destruct (qo_expired _ _ Hq e.2 (Hts e Hin)) as (_ & _ & ?). }
  intros [] w2 (lp2 & Hok2 & Hf2). pose proof Hok2 as (Hl2 & Ht2 & Hq2 & Hown2).
  eapply wp_alter_tq; [done|]. set (lp3 := with_tq _ lp2). exists lp3. split_and!; [|by destruct Hf2|done].
  split_and!; [apply lookup_insert_eq|done|by destruct Hq2|]. intros t Ho. apply Hown2.
  rw timer_owned_spec. by rw timer_owned_spec in Ho.
Qed.

(** ** Putting the repeating timers back *)

Lemma Restart_range now tm tm' : Restart now tm = Some tm' → in_int64 (tm_expiration_ tm') = true.
Proof.
  rw /Restart /add_ns. destruct (tm_repeat_ tm); [|by intros [= <-]]. destruct (nanoseconds _) as [d|]; [|done]. simpl.
  destruct (in_int64 (now + d)) eqn:Hr; [|done]. by intros [= <-].
Qed.

(** What became of the fired timer [t]. *)
Definition restarted (now : Z) (cancel : gset nat) (tms tms' : gmap nat Timer) (s' : list entry) (t : nat) : Prop :=
  ∃ tm, tms !! t = Some tm ∧
  if tm_repeat_ tm && negb (bool_decide (t ∈ cancel))
  then ∃ tm', Restart now tm = Some tm' ∧ tms' !! t = Some tm' ∧ (tm_expiration_ tm', t) ∈ s'
  else tms' !! t = Some tm ∧ t ∉ s'.*2.

(** One step of the loop: [t] is handled, [ex] are left. *)
Record restart_post (now : Z) (t : nat) (ex : list nat) lp w lp' w' : Prop := {
  rp_at : tq_at l lp' ex w';
  rp_done : restarted now (tq_canceling_timers_ (el_timer_queue_ lp)) (w_timers w) (w_timers w')
    (tq_timers_ (el_timer_queue_ lp')) t;
  rp_cancel : tq_canceling_timers_ (el_timer_queue_ lp') = tq_canceling_timers_ (el_timer_queue_ lp);
  rp_others : ∀ t', t' ≠ t → w_timers w' !! t' = w_timers w !! t';
  rp_in : ∀ x, x ∈ tq_timers_ (el_timer_queue_ lp) → x ∈ tq_timers_ (el_timer_queue_ lp');
  rp_out : ∀ x, x ∈ tq_timers_ (el_timer_queue_ lp') → x ∈ tq_timers_ (el_timer_queue_ lp) ∨ x.2 = t;
  rp_hist : w_hist w' = w_hist w;
  rp_calling : tq_calling_expired_timers_ (el_timer_queue_ lp') =
    tq_calling_expired_timers_ (el_timer_queue_ lp);
}.

Lemma restart_one_ok now (e : entry) ex lp tm w :
  tq_at l lp (e.2 :: ex) w → w_timers w !! e.2 = Some tm →
  (tm_repeat_ tm = true → is_Some (Restart now tm)) →
  wp (tm ← get_timer e.2;
      if negb (tm_repeat_ tm) then mret ()
      else
        tq ← get_tq l;
        if bool_decide (e.2 ∈ tq_canceling_timers_ tq) then mret ()
        else
          tm' ← deref (Restart now tm);
          alter_timer (λ _, tm') e.2 ;;
          _ ← insert l e.2; mret ())
    (λ _ w', ∃ lp', restart_post now e.2 ex lp w lp' w') only_exit w.
Proof.
  intros (Hl & Ht & Hq & Hown) Htm Hre. destruct e as [e t]. simpl in *.
  destruct (qo_expired _ _ Hq t) as (Hnin & H0 & _); [by left|]. simpl in Hnin.
  pose proof (qo_nodup _ _ Hq) as [Hnex _]%NoDup_cons.
  assert (tq_at l lp ex w) as Hat.
  { split_and!; [done|done| |done]. destruct Hq as [? ? Hx Hn ?]. split; try done; simpl.
    - intros t' Hin. apply Hx. by right. - by apply NoDup_cons in Hn as [_ ?]. }
  assert (∀ b, tm_repeat_ tm && negb b = false → b = bool_decide (t ∈ tq_canceling_timers_ (el_timer_queue_ lp)) →
    restart_post now t ex lp w lp w) as Hskip.
  { intros b Hb ->. split; try done; [|by left]. exists tm. split; [done|]. by rw Hb. }
  wp_step. eapply wp_get_timer; [done|].
  destruct (tm_repeat_ tm) eqn:Hrep; simpl; [|wp_step; eauto].
  wp_step. eapply wp_get_tq; [done|]. case_bool_decide as Hc.
  { wp_step. exists lp. by apply (Hskip true). }
  destruct (Hre eq_refl) as [tm' Htm']. rw Htm'. wp_step. eapply wp_deref; [done|].
  rw /alter_timer. wp_step. wp_step. rw (alter_insert _ t tm) //. set (w1 := set_w_timers _ w).
  assert (tq_at l lp ex w1) as Hat1.
  { destruct Hat as (_ & _ & Hq' & _). split_and!; [done|done|by apply queue_ok_timer|].
    intros t' Ho. rw /= lookup_insert. case_decide; [by eexists|by apply Hown]. }
  wp_step. eapply wp_conseq; [apply (insert_at l lp ex t tm'); try done; [apply lookup_insert_eq|by eapply Restart_range]|].
  intros r w2 (_ & -> & Hat2). wp_step. eexists. split; [exact Hat2|..]; try done.
  - exists tm. split; [done|]. rw Hrep bool_decide_eq_false_2 //=. exists tm'.
    split_and!; [done|apply lookup_insert_eq|apply set_insert_in; by left].
  - intros t' Hne. by rw /= lookup_insert_ne.
  - intros x Hin. apply set_insert_in. by right.
  - intros x [->|Hin]%set_insert_in; [by right|by left].
Qed.

(** The whole loop. *)
Record restarts_post (now : Z) (ts : list nat) lp w lp' w' : Prop := {
  rs_at : tq_at l lp' [] w';
  rs_done : ∀ t, t ∈ ts → restarted now (tq_canceling_timers_ (el_timer_queue_ lp)) (w_timers w)
    (w_timers w') (tq_timers_ (el_timer_queue_ lp')) t;
  rs_cancel : tq_canceling_timers_ (el_timer_queue_ lp') = tq_canceling_timers_ (el_timer_queue_ lp);
  rs_others : ∀ t, t ∉ ts → w_timers w' !! t = w_timers w !! t;
  rs_in : ∀ x, x ∈ tq_timers_ (el_timer_queue_ lp) → x ∈ tq_timers_ (el_timer_queue_ lp');
  rs_out : ∀ x, x ∈ tq_timers_ (el_timer_queue_ lp') → x ∈ tq_timers_ (el_timer_queue_ lp) ∨ x.2 ∈ ts;
  rs_hist : w_hist w' = w_hist w;
  rs_calling : tq_calling_expired_timers_ (el_timer_queue_ lp') =
    tq_calling_expired_timers_ (el_timer_queue_ lp);
}.

(** A timer that was handled keeps its outcome. *)
Lemma restarted_later now cancel tms tms1 tms2 s1 s2 t :
  restarted now cancel tms tms1 s1 t → tms2 !! t = tms1 !! t →
  (∀ x, x ∈ s1 → x ∈ s2) → (∀ x, x ∈ s2 → x ∈ s1 ∨ x.2 ≠ t) → restarted now cancel tms tms2 s2 t.
Proof.
  intros (tm & Htm & H) Heq Hin Hout. exists tm. split; [done|]. rw Heq.
  destruct (_ && _); [destruct H as (tm' & ? & ? & ?); eauto|]. destruct H as [H1 H2]. split; [done|].
  intros (x & -> & Hx)%list_elem_of_fmap. destruct (Hout x Hx) as [Hx'|]; [|done].
  apply H2, list_elem_of_fmap. by exists x.
Qed.

Lemma restarts_cons now t ts lp w lp1 w1 lp' w' :
  t ∉ ts → restart_post now t ts lp w lp1 w1 → restarts_post now ts lp1 w1 lp' w' →
  restarts_post now (t :: ts) lp w lp' w'.
Proof.
  intros Hne [Ha1 Hd1 Hc1 Ho1 Hi1 Hu1 Hh1 Hf1] [Ha2 Hd2 Hc2 Ho2 Hi2 Hu2 Hh2 Hf2].
  split; try congruence; try done.
  - intros t' [->|Hin]%elem_of_cons.
    + eapply restarted_later; [done|by apply Ho2|done|]. intros x [|Hx]%Hu2; [by left|right]. intros Heq. by rw Heq in Hx.
    + destruct (Hd2 t' Hin) as (tm & Htm & H). exists tm. rw Hc1 in H. split; [|done].
      rw -Ho1 //. by intros ->.
  - intros t' [Hnt Hnts]%not_elem_of_cons. by rw Ho2 // Ho1.
  - auto.
  - intros x [[Hx| <-]%Hu1|Hx]%Hu2; [by left|right; by left|right; by right].
Qed.

Lemma restart_expired_ok now (ts : list entry) lp w :
  tq_at l lp ts.*2 w →
  (∀ e tm, e ∈ ts → w_timers w !! e.2 = Some tm → tm_repeat_ tm = true → is_Some (Restart now tm)) →
  wp (restart_expired l now ts) (λ _ w', ∃ lp', restarts_post now ts.*2 lp w lp' w') only_exit w.
Proof.
  revert lp w. induction ts as [|e ts IH]; intros lp w Hat Hre.
  { rw /restart_expired /=. wp_step. exists lp. split; try done; [|by left].
    by intros t ?%elem_of_nil. }
  pose proof Hat as (_ & _ & Hq & _).
  destruct (qo_expired _ _ Hq e.2) as (_ & _ & tm & Htm); [by left|].
  pose proof (qo_nodup _ _ Hq) as [Hne _]%NoDup_cons.
  rw /restart_expired /=. wp_step. eapply wp_conseq.
  { apply (restart_one_ok now e ts.*2 lp tm); [done|done|]. intros ?. apply (Hre e tm); [by left|done|done]. }
  intros [] w1 (lp1 & H1). pose proof (rp_others _ _ _ _ _ _ _ H1) as Hoth.
  eapply wp_conseq; [apply (IH lp1 w1)|].
  { apply H1. }
  { intros e' tm' Hin. rw Hoth; [|apply Hre; by right]. intros Heq. apply Hne. rw -Heq.
    apply list_elem_of_fmap. by exists e'. }
  intros [] w' (lp' & H2). exists lp'. by eapply restarts_cons.
Qed.
(** ** Arming and the whole handler *)

(** The head of the set, if any, is not the invalid time point. *)
Definition valid_head lp : Prop :=
  match tq_timers_ (el_timer_queue_ lp) with [] => True | (e, _) :: _ => e ≠ InvalidTimePoint end.

Lemma rearm_ok lp w :
  tq_at l lp [] w →
  wp (rearm l) (λ _ w', tq_at l lp [] w' ∧ (valid_head lp → armed lp (w_hist w')) ∧
    w_timers w' = w_timers w ∧ tasks (w_hist w') = tasks (w_hist w)) only_exit w.
Proof.
  intros Hat. pose proof Hat as (Hl & _ & Hq & _). rw /rearm /valid_head /armed.
  wp_step. eapply wp_get_tq; [done|]. wp_step.
  destruct (tq_timers_ (el_timer_queue_ lp)) as [|[e t] s] eqn:Hs; [wp_step; simpl; by wp_step|].
  destruct (qo_entry _ _ Hq e t) as (_ & tm & Htm & He); [simpl; rw Hs; by left|].
  wp_step. eapply wp_get_timer; [done|]. wp_step. rw He.
  destruct (Z.eqb_spec e InvalidTimePoint); simpl; [by wp_step|].
  eapply wp_conseq; [apply set_timerfd_ok|].
  { pose proof (qo_range _ _ Hq) as Hr. simpl in Hr. rw Hs in Hr. by apply Forall_cons in Hr as [? _]. }
  intros [] w' Hset.
  pose proof (set_for_deadline _ _ _ _ Hset) as (d & Hd & Hle & _).
  destruct Hset as (? & ? & ? & ? & _ & _ & _ & Hh & _ & ->).
  split_and!; [exact Hat|by eauto|done|]. by rw /= Hh tasks_app app_nil_r.
Qed.

(** The vector of fired timers is destroyed at the end of the handler. *)
Lemma clear_expired_ok lp (Q : () → World → Prop) E w :
  tq_at l lp [] w →
  let lp' := with_tq (set_tq_expired [] (el_timer_queue_ lp)) lp in
  (tq_ok l lp' (set_w_loops (<[l := lp']> (w_loops w)) w) →
   Q () (set_w_loops (<[l := lp']> (w_loops w)) w)) →
  wp (alter_tq (set_tq_expired []) l) Q E w.
Proof.
  intros (Hl & Ht & Hq & Hown) lp' HQ. eapply wp_alter_tq; [done|]. apply HQ.
  split_and!; [apply lookup_insert_eq|done|done|]. intros t Ho. apply Hown.
  rw timer_owned_spec. rw timer_owned_spec /= in Ho. set_solver.
Qed.

(** Reading the clock and the descriptor does not concern the queue. *)
Lemma tq_ok_hist lp h w : tq_ok l lp w → tq_ok l lp (set_w_hist h w).
Proof. done. Qed.

(** C11: one activation of the timer descriptor at a time [now] at which no
    timer expires to the nanosecond, with callbacks that themselves add and
    cancel timers: the tasks of the due timers are run once each, in the
    order of expiration; afterwards every due repeating timer that was not
    cancelled meanwhile is back in the set, due one interval after [now],
    and no other due timer is; the set is sorted and consistent, and the
    descriptor is armed for the earliest timer in it. *)
Theorem timer_activation lp w :
  tq_ok l lp w →
  let now := r_ret (os_reply (w_hist w) ClockNow) in
  let s := tq_timers_ (el_timer_queue_ lp) in
  (∀ t, (now, t) ∉ s) →
  (∀ t tm, t ∈ (due now s).*2 → w_timers w !! t = Some tm → tm_repeat_ tm = true →
     is_Some (Restart now tm)) →
  wp (handle_timerfd run l) (λ _ w', ∃ lp', tq_ok l lp' w' ∧
    tq_expired (el_timer_queue_ lp') = [] ∧
    tq_calling_expired_timers_ (el_timer_queue_ lp') = false ∧
    tasks (w_hist w') = tasks (w_hist w) ++ ((due now s).*2 ≫= timer_task (w_timers w)) ∧
    (∀ t, t ∈ (due now s).*2 → restarted now (tq_canceling_timers_ (el_timer_queue_ lp'))
       (w_timers w) (w_timers w') (tq_timers_ (el_timer_queue_ lp')) t) ∧
    (valid_head lp' → armed lp' (w_hist w'))) only_exit w.
Proof.
  intros Hok now0 s Htie Hre. pose proof Hok as (Hl & Ht & Hq & _).
  rw /handle_timerfd. wp_step. eapply AssertInLoopThread_ok; [done|done|].
  wp_step. apply wp_now. fold now0. wp_step. eapply wp_get_tq; [done|].
  wp_step. rw /reset_timerfd. wp_step. apply wp_syscall. wp_step.
  set (w1 := after_call _ _). assert (Hok1 : tq_ok l lp w1) by done.
  assert (tasks (w_hist w1) = tasks (w_hist w)) as Htk by by rw /= !tasks_app !app_nil_r.
  assert (∀ t, t ∈ (due now0 s).*2 → is_Some (w_timers w !! t)) as Hdue.
  { intros t ([e t'] & -> & [_ Hin]%list_elem_of_filter)%list_elem_of_fmap.
    destruct (qo_entry _ _ Hq e t' Hin) as (_ & tm & ? & _). by exists tm. }
  wp_step. eapply wp_conseq; [by apply (take_expired_ok l lp now0); [apply tq_ok_at|]|]. intros r w2 (-> & -> & Hok2).
  fold s. set (w2 := set_w_loops _ w1) in *.
  wp_step. eapply wp_conseq; [apply (run_expired_ok (due now0 s) (taken now0 lp) w2 Hok2)|].
  { intros e Hin. simpl. apply list_elem_of_fmap. by exists e. }
  intros [] w3 (lp3 & Hok3 & [_ Hex3 Htm3 _ Htk3] & Hcall3).
  assert (tq_at l lp3 (due now0 s).*2 w3) as Hat3.
  { apply tq_at_ok in Hok3. by rw Hex3 in Hok3. }
  wp_step. eapply wp_conseq; [apply (restart_expired_ok now0 (due now0 s) lp3 w3 Hat3)|].
  { intros e tm Hin Htm. apply (Hre e.2); [apply list_elem_of_fmap; by exists e|].
    destruct (Hdue e.2) as [tm0 Htm0]; [apply list_elem_of_fmap; by exists e|].
    rw (Htm3 _ _ Htm0) in Htm. by simplify_eq. }
  intros [] w4 (lp4 & [Hat4 Hd4 Hc4 _ _ _ Hh4 Hcall4]).
  wp_step. eapply wp_conseq; [by apply (rearm_ok lp4)|]. intros [] w5 (Hat5 & Harm5 & Htm5 & Htk5).
  eapply clear_expired_ok; [done|]. intros Hok6. eexists. split; [exact Hok6|].
  split_and!; [done|by rw /= Hcall4| | |exact Harm5].
  - by rw /= Htk5 Hh4 Htk3 Htk.
  - intros t Hin. destruct (Hd4 t Hin) as (tm & Htm & H). destruct (Hdue t Hin) as [tm0 Htm0].
    rw (Htm3 _ _ Htm0) in Htm. simplify_eq. exists tm. split; [done|]. by rw /= Hc4 Htm5.
Qed.
End application.
End firing.

(** ** Requests *)

Section requests.
Context {os : OS} {heap : Heap} `{!HeapFresh heap, !ClockNotSetBack os}.

(** [AddTimer] on the loop's thread creates a timer that did not exist,
    enters it under its expiration and nothing else into the set, keeps the
    set sorted and consistent, and keeps the descriptor armed for the
    earliest timer. *)
Lemma add_timer_enters l lp cb when_ interval w :
  tq_ok l lp w → in_int64 when_ = true →
  wp (AddTimer l cb when_ interval) (λ t w', ∃ lp', tq_ok l lp' w' ∧
    w_timers w !! t = None ∧
    w_timers w' = <[t := Timer_new cb when_ interval]> (w_timers w) ∧
    (∀ x, x ∈ tq_timers_ (el_timer_queue_ lp') ↔
       x = (when_, t) ∨ x ∈ tq_timers_ (el_timer_queue_ lp)) ∧
    (armed lp (w_hist w) → armed lp' (w_hist w'))) only_exit w.
Proof.
  intros Hok Hrange. eapply wp_conseq; [by apply AddTimer_ok|].
  intros t w' (lp' & ? & ? & _ & ? & ? & ?). exists lp'. by split_and!.
Qed.

(** C34: [CancelTimer] on the loop's thread takes exactly the entry of this
    timer out of the set, whatever became of the timer before; a timer that
    is just being fired is noted and will not be put back.  It never fails,
    and the earliest timer left is still covered by the armed descriptor. *)
Theorem cancel_timer_removes l lp t w :
  tq_ok l lp w →
  ∃ w' lp', CancelTimer l t w = Done () w' ∧ tq_ok l lp' w' ∧
    w_timers w' = w_timers w ∧
    (∀ x, x ∈ tq_timers_ (el_timer_queue_ lp') ↔ x ∈ tq_timers_ (el_timer_queue_ lp) ∧ x.2 ≠ t) ∧
    (tq_calling_expired_timers_ (el_timer_queue_ lp) = true →
     t ∈ tq_expired (el_timer_queue_ lp) → t ∈ tq_canceling_timers_ (el_timer_queue_ lp')) ∧
    (armed lp (w_hist w) → armed lp' (w_hist w')).
Proof.
  intros Hok. pose proof Hok as (Hl & Ht & _).
  assert (wp (CancelTimer l t) (λ _ w', ∃ lp', tq_ok l lp' w' ∧ w_timers w' = w_timers w ∧
    (∀ x, x ∈ tq_timers_ (el_timer_queue_ lp') ↔ x ∈ tq_timers_ (el_timer_queue_ lp) ∧ x.2 ≠ t) ∧
    (tq_calling_expired_timers_ (el_timer_queue_ lp) = true →
     t ∈ tq_expired (el_timer_queue_ lp) → t ∈ tq_canceling_timers_ (el_timer_queue_ lp')) ∧
    (armed lp (w_hist w) → armed lp' (w_hist w'))) never w) as Hwp.
  { rw /CancelTimer /RunInLoop. wp_step. eapply wp_IsInLoopThread; [done|]. rw Ht Nat.eqb_refl.
    eapply wp_conseq; [by apply cancel_timer_ok|].
    intros [] w' (lp' & ? & ? & _ & ? & ? & ?). exists lp'. by split_and!. }
  destruct (wp_done _ _ _ Hwp) as ([] & w' & Hrun & lp' & Hrest). by exists w', lp'.
Qed.

End requests.

(** C35: what [set_timerfd] asks of the kernel, for every time and every
    reading [now] of the clock.  It makes one timerfd_settime(2) call on the
    descriptor; the interval it passes is a legal timespec that never disarms
    the descriptor and ends exactly at the requested time, or one nanosecond
    from now when that is past, and the process exits when the call fails.
    Only when the time left does not fit into [int64_t], which is impossible
    after the epoch, is the behaviour undefined. *)
Theorem timerfd_interval_exact {os : OS} fd time w :
  let rep := os_reply (w_hist w) ClockNow in
  let now := r_ret rep in
  (time ≤ now ∨ in_int64 (time - now) = true → ∃ s n r w',
     0 ≤ s ∧ 0 ≤ n < 1000000000 ∧ 0 < s * 1000000000 + n ∧
     now + s * 1000000000 + n = Z.max time (now + 1) ∧
     w_hist w' = w_hist w ++ [Sys ClockNow rep; Sys (TimerfdSettime fd s n) r] ∧
     set_timerfd fd time w = (if r_ret r =? 0 then Done () w' else Crash Exit2 w')) ∧
  (now < time → in_int64 (time - now) = false → set_timerfd fd time w = Crash UB (after_now w)) ∧
  (0 ≤ now → in_int64 time = true → time ≤ now ∨ in_int64 (time - now) = true).
Proof.
  intros rep now0.
  assert (set_timerfd fd time w = (val ← deref (how_long now0 time); r ← syscall (TimerfdSettime fd val.1 val.2);
    if negb (r_ret r =? 0) then critical else mret ()) (after_now w)) as Hset by done. split_and!.
  - intros Hin. assert (∃ s n, how_long now0 time = Some (s, n)) as (s & n & Hl).
    { rw /how_long /sub_ns. destruct (Z.leb_spec time now0); [by eauto|]. destruct Hin as [|Hin]; [lia|]. rw Hin /=. by eauto. }
    destruct (how_long_exact now0 time s n Hl) as (? & ? & ? & ?). set (w1 := after_now w). set (k := TimerfdSettime fd s n).
    exists s, n, (os_reply (w_hist w1) k), (after_call k w1). split_and!; [lia..|by rw /= -app_assoc|].
    rw Hset (bind_done _ _ (s, n) _ w1); [by rw /deref Hl|]. rw (bind_done _ _ (os_reply (w_hist w1) k) _ (after_call k w1)) //.
    by destruct (_ =? _).
  - intros Hlt Hr. rw Hset /how_long /sub_ns Hr. by destruct (Z.leb_spec time now0); [lia|].
  - intros Hn Hr. destruct (how_long_some now0 time Hn Hr) as [x Hx]. rw /how_long /sub_ns in Hx.
    destruct (Z.leb_spec time now0); [by left|]. right. by destruct (in_int64 (time - now0)).
Qed.

(** ** A sample run *)

(** [1.0] *)
Definition d_one : double := S754_finite false 4503599627370496 (-52).

(** Three timers: a task at 1500 ns, one at 1700 ns every second, one at
    9000 ns; the first task cancels the second timer's and adds another. *)
Definition sample_adds : list timer_req :=
  [RAdd (FUser 1) 1500 d_zero; RAdd (FUser 2) 1700 d_one; RAdd (FUser 3) 9000 d_zero].
Definition sample_prog (u : nat) : list timer_req :=
  match u with 1%nat => [RCancel 3; RAdd (FUser 4) 8000 d_zero] | _ => [] end.

Definition timers_world : World :=
  final (for_each sample_adds (exec_req (os := sample_os) 1)) sample_world.
Definition timers_loop : EventLoop := default sample_loop (w_loops timers_world !! 1%nat).

Lemma sample_queue_ok : tq_ok 1 sample_loop sample_world.
Proof.
  split_and!; [done|done| |].
  - split; simpl; [constructor|by intros ? ? ?%elem_of_nil|by intros ? ?%elem_of_nil|constructor|constructor].
  - intros t Ho. done.
Qed.

Lemma timers_ok : tq_ok 1 timers_loop timers_world.
Proof.
  pose proof (exec_reqs_ok (os := sample_os) 1 sample_adds sample_loop sample_world sample_queue_ok) as H.
  apply wp_final in H as [_ (lp & Hok & _)]; [|by vm_compute].
  assert (lp = timers_loop) as ->; [|done].
  pose proof Hok as [Hl _]. by rw /timers_loop -/timers_world Hl.
Qed.

Lemma due_timers_exact_witness :
  take_expired 1 1700 timers_world = Crash AssertFailed timers_world.
Proof.
  refine (proj1 (due_timers_exact 1 timers_loop 1700 timers_world timers_ok) _).
  exists 2%nat. apply (bool_decide_unpack _). by vm_compute.
Defined.

Lemma timer_activation_witness :
  wp (handle_timerfd (os := sample_os) (run_task (timer_app (os := sample_os) 1 sample_prog)) 1)
    (λ _ w', ∃ lp', tq_ok 1 lp' w' ∧
    tq_expired (el_timer_queue_ lp') = [] ∧
    tq_calling_expired_timers_ (el_timer_queue_ lp') = false ∧
    tasks (w_hist w') = [1; 2]%nat ∧
    (∀ t, t ∈ [1; 2]%nat → restarted 2000 (tq_canceling_timers_ (el_timer_queue_ lp'))
       (w_timers timers_world) (w_timers w') (tq_timers_ (el_timer_queue_ lp')) t) ∧
    (valid_head lp' → armed lp' (w_hist w'))) only_exit timers_world.
Proof.
  refine (timer_activation (os := sample_os) 1 sample_prog timers_loop timers_world timers_ok _ _).
  - assert (∀ x, x ∈ tq_timers_ (el_timer_queue_ timers_loop) → x.1 ≠ 2000) as H.
    { apply Forall_forall, (bool_decide_unpack _). by vm_compute. }
    intros t Hin. by apply (H _ Hin).
  - intros t tm Hin Htm _.
    assert (∀ t, t ∈ [1; 2]%nat → is_Some (w_timers timers_world !! t ≫= Restart 2000)) as H.
    { apply Forall_forall, (bool_decide_unpack _). by vm_compute. }
    specialize (H t Hin). rw Htm in H. exact H.
Defined.

Lemma add_timer_enters_witness :
  wp (AddTimer (os := sample_os) 1 (FUser 9) 1 d_zero) (λ t w', ∃ lp', tq_ok 1 lp' w' ∧
    w_timers timers_world !! t = None ∧
    w_timers w' = <[t := Timer_new (FUser 9) 1 d_zero]> (w_timers timers_world) ∧
    (∀ x, x ∈ tq_timers_ (el_timer_queue_ lp') ↔
       x = (1, t) ∨ x ∈ tq_timers_ (el_timer_queue_ timers_loop)) ∧
    (armed timers_loop (w_hist timers_world) → armed lp' (w_hist w'))) only_exit timers_world.
Proof.
  exact (add_timer_enters (os := sample_os) 1 timers_loop (FUser 9) 1 d_zero timers_world timers_ok eq_refl).
Defined.

Lemma cancel_timer_removes_witness :
  ∃ w' lp', CancelTimer (os := sample_os) 1 2 timers_world = Done () w' ∧ tq_ok 1 lp' w' ∧
    (∀ x, x ∈ tq_timers_ (el_timer_queue_ lp') ↔
       x ∈ tq_timers_ (el_timer_queue_ timers_loop) ∧ x.2 ≠ 2%nat).
Proof.
  destruct (cancel_timer_removes (os := sample_os) 1 timers_loop 2 timers_world timers_ok)
    as (w' & lp' & Hrun & Hok & _ & Hin & _). by exists w', lp'.
Defined.

(** The handler of the sample: tasks 1 and 2 ran, timer 3 was cancelled,
    timer 2 will be due a second later, timer 4 was added. *)
Example sample_timers_run :
  let w' := final (handle_timerfd (os := sample_os)
    (run_task (timer_app (os := sample_os) 1 sample_prog)) 1) timers_world in
  tasks (w_hist w') = [1; 2]%nat ∧
  (λ lp, tq_timers_ (el_timer_queue_ lp)) <$> w_loops w' !! 1%nat = Some [(8000, 4%nat); (1000002000, 2%nat)].
Proof. by vm_compute. Qed.
