(* ===== verification/Wakeup.v ===== *)
(** * Wakeup: tasks, stopping and the wakeup descriptor under interleaving

    [EventLoop::QueueInLoop] and [Stop] are called from any thread while the
    loop's thread goes round in [Start].  Here they are a transition system
    whose steps are the atomic actions of the source: one critical section
    of [pendings_mutex_], one store to an atomic, one system call.  The
    invariants hold for every interleaving of any number of threads.

    - every task that was pushed is in exactly one place, in the order of
      pushing: run, taken by the loop, or queued;
    - the loop never goes to sleep on a stop request or on a task that was
      pushed since it entered [Start] without a wakeup pending or about to be
      made; tasks that its own thread queued before have none. *)

From S2P Require Import Prelude Buffer World Kernel Poller Channel Sample EventLoop.

(** ** States *)

(** Where the loop's thread is in [Start] (src/eventloop.cpp). *)
Inductive loop_pc :=
  | AtCheck                   (* while (quitting_.load() == false) *)
  | InPoll                    (* poller_->Poll(kPollTimeoutMs, ...) *)
  | InEvents (ready : bool)   (* HandleEvent; [ready]: the wakeup channel is still to be handled *)
  | AtCalling                 (* calling_pendings_.store(true) *)
  | AtSwap                    (* tmp_pendings.swap(pendings_) *)
  | InRun                     (* pending() *)
  | InRunPushed               (* inside pending(): QueueInLoop has pushed, set_wakeup is next *)
  | AtReturned.               (* Start has returned *)

(** Where another thread is in [QueueInLoop] or [Stop]. *)
Inductive thread_pc := Idle | Waking.  (* [Waking]: set_wakeup is next *)

Record lstate := mkL {
  pendings : list Functor;
  calling : bool;
  quitting : bool;
  counter : bool;                 (* the eventfd counter is not zero *)
  pc : loop_pc;
  tmp : list Functor;             (* tmp_pendings, what is left of it *)
  threads : gmap nat thread_pc;
  pushed : list Functor;          (* history: all tasks pushed *)
  ran : list Functor;             (* history: all tasks run *)
}.

Definition thread_at (s : lstate) (t : nat) : thread_pc := default Idle (threads s !! t).

(** [pendings_.push_back(cb)] under the lock. *)
Definition push (f : Functor) (s : lstate) : lstate :=
  mkL (pendings s ++ [f]) (calling s) (quitting s) (counter s) (pc s) (tmp s) (threads s)
    (pushed s ++ [f]) (ran s).
Definition set_quitting (s : lstate) : lstate :=
  mkL (pendings s) (calling s) true (counter s) (pc s) (tmp s) (threads s) (pushed s) (ran s).
Definition set_counter (b : bool) (s : lstate) : lstate :=
  mkL (pendings s) (calling s) (quitting s) b (pc s) (tmp s) (threads s) (pushed s) (ran s).
Definition set_calling (b : bool) (s : lstate) : lstate :=
  mkL (pendings s) b (quitting s) (counter s) (pc s) (tmp s) (threads s) (pushed s) (ran s).
Definition set_pc (p : loop_pc) (s : lstate) : lstate :=
  mkL (pendings s) (calling s) (quitting s) (counter s) p (tmp s) (threads s) (pushed s) (ran s).
Definition set_thread (t : nat) (p : thread_pc) (s : lstate) : lstate :=
  mkL (pendings s) (calling s) (quitting s) (counter s) (pc s) (tmp s) (<[t := p]> (threads s))
    (pushed s) (ran s).
(** [tmp_pendings.swap(pendings_)] *)
Definition swap (s : lstate) : lstate :=
  mkL [] (calling s) (quitting s) (counter s) (pc s) (pendings s) (threads s) (pushed s) (ran s).
(** The next [pending()] begins. *)
Definition run_next (f : Functor) (rest : list Functor) (s : lstate) : lstate :=
  mkL (pendings s) (calling s) (quitting s) (counter s) (pc s) rest (threads s) (pushed s) (ran s ++ [f]).

(** ** Steps *)

(** Steps of the loop's thread.  Handlers and tasks may queue tasks and stop
    the loop: on the loop's thread [QueueInLoop] wakes the loop only while
    [calling_pendings_] is set, [Stop] does not. *)
Inductive loop_step : lstate → lstate → Prop :=
  | check_go s : pc s = AtCheck → quitting s = false → loop_step s (set_pc InPoll s)
  | check_end s : pc s = AtCheck → quitting s = true → loop_step s (set_pc AtReturned s)
  | poll_wakeup s : pc s = InPoll → counter s = true → loop_step s (set_pc (InEvents true) s)
  | poll_other s : pc s = InPoll → loop_step s (set_pc (InEvents false) s)
  | event_reset s : pc s = InEvents true →
      loop_step s (set_pc (InEvents false) (set_counter false s))
  | event_queue s b f : pc s = InEvents b → calling s = false → loop_step s (push f s)
  | event_stop s b : pc s = InEvents b → loop_step s (set_quitting s)
  | event_end s : pc s = InEvents false → loop_step s (set_pc AtCalling s)
  | call_begin s : pc s = AtCalling → loop_step s (set_pc AtSwap (set_calling true s))
  | call_swap s : pc s = AtSwap → loop_step s (set_pc InRun (swap s))
  | run_one s f rest : pc s = InRun → tmp s = f :: rest → loop_step s (run_next f rest s)
  | run_queue s f : pc s = InRun → calling s = true → loop_step s (set_pc InRunPushed (push f s))
  | run_wake s : pc s = InRunPushed → loop_step s (set_pc InRun (set_counter true s))
  | run_stop s : pc s = InRun → loop_step s (set_quitting s)
  | run_end s : pc s = InRun → tmp s = [] → loop_step s (set_pc AtCheck (set_calling false s)).

(** Steps of the other threads. *)
Inductive thread_step (t : nat) : lstate → lstate → Prop :=
  | queue_push s f : thread_at s t = Idle → thread_step t s (set_thread t Waking (push f s))
  | stop_store s : thread_at s t = Idle → thread_step t s (set_thread t Waking (set_quitting s))
  | wake s : thread_at s t = Waking → thread_step t s (set_thread t Idle (set_counter true s)).

Inductive lstep : lstate → lstate → Prop :=
  | by_loop s s' : loop_step s s' → lstep s s'
  | by_thread t s s' : thread_step t s s' → lstep s s'.

(** [Start] is entered with [running_ == false], no thread in the middle of
    a call and whatever tasks were queued before: those of other threads with
    their wakeup, those of the loop's own thread without one. *)
Definition linit (s : lstate) : Prop :=
  calling s = false ∧ quitting s = false ∧ pc s = AtCheck ∧ tmp s = [] ∧ threads s = ∅ ∧
  ran s = [] ∧ pushed s = pendings s.

Definition lreachable : lstate → Prop := reachable linit lstep.

(** ** Invariants *)

Definition waking (s : lstate) : Prop := ∃ t, thread_at s t = Waking.

(** Before the poll. *)
Definition before_poll (p : loop_pc) : bool := match p with AtCheck | InPoll => true | _ => false end.

(** [s0] is where [Start] was entered. *)
Record linv (s0 s : lstate) : Prop := {
  li_order : pushed s = ran s ++ tmp s ++ pendings s;
  li_calling : calling s = match pc s with AtSwap | InRun | InRunPushed => true | _ => false end;
  li_tmp : tmp s ≠ [] → pc s = InRun ∨ pc s = InRunPushed;
  li_run : pc s = InRun → pendings s ≠ [] → counter s = true ∨ waking s;
  li_tasks : before_poll (pc s) = true → pendings s ≠ [] →
    counter s = true ∨ waking s ∨ (ran s = [] ∧ pushed s = pendings s0);
  li_stop : pc s = InPoll → quitting s = true → counter s = true ∨ waking s;
}.

Lemma thread_at_set t p s t' :
  thread_at (set_thread t p s) t' = if bool_decide (t = t') then p else thread_at s t'.
Proof. rw /thread_at /= lookup_insert. case_decide; by case_bool_decide. Qed.

Lemma waking_set t s : waking (set_thread t Waking s).
Proof. exists t. by rw thread_at_set bool_decide_eq_true_2. Qed.

Lemma linv_init s : linit s → linv s s.
Proof.
  intros (Hc & Hq & Hp & Ht & Hth & Hr & Hpu). split; rw ?Hp ?Ht ?Hr ?Hq //. intros _ _. by right; right.
Qed.

Lemma linv_loop s0 s s' : linv s0 s → loop_step s s' → linv s0 s'.
Proof.
  intros [Ho Hc Ht Hr Hk Hs] Hstep.
  inversion Hstep as [? Hp Hq|? Hp Hq|? Hp Hn|? Hp|? Hp|? b f Hp Hca|? b Hp|? Hp|? Hp|? Hp
    |? f rest Hp Htm|? f Hp Hca|? Hp|? Hp|? Hp Htm]; subst; rw Hp in Hc Ht Hr Hk Hs;
    split; simpl; try done; try (by rw Hp); try congruence; try tauto;
    try (intros Hne; by destruct (Ht Hne)); try (by rw Ho -!app_assoc).
  - assert (tmp s = []) as Htm by (destruct (tmp s); [done|by destruct Ht]).
    by rw Ho Htm app_nil_r.
  - by rw Ho Htm -app_assoc.
Qed.

Lemma linv_thread t s0 s s' : linv s0 s → thread_step t s s' → linv s0 s'.
Proof.
  intros [Ho Hc Ht Hr Hk Hs] Hstep. inversion Hstep as [? f Hi|? Hi|? Hw]; subst; split; simpl;
    try done; try (intros; right; left; apply waking_set); try (intros; right; apply waking_set); try (by left).
  by rw Ho -!app_assoc.
Qed.

Lemma linv_steps s0 s s' : linv s0 s → rtc lstep s s' → linv s0 s'.
Proof.
  intros Hi Hs. induction Hs as [|s1 s2 s3 Hstep _ IH]; [done|]. apply IH.
  inversion Hstep as [? ? H|t ? ? H]; subst; [by eapply linv_loop|by eapply linv_thread].
Qed.

Lemma lreachable_from s : lreachable s → ∃ s0, linit s0 ∧ rtc lstep s0 s.
Proof.
  induction 1 as [s Hi|s s' _ (s0 & Hi & Hs) Hstep]; [by exists s|]. exists s0. split; [done|]. by eapply rtc_r.
Qed.
Lemma linv_reachable s : lreachable s → ∃ s0, linv s0 s.
Proof. intros (s0 & Hi & Hs)%lreachable_from. exists s0. by eapply linv_steps, Hs; apply linv_init. Qed.

(** C12: under every interleaving, the tasks pushed with [QueueInLoop] are
    run exactly once and in the order in which they were pushed: at any
    moment those run, those the loop has taken out and those still queued
    make up the sequence of all tasks pushed. *)
Theorem tasks_run_once_in_order s : lreachable s → pushed s = ran s ++ tmp s ++ pendings s.
Proof. intros [s0 H]%linv_reachable. apply (li_order _ _ H). Qed.

(** C10: no wakeup is lost: whenever the loop's thread is about to check or
    to sleep in epoll_wait while tasks are queued, the wakeup descriptor is
    readable, or some thread is just about to write to it, or nothing at all
    was pushed since [Start] was entered and the queue is what it was then;
    in this last case alone tasks may be slept on: those that the loop's own
    thread queued before [Start] have no wakeup.  For a stop request while
    the loop sleeps there is no such exception. *)
Theorem no_lost_wakeup s0 s :
  linit s0 → rtc lstep s0 s → pc s = AtCheck ∨ pc s = InPoll →
  (pendings s ≠ [] → counter s = true ∨ waking s ∨
     (ran s = [] ∧ pushed s = pendings s0 ∧ pendings s = pendings s0)) ∧
  (pc s = InPoll → quitting s = true → counter s = true ∨ waking s).
Proof.
  intros Hi Hsteps Hpc. destruct (linv_steps s0 s0 s (linv_init s0 Hi) Hsteps) as [Ho _ Ht _ Hk Hs]. split; [|done].
  assert (tmp s = []) as Htm.
  { destruct (tmp s); [done|]. destruct Hpc as [Hpc|Hpc], (Ht ltac:(done)); congruence. }
  intros Hne. destruct (Hk ltac:(by destruct Hpc as [-> | ->]) Hne) as [?|[?|[Hr Hp]]]; [by auto..|]. right; right.
  by rw -Hp Ho Hr Htm.
Qed.

(** A run: thread 1 queues a task while the loop is about to sleep. *)
Definition l0 : lstate := mkL [] false false false AtCheck [] ∅ [] [].
Definition l1 : lstate := set_pc InPoll l0.
Definition l2 : lstate := set_thread 1 Waking (push (FUser 7) l1).
Definition l3 : lstate := set_thread 1 Idle (set_counter true l2).

Lemma l2_reachable : lreachable l2.
Proof.
  apply (reach_step _ _ l1); [apply (reach_step _ _ l0); [apply reach_init|]|].
  - by split_and!.
  - by apply by_loop, check_go.
  - by apply (by_thread 1), queue_push.
Qed.
Lemma l3_reachable : lreachable l3.
Proof. apply (reach_step _ _ l2); [exact l2_reachable|]. by apply (by_thread 1), wake. Qed.

Lemma tasks_run_once_in_order_witness : pushed l2 = ran l2 ++ tmp l2 ++ pendings l2.
Proof. exact (tasks_run_once_in_order l2 l2_reachable). Defined.

Lemma l0_init : linit l0.
Proof. by split_and!. Qed.
Lemma l2_steps : rtc lstep l0 l2.
Proof.
  apply (rtc_l _ _ l1); [by apply by_loop, check_go|]. apply rtc_once. by apply (by_thread 1), queue_push.
Qed.

Lemma no_lost_wakeup_witness : pendings l2 = [FUser 7] ∧ (counter l2 = true ∨ waking l2).
Proof.
  split; [reflexivity|].
  destruct (proj1 (no_lost_wakeup l0 l2 l0_init l2_steps (or_intror eq_refl)) ltac:(done)) as [H|[H|(_ & _ & H)]];
    [by left|by right|discriminate H].
Defined.

(** The exception is real: a task that the loop's own thread queued before
    [Start], and the loop asleep. *)
Example slept_on :
  let s := mkL [FUser 7] false false false InPoll [] ∅ [FUser 7] [] in
  lreachable s ∧ counter s = false ∧ ¬ waking s.
Proof.
  intros s. split_and!; [|done|by intros [t Ht]; rw /thread_at lookup_empty in Ht].
  apply (reach_step _ _ (set_pc AtCheck s)); [by apply reach_init; split_and!|]. by apply by_loop, (check_go (set_pc AtCheck s)).
Qed.

(** ** Progress *)

Definition loop_steps : lstate → lstate → Prop := rtc loop_step.

(** What the loop's thread does next when no handler and no task queues or
    stops anything, no descriptor other than the wakeup one becomes ready and
    the poll does not time out: asleep on an empty counter, or after
    [Start], it does nothing. *)
Definition own_step (s : lstate) : option lstate :=
  match pc s with
  | AtCheck => Some (set_pc (if quitting s then AtReturned else InPoll) s)
  | InPoll => if counter s then Some (set_pc (InEvents true) s) else None
  | InEvents true => Some (set_pc (InEvents false) (set_counter false s))
  | InEvents false => Some (set_pc AtCalling s)
  | AtCalling => Some (set_pc AtSwap (set_calling true s))
  | AtSwap => Some (set_pc InRun (swap s))
  | InRun => match tmp s with f :: rest => Some (run_next f rest s) | [] => Some (set_pc AtCheck (set_calling false s)) end
  | InRunPushed => Some (set_pc InRun (set_counter true s))
  | AtReturned => None
  end.

(** [n] of these steps, as far as they go. *)
Fixpoint alone (n : nat) (s : lstate) : lstate :=
  match n with
  | O => s
  | S n => match own_step s with Some s' => alone n s' | None => s end
  end.

Lemma own_step_ok s s' : own_step s = Some s' → loop_step s s'.
Proof.
  rw /own_step. destruct (pc s) as [| |[]| | | | |] eqn:Hp; try done.
  - destruct (quitting s) eqn:Hq; intros [= <-]; [by apply check_end|by apply check_go].
  - destruct (counter s) eqn:Hc; [|done]. intros [= <-]. by apply poll_wakeup.
  - intros [= <-]. by apply event_reset.
  - intros [= <-]. by apply event_end.
  - intros [= <-]. by apply call_begin.
  - intros [= <-]. by apply call_swap.
  - destruct (tmp s) eqn:Ht; intros [= <-]; [by apply run_end|by apply run_one].
  - intros [= <-]. by apply run_wake.
Qed.

Lemma alone_add n m s : alone (n + m) s = alone m (alone n s).
Proof.
  revert s. induction n as [|n IH]; intros s; [done|]. simpl. destruct (own_step s) as [s'|] eqn:Hs; [apply IH|].
  destruct m; simpl; by rw ?Hs.
Qed.
Lemma alone_steps n s : loop_steps s (alone n s).
Proof.
  revert s. induction n as [|n IH]; intros s; simpl; [apply rtc_refl|]. destruct (own_step s) eqn:Hs; [|apply rtc_refl].
  eapply rtc_l; [by apply own_step_ok|apply IH].
Qed.

(** It runs what it has taken. *)
Lemma runs_taken s :
  pc s = InRun → let s' := alone (length (tmp s)) s in
  (pc s', tmp s', ran s', quitting s', counter s', pendings s', calling s') =
    (InRun, [], ran s ++ tmp s, quitting s, counter s, pendings s, calling s).
Proof.
  remember (tmp s) as ts eqn:Hts. revert s Hts.
  induction ts as [|f ts IH]; intros s Hts Hpc; simpl; [by rw app_nil_r -Hts Hpc|].
  rw /own_step Hpc -Hts. rw (IH (run_next f ts s)) // /= -app_assoc. done.
Qed.

(** C13: a wakeup gets the loop going and the lack of one does not.  When the
    eventfd counter is set, the sleeping loop needs no other thread, no other
    event and no time-out: the steps it takes by itself, which are
    determined, run every task pushed so far in order, and leave it asleep
    with nothing queued or, if it was asked to stop, let [Start] return; they
    are [length (pendings s) + 7] in number.  When the counter is zero it
    does not move, whatever is queued. *)
Theorem woken_loop_makes_progress s :
  lreachable s → pc s = InPoll →
  (counter s = true →
     let s' := alone (length (pendings s) + 7) s in
     loop_steps s s' ∧ own_step s' = None ∧ ran s' = pushed s ∧ pendings s' = [] ∧
     pc s' = if quitting s then AtReturned else InPoll) ∧
  (counter s = false → ∀ n, alone n s = s).
Proof.
  intros [s0 [Ho _ Ht _ _ _]]%linv_reachable Hpc. split; intros Hc.
  2:{ intros n. destruct n; [done|]. by rw /= /own_step Hpc Hc. }
  intros s'. rw Hpc in Ht. assert (tmp s = []) as Htm by (destruct (tmp s); [done|by destruct Ht]). rw Htm /= in Ho.
  set (s5 := set_pc InRun (swap (set_pc AtSwap (set_calling true (set_pc AtCalling
    (set_pc (InEvents false) (set_counter false (set_pc (InEvents true) s)))))))).
  assert (alone 5 s = s5) as H5 by by rw /= /own_step Hpc /= Hc.
  pose proof (runs_taken s5 eq_refl) as Hrun. simpl in Hrun. set (s6 := alone (length (pendings s)) s5) in *.
  injection Hrun as Hp6 Ht6 Hr6 Hq6 Hc6 Hpe6 Hca6.
  assert (s' = set_pc (if quitting s then AtReturned else InPoll) (set_pc AtCheck (set_calling false s6))) as Hs'.
  { rw /s' (_ : length (pendings s) + 7 = 5 + (length (pendings s) + 2))%nat; [lia|].
    rw alone_add H5 alone_add -/s6 /= /own_step Hp6 Ht6 /=. by rw Hq6. }
  split_and!; [apply alone_steps|..]; rw Hs' //=.
  - rw /own_step /=. destruct (quitting s); [done|]. by rw /= Hc6.
  - by rw Hr6 Ho.
Qed.

Lemma woken_loop_makes_progress_witness :
  loop_steps l3 (alone 8 l3) ∧ ran (alone 8 l3) = [FUser 7] ∧ pc (alone 8 l3) = InPoll.
Proof.
  destruct (proj1 (woken_loop_makes_progress l3 l3_reachable eq_refl) eq_refl) as (? & _ & ? & _ & ?). by split_and!.
Defined.

(** ** The definitions of EventLoop.v take these steps *)

(** The eventfd counter, from the history: a write makes it positive (one
    that fails would overflow it), a read clears it. *)
Definition eventfd_step (fd : Z) (b : bool) (e : event) : bool :=
  match e with
  | Sys (EventfdWrite fd' _) _ => if fd' =? fd then true else b
  | Sys (EventfdRead fd') _ => if fd' =? fd then false else b
  | _ => b
  end.
Definition eventfd_counter (fd : Z) (h : list event) : bool := foldl (eventfd_step fd) false h.

Lemma eventfd_counter_app fd h e :
  eventfd_counter fd (h ++ [e]) = eventfd_step fd (eventfd_counter fd h) e.
Proof. by rw /eventfd_counter foldl_app. Qed.

(** The members of loop [l] are those of [s]. *)
Record seen (l : nat) (w : World) (s : lstate) : Prop := {
  se_loop : ∃ lp, w_loops w !! l = Some lp ∧ pendings s = el_pendings_ lp ∧
    calling s = el_calling_pendings_ lp ∧ quitting s = el_quitting_ lp ∧
    counter s = eventfd_counter (el_wakeup_fd_ lp) (w_hist w);
}.

(** The operation is over: every thread is where it was before it. *)
Definition finished (s s' : lstate) : Prop := pc s' = pc s ∧ ∀ t, thread_at s' t = thread_at s t.

Lemma finished_outside t s s1 :
  thread_at s t = Idle → (pc s1, threads s1) = (pc s, threads s) → finished s (set_thread t Idle (set_counter true (set_thread t Waking s1))).
Proof.
  intros Hi [= Hp Hth]. split; [done|]. intros t'. rw !thread_at_set. case_bool_decide as D; [by subst|].
  rw /thread_at /= Hth lookup_insert_ne //.
Qed.

Definition on_loop_thread (l : nat) (w : World) : Prop :=
  ∃ lp, w_loops w !! l = Some lp ∧ el_thread_id_ lp = w_tid w.

Section simulation.
Context {os : OS}.

Lemma QueueInLoop_run l lp f E w :
  w_loops w !! l = Some lp →
  let lp' := set_el_pendings_ (el_pendings_ lp ++ [f]) lp in
  let w1 := set_w_loops (<[l := lp']> (w_loops w)) w in
  wp (QueueInLoop l f) (λ _ w', w' =
    if negb (el_thread_id_ lp =? w_tid w)%nat || el_calling_pendings_ lp
    then after_call (EventfdWrite (el_wakeup_fd_ lp) 1) w1 else w1) E w.
Proof.
  intros Hl lp' w1. rw /QueueInLoop /alter_loop /IsInLoopThread. do 2 wp_step.
  rw (alter_insert _ l lp) // -/lp' -/w1.
  assert (Hl1 : w_loops w1 !! l = Some lp') by apply lookup_insert_eq.
  wp_step. wp_step. eapply wp_get_loop; [done|]. wp_steps. eapply wp_get_loop; [done|]. simpl.
  destruct (negb _ || _); simpl; [|by wp_step].
  rw /set_wakeup. wp_step. eapply wp_get_loop; [done|]. wp_step. apply wp_syscall. by wp_step.
Qed.

Lemma Stop_run l lp E w :
  w_loops w !! l = Some lp →
  let w1 := set_w_loops (<[l := set_el_quitting_ true lp]> (w_loops w)) w in
  wp (Stop l) (λ _ w', w' =
    if negb (el_thread_id_ lp =? w_tid w)%nat
    then after_call (EventfdWrite (el_wakeup_fd_ lp) 1) w1 else w1) E w.
Proof.
  intros Hl w1. rw /Stop /alter_loop /IsInLoopThread. do 2 wp_step.
  rw (alter_insert _ l lp) // -/w1.
  assert (Hl1 : w_loops w1 !! l = Some (set_el_quitting_ true lp)) by apply lookup_insert_eq.
  wp_step. wp_step. eapply wp_get_loop; [done|]. wp_steps. simpl.
  destruct (negb _); simpl; [|by wp_step].
  rw /set_wakeup. wp_step. eapply wp_get_loop; [done|]. wp_step. apply wp_syscall. by wp_step.
Qed.

(** What the loop looks like after one of these operations. *)
Lemma seen_after l lp lp' s w w' k :
  w_loops w' = <[l := lp']> (w_loops w) → w_hist w' = w_hist w ++ k →
  pendings s = el_pendings_ lp' → calling s = el_calling_pendings_ lp' →
  quitting s = el_quitting_ lp' → el_wakeup_fd_ lp' = el_wakeup_fd_ lp →
  counter s = foldl (eventfd_step (el_wakeup_fd_ lp)) (eventfd_counter (el_wakeup_fd_ lp) (w_hist w)) k →
  seen l w' s.
Proof.
  intros Hlo Hh Hp Hc Hq Hfd Hcnt. split. exists lp'. rw Hlo lookup_insert_eq Hh Hfd.
  split_and!; try done. by rw Hcnt /eventfd_counter foldl_app.
Qed.

(** The two steps of a call from outside. *)
Lemma outside_steps t (g : lstate → lstate) s :
  thread_at s t = Idle →
  (∀ s, thread_at s t = Idle → thread_step t s (set_thread t Waking (g s))) →
  rtc (thread_step t) s (set_thread t Idle (set_counter true (set_thread t Waking (g s)))).
Proof.
  intros Hi Hg. eapply rtc_l; [by apply Hg|]. apply rtc_once, wake.
  by rw thread_at_set bool_decide_eq_true_2.
Qed.

Lemma outside_loop l lp w : w_loops w !! l = Some lp → ¬ on_loop_thread l w →
  negb (el_thread_id_ lp =? w_tid w)%nat = true.
Proof.
  intros Hl Hout. apply negb_true_iff, Nat.eqb_neq. intros Heq. apply Hout. by exists lp.
Qed.

Lemma inside_loop l lp w : w_loops w !! l = Some lp → on_loop_thread l w →
  negb (el_thread_id_ lp =? w_tid w)%nat = false.
Proof.
  intros Hl (lp' & Hl' & Ht). simplify_eq. by rw Ht Nat.eqb_refl.
Qed.

Lemma queue_outside l f w s :
  seen l w s → ¬ on_loop_thread l w → thread_at s (w_tid w) = Idle →
  ∃ w' s', QueueInLoop l f w = Done () w' ∧ rtc (thread_step (w_tid w)) s s' ∧
    seen l w' s' ∧ finished s s' ∧ pushed s' = pushed s ++ [f].
Proof.
  intros [(lp & Hl & Hp & Hc & Hq & Hcnt)] Hout Hi.
  destruct (wp_done _ _ _ (QueueInLoop_run l lp f never w Hl)) as ([] & w' & Hrun & Hw').
  rw (outside_loop l lp w Hl Hout) /= in Hw'. subst w'. eexists _, _. split; [done|].
  split; [by apply (outside_steps _ (push f)); [|intros ? ?; apply queue_push]|].
  split; [|split; [by apply finished_outside|done]].
  eapply (seen_after l lp); [done|done|by rw /= Hp|done|done|done|]. by rw /= Z.eqb_refl.
Qed.

Lemma stop_outside l w s :
  seen l w s → ¬ on_loop_thread l w → thread_at s (w_tid w) = Idle →
  ∃ w' s', Stop l w = Done () w' ∧ rtc (thread_step (w_tid w)) s s' ∧
    seen l w' s' ∧ finished s s' ∧ quitting s' = true.
Proof.
  intros [(lp & Hl & Hp & Hc & Hq & Hcnt)] Hout Hi.
  destruct (wp_done _ _ _ (Stop_run l lp never w Hl)) as ([] & w' & Hrun & Hw').
  rw (outside_loop l lp w Hl Hout) /= in Hw'. subst w'. eexists _, _. split; [done|].
  split; [by apply (outside_steps _ set_quitting); [|intros ? ?; apply stop_store]|].
  split; [|split; [by apply finished_outside|done]]. eapply (seen_after l lp); [done..|]. by rw /= Z.eqb_refl.
Qed.

(** A handler or a task. *)
Definition in_callback (s : lstate) : Prop :=
  (∃ b, pc s = InEvents b ∧ calling s = false) ∨ (pc s = InRun ∧ calling s = true).

Lemma queue_inside l f w s :
  seen l w s → on_loop_thread l w → in_callback s →
  ∃ w' s', QueueInLoop l f w = Done () w' ∧ loop_steps s s' ∧
    seen l w' s' ∧ finished s s' ∧ pushed s' = pushed s ++ [f].
Proof.
  intros [(lp & Hl & Hp & Hc & Hq & Hcnt)] Hin Hcb.
  destruct (wp_done _ _ _ (QueueInLoop_run l lp f never w Hl)) as ([] & w' & Hrun & Hw').
  rw (inside_loop l lp w Hl Hin) -Hc /= in Hw'.
  destruct Hcb as [(b & Hpc & Hcall)|[Hpc Hcall]]; rw Hcall in Hw'; subst w'.
  - eexists _, (push f s). split_and!; [done|by eapply rtc_once, event_queue| |done..].
    eapply (seen_after l lp _ _ w _ []); [done|by rw app_nil_r|by rw /= Hp|done..].
  - eexists _, (set_pc InRun (set_counter true (set_pc InRunPushed (push f s)))).
    split_and!; [done| | |done..].
    + eapply rtc_l; [by apply run_queue|]. by apply rtc_once, run_wake.
    + eapply (seen_after l lp); [done|done|by rw /= Hp|done|done|done|]. by rw /= Z.eqb_refl.
Qed.

Lemma stop_inside l w s :
  seen l w s → on_loop_thread l w → in_callback s →
  ∃ w' s', Stop l w = Done () w' ∧ loop_steps s s' ∧ seen l w' s' ∧ finished s s' ∧ quitting s' = true.
Proof.
  intros [(lp & Hl & Hp & Hc & Hq & Hcnt)] Hin Hcb.
  destruct (wp_done _ _ _ (Stop_run l lp never w Hl)) as ([] & w' & Hrun & Hw').
  rw (inside_loop l lp w Hl Hin) /= in Hw'. subst w'. eexists _, (set_quitting s).
  split_and!; [done| | |done..].
  - apply rtc_once. destruct Hcb as [(b & Hpc & _)|[Hpc _]]; [by eapply event_stop|by apply run_stop].
  - eapply (seen_after l lp _ _ w _ []); [done|by rw app_nil_r|done..].
Qed.

Lemma reset_step l w s :
  seen l w s → pc s = InEvents true →
  ∃ w' s', reset_wakeup l w = Done () w' ∧ loop_step s s' ∧ seen l w' s' ∧ pc s' = InEvents false.
Proof.
  intros [(lp & Hl & Hp & Hc & Hq & Hcnt)] Hpc. set (k := EventfdRead (el_wakeup_fd_ lp)).
  exists (after_call k w), (set_pc (InEvents false) (set_counter false s)). split_and!.
  - by rw /reset_wakeup /get_loop /mbind /M_bind /= Hl.
  - by apply event_reset.
  - eapply (seen_after l lp lp); [by rw insert_id|done..|]. by rw /= Z.eqb_refl.
  - done.
Qed.

(** C14: [QueueInLoop] and [Stop] as defined by their whole bodies are
    complete runs of these steps, after which every thread is where it was:
    from another thread, the push or the store followed by the wakeup; on the
    loop's thread, the step a handler or a task takes, with the wakeup where
    the system has one.  [reset_wakeup] is the step that handles the wakeup
    event.  So a body that forgot the wakeup would not be such a run. *)
Theorem loop_operations_take_steps l f w s :
  seen l w s →
  (¬ on_loop_thread l w → thread_at s (w_tid w) = Idle →
     (∃ w' s', QueueInLoop l f w = Done () w' ∧ rtc (thread_step (w_tid w)) s s' ∧
        seen l w' s' ∧ finished s s' ∧ pushed s' = pushed s ++ [f]) ∧
     (∃ w' s', Stop l w = Done () w' ∧ rtc (thread_step (w_tid w)) s s' ∧
        seen l w' s' ∧ finished s s' ∧ quitting s' = true)) ∧
  (on_loop_thread l w → in_callback s →
     (∃ w' s', QueueInLoop l f w = Done () w' ∧ loop_steps s s' ∧
        seen l w' s' ∧ finished s s' ∧ pushed s' = pushed s ++ [f]) ∧
     (∃ w' s', Stop l w = Done () w' ∧ loop_steps s s' ∧ seen l w' s' ∧ finished s s' ∧ quitting s' = true)) ∧
  (pc s = InEvents true →
     ∃ w' s', reset_wakeup l w = Done () w' ∧ loop_step s s' ∧ seen l w' s' ∧ pc s' = InEvents false).
Proof.
  intros Hs. split_and!.
  - intros Hout Hi. split; [by apply queue_outside|by apply stop_outside].
  - intros Hin Hcb. split; [by apply queue_inside|by apply stop_inside].
  - by apply reset_step.
Qed.
End simulation.

(** Another thread queues a task and stops the loop of the sample world. *)
Definition outside_world : World := set_w_tid 1 sample_world.

Lemma seen_outside : seen 1 outside_world l1.
Proof. split. by exists sample_loop. Qed.

Lemma loop_operations_take_steps_witness :
  ∃ w' s', QueueInLoop (os := sample_os) 1 (FUser 7) outside_world = Done () w' ∧
    rtc (thread_step 1) l1 s' ∧ seen 1 w' s' ∧ finished l1 s' ∧ pushed s' = [FUser 7].
Proof.
  refine (proj1 (proj1 (loop_operations_take_steps (os := sample_os) 1 (FUser 7) outside_world l1
    seen_outside) _ eq_refl)).
  intros (lp & [= <-] & Ht). discriminate Ht.
Defined.

(** Before [Start] the loop's own thread is in no callback: a task queued
    there is pushed without a wakeup and waits for the first poll to end. *)
Example queued_before_start :
  ∃ w', QueueInLoop (os := sample_os) 1 (FUser 7) sample_world = Done () w' ∧
    el_pendings_ <$> w_loops w' !! 1%nat = Some [FUser 7] ∧ eventfd_counter 4 (w_hist w') = false.
Proof. eexists. by vm_compute. Qed.
