(* ===== verification/LoopLife.v ===== *)
(** * LoopLife: construction and destruction of loops

    The constructors and destructors of [EPoller], [TimerQueue] and
    [EventLoop], member by member in the order of the declarations in
    include/benet/eventloop.h.  A constructed loop satisfies the invariants
    the other files start from: [loop_ok] of Reactor and [tq_ok] of
    TimerSpec. *)

From S2P Require Import Prelude Buffer World Kernel Poller Channel Sample Reactor EventLoop.
From S2P Require Import Timer Socket TimerSpec.

Section operations.
Context {os : OS} {heap : Heap}.

(** ** Descriptors *)

Definition create_epollfd : M World Z := or_die EpollCreate.
Definition create_eventfd : M World Z := or_die EventfdCreate.
Definition create_timerfd : M World Z := or_die TimerfdCreate.
(** [::close(fd)] with its result ignored *)
Definition close_fd (fd : Z) : M World () := _ ← syscall (SysClose fd); mret ().

(** ** TimerQueue *)

Definition TimerQueue_ctor (l : nat) : M World () :=
  timerfd ← create_timerfd;
  ch ← make_channel l timerfd;
  alter_tq (λ _, mkTimerQueue timerfd ch [] false ∅ []) l ;;
  BindReadCallback ch (CbTimerfd l) ;;
  EnableReadEvent ch.

(** The body of the destructor, then the channel it owns. *)
Definition TimerQueue_dtor (l : nat) : M World () :=
  tq ← get_tq l;
  DisableAllEvent (tq_timerfd_channel_ tq) ;;
  RemoveFromLoop (tq_timerfd_channel_ tq) ;;
  close_fd (tq_timerfd_ tq) ;;
  Channel_dtor (tq_timerfd_channel_ tq).

(** ** EventLoop *)

(** A member that is not constructed yet. *)
Definition unbuilt : TimerQueue := mkTimerQueue (-1) O [] false ∅ [].

(** The members up to [wakeup_channel_], which is returned. *)
Definition loop_members (l : nat) : M World nat :=
  epoll_fd ← create_epollfd;
  wakeup_fd ← create_eventfd;
  wakeup_channel ← make_channel l wakeup_fd;
  modify (λ w, set_w_loops (<[l := mkEventLoop false false (w_tid w) false (EPoller_new epoll_fd)
    0 [] None false [] wakeup_fd wakeup_channel unbuilt]> (w_loops w)) w) ;;
  mret wakeup_channel.

Definition EventLoop_ctor : M World nat :=
  w ← get;
  let l := heap_new (dom (w_loops w)) in
  wakeup_channel ← loop_members l;
  TimerQueue_ctor l ;;
  w ← get;
  (if w_tls w !! w_tid w is Some _ then critical
   else modify (λ w, set_w_tls (<[w_tid w := l]> (w_tls w)) w)) ;;
  BindReadCallback wakeup_channel (CbResetWakeup l) ;;
  EnableReadEvent wakeup_channel ;;
  mret l.

(** The body of the destructor, then the members that do something: the
    timer queue, the wakeup channel, the poller. *)
Definition EventLoop_dtor (l : nat) : M World () :=
  lp ← get_loop l;
  assert_ (negb (el_running_ lp)) ;;
  DisableAllEvent (el_wakeup_channel_ lp) ;;
  RemoveFromLoop (el_wakeup_channel_ lp) ;;
  close_fd (el_wakeup_fd_ lp) ;;
  modify (λ w, set_w_tls (delete (w_tid w) (w_tls w)) w) ;;
  TimerQueue_dtor l ;;
  Channel_dtor (el_wakeup_channel_ lp) ;;
  close_fd (ep_epoll_fd_ (el_poller_ lp)) ;;
  modify (λ w, set_w_loops (delete l (w_loops w)) w).

Definition CurrentThreadEventLoop : M World (option nat) :=
  w ← get; mret (w_tls w !! w_tid w).
End operations.

(** ** Building up [loop_ok] *)

Lemma make_channel_ok {heap : Heap} `{!HeapFresh heap} l fd Q E w :
  (∀ c, w_chans w !! c = None → c ≠ O →
    Q c (set_w_chans (<[c := Channel_new l fd]> (w_chans w)) w)) →
  wp (make_channel l fd) Q E w.
Proof.
  intros HQ. rw /make_channel. do 4 wp_step. destruct (heap_fresh (dom (w_chans w))) as [Hn H0].
  apply HQ; [by apply not_elem_of_dom|done].
Qed.

(** A new channel joins a loop. *)
Lemma loop_ok_new_channel l c fd w :
  loop_ok l w → w_chans w !! c = None →
  (∀ c' ch', w_chans w !! c' = Some ch' → ch_loop_ ch' = l → ch_fd_ ch' ≠ fd) →
  loop_ok l (set_w_chans (<[c := Channel_new l fd]> (w_chans w)) w).
Proof.
  intros [[H1 H2 H3 H4] Hlp Hfds] Hc Hfd. split; [split|done|]; simpl.
  - intros lp fd' c' Hl Hm. destruct (H1 lp fd' c' Hl Hm) as (ch & Hch & ?). exists ch.
    rw lookup_insert_ne //. by intros ->; simplify_eq.
  - intros lp c' ch Hl. rw lookup_insert. case_decide; [by intros [= <-] _ []|by apply H2].
  - intros lp fd' Hl. specialize (H3 lp fd' Hl).
    destruct (ep_channels_ (el_poller_ lp) !! fd') as [c'|] eqn:Hm; [|done].
    destruct (H1 lp fd' c' Hl Hm) as (ch & Hch & _). simpl in *.
    rw /registration /= lookup_insert_ne //. by intros ->; simplify_eq.
  - done.
  - intros c1 c2 ch1 ch2. rw !lookup_insert.
    case_decide as D1; case_decide as D2; simplify_eq; try done.
    + intros [= <-] H2' _ Hl Hf. by destruct (Hfd c2 ch2).
    + intros H1' [= <-] Hl _ Hf. by destruct (Hfd c1 ch1).
    + by apply Hfds.
Qed.

(** What [loop_ok] reads of the world. *)
Lemma loop_ok_equiv l w w' :
  poller_equiv l w w' → (∀ lp', w_loops w' !! l = Some lp' → ∃ lp, w_loops w !! l = Some lp ∧
    el_thread_id_ lp = el_thread_id_ lp') → is_Some (w_loops w' !! l) →
  w_tid w' = w_tid w → loop_ok l w → loop_ok l w'.
Proof.
  intros He Hth [lp' Hl'] Ht [Hinv (lp & Hl & Htid) Hfds]. split.
  - by eapply poller_inv_equiv.
  - exists lp'. split; [done|]. destruct (Hth lp' Hl') as (lp0 & ? & <-). simplify_eq. by rw Ht.
  - intros c1 c2 ch1 ch2 H1 H2 Hl1 Hl2 Hf.
    pose proof (pe_chans _ _ _ He c1) as E1. pose proof (pe_chans _ _ _ He c2) as E2.
    rw H1 in E1. rw H2 in E2. apply fmap_Some in E1 as (d1 & ? & E1), E2 as (d2 & ? & E2).
    unfold chan_core in *. eapply (Hfds c1 c2 d1 d2); congruence.
Qed.

(** A channel bound to [cb] and wanting read events. *)
Definition reading (l : nat) (fd : Z) (cb : callback) : Channel :=
  changed (λ e, Z.lor e kReadEvent) (set_ch_on_read_ (Some cb) (Channel_new l fd)).

Section life.
Context {os : OS} {heap : Heap} `{!HeapFresh heap, !FdFresh os, !EpollDelOk os, !EpollCtlRet os}.
Implicit Types (w : World) (lp : EventLoop).

(** Binding a callback is nothing the poller sees. *)
Lemma bind_read_ok l c ch cb w :
  loop_ok l w → w_chans w !! c = Some ch →
  loop_ok l (set_w_chans (<[c := set_ch_on_read_ (Some cb) ch]> (w_chans w)) w).
Proof.
  intros Hok Hc.
  apply (loop_ok_equiv l w); [|by eauto|destruct Hok as [_ (lp & ? & _) _]; by exists lp|done|done].
  eapply (poller_equiv_quiet _ []); [done| |by rw app_nil_r|done].
  intros c'. rw /= lookup_insert. case_decide; [subst|done]. by rw Hc.
Qed.

Lemma wp_BindReadCallback c ch cb (Q : () → World → Prop) E w :
  w_chans w !! c = Some ch →
  Q () (set_w_chans (<[c := set_ch_on_read_ (Some cb) ch]> (w_chans w)) w) →
  wp (BindReadCallback c cb) Q E w.
Proof. intros Hc HQ. rw /BindReadCallback /alter_chan. wp_step. by rw (alter_insert _ _ _ _ Hc). Qed.

Lemma change_events_loop f l c ch w :
  loop_ok l w → w_chans w !! c = Some ch → ch_loop_ ch = l →
  wp (change_events f c) (λ _ w', loop_ok l w' ∧ chan_frame l c (changed f ch) w w') only_exit w.
Proof.
  intros Hok Hc Hcl. destruct (loop_ok_ready l c ch w) as [lp Hr]; [done..|].
  eapply wp_conseq; [by apply (change_events_ok _ l c ch lp)|]. intros [] w' (lp' & Hr' & Hf).
  by destruct (loop_ok_frame l c ch _ w w' Hok (cr_inv _ _ _ _ _ Hr') Hf) as [Hok' _].
Qed.

Lemma register_ok l c fd cb w :
  loop_ok l w → w_chans w !! c = Some (Channel_new l fd) →
  wp (BindReadCallback c cb ;; EnableReadEvent c)
    (λ _ w', loop_ok l w' ∧ chan_frame l c (reading l fd cb) w w') only_exit w.
Proof.
  intros Hok Hc. wp_step. eapply wp_BindReadCallback; [done|]. set (w1 := set_w_chans _ w).
  eapply wp_conseq; [apply (change_events_loop _ l c); [by apply bind_read_ok|apply lookup_insert_eq|done]|].
  intros [] w' [Hok' [? ? ? Hch ? ? ?]]. split; [done|]. split; try done. by rw Hch /= insert_insert_eq.
Qed.

(** Calls the poller does not see. *)
Lemma loop_ok_call l k w :
  quiet (Sys k (os_reply (w_hist w) k)) = true → loop_ok l w → loop_ok l (after_call k w).
Proof.
  intros Hq Hok. destruct (lo_loop _ _ Hok) as (lp & Hl & _).
  apply (loop_ok_equiv l w); [|by eauto|by exists lp|done|done].
  apply (poller_equiv_quiet _ [Sys k (os_reply (w_hist w) k)]); [done|done|done|by cbn [forallb]; rw Hq].
Qed.

(** The descriptor a creating call returns, if the process goes on. *)
Lemma or_die_fd k (Q : Z → World → Prop) w :
  creates k = true →
  (let fd := r_ret (os_reply (w_hist w) k) in
   0 ≤ fd → fd ∉ open_fds (w_hist w) →
   open_fds (w_hist (after_call k w)) = {[fd]} ∪ open_fds (w_hist w) → Q fd (after_call k w)) →
  wp (or_die k) Q only_exit w.
Proof.
  intros Hk HQ. rw /or_die. wp_step. apply wp_syscall.
  destruct (Z.ltb_spec (r_ret (os_reply (w_hist w) k)) 0) as [|Hge]; [done|]. wp_step.
  apply HQ; [done|by apply fd_fresh|]. simpl. rw open_fds_app /fds_step Hk.
  assert ((0 <=? r_ret (os_reply (w_hist w) k)) = true) as -> by lia. by destruct k.
Qed.

(** ** A loop just built *)

(** An idle loop on the running thread, with its two channels armed for
    reading and bound, an empty timer queue and nothing queued. *)
Record loop_built (l : nat) (w w' : World) : Prop := {
  lb_new : w_loops w !! l = None;
  lb_ok : loop_ok l w';
  lb_loop : ∃ lp, w_loops w' !! l = Some lp ∧
    (el_running_ lp, el_quitting_ lp, el_event_handing_ lp, el_calling_pendings_ lp) =
      (false, false, false, false) ∧
    el_pendings_ lp = [] ∧ tq_ok l lp w' ∧ tq_timers_ (el_timer_queue_ lp) = [] ∧
    0 < ep_events_size (el_poller_ lp) ∧
    let wc := el_wakeup_channel_ lp in
    let tc := tq_timerfd_channel_ (el_timer_queue_ lp) in
    wc ≠ tc ∧ w_chans w !! wc = None ∧ w_chans w !! tc = None ∧
    w_chans w' = <[wc := reading l (el_wakeup_fd_ lp) (CbResetWakeup l)]>
      (<[tc := reading l (tq_timerfd_ (el_timer_queue_ lp)) (CbTimerfd l)]> (w_chans w));
  lb_fds : ∀ c ch, w_chans w' !! c = Some ch → ch_loop_ ch = l → ch_fd_ ch ∈ open_fds (w_hist w');
  lb_tls : w_tls w' = <[w_tid w := l]> (w_tls w);
  lb_rest : (w_tid w', w_timers w', w_conns w', w_accs w', w_servers w', w_next_conn_id_ w', w_next_index_ w') =
            (w_tid w, w_timers w, w_conns w, w_accs w, w_servers w, w_next_conn_id_ w, w_next_index_ w);
  lb_loops : ∀ l', l' ≠ l → w_loops w' !! l' = w_loops w !! l';
}.

(** The numbers the kernel gives out for a new epoll instance are new to it. *)
Definition epoll_clean w : Prop :=
  let epfd := r_ret (os_reply (w_hist w) EpollCreate) in
  interest epfd (w_hist w) = ∅ ∧ ctl_ok epfd (w_hist w).

(** A loop with an empty poller and at most one, unregistered channel. *)
Lemma loop_ok_fresh l c0 lp w :
  w_loops w !! l = Some lp → el_thread_id_ lp = w_tid w → ep_channels_ (el_poller_ lp) = ∅ →
  interest (ep_epoll_fd_ (el_poller_ lp)) (w_hist w) = ∅ →
  ctl_ok (ep_epoll_fd_ (el_poller_ lp)) (w_hist w) →
  (∀ c ch, w_chans w !! c = Some ch → ch_loop_ ch = l → c = c0 ∧ ch_index_ ch = kNewChannel) →
  loop_ok l w.
Proof.
  intros Hl Ht Hm Hi Hctl Hch. split; [split| |].
  - intros ? fd c ?. simplify_eq. by rw Hm lookup_empty.
  - intros ? c ch ? Hc Hlo Hn. by destruct (Hch c ch Hc Hlo).
  - intros ? fd ?. simplify_eq. by rw Hm lookup_empty Hi lookup_empty.
  - intros ? ?. by simplify_eq.
  - by exists lp.
  - intros c1 c2 ch1 ch2 H1 H2 Hl1 Hl2 _.
    destruct (Hch c1 ch1 H1 Hl1) as [-> _], (Hch c2 ch2 H2 Hl2) as [-> _]. done.
Qed.

Definition built_queue (fd : Z) (c : nat) : TimerQueue := mkTimerQueue fd c [] false ∅ [].

(** Operations on channels neither open nor close descriptors. *)
Lemma frame_fds l c ch' w w' : chan_frame l c ch' w w' → open_fds (w_hist w') = open_fds (w_hist w).
Proof.
  intros Hf. destruct (cf_hist _ _ _ _ _ Hf) as [-> |(? & ? & ? & ? & ? & ->)]; [done|]. by rw open_fds_app.
Qed.

Lemma TimerQueue_ctor_ok l lp w :
  loop_ok l w → w_loops w !! l = Some lp →
  (∀ c ch, w_chans w !! c = Some ch → ch_loop_ ch = l → ch_fd_ ch ∈ open_fds (w_hist w)) →
  wp (TimerQueue_ctor l) (λ _ w', loop_ok l w' ∧ ∃ c fd m, w_chans w !! c = None ∧
    open_fds (w_hist w') = {[fd]} ∪ open_fds (w_hist w) ∧
    w_chans w' = <[c := reading l fd (CbTimerfd l)]> (w_chans w) ∧
    w_loops w' = <[l := with_channels m (with_tq (built_queue fd c) lp)]> (w_loops w) ∧
    (w_tid w', w_timers w', w_conns w', others w') = (w_tid w, w_timers w, w_conns w, others w))
    only_exit w.
Proof.
  intros Hok Hl Hfds. rw /TimerQueue_ctor. wp_step. apply or_die_fd; [done|].
  intros fd Hge Hnew Ho. set (w1 := after_call _ w) in *.
  assert (loop_ok l w1) as Hok1 by by apply loop_ok_call.
  wp_step. apply make_channel_ok. intros c Hc H0. set (w2 := set_w_chans _ w1).
  assert (loop_ok l w2) as Hok2.
  { apply loop_ok_new_channel; [done|done|]. intros c' ch' Hc' Hlo' Hf. apply Hnew. rw -/fd -Hf. by eapply Hfds. }
  wp_step. eapply wp_alter_tq; [done|]. set (w3 := set_w_loops _ w2).
  assert (loop_ok l w3) as Hok3.
  { apply (loop_ok_equiv l w2); [|..|done|done].
    - apply (poller_equiv_quiet _ []); [|done|by rw app_nil_r|done].
      by rw /poller_view /= lookup_insert_eq Hl.
    - intros lp'. rw /= lookup_insert_eq. intros [= <-]. by exists lp.
    - rw /= lookup_insert_eq. by eexists. }
  eapply wp_conseq; [apply (register_ok l c fd (CbTimerfd l)); [done|apply lookup_insert_eq]|].
  intros [] w' [Hok' Hf]. pose proof (frame_fds _ _ _ _ _ Hf) as Hof.
  destruct Hf as [Ht Hcn Htm Hch [m Hlo] _ Hot]. split; [done|]. exists c, fd, m.
  split_and!; [done|by rw Hof|by rw Hch /= insert_insert_eq| |by rw Ht Hcn Htm Hot].
  by rw Hlo /= (alter_insert _ _ _ _ (lookup_insert_eq _ _ _)) insert_insert_eq.
Qed.

Definition idle_loop (tid : nat) (epfd fd : Z) (c : nat) : EventLoop :=
  mkEventLoop false false tid false (EPoller_new epfd) 0 [] None false [] fd c unbuilt.

Lemma loop_members_ok w :
  let l := heap_new (dom (w_loops w)) in
  (∀ c ch, w_chans w !! c = Some ch → ch_loop_ ch ≠ l) → epoll_clean w →
  wp (loop_members l) (λ c w', ∃ epfd fd, w_chans w !! c = None ∧ loop_ok l w' ∧
    (∀ c' ch, w_chans w' !! c' = Some ch → ch_loop_ ch = l → ch_fd_ ch ∈ open_fds (w_hist w')) ∧
    w_chans w' = <[c := Channel_new l fd]> (w_chans w) ∧
    w_loops w' = <[l := idle_loop (w_tid w) epfd fd c]> (w_loops w) ∧
    (w_tid w', w_timers w', w_conns w', others w') = (w_tid w, w_timers w, w_conns w, others w))
    only_exit w.
Proof.
  intros l Hdangle [Hclean Hctl]. rw /loop_members. wp_step. apply or_die_fd; [done|].
  intros epfd He _ Ho1. set (w1 := after_call _ w) in *. wp_step. apply or_die_fd; [done|].
  intros fd Hge Hnew Ho2. set (w2 := after_call _ w1) in *.
  assert (forallb quiet (drop (length (w_hist w)) (w_hist w2)) = true ∧
    w_hist w2 = w_hist w ++ drop (length (w_hist w)) (w_hist w2)) as [Hq Hh].
  { by rw /= -app_assoc drop_app_length. }
  wp_step. apply make_channel_ok. intros c Hc H0. do 3 wp_step. simpl.
  assert (∀ c' ch, <[c := Channel_new l fd]> (w_chans w) !! c' = Some ch → ch_loop_ ch = l →
    c' = c ∧ ch = Channel_new l fd) as Hone.
  { intros c' ch. rw lookup_insert. case_decide; [by intros [= <-]|]. intros Hx Hlo. by destruct (Hdangle c' ch Hx). }
  exists epfd, fd. split_and!; [done| | |done|done|done].
  - eapply (loop_ok_fresh l c); [apply lookup_insert_eq|done|done|..]; cbn [w_chans w_hist set_w_loops set_w_chans].
    + by rw Hh interest_quiet.
    + rw Hh. by apply ctl_ok_quiet.
    + by intros c' ch H [-> ->]%(Hone c' ch H).
  - intros c' ch H Hlo. destruct (Hone c' ch H Hlo) as [-> ->]. cbn [w_hist set_w_loops set_w_chans].
    rw Ho2. set_solver.
Qed.

Lemma built_queue_ok l lp fd c w :
  w_loops w !! l = Some lp → el_thread_id_ lp = w_tid w → el_pendings_ lp = [] →
  el_timer_queue_ lp = built_queue fd c → tq_ok l lp w.
Proof.
  intros Hl Ht Hp Htq. split_and!; [done|done| |].
  - rw Htq. split; simpl; [constructor|by intros ? ? ?%elem_of_nil|by intros ? ?%elem_of_nil|constructor|constructor].
  - intros t. rw timer_owned_spec Htq Hp /=. set_solver.
Qed.

Lemma EventLoop_ctor_ok w :
  (∀ c ch, w_chans w !! c = Some ch → ch_loop_ ch ≠ heap_new (dom (w_loops w))) → epoll_clean w →
  wp EventLoop_ctor (λ l w', w_tls w !! w_tid w = None ∧ loop_built l w w') only_exit w.
Proof.
  intros Hdangle Hclean. rw /EventLoop_ctor. do 2 wp_step. wp_step.
  set (l := heap_new (dom (w_loops w))) in *.
  assert (w_loops w !! l = None) as Hnl by by apply not_elem_of_dom, heap_fresh.
  eapply wp_conseq; [by apply loop_members_ok|].
  intros wc w1 (epfd & fd & Hwc & Hok1 & Hfds1 & Hch1 & Hlo1 & Hr1). wp_step.
  eapply wp_conseq; [apply (TimerQueue_ctor_ok l (idle_loop (w_tid w) epfd fd wc)); [done| |done]|].
  { by rw Hlo1 lookup_insert_eq. }
  intros [] w2 (Hok2 & tc & tfd & m & Htc & Hop2 & Hch2 & Hlo2 & Hr2). rw Hr1 in Hr2.
  injection Hr2 as Ht2 Htm2 Hcn2 Hac2 Hsv2 Htls2 Hid2 Hix2.
  assert (tc ≠ wc) as Hne by (intros ->; by rw Hch1 lookup_insert_eq in Htc).
  wp_step. wp_step. rw Ht2 Htls2. wp_step. destruct (w_tls w !! w_tid w) as [l0|] eqn:Htls; [done|].
  wp_step. set (w3 := set_w_tls _ w2).
  assert (loop_ok l w3) as Hok3.
  { apply (loop_ok_equiv l w2); [|by eauto|by rw /= Hlo2 lookup_insert_eq; eexists|done|done].
    by apply (poller_equiv_quiet _ []); [done|done|rw app_nil_r|]. }
  assert (∀ P, wp (BindReadCallback wc (CbResetWakeup l) ;; EnableReadEvent wc)
    (λ _ w', P l w') only_exit w3 →
    wp (BindReadCallback wc (CbResetWakeup l) ;; EnableReadEvent wc ;; mret l) P only_exit w3) as Hk.
  { intros P. rw !wp_bind. intros H. eapply wp_conseq; [done|]. intros [] w4 H4.
    rw wp_bind. eapply wp_conseq; [done|]. by intros []. }
  apply Hk. eapply wp_conseq; [apply (register_ok l wc fd); [done|]|].
  { by rw /= Hch2 Hch1 lookup_insert_ne // lookup_insert_eq. }
  intros [] w' [Hok' Hf']. pose proof (frame_fds _ _ _ _ _ Hf') as Hop'.
  destruct Hf' as [Ht' Hcn' Htm' Hch' [m' Hlo'] _ Hot']. split; [done|].
  injection Hot' as Hac' Hsv' Htls' Hid' Hix'. simpl in *.
  rw Hlo2 Hlo1 insert_insert_eq (alter_insert _ _ _ _ (lookup_insert_eq _ _ _)) insert_insert_eq in Hlo'.
  split; [done|done| | |by rw Htls' Ht2 Htls2|
    by rw Ht' Htm' Hcn' Hac' Hsv' Hid' Hix' Ht2 Htm2 Hcn2 Hac2 Hsv2 Hid2 Hix2|].
  - eexists. split; [by rw Hlo' lookup_insert_eq|]. simpl. split_and!; try done.
    + by eapply built_queue_ok; [by rw Hlo' lookup_insert_eq|rw Ht' Ht2|done|done].
    + rw Hch1 in Htc. by rw lookup_insert_ne in Htc.
    + by rw Hch' Hch2 Hch1 (insert_insert_ne _ tc wc) // insert_insert_eq.
  - intros c ch Hc Hcl. rw Hop' Hop2. rw Hch' Hch2 !lookup_insert in Hc.
    case_decide; [injection Hc as <-; apply elem_of_union_r, (Hfds1 wc (Channel_new l fd)); by rw ?Hch1 ?lookup_insert_eq|].
    case_decide; [injection Hc as <-; set_solver|]. apply elem_of_union_r. by eapply Hfds1.
  - intros l' Hl'. by rw Hlo' lookup_insert_ne.
Qed.

(** Constructing an [EventLoop] on a thread that has none ends, unless
    the kernel refuses a descriptor or an epoll_ctl and the process exits,
    with an idle loop at a new address: it belongs to this thread and is
    registered as its loop, its wakeup and timer channels are new, bound to
    their handlers and armed for reading in the kernel, its timer queue is
    empty and in order, and every other object is as before.  On a thread
    that already has a loop the construction never completes. *)
Lemma eventloop_constructed w :
  (∀ c ch, w_chans w !! c = Some ch → ch_loop_ ch ≠ heap_new (dom (w_loops w))) → epoll_clean w →
  wp EventLoop_ctor (λ l w', w_tls w !! w_tid w = None ∧ loop_built l w w') only_exit w.
Proof. apply EventLoop_ctor_ok. Qed.

(** ** Taking a loop down *)

(** A channel whose mask was cleared and that was taken from its loop. *)
Definition detached (ch : Channel) : Channel :=
  set_ch_index_ kNewChannel (set_ch_added_in_loop_ (Some false) (changed (λ _, kNoneEvent) ch)).

Definition closes (h : list event) : list Z :=
  h ≫= λ e, match e with Sys (SysClose fd) _ => [fd] | _ => [] end.

Lemma closes_app h1 h2 : closes (h1 ++ h2) = closes h1 ++ closes h2.
Proof. apply bind_app. Qed.

Record detach_frame (l c : nat) (ch' : Channel) w w' : Prop := {
  df_ok : loop_ok l w';
  df_chans : w_chans w' = <[c := ch']> (w_chans w);
  df_loops : ∃ m, w_loops w' = alter (with_channels m) l (w_loops w) ∧ m !! ch_fd_ ch' = None;
  df_rest : (w_tid w', w_timers w', w_conns w', others w') = (w_tid w, w_timers w, w_conns w, others w);
  df_closes : closes (w_hist w') = closes (w_hist w);
}.

Lemma frame_closes l c ch' w w' : chan_frame l c ch' w w' → closes (w_hist w') = closes (w_hist w).
Proof.
  intros [_ _ _ _ _ [-> |(? & ? & ? & ? & ? & ->)] _]; [done|]. by rw closes_app app_nil_r.
Qed.

Lemma detach_ok l c ch lp w :
  loop_ok l w → w_loops w !! l = Some lp → el_event_handing_ lp = false →
  w_chans w !! c = Some ch → ch_loop_ ch = l →
  wp (DisableAllEvent c ;; RemoveFromLoop c) (λ _ w', detach_frame l c (detached ch) w w') only_exit w.
Proof.
  intros Hok Hl Hev Hc Hcl. destruct (loop_ok_ready l c ch w) as [lp0 Hr]; [done..|].
  wp_step. eapply wp_conseq; [by apply (change_events_ok _ l c ch lp0)|].
  intros [] w1 (lp1 & Hr1 & Hf1).
  destruct (loop_ok_frame l c ch _ w w1 Hok (cr_inv _ _ _ _ _ Hr1) Hf1) as [Hok1 _]; [done..|].
  pose proof Hf1 as [Ht1 Hcn1 Htm1 Hch1 [m1 Hlo1] _ Hot1].
  eapply wp_mono; [apply (RemoveFromLoop_ok l c (changed (λ _, kNoneEvent) ch) lp1); [done|done|]| |done].
  { intros Hev1. pose proof (cr_lp _ _ _ _ _ Hr1) as Hl1. rw Hlo1 lookup_alter_eq Hl in Hl1.
    injection Hl1 as <-. by rw /= Hev in Hev1. }
  intros [] w2 [Hinv2 Hf2].
  destruct (loop_ok_frame l c (changed (λ _, kNoneEvent) ch) _ w1 w2 Hok1 Hinv2 Hf2) as [Hok2 _];
    [apply Hr1|done|done|].
  pose proof Hf2 as [Ht2 Hcn2 Htm2 Hch2 [m2 Hlo2] _ Hot2]. split; [done| | | |].
  - by rw Hch2 Hch1 insert_insert_eq.
  - exists m2. rw Hlo2 Hlo1 !(alter_insert _ l lp (w_loops w)) //.
    rw (alter_insert _ _ _ _ (lookup_insert_eq _ _ _)) insert_insert_eq. split; [done|].
    destruct (m2 !! _) as [c'|] eqn:Hm; [|done]. exfalso.
    destruct (lo_loop _ _ Hok1) as (lpx & Hlx & _).
    destruct (pi_map _ _ _ Hinv2 (with_channels m2 lpx) _ c' ltac:(by rw Hlo2 lookup_alter_eq Hlx) Hm)
      as (ch' & Hc' & Hfd' & Hlo' & Hix').
    assert (c' = c) as ->.
    { eapply (lo_fds _ _ Hok2); [done|by rw Hch2 lookup_insert_eq|done|done|done]. }
    rw Hch2 lookup_insert_eq in Hc'. injection Hc' as <-. by destruct Hix'.
  - by rw Ht2 Hcn2 Htm2 Hot2 Ht1 Hcn1 Htm1 Hot1.
  - by rw (frame_closes _ _ _ _ _ Hf2) (frame_closes _ _ _ _ _ Hf1).
Qed.

(** [close(2)] of a descriptor that is not in the interest list. *)
Lemma loop_ok_close l lp fd w :
  loop_ok l w → w_loops w !! l = Some lp → ep_channels_ (el_poller_ lp) !! fd = None →
  loop_ok l (after_call (SysClose fd) w).
Proof.
  intros [[H1 H2 H3 H4] Hlp Hfds] Hl Hm. split; [split|done|done]; [done|done| |].
  - intros lp0 fd' Hl0. simpl in Hl0. assert (lp0 = lp) as -> by congruence.
    specialize (H3 lp fd' Hl0) as Hi.
    assert (interest (ep_epoll_fd_ (el_poller_ lp)) (w_hist (after_call (SysClose fd) w)) =
            interest (ep_epoll_fd_ (el_poller_ lp)) (w_hist w)) as ->; [|done].
    simpl. rw interest_snoc /interest_step. destruct (_ =? 0); [|done].
    apply delete_id. specialize (H3 lp fd Hl). by rw Hm in H3.
  - intros lp0 Hl0. apply ctl_ok_snoc; [by apply H4|]. by intros ? ? [= <- <-].
Qed.

Lemma Channel_dtor_ok l c ch lp (Q : () → World → Prop) (E : failure → World → Prop) w :
  w_loops w !! l = Some lp → w_chans w !! c = Some ch → ch_loop_ ch = l →
  ep_channels_ (el_poller_ lp) !! ch_fd_ ch = None → ch_added_in_loop_ ch = Some false →
  ch_event_handing_ ch ≠ Some true → (ch_event_handing_ ch = None → E UB w) →
  (ch_event_handing_ ch = Some false → Q () (set_w_chans (delete c (w_chans w)) w)) →
  wp (Channel_dtor c) Q E w.
Proof.
  intros Hl Hc Hcl Hm Ha Hh HE HQ. rw /wp /Channel_dtor (get_chan_bind c ch) // Ha.
  destruct (ch_event_handing_ ch) as [[]|] eqn:Hev; [done| |by apply HE]. specialize (HQ eq_refl).
  rw /mbind /M_bind /= /IsInLoopThread /get_loop /mbind /M_bind /= Hcl Hl /=.
  destruct (_ =? _)%nat; simpl; [|done].
  by rw /EventLoop_HasChannel /Poller_HasChannel /get_chan /get_loop /mbind /M_bind /= Hc /= Hl /= Hm.
Qed.

(** A loop that is not running, with its two channels. *)
Record loop_whole (l : nat) lp (wch tch : Channel) w : Prop := {
  lw_ok : loop_ok l w;
  lw_loop : w_loops w !! l = Some lp;
  lw_idle : el_running_ lp = false ∧ el_event_handing_ lp = false;
  lw_wakeup : w_chans w !! el_wakeup_channel_ lp = Some wch ∧ ch_loop_ wch = l ∧
    ch_fd_ wch = el_wakeup_fd_ lp ∧ ch_event_handing_ wch ≠ Some true;
  lw_timer : let tq := el_timer_queue_ lp in
    w_chans w !! tq_timerfd_channel_ tq = Some tch ∧ ch_loop_ tch = l ∧
    ch_fd_ tch = tq_timerfd_ tq ∧ ch_event_handing_ tch ≠ Some true;
  lw_two : el_wakeup_channel_ lp ≠ tq_timerfd_channel_ (el_timer_queue_ lp);
}.

(** The ways the destructor may end the program: the kernel refuses an
    epoll_ctl, or a channel that was never dispatched is destroyed. *)
Definition dtor_fails (wch tch : Channel) (f : failure) (w : World) : Prop :=
  f = Exit2 ∨ f = UB ∧ (ch_event_handing_ tch = None ∨ ch_event_handing_ wch = None).

Lemma close_fd_ok fd (Q : () → World → Prop) E w :
  Q () (after_call (SysClose fd) w) → wp (close_fd fd) Q E w.
Proof. intros HQ. rw /close_fd. wp_step. apply wp_syscall. by wp_step. Qed.

(** A channel that is not registered may go. *)
Lemma loop_ok_delete l c ch lp w :
  loop_ok l w → w_loops w !! l = Some lp → w_chans w !! c = Some ch →
  ep_channels_ (el_poller_ lp) !! ch_fd_ ch = None →
  loop_ok l (set_w_chans (delete c (w_chans w)) w).
Proof.
  intros [[H1 H2 H3 H4] Hlp Hfds] Hl Hc Hm.
  assert (∀ fd c', ep_channels_ (el_poller_ lp) !! fd = Some c' → c' ≠ c) as Hne.
  { intros fd c' Hm' ->. destruct (H1 lp fd c Hl Hm') as (ch' & ? & <- & _). simplify_eq. }
  split; [split|done|]; simpl.
  - intros lp0 fd c' Hl0 Hm'. assert (lp0 = lp) as -> by congruence.
    rw lookup_delete_ne; [by apply not_eq_sym, (Hne fd)|]. by apply (H1 lp).
  - intros lp0 c' ch' Hl0 [_ Hc']%lookup_delete_Some. by apply H2.
  - intros lp0 fd Hl0. specialize (H3 lp0 fd Hl0). assert (lp0 = lp) as -> by congruence.
    destruct (ep_channels_ (el_poller_ lp) !! fd) as [c'|] eqn:Hm'; [|done]. simpl in *.
    rw /registration /= lookup_delete_ne //. by apply not_eq_sym, (Hne fd).
  - done.
  - intros c1 c2 ch1 ch2 [_ ?]%lookup_delete_Some [_ ?]%lookup_delete_Some. by apply Hfds.
Qed.

(** A new channel is not registered. *)
Lemma loop_ok_unregistered l c ch lp w :
  loop_ok l w → w_loops w !! l = Some lp → w_chans w !! c = Some ch → ch_loop_ ch = l →
  ch_index_ ch = kNewChannel → ep_channels_ (el_poller_ lp) !! ch_fd_ ch = None.
Proof.
  intros Hok Hl Hc Hcl Hix. destruct (loop_ok_ready l c ch w) as [lp' [_ _ _ Hl' _ Hn]]; [done..|].
  simplify_eq. by apply Hn.
Qed.

(** Detaching a channel and closing its descriptor. *)
Lemma detach_close_ok l c ch lp fd E w :
  loop_ok l w → w_loops w !! l = Some lp → el_event_handing_ lp = false →
  w_chans w !! c = Some ch → ch_loop_ ch = l → ch_fd_ ch = fd → (∀ w, E Exit2 w) →
  wp ((DisableAllEvent c ;; RemoveFromLoop c) ;; close_fd fd) (λ _ w', loop_ok l w' ∧
    (∃ m, w_loops w' = <[l := with_channels m lp]> (w_loops w)) ∧
    w_chans w' = <[c := detached ch]> (w_chans w) ∧
    (w_tid w', w_timers w', w_conns w', others w') = (w_tid w, w_timers w, w_conns w, others w) ∧
    closes (w_hist w') = closes (w_hist w) ++ [fd]) E w.
Proof.
  intros Hok Hl Hev Hc Hcl <- HE. apply wp_bind.
  eapply wp_mono; [by apply (detach_ok l c ch lp)| |by intros f w' ->].
  intros [] w2 [Hok2 Hch2 [m [Hlo2 Hm]] Hr2 Hcl2].
  rw (alter_insert _ _ lp) // in Hlo2. apply close_fd_ok.
  split_and!; [|by exists m|done|done|by rw /= closes_app Hcl2].
  eapply loop_ok_close; [done|by rw Hlo2 lookup_insert_eq|done].
Qed.

Lemma TimerQueue_dtor_ok l lp tch wch w :
  loop_ok l w → w_loops w !! l = Some lp → el_event_handing_ lp = false →
  let tq := el_timer_queue_ lp in
  w_chans w !! tq_timerfd_channel_ tq = Some tch → ch_loop_ tch = l →
  ch_fd_ tch = tq_timerfd_ tq → ch_event_handing_ tch ≠ Some true →
  wp (TimerQueue_dtor l) (λ _ w', loop_ok l w' ∧ ch_event_handing_ tch = Some false ∧
    w_chans w' = delete (tq_timerfd_channel_ tq) (w_chans w) ∧
    (∃ m, w_loops w' = <[l := with_channels m lp]> (w_loops w)) ∧
    (w_tid w', w_timers w', w_conns w', others w') = (w_tid w, w_timers w, w_conns w, others w) ∧
    closes (w_hist w') = closes (w_hist w) ++ [tq_timerfd_ tq]) (dtor_fails wch tch) w.
Proof.
  intros Hok Hl Hev tq Hc Hcl Hfd Hh. rw /TimerQueue_dtor. wp_step. eapply wp_get_tq; [done|].
  fold tq. set (c := tq_timerfd_channel_ tq) in *. do 2 apply wp_group. wp_step.
  eapply wp_conseq; [apply (detach_close_ok l c tch lp); try done; by left|].
  intros [] w3 (Hok3 & [m Hlo3] & Hch3 & Hr3 & Hcl3).
  assert (w_loops w3 !! l = Some (with_channels m lp)) as Hl3 by by rw Hlo3 lookup_insert_eq.
  assert (w_chans w3 !! c = Some (detached tch)) as Hc3 by by rw Hch3 lookup_insert_eq.
  pose proof (loop_ok_unregistered l c _ _ w3 Hok3 Hl3 Hc3 Hcl eq_refl) as Hm3.
  eapply (Channel_dtor_ok l c (detached tch)); [done..| |].
  { intros Hn. right. by auto. }
  intros Hs. split_and!; [by eapply loop_ok_delete|done| |by exists m|done|done].
  by rw /= Hch3 delete_insert_eq.
Qed.

(** C22: the destructor of a loop that is not running gives back what the
    constructor took: the two channels leave the poller and are destroyed,
    the wakeup, timer and epoll descriptors are closed, once each and in this
    order, and the thread is free for another loop.  It does so only if both
    channels were dispatched at least once before: the flag that tells
    whether a channel is being dispatched has no initial value, and reading
    it is undefined. *)
Theorem eventloop_destroyed l lp wch tch w :
  loop_whole l lp wch tch w →
  let tq := el_timer_queue_ lp in
  wp (EventLoop_dtor l) (λ _ w',
    ch_event_handing_ wch = Some false ∧ ch_event_handing_ tch = Some false ∧
    w_loops w' = delete l (w_loops w) ∧
    w_chans w' = delete (el_wakeup_channel_ lp) (delete (tq_timerfd_channel_ tq) (w_chans w)) ∧
    w_tls w' = delete (w_tid w) (w_tls w) ∧
    closes (w_hist w') = closes (w_hist w) ++
      [el_wakeup_fd_ lp; tq_timerfd_ tq; ep_epoll_fd_ (el_poller_ lp)])
    (dtor_fails wch tch) w.
Proof.
  intros [Hok Hl [Hrun Hev] (Hc & Hcl & Hfd & Hh) (Htc & Htcl & Htfd & Hth) Hne] tq.
  set (wc := el_wakeup_channel_ lp) in *. set (tc := tq_timerfd_channel_ _) in *.
  rw /EventLoop_dtor. wp_step. eapply wp_get_loop; [done|]. wp_step.
  apply wp_assert_true; [by rw Hrun|]. do 2 apply wp_group. wp_step.
  eapply wp_conseq; [apply (detach_close_ok l wc wch lp); try done; by left|].
  intros [] w1 (Hok1 & [m1 Hlo1] & Hch1 & Hr1 & Hcl1). injection Hr1 as Ht1 Htm1 Hcn1 Hac1 Hsv1 Htls1 Hid1 Hix1.
  do 2 wp_step. set (w2 := set_w_tls _ w1). set (lp1 := with_channels m1 lp).
  assert (w_loops w2 !! l = Some lp1) as Hl2 by by rw /= Hlo1 lookup_insert_eq.
  assert (loop_ok l w2) as Hok2.
  { apply (loop_ok_equiv l w1); [|by eauto|by exists lp1|done|done].
    by apply (poller_equiv_quiet _ []); [done|done|rw app_nil_r|]. }
  wp_step. eapply wp_conseq; [apply (TimerQueue_dtor_ok l lp1 tch wch); try done|].
  { by rw /= Hch1 lookup_insert_ne. }
  intros [] w3 (Hok3 & Hdisp & Hch3 & [m3 Hlo3] & Hr3 & Hcl3).
  injection Hr3 as Ht3 Htm3 Hcn3 Hac3 Hsv3 Htls3 Hid3 Hix3. simpl in *. fold tc in Hch3.
  assert (w_loops w3 !! l = Some (with_channels m3 lp1)) as Hl3 by by rw Hlo3 lookup_insert_eq.
  assert (w_chans w3 !! wc = Some (detached wch)) as Hc3
    by by rw Hch3 Hch1 lookup_delete_ne // lookup_insert_eq.
  wp_step. eapply (Channel_dtor_ok l wc (detached wch)); [done|done|done| |done|done|by right; auto|].
  { by apply (loop_ok_unregistered l wc _ _ w3). }
  intros Hdisp'. wp_step. apply close_fd_ok. wp_step. split_and!; [done|done|..].
  - by rw /= Hlo3 Hlo1 !delete_insert_eq.
  - by rw /= Hch3 Hch1 delete_delete delete_insert_eq delete_delete.
  - by rw /= Htls3 Ht1 Htls1.
  - by rw /= closes_app Hcl3 Hcl1 -!app_assoc.
Qed.
End life.

(** ** A loop on the sample system *)

Definition empty_world : World := mkWorld 0 0 [] ∅ ∅ ∅ ∅ ∅ ∅ ∅ 0 0.

Lemma eventloop_constructed_witness :
  wp (EventLoop_ctor (os := sample_os)) (λ l w', w_tls empty_world !! 0%nat = None ∧
    loop_built l empty_world w') only_exit empty_world.
Proof.
  apply (eventloop_constructed (os := sample_os)); [done|]. split; [done|].
  intros h1 c r h2 H. by destruct h1.
Defined.

Definition built_world : World := final (EventLoop_ctor (os := sample_os)) empty_world.
Definition built_loop : EventLoop := default sample_loop (w_loops built_world !! 1%nat).

(** The same after both channels were dispatched once. *)
Definition dispatched_world : World :=
  set_w_chans (set_ch_event_handing_ (Some false) <$> w_chans built_world) built_world.

Lemma built_ok : loop_built 1 empty_world built_world.
Proof.
  assert (wp (EventLoop_ctor (os := sample_os)) (λ l w', w_tls empty_world !! 0%nat = None ∧
    loop_built l empty_world w') only_exit empty_world) as H.
  { apply (EventLoop_ctor_ok (os := sample_os)); [done|]. split; [done|].
    intros h1 c r h2 Hh. by destruct h1. }
  apply wp_final in H as [l [_ H]]; [|by vm_compute]. pose proof (lb_tls _ _ _ H) as Ht.
  assert (w_tls built_world !! 0%nat = Some l) as Hl by by rw -/built_world in Ht; rw Ht lookup_insert_eq.
  vm_compute in Hl. by injection Hl as <-.
Qed.

Lemma dispatched_whole :
  loop_whole 1 built_loop (default (Channel_new 1 4) (w_chans dispatched_world !! 1%nat))
    (default (Channel_new 1 5) (w_chans dispatched_world !! 2%nat)) dispatched_world.
Proof.
  split; [|by vm_compute..].
  apply (loop_ok_equiv 1 built_world); [|by eauto|by exists built_loop; vm_compute|done|apply built_ok].
  apply (poller_equiv_quiet _ []); [done| |by rw app_nil_r|done].
  intros c. rw /= lookup_fmap. by destruct (w_chans built_world !! c).
Qed.

Lemma eventloop_destroyed_witness :
  wp (EventLoop_dtor (os := sample_os) 1) (λ _ w', w_loops w' = ∅ ∧ w_chans w' = ∅ ∧
    closes (w_hist w') = [4; 5; 3]) (λ f _, f = Exit2) dispatched_world.
Proof.
  pose proof (eventloop_destroyed (os := sample_os) 1 built_loop _ _ dispatched_world dispatched_whole) as H.
  refine (wp_mono _ _ _ _ _ _ H _ _).
  - intros [] w' (_ & _ & -> & -> & _ & ->). split_and!; by vm_compute.
  - by intros f w' [-> |[_ [Hn|Hn]]]; [|vm_compute in Hn..].
Defined.

(** A loop that is built and destroyed without having run. *)
Example built_and_destroyed :
  match (l ← EventLoop_ctor (os := sample_os); EventLoop_dtor (os := sample_os) l) empty_world with
  | Crash UB _ => true | _ => false end = true.
Proof. by vm_compute. Qed.
