(* ===== verification/Inet.v ===== *)
(** * Inet: src/inet_address.cpp and the addresses the socket calls fill in

    An [InetAddress] is the 128 bytes of its [sockaddr_storage]: the family
    in host order at offset 0, the port in network order at offset 2, an
    IPv4 address at offset 4, an IPv6 address at offset 8 (netinet/in.h).
    inet_pton(3) and inet_ntop(3) are parameters.

    - an address built from a port and the text of an address reads back as
      the same family, port and text, on hosts of either byte order;
    - what [sockets::accept] leaves of the peer's address. *)

From stdpp Require Import pretty.
From S2P Require Import Prelude Buffer World Kernel Socket.

(** The text conversions: [inet_pton] gives the bytes of the address, or
    nothing when the text is not one of this family. *)
Class InetText := {
  inet_pton : Z → string → option (list byte);
  inet_ntop : Z → list byte → string;
}.

Definition addr_size (family : Z) : nat := if family =? AF_INET6 then 16%nat else 4%nat.

(** inet_pton(3), inet_ntop(3): the bytes have the size of the family, and
    the text that [inet_ntop] writes is read back by [inet_pton]. *)
Class InetTextOk (text : InetText) : Prop := {
  pton_size : ∀ f s b, inet_pton f s = Some b → length b = addr_size f;
  pton_ntop : ∀ f b, f = AF_INET ∨ f = AF_INET6 → length b = addr_size f →
    inet_pton f (inet_ntop f b) = Some b;
}.

Section address.
Context (host : endian) {text : InetText}.

(** [sin_family] and [sin_port], which [sockaddr_in6] has at the same
    offsets; [htons(port)] is stored as an object of the host. *)
Definition set_family (f : Z) (a : list byte) : list byte := write_at 0 (object_bytes host 2 f) a.
Definition set_port (p : Z) (a : list byte) : list byte :=
  write_at 2 (object_bytes host 2 (htobe host 2 p)) a.

(** [InetAddress(port, ip, ipv6)]: an address that is not IPv6 text is tried
    as IPv4. *)
Definition InetAddress_new (port : Z) (ip : string) (ipv6 : bool) : failure + list byte :=
  let a := zero_storage in
  let ipv4 (a : list byte) :=
    let a := set_port port (set_family AF_INET a) in
    match inet_pton AF_INET ip with
    | Some b => inr (write_at 4 b a)
    | None => inl Exit2
    end in
  if ipv6 then
    let a := set_port port (set_family AF_INET6 a) in
    match inet_pton AF_INET6 ip with
    | Some b => inr (write_at 8 b a)
    | None => ipv4 a
    end
  else ipv4 a.

(** [InetAddress(port)] *)
Definition InetAddress_any (port : Z) : failure + list byte := InetAddress_new port "0.0.0.0" false.

Definition family (a : list byte) : Z := object_value host (slice 0 2 a).

Definition ip (a : list byte) : string :=
  if family a =? AF_INET then inet_ntop AF_INET (slice 4 8 a)
  else if family a =? AF_INET6 then inet_ntop AF_INET6 (slice 8 24 a)
  else "".

Definition port (a : list byte) : Z :=
  if (family a =? AF_INET) || (family a =? AF_INET6)
  then htobe host 2 (object_value host (slice 2 4 a)) else 0.

Definition AsString (a : list byte) : string := ip a +:+ ":" +:+ pretty (Z.to_N (port a)).

(** [set_addr(addr)] *)
Definition set_addr (addr a : list byte) : list byte := addr.

(** [sockets::is_self_connect] on the two addresses. *)
Definition same_endpoint (l r : list byte) : bool :=
  if family l =? AF_INET then
    bool_decide (slice 2 4 l = slice 2 4 r) && bool_decide (slice 4 8 l = slice 4 8 r)
  else if family l =? AF_INET6 then
    bool_decide (slice 2 4 l = slice 2 4 r) && bool_decide (slice 8 24 l = slice 8 24 r)
  else false.

Definition is_self_connect {os : OS} (sockfd : Z) : M World bool :=
  localaddr ← get_local_addr sockfd;
  peeraddr ← get_peer_addr sockfd;
  mret (same_endpoint localaddr peeraddr).

(** ** Reading back what was stored *)

Lemma slice_write_hit (i j : Z) (d a : list byte) :
  0 ≤ i → j = i + zlength d → j ≤ zlength a → slice i j (write_at i d a) = d.
Proof. intros Hi -> Hj. by apply slice_write_at. Qed.

Lemma length_object n v : zlength (object_bytes host n v) = Z.of_nat n.
Proof.
  rw /zlength /object_bytes. destruct host; by rw ?length_reverse length_le_bytes.
Qed.

Lemma object_value_bytes n v : in_u n v → object_value host (object_bytes host n v) = v.
Proof.
  intros Hv. rw /object_value /object_bytes.
  destruct host; by rw ?reverse_involutive le_value_bytes wrap_u_id.
Qed.

Lemma object_bytes_value n l : length l = n → object_bytes host n (object_value host l) = l.
Proof.
  intros <-. rw /object_value /object_bytes. destruct host; [apply le_bytes_value|].
  by rw -length_reverse le_bytes_value reverse_involutive.
Qed.

(** The fields of an address with family [f], port [p] and bytes [b] at
    offset [off]. *)
Lemma address_fields f p off b a :
  let a' := write_at off b (set_port p (set_family f a)) in
  zlength a = 128 → 4 ≤ off → off + zlength b ≤ 128 → 0 ≤ f < 65536 →
  zlength a' = 128 ∧ family a' = f ∧ slice off (off + zlength b) a' = b ∧
  htobe host 2 (object_value host (slice 2 4 a')) = wrap_u 2 p.
Proof.
  intros a' Ha Hoff Hb Hf. assert (0 ≤ zlength b) by (rw /zlength; lia).
  pose proof (length_object 2) as H2.
  assert (zlength (set_family f a) = 128) as L1 by (rw /set_family zlength_write_at ?H2; lia).
  assert (zlength (set_port p (set_family f a)) = 128) as L2
    by (rw /set_port zlength_write_at ?H2; lia).
  split_and!.
  - rw /a' zlength_write_at; lia.
  - rw /family /a' slice_write_at_before; [lia..|].
    rw /set_port slice_write_at_before; [lia..|].
    rw /set_family slice_write_hit ?H2; [lia..|]. by apply object_value_bytes.
  - apply slice_write_hit; lia.
  - rw /a' slice_write_at_before; [lia..|]. rw /set_port slice_write_hit ?H2; [lia..|].
    rw object_bytes_htobe htobe_object_value; [apply length_be_bytes|]. by apply be_value_bytes.
Qed.

Lemma zero_storage_length : zlength zero_storage = 128.
Proof. done. Qed.

(** An address of family [f] built over [a]. *)
Lemma address_reads f p b a :
  f = AF_INET ∨ f = AF_INET6 → zlength a = 128 → length b = addr_size f → in_u 2 p →
  let a' := write_at (if f =? AF_INET6 then 8 else 4) b (set_port p (set_family f a)) in
  zlength a' = 128 ∧ family a' = f ∧ port a' = p ∧ ip a' = inet_ntop f b.
Proof.
  intros Hf Ha Hb Hp a'. rw /addr_size in Hb.
  destruct (address_fields f p (if f =? AF_INET6 then 8 else 4) b a) as (Hl & Hfam & Hs & Hport);
    [done|by destruct (_ =? _)|rw /zlength Hb; by destruct Hf as [-> | ->]|
     by destruct Hf as [-> | ->]|].
  fold a' in Hl, Hfam, Hs, Hport. split_and!; [done|done|rw /port Hfam|rw /ip Hfam].
  - rw Hport wrap_u_id //. by destruct Hf as [-> | ->].
  - rw /zlength Hb in Hs. destruct Hf as [-> | ->]; simpl in *; by rw Hs.
Qed.

(** What the constructor makes of a text, branch by branch. *)
Definition reads_as (f p : Z) (b : list byte) (r : failure + list byte) : Prop :=
  ∃ a, r = inr a ∧ zlength a = 128 ∧ family a = f ∧ port a = p ∧ ip a = inet_ntop f b.

Lemma set_port_length p f a : zlength a = 128 → zlength (set_port p (set_family f a)) = 128.
Proof.
  intros Ha. rw /set_port /set_family !zlength_write_at ?length_object //=; try lia.
Qed.

Lemma InetAddress_new_reads `{!InetTextOk text} p s ipv6 :
  in_u 2 p →
  match (if ipv6 then inet_pton AF_INET6 s else None), inet_pton AF_INET s with
  | Some b, _ => reads_as AF_INET6 p b (InetAddress_new p s ipv6)
  | None, Some b => reads_as AF_INET p b (InetAddress_new p s ipv6)
  | None, None => InetAddress_new p s ipv6 = inl Exit2
  end.
Proof.
  intros Hp. rw /InetAddress_new.
  destruct ipv6; [destruct (inet_pton AF_INET6 s) as [b6|] eqn:H6|];
    try (destruct (inet_pton AF_INET s) as [b4|] eqn:H4); try done; eexists; (split; [done|]).
  - apply (address_reads AF_INET6); [by right|done|by eapply pton_size|done].
  - apply (address_reads AF_INET6); [by right|done|by eapply pton_size|done].
  - apply (address_reads AF_INET); [by left|by apply set_port_length|by eapply pton_size|done].
  - apply (address_reads AF_INET); [by left|done|by eapply pton_size|done].
Qed.

(** C26: an [InetAddress] built from a port and the text of an address reads
    back as this family, this port and this text, on hosts of either byte
    order; with [ipv6] set, a text that is no IPv6 address is taken as an
    IPv4 one; a text that is neither ends the process. *)
Theorem inet_address_roundtrip `{!InetTextOk text} f b p :
  f = AF_INET ∨ f = AF_INET6 → length b = addr_size f → in_u 2 p →
  let s := inet_ntop f b in
  reads_as f p b (InetAddress_new p s (f =? AF_INET6)) ∧
  (inet_pton AF_INET6 s = None → f = AF_INET → reads_as f p b (InetAddress_new p s true)) ∧
  (∀ s' ipv6, inet_pton AF_INET6 s' = None → inet_pton AF_INET s' = None →
     InetAddress_new p s' ipv6 = inl Exit2).
Proof.
  intros Hf Hb Hp s. pose proof (pton_ntop f b Hf Hb) as Hs. fold s in Hs. split_and!.
  - pose proof (InetAddress_new_reads p s (f =? AF_INET6) Hp) as H.
    destruct Hf as [-> | ->];
      [change (AF_INET =? AF_INET6) with false in *|change (AF_INET6 =? AF_INET6) with true in *];
      by rw Hs in H.
  - intros H6 ->. pose proof (InetAddress_new_reads p s true Hp) as H. by rw H6 Hs in H.
  - intros s' ipv6 H6 H4. pose proof (InetAddress_new_reads p s' ipv6 Hp) as H.
    rw H6 H4 in H. by destruct ipv6.
Qed.

(** ** Accepting *)

(** The storage after the kernel wrote the first [n] bytes of [d]. *)
Lemma written_eq n d :
  (n ≤ length d)%nat → (n ≤ 128)%nat →
  written_storage (Z.of_nat n) d = take n d ++ replicate (128 - n) Byte.x00.
Proof.
  intros Hd Hn. rw /written_storage /write_at Nat2Z.id /= take_take Nat.min_l //.
  rw length_take Nat.min_l // /zero_storage drop_replicate //.
Qed.

Lemma slice_prefix i j (d e : list byte) :
  0 ≤ i → j ≤ zlength d → slice i j (d ++ e) = slice i j d.
Proof.
  rw /slice /zlength. intros Hi Hj. destruct (decide (Z.to_nat i ≤ length d)%nat).
  - rw drop_app_le // take_app_le //. rw length_drop. lia.
  - assert (Z.to_nat (j - i) = 0%nat) as -> by lia. done.
Qed.

Lemma slice_suffix i j (d e : list byte) :
  zlength d = i → slice i j (d ++ e) = take (Z.to_nat (j - i)) e.
Proof. rw /slice /zlength. intros <-. by rw Nat2Z.id drop_app_length. Qed.

(** The length of a [sockaddr_in] and of a [sockaddr_in6]. *)
Definition sockaddr_length (d : list byte) : Prop := (length d = 16 ∨ length d = 28)%nat.

Lemma written_slice d i j :
  sockaddr_length d → 0 ≤ i → j ≤ 8 →
  slice i j (written_storage sizeof_pointer d) = slice i j (written_storage sizeof_storage d).
Proof.
  intros Hd Hi Hj.
  assert (slice i j (written_storage sizeof_pointer d) = slice i j (take 8 d)) as ->.
  { rw (written_eq 8) ?slice_prefix //; destruct Hd; rw ?/zlength ?length_take; lia. }
  rw /written_storage /write_at /= (take_ge d 128); [destruct Hd; lia|].
  rw (take_ge d (Z.to_nat sizeof_storage)); [rw /sizeof_storage; destruct Hd; lia|]. rw slice_prefix //; [destruct Hd; rw /zlength; lia|].
  rw -{2}(take_drop 8 d) slice_prefix //. destruct Hd; rw /zlength length_take; lia.
Qed.

(** C27: [Socket::Accept] hands over the new connection with the family and
    the port of its peer; the address is the peer's for IPv4, but because
    [sockets::accept] passes the size of a pointer as the length of the
    storage, the address of an IPv6 peer is always all zeros. *)
Theorem accept_peer_address {os : OS} sockfd w :
  let r := os_reply (w_hist w) (SysAccept4 sockfd sizeof_pointer) in
  0 ≤ r_ret r → sockaddr_length (r_data r) →
  let full := written_storage sizeof_storage (r_data r) in
  ∃ a, Socket_Accept sockfd w = Done (r_ret r, Some a) (after_call (SysAccept4 sockfd sizeof_pointer) w) ∧
    family a = family full ∧ port a = port full ∧
    (family full = AF_INET → ip a = ip full) ∧
    (family full = AF_INET6 → ip a = inet_ntop AF_INET6 (replicate 16 Byte.x00)).
Proof.
  intros r Hr Hd full. set (a := written_storage sizeof_pointer (r_data r)). exists a.
  assert (∀ i j, 0 ≤ i → j ≤ 8 → slice i j a = slice i j full) as Hs by by intros; apply written_slice.
  assert (family a = family full) as Hf by by rw /family Hs.
  split_and!; [|done| | |].
  - assert ((r_ret r <? 0) = false) as E1 by lia. assert ((0 <=? r_ret r) = true) as E2 by lia.
    by rw /Socket_Accept /accept /syscall /after_call /mbind /M_bind -/r E1 /= E2.
  - by rw /port Hf Hs.
  - intros H4. by rw /ip Hf H4 /= Hs.
  - intros H6. rw /ip Hf H6 /=. f_equal. rw /a (written_eq 8); [destruct Hd; lia..|].
    rw slice_suffix; [rw /zlength length_take; destruct Hd; lia|]. done.
Qed.
End address.

(** ** Samples *)

(** A text that is the bytes themselves. *)
#[export] Instance sample_text : InetText := {|
  inet_pton f s := let b := String.list_byte_of_string s in
    if (length b =? addr_size f)%nat then Some b else None;
  inet_ntop _ b := String.string_of_list_byte b;
|}.

#[export] Instance sample_text_ok : InetTextOk sample_text.
Proof.
  split.
  - intros f s b. simpl. destruct (Nat.eqb_spec (length (String.list_byte_of_string s)) (addr_size f)); [|done].
    by intros [= <-].
  - intros f b _ Hb. simpl. by rw String.list_byte_of_string_of_list_byte Hb Nat.eqb_refl.
Qed.

Definition localhost : list byte := [Byte.x7f; Byte.x00; Byte.x00; Byte.x01].

Lemma inet_address_roundtrip_witness :
  reads_as LittleEndian AF_INET 8080 localhost
    (InetAddress_new LittleEndian 8080 (inet_ntop AF_INET localhost) false).
Proof.
  refine (proj1 (inet_address_roundtrip LittleEndian AF_INET localhost 8080 (or_introl eq_refl) eq_refl _)).
  by vm_compute.
Defined.

(** A kernel with a connection from [2001:db8::1], port 80. *)
Definition v6_peer : list byte :=
  object_bytes LittleEndian 2 AF_INET6 ++ be_bytes 2 80 ++ replicate 4 Byte.x00 ++
  [Byte.x20; Byte.x01; Byte.x0d; Byte.xb8] ++ replicate 11 Byte.x00 ++ [Byte.x01] ++ replicate 4 Byte.x00.
Definition v6_os : OS := λ _ c, match c with SysAccept4 _ _ => mkReply 9 0 v6_peer [] | _ => ok 0 end.

Lemma accept_peer_address_witness :
  ∃ a w', Socket_Accept (os := v6_os) 7 (mkWorld 0 0 [] ∅ ∅ ∅ ∅ ∅ ∅ ∅ 0 0) = Done (9, Some a) w' ∧
    port LittleEndian a = 80 ∧ ip LittleEndian a = inet_ntop AF_INET6 (replicate 16 Byte.x00).
Proof.
  destruct (accept_peer_address LittleEndian (os := v6_os) 7 (mkWorld 0 0 [] ∅ ∅ ∅ ∅ ∅ ∅ ∅ 0 0))
    as (a & Hr & _ & Hp & _ & H6); [by vm_compute|by right|].
  exists a. eexists. split_and!; [exact Hr|rw Hp; by vm_compute|apply H6; by vm_compute].
Defined.
