(* ===== verification/Acceptor.v ===== *)
(** * Acceptor: src/acceptor.cpp

    The listening socket of a server: its channel's read callback accepts
    one connection and hands it to the server, which is the parameter
    [new_connection].  A descriptor kept in reserve lets it turn a client
    away when the process has run out of descriptors. *)

From S2P Require Import Prelude Buffer World Kernel Poller Channel Sample Reactor EventLoop.
From S2P Require Import Timer Socket TimerSpec LoopLife Inet.

Section operations.
Context (host : endian) {os : OS} {heap : Heap}.

Definition create_socketfd (fam : Z) : M World Z := or_die (SysSocket fam).
Definition create_idlefd : M World Z := or_die SysOpenNull.

(** The members in their order, then the body; [accept_socket_] is its
    descriptor. *)
Definition Acceptor_ctor (l : nat) (addr : list byte) (reuseport : bool) : M World nat :=
  w ← get;
  let a := heap_new (dom (w_accs w)) in
  accept_socket ← create_socketfd (family host addr);
  accept_channel ← make_channel l accept_socket;
  idle_fd ← create_idlefd;
  modify (λ w, set_w_accs (<[a := mkAcceptor false l accept_socket accept_channel None idle_fd]>
    (w_accs w)) w) ;;
  SetReuseAddr accept_socket true ;;
  SetReusePort accept_socket reuseport ;;
  Socket_Bind accept_socket addr ;;
  BindReadCallback accept_channel (CbAccept a) ;;
  mret a.

Definition Listen (a : nat) : M World () :=
  ac ← get_acc a;
  AssertInLoopThread (ac_loop_ ac) ;;
  alter_acc (set_ac_listening_ true) a ;;
  Socket_Listen (ac_accept_socket_ ac) ;;
  EnableReadEvent (ac_accept_channel_ ac).

Definition IsListening (ac : Acceptor) : bool := ac_listening_ ac.

Definition BindNewConnCallback (a s : nat) : M World () :=
  alter_acc (set_ac_on_new_connection_ (Some s)) a.

Definition close_excessfd_with_idlefd (a : nat) (excessfd : Z) : M World () :=
  ac ← get_acc a;
  close_fd (ac_idle_fd_ ac) ;;
  r ← syscall (SysAccept excessfd);
  alter_acc (set_ac_idle_fd_ (r_ret r)) a ;;
  ac ← get_acc a;
  close_fd (ac_idle_fd_ ac) ;;
  fd ← create_idlefd;
  alter_acc (set_ac_idle_fd_ fd) a.

(** What the server does with an accepted descriptor. *)
Context (new_connection : nat → Z → list byte → M World ()).

(** The read callback of the accepting channel. *)
Definition handle_accept (a : nat) : M World () :=
  ac ← get_acc a;
  AssertInLoopThread (ac_loop_ ac) ;;
  '(connfd, peer_addr) ← Socket_Accept (ac_accept_socket_ ac);
  if connfd <? 0 then
    e ← errno;
    when (e =? EMFILE) (close_excessfd_with_idlefd a (ac_accept_socket_ ac))
  else
    match ac_on_new_connection_ ac with
    | Some s => addr ← deref peer_addr; new_connection s connfd addr
    | None => sockets_close connfd
    end.

(** The body of the destructor, then the channel and the socket. *)
Definition Acceptor_dtor (a : nat) : M World () :=
  ac ← get_acc a;
  DisableAllEvent (ac_accept_channel_ ac) ;;
  RemoveFromLoop (ac_accept_channel_ ac) ;;
  close_fd (ac_idle_fd_ ac) ;;
  Channel_dtor (ac_accept_channel_ ac) ;;
  Socket_dtor (ac_accept_socket_ ac) ;;
  modify (λ w, set_w_accs (delete a (w_accs w)) w).
End operations.

(** ** Open descriptors *)

Lemma open_fds_nonneg h fd : fd ∈ open_fds h → 0 ≤ fd.
Proof.
  induction h as [|e h IH] using rev_ind; [by intros ?%elem_of_empty|].
  rw open_fds_app. destruct e as [c r|u]; simpl; [|done].
  destruct c; simpl; try (by apply IH); try (destruct (Z.leb_spec 0 (r_ret r)); [|by apply IH];
    intros [->%elem_of_singleton|]%elem_of_union; [done|by apply IH]).
  intros [? _]%elem_of_difference. by apply IH.
Qed.

(** Every channel of loop [l] is for a descriptor that is open. *)
Definition fds_open (l : nat) (w : World) : Prop := ∀ c ch,
  w_chans w !! c = Some ch → ch_loop_ ch = l → ch_fd_ ch ∈ open_fds (w_hist w).

Section accepting.
Context (host : endian) {os : OS} {heap : Heap}.
Context `{!HeapFresh heap, !FdFresh os, !EpollDelOk os, !EpollCtlRet os}.
Implicit Types w : World.

Lemma wp_get_acc a ac Q E w : w_accs w !! a = Some ac → Q ac w → wp (get_acc a) Q E w.
Proof. intros H HQ. rw /get_acc. do 2 wp_step. by rw H. Qed.

Lemma wp_alter_acc f a ac (Q : () → World → Prop) E w :
  w_accs w !! a = Some ac → Q () (set_w_accs (<[a := f ac]> (w_accs w)) w) → wp (alter_acc f a) Q E w.
Proof. intros H HQ. rw /alter_acc. wp_step. by rw (alter_insert _ a ac). Qed.

(** What the calls on the descriptor in reserve are. *)
Definition juggles (e : event) : bool :=
  match e with Sys (SysClose _) _ | Sys (SysAccept _) _ | Sys SysOpenNull _ => true | _ => false end.

(** The four steps of [close_excessfd_with_idlefd]: one client is accepted
    and turned away, and there is a descriptor in reserve again. *)
Lemma close_excess_ok a ac fd w :
  w_accs w !! a = Some ac →
  wp (close_excessfd_with_idlefd a fd) (λ _ w', ∃ idle evs, let rest := open_fds (w_hist w) ∖ {[ac_idle_fd_ ac]} in
    w_accs w' = <[a := set_ac_idle_fd_ idle ac]> (w_accs w) ∧ 0 ≤ idle ∧
    (idle ∉ rest) ∧ open_fds (w_hist w') = {[idle]} ∪ rest ∧
    (w_hist w' = w_hist w ++ evs ∧ forallb juggles evs = true) ∧
    (w_tid w', w_chans w', w_timers w', w_loops w', w_conns w', w_servers w') =
      (w_tid w, w_chans w, w_timers w, w_loops w, w_conns w, w_servers w)) only_exit w.
Proof.
  intros Ha. rw /close_excessfd_with_idlefd. wp_step. eapply wp_get_acc; [done|].
  wp_step. apply close_fd_ok. set (w1 := after_call _ w). wp_step. apply wp_syscall.
  set (w2 := after_call _ w1). set (r := os_reply (w_hist w1) _).
  wp_step. eapply wp_alter_acc; [done|]. wp_step. eapply wp_get_acc; [apply lookup_insert_eq|].
  wp_step. apply close_fd_ok. set (w3 := set_w_accs _ w2). cbn [ac_idle_fd_ set_ac_idle_fd_].
  set (w4 := after_call _ w3). wp_step. apply or_die_fd; [done|].
  assert (open_fds (w_hist w4) = open_fds (w_hist w) ∖ {[ac_idle_fd_ ac]}) as Hrest.
  { rw /= !open_fds_app /=. pose proof (fd_fresh (os := os) (w_hist w1) (SysAccept fd) eq_refl) as Hfr.
    rw /= open_fds_app /= in Hfr. change (os_reply (w_hist w ++ _) (SysAccept fd)) with r.
    change (os (w_hist w ++ _) (SysAccept fd)) with r in Hfr. clearbody r.
    destruct (Z.leb_spec 0 (r_ret r)); [set_solver|].
    assert (r_ret r ∉ open_fds (w_hist w)) by (intros ?%open_fds_nonneg; lia). set_solver. }
  intros idle Hge Hnew Ho. rw Hrest in Hnew, Ho. eapply wp_alter_acc; [apply lookup_insert_eq|].
  eexists idle, _. split_and!; [by rw /= insert_insert_eq|done|done|exact Ho|by rw /= -!app_assoc|done|done].
Qed.

Lemma assert_thread_eq {B} l lp (k : () → M World B) w :
  w_loops w !! l = Some lp → el_thread_id_ lp = w_tid w → (AssertInLoopThread l ≫= k) w = k () w.
Proof.
  intros Hl Ht. rw /AssertInLoopThread /IsInLoopThread /get_loop /mbind /M_bind /= Hl /=.
  by rw Ht Nat.eqb_refl.
Qed.

Section handler.
Context (new_connection : nat → Z → list byte → M World ()).
Context (a : nat) (ac : Acceptor) (lp : EventLoop) (w : World).
Context (Ha : w_accs w !! a = Some ac) (Hl : w_loops w !! ac_loop_ ac = Some lp).
Context (Ht : el_thread_id_ lp = w_tid w).

Definition accept_call : call := SysAccept4 (ac_accept_socket_ ac) sizeof_pointer.

(** The handler up to the accept4(2) call. *)
Lemma handle_accept_eq :
  let r := os_reply (w_hist w) accept_call in
  handle_accept new_connection a w =
    (if r_ret r <? 0 then
       if accept_errno_ok (r_errno r) then
         when (r_errno r =? EMFILE) (close_excessfd_with_idlefd a (ac_accept_socket_ ac))
       else critical
     else
       match ac_on_new_connection_ ac with
       | Some s => new_connection s (r_ret r) (written_storage sizeof_pointer (r_data r))
       | None => sockets_close (r_ret r)
       end) (after_call accept_call w).
Proof.
  intros r. rw /handle_accept (bind_done (get_acc a) _ ac w w); [by rw /get_acc /mbind /M_bind /= Ha|].
  rw (assert_thread_eq _ lp) //.
  rw /Socket_Accept /accept /syscall /mbind /M_bind -/accept_call -/r /after_call -/r.
  destruct (Z.ltb_spec (r_ret r) 0) as [Hn|Hn]; simpl.
  - destruct (accept_errno_ok (r_errno r)); simpl; [|done].
    by destruct (Z.ltb_spec (r_ret r) 0); [|lia].
  - assert ((0 <=? r_ret r) = true) as -> by lia.
    destruct (Z.ltb_spec (r_ret r) 0); [lia|]. by destruct (ac_on_new_connection_ ac).
Qed.
End handler.

(** C23: the accepting handler accounts for every descriptor.  A connection
    the kernel hands out is passed on to the server, once and as it came, or
    closed at once when nobody wants connections; an error after which the
    server can go on leaves everything as it was; when the process is out of
    descriptors, one waiting client is turned away, a new descriptor is held
    in reserve and the set of open descriptors is otherwise the same; every
    other error ends the process. *)
Theorem accept_accounts_for_descriptors new_connection a ac lp w :
  w_accs w !! a = Some ac → w_loops w !! ac_loop_ ac = Some lp → el_thread_id_ lp = w_tid w →
  let k := accept_call ac in
  let r := os_reply (w_hist w) k in
  let run := handle_accept new_connection a w in
  (0 ≤ r_ret r → ∀ s, ac_on_new_connection_ ac = Some s →
     run = new_connection s (r_ret r) (written_storage sizeof_pointer (r_data r)) (after_call k w)) ∧
  (0 ≤ r_ret r → ac_on_new_connection_ ac = None →
     ∃ w', run = Done () w' ∧ open_fds (w_hist w') = open_fds (w_hist w) ∧ w_accs w' = w_accs w) ∧
  (r_ret r < 0 → r_errno r ≠ EMFILE →
     run = if accept_errno_ok (r_errno r) then Done () (after_call k w) else Crash Exit2 (after_call k w)) ∧
  (r_ret r < 0 → r_errno r = EMFILE →
     wp (handle_accept new_connection a) (λ _ w', ∃ idle,
       w_accs w' = <[a := set_ac_idle_fd_ idle ac]> (w_accs w) ∧ 0 ≤ idle ∧
       open_fds (w_hist w') = {[idle]} ∪ (open_fds (w_hist w) ∖ {[ac_idle_fd_ ac]})) only_exit w).
Proof.
  intros Ha Hl Ht k r run. pose proof (handle_accept_eq new_connection a ac lp w Ha Hl Ht) as Heq.
  fold k r run in Heq. cbv zeta in Heq. split_and!.
  - intros Hr s Hs. rw Heq. by destruct (Z.ltb_spec (r_ret r) 0); [lia|rw Hs].
  - intros Hr Hs. rw Heq. destruct (Z.ltb_spec (r_ret r) 0); [lia|]. rw Hs. eexists. split; [done|].
    pose proof (fd_fresh (os := os) (w_hist w) k eq_refl) as Hfr.
    split; [|done]. rw /= !open_fds_app /= -/k -/r. change (os (w_hist w) k) with r in Hfr.
    destruct (Z.leb_spec 0 (r_ret r)); [set_solver|lia].
  - intros Hr Hne. rw Heq. destruct (Z.ltb_spec (r_ret r) 0); [|lia].
    destruct (accept_errno_ok (r_errno r)); [|done].
    by destruct (Z.eqb_spec (r_errno r) EMFILE).
  - intros Hr He. rw /wp -/run Heq. destruct (Z.ltb_spec (r_ret r) 0); [|lia]. rw He /=.
    pose proof (close_excess_ok a ac (ac_accept_socket_ ac) (after_call k w) Ha) as Hw.
    rw /wp in Hw. destruct (close_excessfd_with_idlefd _ _ _); [|done].
    destruct Hw as (idle & _ & Hacc & Hge & _ & Ho & _). exists idle. split_and!; [done|done|].
    rw Ho /= open_fds_app /= -/k -/r. destruct (Z.leb_spec 0 (r_ret r)); [lia|done].
Qed.

(** ** Listening *)

Lemma wp_logged k (Q : () → World → Prop) E w : Q () (after_call k w) → wp (logged k) Q E w.
Proof. intros HQ. rw /logged. wp_step. apply wp_syscall. by wp_step. Qed.

Lemma wp_or_die k (Q : Z → World → Prop) w :
  (0 ≤ r_ret (os_reply (w_hist w) k) → Q (r_ret (os_reply (w_hist w) k)) (after_call k w)) →
  wp (or_die k) Q only_exit w.
Proof.
  intros HQ. rw /or_die. wp_step. apply wp_syscall.
  destruct (Z.ltb_spec (r_ret (os_reply (w_hist w) k)) 0); [done|]. wp_step. by apply HQ.
Qed.

(** Calls that neither open nor close. *)
Definition keeps_fds (k : call) : bool :=
  match k with SysClose _ => false | _ => negb (creates k) end.

Lemma open_fds_same k w :
  keeps_fds k = true → open_fds (w_hist (after_call k w)) = open_fds (w_hist w).
Proof. intros Hk. simpl. rw open_fds_app. by destruct k. Qed.

(** What the constructor leaves: a socket, an idle descriptor and a channel
    that is bound but not registered. *)
Record acceptor_built (l a : nat) (w w' : World) : Prop := {
  ab_new : w_accs w !! a = None;
  ab_ok : loop_ok l w';
  ab_made : ∃ fd c idle, w_chans w !! c = None ∧ c ≠ O ∧
    (fd ∉ open_fds (w_hist w)) ∧ (idle ∉ {[fd]} ∪ open_fds (w_hist w)) ∧
    open_fds (w_hist w') = {[idle; fd]} ∪ open_fds (w_hist w) ∧
    w_accs w' = <[a := mkAcceptor false l fd c None idle]> (w_accs w) ∧
    w_chans w' = <[c := set_ch_on_read_ (Some (CbAccept a)) (Channel_new l fd)]> (w_chans w);
  ab_rest : (w_tid w', w_timers w', w_loops w', w_conns w', w_servers w', w_tls w',
             w_next_conn_id_ w', w_next_index_ w') =
            (w_tid w, w_timers w, w_loops w, w_conns w, w_servers w, w_tls w,
             w_next_conn_id_ w, w_next_index_ w);
}.

(** The calls by which a socket for [addr] is made: it is [fd], and the kernel
    has taken the bind. *)
Definition bound_socket (addr : list byte) (reuseport : bool) (fd : Z) (evs : list event) : Prop :=
  ∃ r1 r2 r3 r4 h, let bind := SysBind fd (take (Z.to_nat sizeof_sockaddr) addr) sizeof_sockaddr in
    evs = [Sys (SysSocket (family host addr)) r1; Sys SysOpenNull r2;
           Sys (SysSetsockopt fd SOL_SOCKET SO_REUSEADDR 1) r3;
           Sys (SysSetsockopt fd SOL_SOCKET SO_REUSEPORT (optval reuseport)) r4; Sys bind (os_reply h bind)] ∧
    r_ret r1 = fd ∧ 0 ≤ r_ret (os_reply h bind).

Lemma five_events (h : list event) e1 e2 e3 e4 e5 :
  ((((h ++ [e1]) ++ [e2]) ++ [e3]) ++ [e4]) ++ [e5] = h ++ [e1; e2; e3; e4; e5].
Proof. by rw -!app_assoc. Qed.

Lemma Acceptor_ctor_ok l addr reuseport w :
  loop_ok l w → fds_open l w →
  wp (Acceptor_ctor host l addr reuseport) (λ a w', acceptor_built l a w w' ∧
    ∃ ac evs, w_accs w' !! a = Some ac ∧ w_hist w' = w_hist w ++ evs ∧
      bound_socket addr reuseport (ac_accept_socket_ ac) evs) only_exit w.
Proof.
  intros Hok Hop. rw /Acceptor_ctor. do 2 wp_step.
  set (a := heap_new (dom (w_accs w))).
  assert (w_accs w !! a = None) as Hna by by apply not_elem_of_dom, heap_fresh.
  wp_step. apply or_die_fd; [done|]. intros fd Hfd Hnew Ho1. set (w1 := after_call _ w) in *.
  assert (loop_ok l w1) as Hok1 by by apply loop_ok_call.
  wp_step. apply make_channel_ok. intros c Hc H0. set (w2 := set_w_chans _ w1).
  assert (loop_ok l w2) as Hok2.
  { apply loop_ok_new_channel; [done|done|]. intros c' ch' Hc' Hlo' Hf. apply Hnew.
    rw -/fd -Hf. by eapply Hop. }
  wp_step. apply or_die_fd; [done|]. intros idle Hidle Hnew2 Ho2. set (w3 := after_call _ w2) in *.
  assert (loop_ok l w3) as Hok3 by by apply loop_ok_call.
  do 2 wp_step. set (w4 := set_w_accs _ w3).
  assert (loop_ok l w4) as Hok4.
  { destruct (lo_loop _ _ Hok3) as (lp & Hl & _).
    apply (loop_ok_equiv l w3); [|by eauto|by exists lp|done|done].
    by apply (poller_equiv_quiet _ []); [done|done|rw app_nil_r|]. }
  rw /SetReuseAddr /SetReusePort /Socket_Bind /bind_or_die.
  wp_step. apply wp_logged. wp_step. apply wp_logged. do 2 wp_step. apply wp_or_die. intros Hbind.
  set (w5 := after_call _ w4). set (w6 := after_call _ w5) in *. set (w7 := after_call _ w6) in *.
  assert (loop_ok l w7) as Hok7 by by repeat (apply loop_ok_call; [done|]).
  wp_step. wp_step. eapply wp_BindReadCallback; [apply lookup_insert_eq|]. wp_step.
  split; [|eexists _, _; split_and!; [apply lookup_insert_eq|apply five_events|by do 5 eexists]].
  split; [done|by apply bind_read_ok; [|apply lookup_insert_eq]| |done].
  exists fd, c, idle. split_and!; [done|done|done| | |done|by rw /= insert_insert_eq].
  - cbn [w_hist w2 set_w_chans] in Hnew2. by rw Ho1 in Hnew2.
  - cbn [w_hist set_w_chans]. do 3 (etrans; [by apply open_fds_same|]).
    change (open_fds (w_hist w3) = {[idle; fd]} ∪ open_fds (w_hist w)). rw Ho2.
    change (open_fds (w_hist w2)) with (open_fds (w_hist w1)). rw Ho1. set_solver.
Qed.

Definition epoll_call (e : event) : bool := match e with Sys (EpollCtl _ _ _ _ _) _ => true | _ => false end.

Lemma Listen_ok a l fd c idle w :
  loop_ok l w → w_accs w !! a = Some (mkAcceptor false l fd c None idle) →
  w_chans w !! c = Some (set_ch_on_read_ (Some (CbAccept a)) (Channel_new l fd)) →
  wp (Listen a) (λ _ w', loop_ok l w' ∧
    w_accs w' = <[a := mkAcceptor true l fd c None idle]> (w_accs w) ∧
    w_chans w' = <[c := reading l fd (CbAccept a)]> (w_chans w) ∧
    open_fds (w_hist w') = open_fds (w_hist w) ∧
    ∃ r evs, w_hist w' = w_hist w ++ Sys (SysListen fd) r :: evs ∧ 0 ≤ r_ret r ∧ forallb epoll_call evs = true)
    only_exit w.
Proof.
  intros Hok Ha Hc. destruct (lo_loop _ _ Hok) as (lp & Hl & Ht).
  rw /Listen. wp_step. eapply wp_get_acc; [done|]. wp_step. eapply AssertInLoopThread_ok; [done|done|].
  wp_step. eapply wp_alter_acc; [done|]. set (w1 := set_w_accs _ w).
  assert (loop_ok l w1) as Hok1.
  { apply (loop_ok_equiv l w); [|by eauto|by exists lp|done|done].
    by apply (poller_equiv_quiet _ []); [done|done|rw app_nil_r|]. }
  rw /Socket_Listen /listen_or_die. do 2 wp_step. apply wp_or_die. intros Hlisten.
  set (w2 := after_call _ w1) in *. wp_step.
  eapply wp_conseq; [apply (change_events_loop _ l c); [by apply loop_ok_call|done|done]|].
  intros [] w' [Hok' [? ? ? Hch _ Hh Hot]]. injection Hot as Hac _ _ _ _.
  assert (open_fds (w_hist w') = open_fds (w_hist w2)) as Hop.
  { destruct Hh as [-> |(? & ? & ? & ? & ? & ->)]; [done|]. by rw open_fds_app. }
  split_and!; [done|done|done|by rw Hop /w2 open_fds_same|]. eexists.
  destruct Hh as [-> |(? & ? & ? & ? & ? & ->)]; [exists []|rw /= -app_assoc; eexists]; by split_and!.
Qed.

(** C24: constructing an [Acceptor] and calling [Listen] ends, unless the
    process exits because the kernel refuses a descriptor, the bind, the
    listen or the registration, with a listening acceptor at a new address:
    its socket and its reserve descriptor are new, the kernel was asked, in
    this order, for the socket, the reserve descriptor, the two options, the
    bind to the address and the listen, of which it granted bind and listen,
    and nothing else but to register the channel, which is bound to the
    accepting handler and armed for reading. *)
Theorem acceptor_listens l addr reuseport w :
  loop_ok l w → fds_open l w →
  wp (a ← Acceptor_ctor host l addr reuseport; Listen a ;; mret a) (λ a w',
    w_accs w !! a = None ∧ loop_ok l w' ∧ fds_open l w' ∧ ∃ fd c idle,
    w_accs w' = <[a := mkAcceptor true l fd c None idle]> (w_accs w) ∧
    w_chans w !! c = None ∧ w_chans w' = <[c := reading l fd (CbAccept a)]> (w_chans w) ∧
    (fd ∉ open_fds (w_hist w)) ∧ (idle ∉ {[fd]} ∪ open_fds (w_hist w)) ∧
    open_fds (w_hist w') = {[idle; fd]} ∪ open_fds (w_hist w) ∧
    ∃ evs r evs', w_hist w' = w_hist w ++ evs ++ Sys (SysListen fd) r :: evs' ∧
      bound_socket addr reuseport fd evs ∧ 0 ≤ r_ret r ∧ forallb epoll_call evs' = true) only_exit w.
Proof.
  intros Hok Hop. wp_step. eapply wp_conseq; [by apply Acceptor_ctor_ok|].
  intros a w1 [[Hna Hok1 (fd & c & idle & Hc & H0 & Hfd & Hidle & Ho1 & Hac1 & Hch1) Hrest] (ac & evs & Hac & Hh1 & Hb)].
  rw Hac1 lookup_insert_eq in Hac. injection Hac as <-.
  wp_step. eapply wp_conseq; [eapply (Listen_ok a l fd c idle); [done|..]|].
  { by rw Hac1 lookup_insert_eq. }
  { by rw Hch1 lookup_insert_eq. }
  intros [] w2 (Hok2 & Hac2 & Hch2 & Ho2 & (r & evs' & Hh2 & Hr & Hev)). wp_step. split_and!; [done|done| |].
  - intros c' ch'. rw Hch2 Hch1 insert_insert_eq lookup_insert Ho2 Ho1. case_decide.
    + intros [= <-] _. cbn. set_solver.
    + intros Hc' Hlo. apply elem_of_union_r. by eapply Hop.
  - exists fd, c, idle. rw Hac2 Hch2 Hac1 Hch1 !insert_insert_eq Ho2. split_and!; try done.
    exists evs, r, evs'. by rw Hh2 Hh1 -app_assoc.
Qed.

(** C25: a server cannot be given an IPv6 address: [bind_or_die] passes the
    16 bytes of a [sockaddr], which bind(2) refuses for this family, so that
    the constructor of the [Acceptor] never completes; the process exits. *)
Theorem ipv6_listen_exits `{!BindLength host os} l addr reuseport w :
  loop_ok l w → fds_open l w → zlength addr = 128 → family host addr = AF_INET6 →
  wp (Acceptor_ctor host l addr reuseport) (λ _ _, False) only_exit w.
Proof.
  intros Hok Hop Hlen Hfam. eapply wp_conseq; [by apply Acceptor_ctor_ok|].
  intros a w' [_ (ac & evs & _ & _ & (r1 & r2 & r3 & r4 & h & _ & _ & Hge))]. set (fd := ac_accept_socket_ ac) in Hge.
  pose proof (bind_length (host := host) h fd (take (Z.to_nat sizeof_sockaddr) addr) sizeof_sockaddr) as Hb.
  assert (take 2 (take (Z.to_nat sizeof_sockaddr) addr) = object_bytes host 2 AF_INET6) as Ht.
  { rw take_take -Hfam /family /slice /=. symmetry.
    apply object_bytes_value. rw length_take. rw /zlength in Hlen. lia. }
  specialize (Hb Ht ltac:(done)). rw /os_reply in Hge. lia.
Qed.
End accepting.

(** ** Samples *)

(** The loop of LoopLife's sample, whose channels are for open descriptors. *)
Lemma built_fds_open : fds_open 1 built_world.
Proof.
  assert (map_Forall (λ _ ch, ch_fd_ ch ∈ open_fds (w_hist built_world)) (w_chans built_world)) as H.
  { eapply bool_decide_eq_true_1. by vm_compute. }
  intros c ch Hc _. by apply (H c).
Qed.

Definition any_addr : list byte :=
  match InetAddress_new LittleEndian 8080 (inet_ntop AF_INET (replicate 4 Byte.x00)) false with
  | inr a => a | inl _ => [] end.

Lemma acceptor_listens_witness :
  wp (a ← Acceptor_ctor LittleEndian (os := sample_os) 1 any_addr true;
      Listen (os := sample_os) a ;; mret a)
    (λ a w', loop_ok 1 w' ∧ ∃ fd c idle, w_accs w' !! a = Some (mkAcceptor true 1 fd c None idle))
    only_exit built_world.
Proof.
  refine (wp_conseq _ _ _ _ _ (acceptor_listens LittleEndian (os := sample_os) 1 any_addr true built_world
    (lb_ok _ _ _ built_ok) built_fds_open) _).
  intros a w' (_ & Hok & _ & fd & c & idle & Hac & _). split; [done|].
  exists fd, c, idle. by rw Hac lookup_insert_eq.
Defined.

Definition v6_addr : list byte :=
  match InetAddress_new LittleEndian 8080 (inet_ntop AF_INET6 (replicate 16 Byte.x00)) true with
  | inr a => a | inl _ => [] end.

Lemma ipv6_listen_exits_witness :
  wp (Acceptor_ctor LittleEndian (os := sample_os) 1 v6_addr false) (λ _ _, False) only_exit built_world.
Proof.
  by refine (ipv6_listen_exits LittleEndian (os := sample_os) 1 v6_addr false built_world
    (lb_ok _ _ _ built_ok) built_fds_open _ _); vm_compute.
Defined.

(** A process that is out of descriptors when a client comes. *)
Definition emfile_os : OS := λ h c,
  match c with SysAccept4 _ _ => mkReply (-1) EMFILE [] [] | _ => sample_os h c end.

#[export] Instance emfile_fd_fresh : FdFresh emfile_os.
Proof.
  intros h c Hc. destruct c; try done; try (by apply (sample_fd_fresh h)).
  intros Hin%open_fds_nonneg. simpl in Hin. lia.
Qed.

#[export] Instance emfile_ctl_ret : EpollCtlRet emfile_os.
Proof. by left. Qed.

Definition accepting_world : World :=
  final (a ← Acceptor_ctor LittleEndian (os := sample_os) 1 any_addr true; Listen (os := sample_os) a)
    built_world.
Definition accepting : Acceptor := default (mkAcceptor false O 0 O None 0) (w_accs accepting_world !! 1%nat).

Lemma accept_accounts_for_descriptors_witness :
  wp (handle_accept (os := emfile_os) (λ _ _ _, mret ()) 1) (λ _ w', ∃ idle,
    w_accs w' = <[1%nat := set_ac_idle_fd_ idle accepting]> (w_accs accepting_world) ∧ 0 ≤ idle ∧
    open_fds (w_hist w') = {[idle]} ∪ (open_fds (w_hist accepting_world) ∖ {[7]})) only_exit accepting_world.
Proof.
  refine (proj2 (proj2 (proj2 (accept_accounts_for_descriptors (os := emfile_os) (λ _ _ _, mret ()) 1
    accepting (default sample_loop (w_loops accepting_world !! 1%nat)) accepting_world _ _ _))) _ _);
    by vm_compute.
Defined.
