(* ===== verification/EventLoopThread.v ===== *)
(** * EventLoopThread: src/eventloop_thread.cpp

    [EventLoopThread::Start] spawns a thread that builds an [EventLoop] on
    its stack, publishes its address under [mutex_] and runs it; the caller
    waits for the address with timed waits on [cond_].  The destructor stops
    the loop and joins the thread.  Both sides are a transition system whose
    steps are the statements of the source (one critical section, one store
    or one use of the loop each); the application may stop the loop at any
    time while it exists.  [loop.Start()] asserts that nobody has stopped it
    before: otherwise the process aborts, and nothing moves any more. *)

From S2P Require Import Prelude.

(** ** States *)

(** The thread that owns the [EventLoopThread]. *)
Inductive owner_pc :=
  | OIdle                     (* constructed, [Start] not called *)
  | OWaiting                  (* while (!loop_) cond_.wait_for(...) *)
  | OReturned                 (* [Start] has returned *)
  | OStopping                 (* ~EventLoopThread: loop_ was not null, loop_->Stop() is next *)
  | OWaking                   (* in Stop: quitting_ is stored, set_wakeup() is next *)
  | OJoining                  (* thread_.join() *)
  | ODone
  | OGone                     (* destroyed without having been started *)
  | OBad.                     (* loop_->Stop() on a null pointer or a destroyed loop *)

(** The thread it spawns. *)
Inductive thread_pc :=
  | TNone
  | TBuild                    (* EventLoop loop; *)
  | TInit                     (* init_callback_(&loop) *)
  | TPublish                  (* loop_ = &loop *)
  | TNotify                   (* cond_.notify_one() *)
  | TRun                      (* loop.Start() *)
  | TClear                    (* loop_ = nullptr *)
  | TDestroy                  (* ~EventLoop *)
  | TEnd
  | TAborted.                 (* assert(quitting_.load() == false) of loop.Start() failed *)

Record ltstate := mkLT {
  lt_owner : owner_pc;
  lt_thread : thread_pc;
  lt_loop_ : bool;            (* loop_ != nullptr *)
  lt_alive : bool;            (* the EventLoop object exists *)
  lt_quitting : bool;         (* its quitting_ *)
  lt_inited : bool;           (* the initialisation callback has returned *)
  lt_app_stop : bool;         (* the application has stopped the loop *)
}.

Definition set_owner (p : owner_pc) (s : ltstate) : ltstate :=
  mkLT p (lt_thread s) (lt_loop_ s) (lt_alive s) (lt_quitting s) (lt_inited s) (lt_app_stop s).
Definition set_thread_pc (p : thread_pc) (s : ltstate) : ltstate :=
  mkLT (lt_owner s) p (lt_loop_ s) (lt_alive s) (lt_quitting s) (lt_inited s) (lt_app_stop s).
Definition set_loop_ (b : bool) (s : ltstate) : ltstate :=
  mkLT (lt_owner s) (lt_thread s) b (lt_alive s) (lt_quitting s) (lt_inited s) (lt_app_stop s).
Definition set_alive (b : bool) (s : ltstate) : ltstate :=
  mkLT (lt_owner s) (lt_thread s) (lt_loop_ s) b (lt_quitting s) (lt_inited s) (lt_app_stop s).
Definition set_quit (s : ltstate) : ltstate :=
  mkLT (lt_owner s) (lt_thread s) (lt_loop_ s) (lt_alive s) true (lt_inited s) (lt_app_stop s).
Definition set_inited (s : ltstate) : ltstate :=
  mkLT (lt_owner s) (lt_thread s) (lt_loop_ s) (lt_alive s) (lt_quitting s) true (lt_app_stop s).
Definition set_app_stop (s : ltstate) : ltstate :=
  mkLT (lt_owner s) (lt_thread s) (lt_loop_ s) (lt_alive s) (lt_quitting s) (lt_inited s) true.

(** [EventLoopThread(init_cb, name)] *)
Definition lt_new : ltstate := mkLT OIdle TNone false false false false false.

(** ** Steps *)

(** [Start] and the destructor. *)
Inductive owner_step : ltstate → ltstate → Prop :=
  | start_spawn s : lt_owner s = OIdle → owner_step s (set_owner OWaiting (set_thread_pc TBuild s))
  | start_wait s : lt_owner s = OWaiting → lt_loop_ s = false → owner_step s s
  | start_return s : lt_owner s = OWaiting → lt_loop_ s = true → owner_step s (set_owner OReturned s)
  | dtor_stop s : lt_owner s = OReturned → lt_loop_ s = true → owner_step s (set_owner OStopping s)
  | dtor_skip s : lt_owner s = OReturned → lt_loop_ s = false → owner_step s (set_owner OJoining s)
  | stop_store s : lt_owner s = OStopping → lt_loop_ s = true →
      owner_step s (set_owner OWaking (set_quit s))
  | stop_wake s : lt_owner s = OWaking → lt_alive s = true → owner_step s (set_owner OJoining s)
  | stop_dead s : lt_owner s = OWaking → lt_alive s = false → owner_step s (set_owner OBad s)
  | stop_null s : lt_owner s = OStopping → lt_loop_ s = false → owner_step s (set_owner OBad s)
  | join s : lt_owner s = OJoining → lt_thread s = TEnd → owner_step s (set_owner ODone s)
  | dtor_unstarted s : lt_owner s = OIdle → owner_step s (set_owner OGone s).

(** The lambda of [Start]. *)
Inductive body_step : ltstate → ltstate → Prop :=
  | body_build s : lt_thread s = TBuild → body_step s (set_thread_pc TInit (set_alive true s))
  | body_init s : lt_thread s = TInit → body_step s (set_thread_pc TPublish (set_inited s))
  | body_publish s : lt_thread s = TPublish → body_step s (set_thread_pc TNotify (set_loop_ true s))
  | body_enter s : lt_thread s = TNotify → lt_quitting s = false → body_step s (set_thread_pc TRun s)
  | body_abort s : lt_thread s = TNotify → lt_quitting s = true → body_step s (set_thread_pc TAborted s)
  | body_return s : lt_thread s = TRun → lt_quitting s = true → body_step s (set_thread_pc TClear s)
  | body_clear s : lt_thread s = TClear → body_step s (set_thread_pc TDestroy (set_loop_ false s))
  | body_destroy s : lt_thread s = TDestroy → body_step s (set_thread_pc TEnd (set_alive false s)).

(** The application calls [Stop] on the loop while it exists: from the
    initialisation callback, from one of its handlers, tasks or timers, or
    from another thread that was given its address. *)
Inductive app_step : ltstate → ltstate → Prop :=
  | app_stops s : lt_alive s = true → app_step s (set_app_stop (set_quit s)).

(** The steps of the library, until the process aborts, ... *)
Definition lib_step (s s' : ltstate) : Prop := lt_thread s ≠ TAborted ∧ (owner_step s s' ∨ body_step s s').
(** ... and those of the application. *)
Definition lt_step (s s' : ltstate) : Prop := lib_step s s' ∨ lt_thread s ≠ TAborted ∧ app_step s s'.
Abbreviation lib_steps := (rtc lib_step).

Abbreviation lt_reachable := (reachable (eq lt_new) lt_step).

(** ** Invariant *)

(** [loop_] is set exactly between its publication and its clearing. *)
Definition published (p : thread_pc) : bool :=
  match p with TNotify | TRun | TClear | TAborted => true | _ => false end.
Definition exists_loop (p : thread_pc) : bool :=
  match p with TInit | TPublish | TNotify | TRun | TClear | TDestroy | TAborted => true | _ => false end.
Definition after_init (p : thread_pc) : bool :=
  match p with TPublish | TNotify | TRun | TClear | TDestroy | TEnd | TAborted => true | _ => false end.
Definition before_return (p : thread_pc) : bool :=
  match p with TNone | TBuild | TInit | TPublish | TNotify | TRun => true | _ => false end.
Definition has_started (o : owner_pc) : bool :=
  match o with OReturned | OStopping | OWaking | OJoining | ODone | OBad => true | _ => false end.
Definition asked_to_stop (o : owner_pc) : bool :=
  match o with OWaking | OJoining | ODone | OBad => true | _ => false end.

Record lt_inv (s : ltstate) : Prop := {
  lv_loop : lt_loop_ s = published (lt_thread s);
  lv_alive : lt_alive s = exists_loop (lt_thread s);
  lv_inited : lt_inited s = after_init (lt_thread s);
  lv_idle : lt_owner s = OIdle ∨ lt_owner s = OGone ↔ lt_thread s = TNone;
  lv_started : has_started (lt_owner s) = true →
    lt_thread s ≠ TBuild ∧ lt_thread s ≠ TInit ∧ lt_thread s ≠ TPublish;
  lv_running : lt_app_stop s = false → asked_to_stop (lt_owner s) = false →
    lt_quitting s = false ∧ before_return (lt_thread s) = true;
  lv_stopped : lt_app_stop s = false → asked_to_stop (lt_owner s) = true → lt_quitting s = true;
  lv_done : lt_owner s = ODone → lt_thread s = TEnd;
  lv_bad : lt_owner s = OBad → lt_app_stop s = true ∨ lt_thread s = TEnd;
}.

Lemma lt_inv_step s s' : lt_inv s → lt_step s s' → lt_inv s'.
Proof.
  intros Hi Hstep. destruct s as [o p b al q i ap]. destruct Hi as [H1 H2 H3 H4 H5 H6 H7 H8 H9]; simpl in *.
  destruct Hstep as [[Hab [H|H]]|[Hab H]]; inversion H; simpl in *; subst;
    split; simpl in *; try (by destruct p); try tauto; try (by destruct o); try (by intuition congruence);
    try (destruct p; simpl in *; intuition congruence); try (destruct o, p; simpl in *; intuition congruence);
    try (destruct ap, p; simpl in *; intuition congruence).
Qed.

Lemma lt_reachable_inv s : lt_reachable s → lt_inv s.
Proof.
  apply (reachable_invariant _ _ lt_inv); [|apply lt_inv_step].
  intros s0 <-. by split; simpl; try done; intuition.
Qed.

(** ** Starting and ending *)

Lemma own s s' s'' : lt_thread s ≠ TAborted → owner_step s s' → lib_steps s' s'' → lib_steps s s''.
Proof. intros Ha H. apply rtc_l. by split; [|left]. Qed.
Lemma bod s s' s'' : lt_thread s ≠ TAborted → body_step s s' → lib_steps s' s'' → lib_steps s s''.
Proof. intros Ha H. apply rtc_l. by split; [|right]. Qed.

(** The next step of the spawned thread. *)
Ltac body_next := first
  [ by apply body_build | by apply body_init | by apply body_publish | by apply body_enter
  | by apply body_return | by apply body_clear | by apply body_destroy ].
Ltac by_hand s := destruct s as [o p b al q i ap]; simpl in *; subst; simpl in *.

(** The spawned thread gets to the point where the address is published. *)
Lemma body_publishes s :
  lt_inv s → lt_owner s = OWaiting → lt_app_stop s = false →
  ∃ s', lib_steps s s' ∧ lt_owner s' = OWaiting ∧ lt_loop_ s' = true ∧ lt_thread s' ≠ TAborted.
Proof.
  intros [H1 _ _ H4 _ H6 _ _ _] Ho Ha. by_hand s. destruct (H6 eq_refl eq_refl) as [-> Hb].
  destruct p; try done; try (by eexists; split_and!; [apply rtc_refl|done..]); try (by destruct (proj2 H4 eq_refl)).
  - eexists. split_and!; [do 3 (eapply bod; [done|body_next|]); apply rtc_refl|done..].
  - eexists. split_and!; [do 2 (eapply bod; [done|body_next|]); apply rtc_refl|done..].
  - eexists. split_and!; [eapply bod; [done|body_next|]; apply rtc_refl|done..].
Qed.

(** A running loop that was asked to stop runs to the end of its thread,
    which is joined. *)
Definition entered (p : thread_pc) : bool := match p with TRun | TClear | TDestroy | TEnd => true | _ => false end.

Lemma body_ends s :
  lt_inv s → lt_owner s = OJoining → lt_quitting s = true → entered (lt_thread s) = true →
  ∃ s', lib_steps s s' ∧ lt_owner s' = ODone ∧ lt_alive s' = false.
Proof.
  intros Hi Ho Hq Hp. pose proof (lv_alive _ Hi) as Hal. clear Hi. by_hand s.
  destruct p; try done; eexists; (split_and!; [repeat (eapply bod; [done|body_next|]);
    (eapply own; [done|by apply join|apply rtc_refl])|done..]).
Qed.

(** The destructor came before the thread had entered [loop.Start()], or the
    loop has gone between the two halves of its [Stop]. *)
Definition lost (s : ltstate) : Prop :=
  lt_thread s = TAborted ∨ lt_thread s = TNotify ∧ lt_quitting s = true ∨
  lt_owner s = OBad ∨ lt_owner s = OWaking ∧ lt_alive s = false.

Lemma lib_steps_inv s s' : lt_inv s → lib_steps s s' → lt_inv s'.
Proof. intros Hi Hs. induction Hs as [|s1 s2 s3 H _ IH]; [done|]. apply IH. eapply lt_inv_step; [done|by left]. Qed.

(** From the middle of the destructor. *)
Lemma waking_ends s :
  lt_inv s → lt_app_stop s = false → lt_owner s = OWaking → ¬ lost s →
  ∃ s', lib_steps s s' ∧ lt_owner s' = ODone ∧ lt_alive s' = false.
Proof.
  intros Hi Ha Ho Hl. pose proof (lv_stopped _ Hi Ha ltac:(by rw Ho)) as Hq. rw /lost in Hl.
  assert (lt_alive s = true) as Hal by (destruct (lt_alive s) eqn:E; [done|tauto]).
  assert (lt_thread s ≠ TAborted) as Hab by tauto.
  assert (entered (lt_thread s) = true) as He.
  { destruct (lv_started _ Hi ltac:(by rw Ho)) as (? & ? & ?). pose proof (lv_idle _ Hi) as Hid. rw Ho in Hid.
    destruct (lt_thread s); try done; tauto || (by destruct Hid as [_ Hid]; destruct (Hid eq_refl)). }
  assert (lib_steps s (set_owner OJoining s)) as H1 by (eapply own; [done|by apply stop_wake|apply rtc_refl]).
  destruct (body_ends (set_owner OJoining s)) as (s' & Hs & ?); [by eapply lib_steps_inv|done..|].
  exists s'. split; [by etrans|done].
Qed.

(** The whole destructor, once the thread is in [loop.Start()]. *)
Lemma running_ends s :
  lt_inv s → lt_app_stop s = false → lt_owner s = OReturned ∨ lt_owner s = OStopping → lt_thread s = TRun →
  ∃ s', lib_steps s s' ∧ lt_owner s' = ODone ∧ lt_alive s' = false.
Proof.
  intros Hi Ha Ho Ht. pose proof (lv_loop _ Hi) as Hl. pose proof (lv_alive _ Hi) as Hal. rw Ht /= in Hl, Hal.
  assert (lib_steps s (set_owner OWaking (set_quit (set_owner OStopping s)))) as H1.
  { destruct Ho as [Ho|Ho]; by_hand s.
    - eapply own; [done|by apply dtor_stop|]. eapply own; [done|by apply stop_store|apply rtc_refl].
    - eapply own; [done|by apply stop_store|apply rtc_refl]. }
  edestruct (waking_ends _ (lib_steps_inv _ _ Hi H1) Ha eq_refl) as (s' & Hs & ?); [|exists s'; split; [by etrans|done]].
  rw /lost /= Ht Hal. intuition congruence.
Qed.

(** C30: the address [EventLoopThread::Start] returns is that of a loop whose
    initialisation callback has run.  As long as the application itself does
    not stop this loop: when [Start] has returned the loop exists and nobody
    has stopped it; a waiting [Start] can return by the two threads' own
    steps even if the notification is missed; and wherever the destructor is,
    it can go on to stop the loop, have it destroyed and join its thread,
    unless it has lost one of two races ([lost]): it stopped the loop before
    the thread had entered [loop.Start()], whose assertion then fails, or the
    loop was gone before [Stop] wrote to its wakeup descriptor.  Both races
    are the destructor's: before it nothing is lost. *)
Theorem eventloop_thread_lifecycle s :
  lt_reachable s →
  (has_started (lt_owner s) = true → lt_inited s = true) ∧
  (lt_app_stop s = false →
     (lt_owner s = OReturned → lt_loop_ s = true ∧ lt_alive s = true ∧ lt_quitting s = false) ∧
     (lt_owner s = OWaiting → ∃ s', lib_steps s s' ∧ lt_owner s' = OReturned) ∧
     (has_started (lt_owner s) = true → ¬ lost s →
        ∃ s', lib_steps s s' ∧ lt_owner s' = ODone ∧ lt_alive s' = false) ∧
     (lost s → asked_to_stop (lt_owner s) = true)).
Proof.
  intros Hi%lt_reachable_inv. split.
  { intros Hst. rw (lv_inited _ Hi). destruct (lv_started _ Hi Hst) as (H1 & H2 & H3).
    pose proof (lv_idle _ Hi) as Hid. destruct (lt_thread s); try done. by destruct (proj2 Hid eq_refl) as [E|E]; rw E in Hst. }
  intros Ha.
  assert (lt_owner s = OReturned ∨ lt_owner s = OStopping → lt_quitting s = false ∧ (lt_thread s = TNotify ∨ lt_thread s = TRun)) as Hup.
  { intros Ho. destruct (lv_running _ Hi Ha ltac:(by destruct Ho as [-> | ->])) as [Hq Hb].
    destruct (lv_started _ Hi ltac:(by destruct Ho as [-> | ->])) as (H1 & H2 & H3). pose proof (lv_idle _ Hi) as Hid.
    split; [done|]. destruct (lt_thread s); try done; [|by auto..]. destruct (proj2 Hid eq_refl) as [E|E], Ho; congruence. }
  split_and!.
  - intros Ho. destruct (Hup ltac:(by left)) as [Hq Ht]. rw (lv_loop _ Hi) (lv_alive _ Hi). by destruct Ht as [-> | ->].
  - intros Ho. destruct (body_publishes s Hi Ho Ha) as (s' & Hs & Ho' & Hl' & Hab).
    exists (set_owner OReturned s'). split; [|done]. eapply rtc_r; [done|]. split; [done|]. left. by apply start_return.
  - intros Hst Hl. destruct (lt_owner s) eqn:Ho; try done.
    1,2: destruct (Hup ltac:(by auto)) as [Hq [Ht|Ht]]; [|by apply running_ends; auto];
      assert (lib_steps s (set_thread_pc TRun s)) as H1 by (eapply bod; [by rw Ht|by apply body_enter|apply rtc_refl]);
      destruct (running_ends (set_thread_pc TRun s)) as (s' & Hs & ?); [by eapply lib_steps_inv|done|rw /= Ho; by auto|done|];
      exists s'; (split; [by etrans|done]).
    + by apply waking_ends.
    + pose proof (lv_stopped _ Hi Ha ltac:(by rw Ho)) as Hq. apply body_ends; try done.
      destruct (lv_started _ Hi ltac:(by rw Ho)) as (? & ? & ?). pose proof (lv_idle _ Hi) as Hid. rw Ho in Hid. rw /lost in Hl.
      destruct (lt_thread s); try done; tauto || (by destruct Hid as [_ Hid]; destruct (Hid eq_refl)).
    + exists s. split_and!; [apply rtc_refl|done|]. by rw (lv_alive _ Hi) (lv_done _ Hi Ho).
    + destruct Hl. right; right; by left.
  - intros Hl. destruct (asked_to_stop (lt_owner s)) eqn:Has; [done|]. destruct (lv_running _ Hi Ha Has) as [Hq Hb].
    rw /lost in Hl. destruct Hl as [E|[[E1 E2]|[E|[E _]]]]; try (by rw E in Has); [by rw E in Hb|congruence].
Qed.

(** The loop is published, ... *)
Lemma published_reachable : lt_reachable (mkLT OWaiting TNotify true true false true false).
Proof.
  apply (reach_step _ _ (mkLT OWaiting TPublish false true false true false)); [|left; split; [done|right; body_next]].
  apply (reach_step _ _ (mkLT OWaiting TInit false true false false false)); [|left; split; [done|right; body_next]].
  apply (reach_step _ _ (mkLT OWaiting TBuild false false false false false)); [|left; split; [done|right; body_next]].
  apply (reach_step _ _ lt_new); [by apply reach_init|left; split; [done|left; by apply start_spawn]].
Qed.
(** ... then running, and [Start] has not looked yet. *)
Lemma running_reachable : lt_reachable (mkLT OWaiting TRun true true false true false).
Proof. apply (reach_step _ _ _ _ published_reachable). left. split; [done|right; body_next]. Qed.

Lemma eventloop_thread_lifecycle_witness :
  ∃ s', lib_steps (mkLT OReturned TRun true true false true false) s' ∧
    lt_owner s' = ODone ∧ lt_alive s' = false.
Proof.
  refine (proj1 (proj2 (proj2 (proj2 (eventloop_thread_lifecycle
    (mkLT OReturned TRun true true false true false) _) eq_refl))) eq_refl _).
  - apply (reach_step _ _ _ _ running_reachable). left. split; [done|left; by apply start_return].
  - rw /lost /=. intuition congruence.
Defined.

(** Destroying an [EventLoopThread] right after [Start] has returned is
    not safe, though the application does nothing else: if the new thread has
    not entered [loop.Start()] yet, its assertion that the loop was not
    stopped fails and the process aborts; if the loop leaves [Start] by
    itself between the store of [quitting_] and the write to the wakeup
    descriptor, the destructor uses a destroyed loop.  Both from one state in
    which [Start] has just returned. *)
Theorem destruction_races :
  ∃ s, lt_reachable s ∧ lt_owner s = OReturned ∧ lt_app_stop s = false ∧
    (∃ s1, lib_steps s s1 ∧ lt_thread s1 = TAborted ∧ ∀ s', ¬ lt_step s1 s') ∧
    (∃ s2, lib_steps s s2 ∧ lt_owner s2 = OBad ∧ lt_alive s2 = false).
Proof.
  exists (mkLT OReturned TNotify true true false true false). split_and!; [|done|done|..].
  - apply (reach_step _ _ _ _ published_reachable). left. split; [done|left; by apply start_return].
  - exists (mkLT OWaking TAborted true true true true false). split_and!; [|done|].
    + eapply own; [done|by apply dtor_stop|]. eapply own; [done|by apply stop_store|].
      eapply bod; [done|by apply body_abort|apply rtc_refl].
    + by intros s' [[H _]|[H _]].
  - exists (mkLT OBad TEnd false false true true false). split_and!; [|done|done].
    eapply own; [done|by apply dtor_stop|]. eapply bod; [done|body_next|]. eapply own; [done|by apply stop_store|].
    do 3 (eapply bod; [done|body_next|]). eapply own; [done|by apply stop_dead|apply rtc_refl].
Qed.




