(* ===== verification/ThreadPool.v ===== *)
(** * ThreadPool: src/eventloop_threadpool.cpp

    A pool is a base loop and the loops of the threads it has started;
    [GetNextLoop] deals them out in turn.  The counter it uses is a
    function-local static: one [w_next_index_] for all pools of the process.

    [EventLoopThread::Start] is taken here as a whole, in the order its
    handshake (EventLoopThread.v) enforces: the new thread builds its loop
    and runs the initialisation callback before the caller goes on. *)

From stdpp Require Import pretty.
From S2P Require Import Prelude Buffer World Kernel Poller Channel Sample Reactor EventLoop.
From S2P Require Import Timer Socket TcpConnection ConnInv ConnSteps ConnSpec ConnLife TimerSpec LoopLife.

Section operations.
Context {os : OS} {heap : Heap} {user : UserCode}.

(** A thread id that is not in use. *)
Definition new_thread : M World nat :=
  w ← get;
  mret (heap_new ({[w_tid w]} ∪ dom (w_tls w) ∪
    list_to_set ((λ x, el_thread_id_ x.2) <$> map_to_list (w_loops w)))).

(** [if (init_cb) init_cb(loop)] *)
Definition call_init (init_cb : option nat) (l : nat) : M World () :=
  match init_cb with Some u => call_user (UThreadInit u l) | None => mret () end.

Definition EventLoopThread_Start (init_cb : option nat) : M World nat :=
  t ← new_thread;
  as_thread t (l ← EventLoop_ctor; call_init init_cb l ;; mret l).

Definition EventLoopThreadPool_new (base : nat) (name : string) : EventLoopThreadPool :=
  mkEventLoopThreadPool base name false 0 [].

Definition Pool_InitThreadsNumber (tp : EventLoopThreadPool) (n_threads : Z) : M World EventLoopThreadPool :=
  assert_ (negb (tp_started_ tp)) ;;
  mret (set_tp_num_threads_ n_threads tp).

(** [for (int i = 0; i < num_threads_; ++i) loops_.push_back(...)] *)
Fixpoint start_threads (n : nat) (init_cb : option nat) (loops : list nat) : M World (list nat) :=
  match n with
  | O => mret loops
  | S n' => l ← EventLoopThread_Start init_cb; start_threads n' init_cb (loops ++ [l])
  end.

Definition Pool_Start (tp : EventLoopThreadPool) (init_cb : option nat) : M World EventLoopThreadPool :=
  assert_ (negb (tp_started_ tp)) ;;
  AssertInLoopThread (tp_base_loop_ tp) ;;
  let tp := set_tp_started_ true tp in
  loops ← start_threads (Z.to_nat (tp_num_threads_ tp)) init_cb (tp_loops_ tp);
  when (tp_num_threads_ tp =? 0) (call_init init_cb (tp_base_loop_ tp)) ;;
  mret (set_tp_loops_ loops tp).

(** The name of the [i]-th thread. *)
Definition thread_name (tp : EventLoopThreadPool) (i : N) : string := tp_name_ tp +:+ "/" +:+ pretty i.

Definition GetNextLoop (tp : EventLoopThreadPool) : M World nat :=
  AssertInLoopThread (tp_base_loop_ tp) ;;
  assert_ (tp_started_ tp) ;;
  w ← get;
  match tp_loops_ tp with
  | [] => mret (tp_base_loop_ tp)
  | loops =>
      l ← deref (loops !! Z.to_nat (w_next_index_ w mod zlength loops));
      modify (λ w, set_w_next_index_ (u64 (w_next_index_ w + 1)) w) ;;
      mret l
  end.

Definition GetAllLoops (tp : EventLoopThreadPool) : M World (list nat) :=
  AssertInLoopThread (tp_base_loop_ tp) ;;
  assert_ (tp_started_ tp) ;;
  mret (match tp_loops_ tp with [] => [tp_base_loop_ tp] | loops => loops end).

(** [~EventLoopThread] as a whole: a loop that is still there is asked to
    stop, then its thread is joined; [join] is what the other threads do
    until the thread of this loop has ended. *)
Context (join : nat → M World ()).

Definition EventLoopThread_dtor (l : nat) : M World () :=
  w ← get;
  when (bool_decide (is_Some (w_loops w !! l))) (Stop l) ;;
  join l.

(** The body is empty; the threads are members. *)
Definition EventLoopThreadPool_dtor (tp : EventLoopThreadPool) : M World () :=
  for_each (tp_loops_ tp) EventLoopThread_dtor.

(** [n] connections ask for a loop, one after the other. *)
Fixpoint next_loops (n : nat) (tp : EventLoopThreadPool) : M World (list nat) :=
  match n with
  | O => mret []
  | S n' => l ← GetNextLoop tp; ls ← next_loops n' tp; mret (l :: ls)
  end.
End operations.

(** ** Dealing out loops *)

(** A started pool used from the thread of its base loop. *)
Record pool_ok (tp : EventLoopThreadPool) (w : World) : Prop := {
  po_started : tp_started_ tp = true;
  po_base : ∃ lp, w_loops w !! tp_base_loop_ tp = Some lp ∧ el_thread_id_ lp = w_tid w;
}.

(** The loop that is next at counter [i]. *)
Definition loop_at (tp : EventLoopThreadPool) (i : Z) : nat :=
  default (tp_base_loop_ tp) (tp_loops_ tp !! Z.to_nat (i mod zlength (tp_loops_ tp))).

Lemma pool_ok_index tp i w : pool_ok tp w → pool_ok tp (set_w_next_index_ i w).
Proof. by intros [? ?]. Qed.

Lemma GetNextLoop_eq tp w :
  pool_ok tp w → 0 ≤ w_next_index_ w →
  GetNextLoop tp w = Done (loop_at tp (w_next_index_ w))
    (if tp_loops_ tp is [] then w else set_w_next_index_ (u64 (w_next_index_ w + 1)) w).
Proof.
  intros [Hst (lp & Hl & Ht)] Hi.
  rw /GetNextLoop /AssertInLoopThread /IsInLoopThread /get_loop /mbind /M_bind /= Hl /= Ht Nat.eqb_refl /= Hst /=.
  rw /loop_at. destruct (tp_loops_ tp) as [|l ls] eqn:Hls; [done|].
  destruct ((l :: ls) !! _) as [x|] eqn:Hx; simpl; [done|].
  apply lookup_ge_None in Hx. pose proof (Z.mod_pos_bound (w_next_index_ w) (zlength (l :: ls))) as Hb.
  rw /zlength /= in Hb Hx. lia.
Qed.

(** The next [n] answers of a pool with threads are a rotation of its loops. *)
Lemma loops_in_turn tp i :
  0 ≤ i → tp_loops_ tp ≠ [] →
  (λ k, loop_at tp (i + Z.of_nat k)) <$> seq 0 (length (tp_loops_ tp)) =
  rotate (Z.to_nat i) (tp_loops_ tp).
Proof.
  intros Hi Hne. set (ls := tp_loops_ tp) in *.
  apply list_eq_same_length with (length ls); [by rw length_rotate|by rw length_fmap length_seq|].
  intros k x y Hk. rw list_lookup_fmap (lookup_seq_lt _ _ k) //= lookup_rotate_r //.
  rw /loop_at -/ls /rotate_nat_add Z2Nat.id // -/(zlength ls). intros [= <-] Hy. by rw Hy.
Qed.

Lemma rotate_perm {A} n (l : list A) : rotate n l ≡ₚ l.
Proof. rw /rotate Permutation_app_comm take_drop //. Qed.

Lemma next_loops_eq tp n w :
  pool_ok tp w → 0 ≤ w_next_index_ w → w_next_index_ w + Z.of_nat n < two64 →
  ∃ w', next_loops n tp w =
    Done ((λ k, loop_at tp (w_next_index_ w + Z.of_nat k)) <$> seq 0 n) w'.
Proof.
  revert w. induction n as [|n IH]; intros w Hok Hi Hn; [by eexists|].
  cbn [next_loops]. rw (bind_done (GetNextLoop tp) _ _ w _ (GetNextLoop_eq tp w Hok Hi)).
  set (w1 := match tp_loops_ tp with [] => w | _ => _ end).
  assert (∀ k, loop_at tp (w_next_index_ w1 + Z.of_nat k) = loop_at tp (w_next_index_ w + Z.of_nat (S k))) as Hat.
  { intros k. rw /w1 /loop_at. destruct (tp_loops_ tp); [by rw !lookup_nil|]. simpl.
    rw u64_small; [lia|]. do 3 f_equal. f_equal. lia. }
  destruct (IH w1) as [w' Hw'].
  - rw /w1. destruct (tp_loops_ tp); [done|by apply pool_ok_index].
  - rw /w1. destruct (tp_loops_ tp); [done|]. simpl. by apply u64_range.
  - rw /w1. destruct (tp_loops_ tp); [lia|]. simpl. rw u64_small; lia.
  - exists w'. rw (bind_done (next_loops n tp) _ _ w1 w' Hw'). f_equal. rw /= Z.add_0_r. f_equal.
    apply list_eq. intros k. rw !list_lookup_fmap. destruct (decide (k < n)%nat).
    + rw !lookup_seq_lt //=. by rw Hat.
    + rw !lookup_seq_ge //; lia.
Qed.

(** C32: as long as only this pool asks and the counter does not wrap, a
    started pool deals out its loops in turn: the k-th request gets the loop
    at the counter plus k modulo the number of loops, so that any [n]
    requests in a row, [n] being the number of loops, get every loop exactly
    once; a pool without threads always answers its base loop. *)
Theorem pool_round_robin tp n w :
  pool_ok tp w → 0 ≤ w_next_index_ w → w_next_index_ w + Z.of_nat n < two64 →
  ∃ w', next_loops n tp w = Done ((λ k, loop_at tp (w_next_index_ w + Z.of_nat k)) <$> seq 0 n) w' ∧
    (tp_loops_ tp = [] → loop_at tp (w_next_index_ w) = tp_base_loop_ tp) ∧
    (n = length (tp_loops_ tp) →
       (λ k, loop_at tp (w_next_index_ w + Z.of_nat k)) <$> seq 0 n ≡ₚ tp_loops_ tp).
Proof.
  intros Hok Hi Hn. destruct (next_loops_eq tp n w) as [w' Hw']; [done..|]. exists w'.
  split_and!; [done|by intros Hls; rw /loop_at Hls|].
  intros ->. destruct (decide (tp_loops_ tp = [])) as [-> |Hne]; [done|].
  rw loops_in_turn //. apply rotate_perm.
Qed.

(** Two pools are asked in turn; the answers of the first. *)
Fixpoint alternate (n : nat) (tp1 tp2 : EventLoopThreadPool) : M World (list nat) :=
  match n with
  | O => mret []
  | S n' => l ← GetNextLoop tp1; _ ← GetNextLoop tp2; ls ← alternate n' tp1 tp2; mret (l :: ls)
  end.

(** Because the counter is shared by all pools, two pools with an even
    number of threads each that are used in turn do not deal out their loops
    in turn: with two threads each, every connection of a server lands on one
    and the same thread. *)
Lemma pools_share_index n tp1 tp2 w :
  pool_ok tp1 w → pool_ok tp2 w →
  length (tp_loops_ tp1) = 2%nat → length (tp_loops_ tp2) = 2%nat →
  0 ≤ w_next_index_ w → w_next_index_ w + 2 * Z.of_nat n < two64 →
  ∃ w', alternate n tp1 tp2 w = Done (replicate n (loop_at tp1 (w_next_index_ w))) w'.
Proof.
  revert w. induction n as [|n IH]; intros w Hok1 Hok2 H1 H2 Hi Hn; [by eexists|].
  cbn [alternate replicate]. rw (bind_done (GetNextLoop tp1) _ _ w _ (GetNextLoop_eq tp1 w Hok1 Hi)).
  destruct (tp_loops_ tp1) as [|a ls1] eqn:Hls1; [done|]. set (w1 := set_w_next_index_ _ w).
  assert (w_next_index_ w1 = w_next_index_ w + 1) as Hi1 by (simpl; rw u64_small; lia).
  rw (bind_done (GetNextLoop tp2) _ _ w1 _ (GetNextLoop_eq tp2 w1 (pool_ok_index _ _ _ Hok2) ltac:(lia))).
  destruct (tp_loops_ tp2) as [|b ls2] eqn:Hls2; [done|]. set (w2 := set_w_next_index_ _ w1).
  assert (w_next_index_ w2 = w_next_index_ w + 2) as Hi2
    by (rw /w2; cbn [w_next_index_ set_w_next_index_]; rw Hi1 u64_small; lia).
  destruct (IH w2) as [w' Hw']; [by do 2 apply pool_ok_index|by do 2 apply pool_ok_index|done|done|lia|lia|].
  exists w'. rw (bind_done (alternate n tp1 tp2) _ _ w2 w' Hw'). do 2 f_equal.
  assert ((w_next_index_ w + 2) mod 2 = w_next_index_ w mod 2) as Hm by apply (Z_mod_plus_full _ 1 2).
  by rw /loop_at Hls1 Hi2 /zlength H1 Hm.
Qed.

(** ** Samples *)

Definition sample_pool (loops : list nat) : EventLoopThreadPool :=
  mkEventLoopThreadPool 1 "pool" true (zlength loops) loops.

Lemma sample_pool_ok loops : pool_ok (sample_pool loops) sample_world.
Proof. split; [done|]. by exists sample_loop. Qed.

Lemma pool_round_robin_witness :
  ∃ w', next_loops 3 (sample_pool [4; 5; 6]%nat) sample_world = Done [4; 5; 6]%nat w'.
Proof.
  destruct (pool_round_robin (sample_pool [4; 5; 6]%nat) 3 sample_world (sample_pool_ok _))
    as (w' & Hw' & _); [by vm_compute..|]. by exists w'.
Defined.

Lemma pools_share_index_witness :
  ∃ w', alternate 5 (sample_pool [4; 5]%nat) (sample_pool [6; 7]%nat) sample_world =
    Done (replicate 5 4%nat) w'.
Proof.
  exact (pools_share_index 5 _ _ sample_world (sample_pool_ok [4; 5]%nat) (sample_pool_ok [6; 7]%nat)
    eq_refl eq_refl ltac:(by vm_compute) ltac:(by vm_compute)).
Defined.

(** Two threads are started: two loops on two new threads. *)
Example two_threads :
  match (tp ← Pool_InitThreadsNumber (EventLoopThreadPool_new 1 "io") 2;
         Pool_Start (os := sample_os) (user := quiet_user) tp None) built_world with
  | Done tp w => bool_decide (tp_loops_ tp = [2; 3]%nat ∧
      el_thread_id_ <$> w_loops w !! 2%nat = Some 1%nat ∧ el_thread_id_ <$> w_loops w !! 3%nat = Some 2%nat ∧
      w_tid w = 0%nat)
  | Crash _ _ => false end = true.
Proof. by vm_compute. Qed.
