(* ===== verification/TcpServer.v ===== *)
(** * TcpServer: src/tcp_server.cpp

    A server accepts connections on its own loop, gives each a name and a
    loop of its pool, and keeps it in the map [connections_] until it is
    closed.  [remove_connection] is the close callback of its connections:
    it runs on the loop of the connection and hands the removal over to the
    loop of the server. *)

From stdpp Require Import pretty.
From S2P Require Import Prelude Buffer World Kernel Poller Channel Sample Reactor EventLoop.
From S2P Require Import Timer Socket TcpConnection ConnInv ConnSteps ConnSpec ConnLife TimerSpec LoopLife.
From S2P Require Import Inet Acceptor ThreadPool.

(** The order of [std::map<std::string, ...>]: bytes compared as unsigned. *)
Definition name_le (x y : string * nat) : Prop := String.leb x.1 y.1 = true.
#[export] Instance name_le_dec : RelDecision name_le.
Proof. intros x y. rw /name_le. apply _. Defined.

(** The entries in the order in which the map is traversed. *)
Definition in_order (conns : gmap string nat) : list (string * nat) :=
  merge_sort name_le (map_to_list conns).

(** ** Pointers to connections *)

(** The connections to which the application holds a pointer, by what has
    happened; it takes up or gives up none because a descriptor is closed. *)
Class AppRefs := {
  app_holds : list event → nat → bool;
  app_holds_close : ∀ h fd r c, app_holds (h ++ [Sys (SysClose fd) r]) c = app_holds h c;
}.
(** An application that keeps none. *)
Definition no_refs : AppRefs := {| app_holds _ _ := false; app_holds_close _ _ _ _ := eq_refl |}.

(** The connection to which a closure holds a [shared_ptr].  Those of
    [StartRead], [StopRead] and the last lambda of [handle_write] hold a
    plain pointer, that of [ForceClose(double)] a [weak_ptr]. *)
Definition owns (f : Functor) : option nat :=
  match f with
  | FSendInLoop c _ | FShutdown c | FForceClose c | FWriteComplete _ c | FHighWaterMark _ c _
  | FConnectionEstablished c | FConnectionDestroyed c | FRemoveConnection _ c => Some c
  | _ => None
  end.

(** Somebody else holds a [shared_ptr] to [c]: one of the closures [fs], one
    that is queued in a loop, the map of a server, or the application. *)
Definition referenced {refs : AppRefs} (fs : list Functor) (w : World) (c : nat) : bool :=
  bool_decide (Some c ∈ owns <$> fs) ||
  bool_decide (map_Exists (λ _ lp, Some c ∈ owns <$> el_pendings_ lp) (w_loops w)) ||
  bool_decide (map_Exists (λ _ sv, map_Exists (λ _ c', c' = c) (sv_connections_ sv)) (w_servers w)) ||
  app_holds (w_hist w) c.

(** A pointer to [c] goes out of scope while the closures [fs] are still
    there; with the last pointer goes the connection. *)
Definition release {refs : AppRefs} {os : OS} (fs : list Functor) (c : nat) : M World () :=
  w ← get;
  when (negb (referenced fs w c)) (TcpConnection_dtor c).

Section operations.
Context (host : endian) {text : InetText} {os : OS} {heap : Heap} {user : UserCode} {refs : AppRefs}.

(** The members in their order, then the body. *)
Definition TcpServer_ctor (loop : nat) (listen_addr : list byte) (reuse_port : bool) (name : string) :
    M World nat :=
  w ← get;
  let s := heap_new (dom (w_servers w)) in
  acceptor ← Acceptor_ctor host loop listen_addr reuse_port;
  let thread_pool := EventLoopThreadPool_new loop (name +:+ ".IoThreads") in
  modify (λ w, set_w_servers (<[s := mkTcpServer loop listen_addr name acceptor thread_pool
    None (Some DefaultCb) (Some DefaultCb) None false ∅]> (w_servers w)) w) ;;
  BindNewConnCallback acceptor s ;;
  mret s.

Definition Server_InitThreadsNumber (s : nat) (n_threads : Z) : M World () :=
  sv ← get_server s;
  tp ← Pool_InitThreadsNumber (sv_thread_pool_ sv) n_threads;
  alter_server (set_sv_thread_pool_ tp) s.

Definition Server_Start (s : nat) : M World () :=
  alter_server (set_sv_started_ true) s ;;
  sv ← get_server s;
  tp ← Pool_Start (sv_thread_pool_ sv) (sv_thread_init_cb_ sv);
  alter_server (set_sv_thread_pool_ tp) s ;;
  ac ← get_acc (sv_acceptor_ sv);
  assert_ (negb (IsListening ac)) ;;
  RunInLoop (sv_loop_ sv) (FListen (sv_acceptor_ sv)) (Listen (sv_acceptor_ sv)).

(** ** Connections *)

(** [std::format("{}-{}#{}", name_, listen_addr_.AsString(), id)] *)
Definition conn_name (sv : TcpServer) (id : Z) : string :=
  sv_name_ sv +:+ "-" +:+ AsString host (sv_listen_addr_ sv) +:+ "#" +:+ pretty (Z.to_N id).

(** [next_conn_id_++] *)
Definition take_conn_id : M World Z :=
  id ← gets w_next_conn_id_;
  modify (set_w_next_conn_id_ (u64 (id + 1))) ;;
  mret id.

Definition new_connection (s : nat) (sockfd : Z) (peer_addr : list byte) : M World () :=
  sv ← get_server s;
  AssertInLoopThread (sv_loop_ sv) ;;
  io_loop ← GetNextLoop (sv_thread_pool_ sv);
  id ← take_conn_id;
  let name := conn_name sv id in
  local_addr ← get_local_addr sockfd;
  conn ← TcpConnection_new io_loop sockfd local_addr peer_addr name;
  alter_server (λ sv, set_sv_connections_ (<[name := conn]> (sv_connections_ sv)) sv) s ;;
  BindConnectionCallback conn (sv_connection_cb_ sv) ;;
  BindMessageCallback conn (sv_message_cb_ sv) ;;
  BindWriteCompleteCallback conn (sv_write_complete_cb_ sv) ;;
  Conn_BindCloseCallback conn (Some (RemoveConnection s)) ;;
  RunInLoop io_loop (FConnectionEstablished conn) (ConnectionEstablished conn).

(** The lambda of [remove_connection]; [this] is followed first. *)
Definition remove_connection_in_loop (s c : nat) : M World () :=
  sv ← get_server s;
  cn ← get_conn c;
  let n := if bool_decide (is_Some (sv_connections_ sv !! tc_name_ cn)) then 1 else 0 in
  alter_server (λ sv, set_sv_connections_ (delete (tc_name_ cn) (sv_connections_ sv)) sv) s ;;
  assert_ (n =? 1) ;;
  QueueInLoop (tc_loop_ cn) (FConnectionDestroyed c).

Definition remove_connection (s c : nat) : M World () :=
  sv ← get_server s;
  RunInLoop (sv_loop_ sv) (FRemoveConnection s c) (remove_connection_in_loop s c).

(** The code behind a [CloseCallback]. *)
Definition close_code (cb : close_cb) (c : nat) : M World () :=
  match cb with
  | RemoveConnection s => remove_connection s c
  | UserCloseCb u => call_user (UClose u c)
  end.

(** The body of the destructor, ...  The pointer of an entry moves to the
    local variable [conn] and leaves a null pointer, address 0, in the map;
    the end of [conn] may be the end of the connection. *)
Definition destroy_connections (s : nat) : M World () :=
  sv ← get_server s;
  AssertInLoopThread (sv_loop_ sv) ;;
  alter_server (set_sv_started_ false) s ;;
  for_each (in_order (sv_connections_ sv)) (λ item,
    let conn := item.2 in
    alter_server (λ sv, set_sv_connections_ (<[item.1 := O]> (sv_connections_ sv)) sv) s ;;
    cn ← get_conn conn;
    RunInLoop (tc_loop_ cn) (FConnectionDestroyed conn) (ConnectionDestroyed conn) ;;
    release [] conn).

(** ... then the members: the map, the thread pool, whose threads are
    stopped and joined, and the acceptor. *)
Definition TcpServer_dtor (join : nat → M World ()) (s : nat) : M World () :=
  destroy_connections s ;;
  sv ← get_server s;
  alter_server (set_sv_connections_ ∅) s ;;
  EventLoopThreadPool_dtor join (sv_thread_pool_ sv) ;;
  Acceptor_dtor (sv_acceptor_ sv) ;;
  modify (λ w, set_w_servers (delete s (w_servers w)) w).
End operations.

(** ** Binding *)

Definition BindThreadInitCallback (s : nat) (cb : option nat) : M World () :=
  alter_server (set_sv_thread_init_cb_ cb) s.
Definition Server_BindConnectionCallback (s : nat) (cb : option conn_cb) : M World () :=
  alter_server (set_sv_connection_cb_ cb) s.
Definition Server_BindMessageCallback (s : nat) (cb : option conn_cb) : M World () :=
  alter_server (set_sv_message_cb_ cb) s.
Definition Server_BindWriteCompleteCallback (s : nat) (cb : option nat) : M World () :=
  alter_server (set_sv_write_complete_cb_ cb) s.

(** ** Closing a connection of a server *)

Section closing.
Context {os : OS} {heap : Heap} {user : UserCode}.
Context `{!EpollDelOk os, !EpollCtlRet os}.
Implicit Types (w : World) (cn : TcpConnection) (ch : Channel) (lp : EventLoop) (sv : TcpServer).

Lemma wp_get_server s sv Q E w : w_servers w !! s = Some sv → Q sv w → wp (get_server s) Q E w.
Proof. intros H HQ. rw /get_server. do 2 wp_step. by rw H. Qed.

Lemma wp_alter_server f s sv (Q : () → World → Prop) E w :
  w_servers w !! s = Some sv → Q () (set_w_servers (<[s := f sv]> (w_servers w)) w) →
  wp (alter_server f s) Q E w.
Proof. intros H HQ. rw /alter_server. wp_step. by rw (alter_insert _ s sv). Qed.

(** A closed connection does not depend on its server. *)
Lemma conn_ok_servers c cn ch lp m w :
  conn_ok c cn ch lp w → tc_state_ cn = Disconnected → conn_ok c cn ch lp (set_w_servers m w).
Proof.
  intros [Hc Hr Hfd Hi Ho _] Hst. split; try done.
  eapply (chan_ready_quiet _ _ _ lp lp []); try done; [apply Hr|by rw /= app_nil_r].
Qed.

(** A task on another loop. *)
Lemma conn_ok_queued_other c cn ch lp l lp' cb w w' :
  conn_ok c cn ch lp w → w_loops w !! l = Some lp' → l ≠ tc_loop_ cn → queued l lp' cb w w' →
  conn_ok c cn ch lp w' ∧ obs c (tc_socket_ cn) (w_hist w') = obs c (tc_socket_ cn) (w_hist w).
Proof.
  intros [Hc Hr Hfd Hi Ho Hhome] Hl Hne Hq. pose proof Hq as [Hlo Hch Hcn _ Ht _ [r Hh]]. split.
  - split; try done; [by rw Hcn| |].
    + eapply (chan_ready_quiet _ _ _ lp); try done; [by rw Hlo lookup_insert_ne ?(cr_lp _ _ _ _ _ Hr)|].
      by destruct (_ || _).
    + intros H. eapply home_open_frame, Hhome, H; [|done]. by eapply home_frame_queued.
  - rw Hh. apply obs_inert. by destruct (_ || _).
Qed.

(** The server is told: on its own thread the connection leaves the map and
    its destruction is queued, otherwise the removal is queued. *)
Lemma remove_connection_calm s c cn ch lp w :
  conn_ok c cn ch lp w → tc_state_ cn = Disconnected →
  tc_on_close_ cn = Some (RemoveConnection s) → home_open c cn w →
  wp (remove_connection s c) (λ _ w', ∃ lp', conn_ok c cn ch lp' w' ∧
    obs c (tc_socket_ cn) (w_hist w') = obs c (tc_socket_ cn) (w_hist w)) never w.
Proof.
  intros Hok Hst Hcb Hhome. rw /home_open Hcb in Hhome.
  destruct Hhome as (sv & base & Hs & Hb & Hth & Hin). pose proof (co_ready _ _ _ _ _ Hok) as Hr.
  rw /remove_connection. wp_step. eapply wp_get_server; [done|]. rw /RunInLoop. wp_step.
  eapply wp_IsInLoopThread; [done|]. destruct (Nat.eqb_spec (el_thread_id_ base) (w_tid w)) as [Heq|Hne].
  - rw /remove_connection_in_loop. wp_step. eapply wp_get_server; [done|]. wp_step.
    eapply wp_get_conn; [apply Hok|]. rw bool_decide_eq_true_2; [by rw Hin|]. wp_step.
    eapply wp_alter_server; [done|]. set (w1 := set_w_servers _ w). wp_step. apply wp_assert_true; [done|].
    assert (conn_ok c cn ch lp w1) as Hok1 by by apply conn_ok_servers.
    eapply wp_conseq; [by eapply QueueInLoop_ok, Hr|]. intros [] w' Hq.
    eexists. by eapply conn_ok_queued in Hq.
  - assert (sv_loop_ sv ≠ tc_loop_ cn) as Hl.
    { intros Hl. rw Hl (cr_lp _ _ _ _ _ Hr) in Hb. injection Hb as <-. by destruct Hne, Hr. }
    eapply wp_conseq; [by apply QueueInLoop_ok|]. intros [] w' Hq. exists lp.
    by eapply conn_ok_queued_other in Hq.
Qed.
End closing.

(** The close callback of the library keeps the promise the connection
    relies on. *)
#[export] Instance close_code_calm {os : OS} {user : UserCode} c
  `{!EpollDelOk os, !EpollCtlRet os, !CalmUser c user} : CalmClose c close_code.
Proof.
  intros [s|u] cn ch lp w Hok Hst Hcb Hhome; simpl.
  - eapply wp_mono; [by apply (remove_connection_calm s c cn ch lp)| |done].
    intros [] w' (lp' & Hok' & Ho). exists (tc_input_buffer_ cn), lp'.
    split_and!; [by destruct cn|done|by apply obs_same].
  - rw /call_user. wp_step. wp_step. set (w1 := set_w_hist _ w).
    assert (conn_ok c cn ch lp w1) as Hok1 by by apply conn_ok_hist.
    eapply wp_conseq; [apply (calm_user (UClose u c) cn ch lp); [apply Nat.eqb_refl|done]|].
    intros [] w' (b & lp' & Hok' & Hb & Ho & _). exists b, lp'. split_and!; [done|done|].
    apply (obs_grows_trans _ _ [] [] [] [] [UClose u c] [] w w1 w'); [|by apply obs_same].
    pose proof (obs_event c (tc_socket_ cn) (User (UClose u c)) w w1 eq_refl) as He.
    by rw /notes /= Nat.eqb_refl in He.
Qed.
