(* ===== verification/ServerSpec.v ===== *)
(** * ServerSpec: what a server does with its connections

    - a connection the kernel hands out is entered in the map under a new
      name, gets the next loop of the pool, and from then on keeps the
      contract of the byte stream, with [TcpServer::remove_connection] as its
      close callback;
    - removing a connection, and when the removal goes wrong;
    - what the destructor does with the connections that are left. *)

From stdpp Require Import pretty.
From S2P Require Import Prelude Buffer BufferSpec World Kernel Poller Channel Sample Reactor EventLoop.
From S2P Require Import Timer Socket TcpConnection ConnInv ConnSteps ConnSpec ConnLife TimerSpec LoopLife.
From S2P Require Import Inet Acceptor ThreadPool TcpServer.

(** ** The invariant of a server *)

(** The map has each connection under its own name, which no later
    connection gets. *)
Record server_ok (host : endian) {text : InetText} (s : nat) (sv : TcpServer) (w : World) : Prop := {
  so_server : w_servers w !! s = Some sv;
  so_pool : pool_ok (sv_thread_pool_ sv) w;
  so_base : tp_base_loop_ (sv_thread_pool_ sv) = sv_loop_ sv;
  so_index : 0 ≤ w_next_index_ w;
  so_id : 0 ≤ w_next_conn_id_ w;
  so_conns : ∀ name c, sv_connections_ sv !! name = Some c → ∃ id cn,
    0 ≤ id < w_next_conn_id_ w ∧ name = conn_name host sv id ∧
    w_conns w !! c = Some cn ∧ tc_name_ cn = name ∧ tc_on_close_ cn = Some (RemoveConnection s);
}.

Lemma conn_name_inj host {text : InetText} sv i j :
  0 ≤ i → 0 ≤ j → conn_name host sv i = conn_name host sv j → i = j.
Proof.
  intros Hi Hj H. rw /conn_name in H. do 4 apply (inj (String.append _)) in H.
  apply (inj pretty) in H. lia.
Qed.

(** Names are unique: a connection is in the map at most once. *)
Lemma server_names_unique host {text : InetText} s sv w n1 n2 c :
  server_ok host s sv w → sv_connections_ sv !! n1 = Some c → sv_connections_ sv !! n2 = Some c → n1 = n2.
Proof.
  intros Hok H1 H2. destruct (so_conns _ _ _ _ Hok _ _ H1) as (? & cn & _ & _ & Hc & <- & _).
  destruct (so_conns _ _ _ _ Hok _ _ H2) as (? & cn' & _ & _ & Hc' & <- & _). by simplify_eq.
Qed.

Section adopting.
Context (host : endian) {text : InetText} {os : OS} {heap : Heap} {user : UserCode}.
Context `{!HeapFresh heap, !EpollDelOk os, !EpollCtlRet os, !SendOk os, !ReadvOk os}.
Implicit Types (w : World) (cn : TcpConnection) (ch : Channel) (lp : EventLoop) (sv : TcpServer).

(** ** The constructor of a connection *)

Definition new_chan (c l : nat) (fd : Z) : Channel :=
  set_ch_on_error_ (Some (CbHandleError c)) (set_ch_on_close_ (Some (CbHandleClose c))
    (set_ch_on_write_ (Some (CbHandleWrite c)) (set_ch_on_read_ (Some (CbHandleRead c)) (Channel_new l fd)))).

Definition new_conn (l : nat) (name : string) (fd : Z) (k : nat) (local peer : list byte) : TcpConnection :=
  mkTcpConnection l name fd k local peer Connecting true kHighWaterMark None None None None None
    fresh_buffer fresh_buffer.

Lemma wp_alter_chan f k ch (Q : () → World → Prop) E w :
  w_chans w !! k = Some ch → Q () (set_w_chans (<[k := f ch]> (w_chans w)) w) →
  wp (alter_chan f k) Q E w.
Proof. intros H HQ. rw /alter_chan. wp_step. by rw (alter_insert _ k ch). Qed.

Lemma TcpConnection_new_ok l fd local peer name Q E w :
  (∀ c k, w_conns w !! c = None → c ∉ weak_refs (w_timers w) → w_chans w !! k = None → k ≠ O →
    Q c (after_call (SysSetsockopt fd SOL_SOCKET SO_KEEPALIVE 1)
      (set_w_chans (<[k := new_chan c l fd]> (w_chans w))
        (set_w_conns (<[c := new_conn l name fd k local peer]> (w_conns w)) w)))) →
  wp (TcpConnection_new l fd local peer name) Q E w.
Proof.
  intros HQ. rw /TcpConnection_new. do 2 wp_step. set (c := heap_new _).
  assert (w_conns w !! c = None ∧ c ∉ weak_refs (w_timers w)) as [Hc Hwk].
  { rw -not_elem_of_dom -not_elem_of_union. apply heap_fresh. }
  wp_step. apply make_channel_ok. intros k Hk H0. rw fresh_buffer_new. do 4 wp_step.
  rw /BindReadCallback /BindWriteCallback /BindCloseCallback /BindErrorCallback.
  do 4 (wp_step; eapply wp_alter_chan; [apply lookup_insert_eq|]).
  wp_step. rw /SetKeepAlive. apply wp_logged. wp_step. specialize (HQ c k Hc Hwk Hk H0).
  rw /= !insert_insert_eq. exact HQ.
Qed.

(** ** Entering a connection *)

Section entering.
Context (s : nat) (sv : TcpServer) (fd : Z) (peer : list byte) (w : World).

(** The loop and the name the next connection gets. *)
Definition next_loop : nat := loop_at (sv_thread_pool_ sv) (w_next_index_ w).
Definition next_name : string := conn_name host sv (w_next_conn_id_ w).

(** The connection as it is before it is established. *)
Definition adopted_conn (k : nat) (local : list byte) : TcpConnection :=
  set_tc_on_close_ (Some (RemoveConnection s))
    (set_tc_on_write_complete_ (sv_write_complete_cb_ sv)
      (set_tc_on_message_ (sv_message_cb_ sv)
        (set_tc_on_connection_ (sv_connection_cb_ sv)
          (new_conn next_loop next_name fd k local peer)))).

Definition with_conn (c : nat) : TcpServer :=
  set_sv_connections_ (<[next_name := c]> (sv_connections_ sv)) sv.

(** A new connection [c] with a new channel [k] is in the map, and nothing
    else has changed but the counters. *)
Record adopted (c k : nat) (w' : World) : Prop := {
  ad_new : w_conns w !! c = None;
  ad_chan : w_chans w !! k = None;
  ad_name : sv_connections_ sv !! next_name = None;
  ad_servers : w_servers w' = <[s := with_conn c]> (w_servers w);
  ad_conns : ∃ local, w_conns w' = <[c := adopted_conn k local]> (w_conns w);
  ad_chans : w_chans w' = <[k := new_chan c next_loop fd]> (w_chans w);
  ad_id : w_next_conn_id_ w' = w_next_conn_id_ w + 1;
  ad_index : 0 ≤ w_next_index_ w';
  ad_rest : (w_tid w', w_timers w', w_loops w', w_accs w', w_tls w') =
            (w_tid w, w_timers w, w_loops w, w_accs w, w_tls w);
  ad_hist : ∃ evs, w_hist w' = w_hist w ++ evs ∧ forallb
    (λ e, match e with Sys (SysGetsockname _ _) _ | Sys (SysSetsockopt _ _ _ _) _ => true | _ => false end)
    evs = true;
  ad_weak : c ∉ weak_refs (w_timers w);
}.

Lemma next_name_fresh : server_ok host s sv w → sv_connections_ sv !! next_name = None.
Proof.
  intros Hok. destruct (sv_connections_ sv !! next_name) as [c|] eqn:Hn; [|done].
  destruct (so_conns _ _ _ _ Hok _ _ Hn) as (id & _ & Hid & Hname & _).
  apply conn_name_inj in Hname; [lia|apply Hok|lia].
Qed.

Lemma new_connection_ok (Q : () → World → Prop) E :
  server_ok host s sv w → w_next_conn_id_ w + 1 < two64 →
  (∀ c k w', adopted c k w' →
    wp (RunInLoop next_loop (FConnectionEstablished c) (ConnectionEstablished c)) Q E w') →
  wp (new_connection host s fd peer) Q E w.
Proof.
  intros Hok Hid HQ. pose proof Hok as [Hs Hpool Hbase Hi Hi' _].
  rw /new_connection. wp_step. eapply wp_get_server; [done|]. wp_step.
  destruct (po_base _ _ Hpool) as (lp & Hl & Ht). rw Hbase in Hl. eapply AssertInLoopThread_ok; [done|done|].
  wp_step. eapply wp_run; [exact (GetNextLoop_eq _ _ Hpool Hi)|]. fold next_loop.
  set (w1 := match tp_loops_ (sv_thread_pool_ sv) with [] => w | _ => _ end).
  assert (∃ i, 0 ≤ i ∧ w1 = set_w_next_index_ i w) as (i & Hi1 & Hw1).
  { rw /w1. destruct (tp_loops_ _); [exists (w_next_index_ w); split; [done|by destruct w]|].
    eexists. split; [|done]. apply u64_range. }
  rw Hw1. clear w1 Hw1. wp_step. rw /take_conn_id. wp_step. apply wp_gets.
  do 3 wp_step. simpl. fold next_name. wp_step. rw /get_local_addr. wp_step. apply wp_syscall. wp_step.
  set (local := if _ <? 0 then _ else _). wp_step. apply TcpConnection_new_ok. intros c k Hc Hwk Hk H0. wp_step.
  eapply wp_alter_server; [exact Hs|].
  rw /BindConnectionCallback /BindMessageCallback /BindWriteCompleteCallback /Conn_BindCloseCallback.
  do 4 (wp_step; eapply wp_alter_conn; [apply lookup_insert_eq|]). simpl. rw !insert_insert_eq.
  apply (HQ c k). split; simpl; try done.
  - by apply next_name_fresh.
  - by exists local.
  - rw u64_small; lia.
  - rw -app_assoc. by eexists.
Qed.

(** The invariant of the server is kept. *)
Lemma adopted_ok c k w' :
  server_ok host s sv w → adopted c k w' → server_ok host s (with_conn c) w'.
Proof.
  intros [Hs [Hst (lp & Hl & Ht)] Hbase Hi Hi' Hconns] [Hc _ Hn Hsv [local Hcn] _ Hid Hi2 Hrest _].
  injection Hrest as Ht' _ Hl' _ _. split; simpl; try done.
  - by rw Hsv lookup_insert_eq.
  - split; [done|]. exists lp. by rw Hl' Ht'.
  - lia.
  - intros name c'. rw Hcn Hid lookup_insert. case_decide as D.
    + intros [= <-]. exists (w_next_conn_id_ w), (adopted_conn k local). rw lookup_insert_eq.
      split_and!; [lia|lia|by rw -D|done|by rw -D|done].
    + intros Hin. destruct (Hconns name c' Hin) as (id & cn & ? & ? & Hcn' & ? & ?).
      exists id, cn. rw lookup_insert_ne; [by intros ->; simplify_eq|]. split_and!; [lia|lia|done..].
Qed.

(** The connection is as its loop expects a new one, once the tasks that
    establish it run on the thread of that loop. *)
Lemma adopted_fresh c k lp cb ops w' :
  let t := el_thread_id_ lp in
  server_ok host s sv w → adopted c k w' → w_loops w !! next_loop = Some lp →
  loop_ok next_loop (set_w_tid t w) → (t = w_tid w → next_loop = sv_loop_ sv) →
  (∀ k' ch, w_chans w !! k' = Some ch → ch_loop_ ch = next_loop → ch_fd_ ch ≠ fd) →
  sv_connection_cb_ sv = Some cb → is_Some (sv_message_cb_ sv) →
  need_out ops + 1032 ≤ vector_max_size → need_in ops + 1032 ≤ vector_max_size →
  ∃ cn, conn_fresh c cb (RemoveConnection s) (notes c (w_hist w) ++ conn_note cb c)
    (fins fd (w_hist w)) (sent fd (w_hist w)) ops cn (new_chan c next_loop fd) lp (set_w_tid t w').
Proof.
  intros t Hok Had Hl Hlok Hone Hfd Hcb Hm Ho Hi. pose proof (adopted_ok c k w' Hok Had) as Hok'.
  destruct Had as [Hc Hk Hn Hsv [local Hcn] Hch Hid _ Hrest (evs & Hh & Hq)].
  injection Hrest as Ht' _ Hl' _ _. exists (adopted_conn k local).
  assert (loop_ok next_loop (set_w_tid t w')) as Hlok'.
  { pose proof (loop_ok_new_channel next_loop k fd _ Hlok Hk Hfd) as Hlok1.
    apply (loop_ok_equiv next_loop (set_w_chans (<[k := Channel_new next_loop fd]> (w_chans w)) (set_w_tid t w)));
      [|intros lp'; simpl; rw Hl'; by eauto|exists lp; by rw /= Hl'|done|done].
    apply (poller_equiv_quiet _ evs); [by rw /poller_view /= Hl'| |done|].
    - intros k'. simpl. rw Hch !lookup_insert. by case_decide.
    - eapply forallb_mono, Hq. by intros [[] r|]. }
  destruct (loop_ok_ready next_loop k (new_chan c next_loop fd) (set_w_tid t w')) as [lp0 Hr];
    [done|by rw /= Hch lookup_insert_eq|done|].
  assert (lp0 = lp) as ->.
  { pose proof (cr_lp _ _ _ _ _ Hr) as H. simpl in H. rw Hl' in H. by simplify_eq. }
  assert (obs c fd (w_hist w') = obs c fd (w_hist w)) as Hobs.
  { rw Hh. apply obs_inert. eapply forallb_mono, Hq. by intros [[] r|]. }
  injection Hobs as Hs1 Hf1 Hn1. pose proof fresh_buffer_inv as Hinv. split; simpl; try done; [|by rw Hn1].
  split; simpl; try done; [|rw /size /zlength /=; lia..].
  split; simpl; try done; [by rw Hcn lookup_insert_eq|]. intros _. rw /home_open /=.
  destruct (so_pool _ _ _ _ Hok) as [_ (base & Hb & Htb)]. rw (so_base _ _ _ _ Hok) in Hb.
  exists (with_conn c), base. rw Hsv Hl' lookup_insert_eq /=. split_and!; [done|done| |by rw lookup_insert_eq].
  rw Htb. destruct (decide (t = w_tid w)) as [Heq|Hne]; [left; by rw Hone|by right].
Qed.
End entering.

(** ** From the accepted descriptor to the byte stream *)

(** Another thread queued a task for the loop of a new connection. *)
Lemma conn_fresh_queued c cb cb' N F S0 ops cn ch lp task t w w' :
  conn_fresh c cb cb' N F S0 ops cn ch lp (set_w_tid t w) → queued (tc_loop_ cn) lp task w w' →
  conn_fresh c cb cb' N F S0 ops cn ch (set_el_pendings_ (el_pendings_ lp ++ [task]) lp) (set_w_tid t w').
Proof.
  intros [[[Hc Hr Hfd Hi Ho Hh] ? ? ? ? ?] ? ? ? Hs Hf Hn] Hq.
  assert (obs c (tc_socket_ cn) (w_hist w') = obs c (tc_socket_ cn) (w_hist w)) as Hobs.
  { destruct (qd_hist _ _ _ _ _ Hq) as [r ->]. apply obs_inert. by destruct (_ || _). }
  injection Hobs as Hs1 Hf1 Hn1.
  split; try done; [|by rw /= Hs1|by rw /= Hf1|by rw /= Hn1]. split; try done. split; try done.
  - by rw /= (qd_conns _ _ _ _ _ Hq).
  - destruct (qd_hist _ _ _ _ _ Hq) as [r Hhist].
    eapply (chan_ready_quiet _ _ _ lp); [exact Hr| | | | | |exact Hhist|]; simpl; try done.
    + apply Hq.
    + by rw (qd_loops _ _ _ _ _ Hq) lookup_insert_eq.
    + by destruct (_ || _).
  - intros Hst. eapply home_open_frame; [|done|by apply Hh].
    destruct (home_frame_queued _ _ _ _ _ (cr_lp _ _ _ _ _ Hr : w_loops w !! _ = _) Hq) as (? & ? & ?).
    by split_and!.
Qed.

Context `{!∀ c, CalmUser c user, !∀ c, CalmMessage c user}.

(** What the application sees of connection [c] after the requests [ops]. *)
Definition streamed (s c : nat) (cb : conn_cb) (fd : Z) (h : list event) (ops : list conn_op) (w' : World) : Prop :=
  ∃ k cn ch lp, conn_ok c cn ch lp w' ∧
    stream_at c cb (RemoveConnection s) (notes c h ++ conn_note cb c) (fins fd h)
      (sent fd h ++ concat (take k (op_msg <$> ops))) cn ch w' ∧
    (tc_state_ cn = Connected → k = length ops).

Lemma execs_streamed s c cb fd h ops w :
  stream_inv c cb (RemoveConnection s) (notes c h ++ conn_note cb c) (fins fd h) (sent fd h)
    (need_out ops) (need_in ops) w → conn_state c w = Some Connected →
  wp (for_each ops (conn_exec close_code c)) (λ _, streamed s c cb fd h ops) only_exit w.
Proof.
  intros Hinv Hst. eapply wp_conseq; [exact (conn_execs_ok close_code c _ _ _ _ _ ops w Hinv)|].
  intros [] w' (k & (cn & ch & lp & Hlive & Hat) & _ & Hup). exists k, cn, ch, lp.
  split_and!; [apply Hlive|done|]. intros Hc. apply Hup. by rw (live_state _ _ _ _ _ _ _ _ _ Hlive) Hc.
Qed.

(** Establishing the connection, here or on the thread of its loop. *)
Lemma establish_streamed s c cb fd h ops cn ch lp w :
  let t := el_thread_id_ lp in
  conn_fresh c cb (RemoveConnection s) (notes c h ++ conn_note cb c) (fins fd h) (sent fd h)
    ops cn ch lp (set_w_tid t w) →
  wp (RunInLoop (tc_loop_ cn) (FConnectionEstablished c) (ConnectionEstablished c)) (λ _ w2,
    (t ≠ w_tid w → queued (tc_loop_ cn) lp (FConnectionEstablished c) w w2) ∧
    if (t =? w_tid w)%nat
    then wp (for_each ops (conn_exec close_code c)) (λ _, streamed s c cb fd h ops) only_exit w2
    else wp (ConnectionEstablished c ;; for_each ops (conn_exec close_code c))
           (λ _, streamed s c cb fd h ops) only_exit (set_w_tid t w2)) only_exit w.
Proof.
  intros t Hf. assert (w_loops w !! tc_loop_ cn = Some lp) as Hl by apply (cl_ok _ _ _ _ _ _ _ _ _ (fr_live _ _ _ _ _ _ _ _ _ _ _ Hf)).
  rw /RunInLoop. wp_step. eapply wp_IsInLoopThread; [done|]. fold t.
  destruct (Nat.eqb_spec t (w_tid w)) as [Heq|Hne].
  - assert (set_w_tid t w = w) as Hw by (rw Heq; by destruct w). rw Hw in Hf.
    eapply wp_conseq; [exact (established_stream c _ _ _ _ _ ops cn ch lp w Hf)|].
    intros [] w2 [Hinv Hst]. split; [done|]. by apply execs_streamed.
  - eapply wp_conseq; [by apply QueueInLoop_ok|]. intros [] w2 Hq. split; [done|]. wp_step.
    pose proof (conn_fresh_queued _ _ _ _ _ _ _ _ _ _ _ _ _ _ Hf Hq) as Hf2.
    eapply wp_conseq; [exact (established_stream c _ _ _ _ _ ops cn ch _ _ Hf2)|]. intros [] w3 [Hinv Hst]. by apply execs_streamed.
Qed.

Context `{!FdFresh os}.

(** C5: when the kernel hands out a connection, the accepting handler of a
    server enters it in the map, under a name no other connection has or will
    get, gives it the next loop of the pool, and changes nothing else.  On the
    thread of that loop, here at once and otherwise by the one task that is
    queued there, the connection is established, and from then on it keeps
    the whole contract of the byte stream, [TcpServer::remove_connection]
    being its close callback. *)
Theorem accepted_connection_stream a ac s sv lp cb ops w :
  w_accs w !! a = Some ac → ac_on_new_connection_ ac = Some s → ac_loop_ ac = sv_loop_ sv →
  server_ok host s sv w → w_next_conn_id_ w + 1 < two64 →
  let l := next_loop sv w in let t := el_thread_id_ lp in
  w_loops w !! l = Some lp → loop_ok l (set_w_tid t w) → fds_open l w →
  (t = w_tid w → l = sv_loop_ sv) →
  sv_connection_cb_ sv = Some cb → is_Some (sv_message_cb_ sv) →
  need_out ops + 1032 ≤ vector_max_size → need_in ops + 1032 ≤ vector_max_size →
  let r := os_reply (w_hist w) (accept_call ac) in
  let w0 := after_call (accept_call ac) w in
  0 ≤ r_ret r →
  wp (handle_accept (new_connection host) a) (λ _ w2, ∃ c k w1,
    adopted s sv (r_ret r) (written_storage sizeof_pointer (r_data r)) w0 c k w1 ∧
    server_ok host s (with_conn sv w0 c) w1 ∧
    (t ≠ w_tid w → queued l lp (FConnectionEstablished c) w1 w2) ∧
    if (t =? w_tid w)%nat
    then wp (for_each ops (conn_exec close_code c))
           (λ _, streamed s c cb (r_ret r) (w_hist w0) ops) only_exit w2
    else wp (ConnectionEstablished c ;; for_each ops (conn_exec close_code c))
           (λ _, streamed s c cb (r_ret r) (w_hist w0) ops) only_exit (set_w_tid t w2)) only_exit w.
Proof.
  intros Ha Hnc Hal Hok Hid l t Hl Hlok Hop Hone Hcb Hm Ho Hi r w0 Hr.
  destruct (so_pool _ _ _ _ Hok) as [_ (base & Hb & Htb)]. rw (so_base _ _ _ _ Hok) -Hal in Hb.
  eapply wp_same; [exact (handle_accept_eq (new_connection host) a ac base w Ha Hb Htb)|].
  rw -/r Hnc. destruct (Z.ltb_spec (r_ret r) 0); [lia|].
  assert (server_ok host s sv w0) as Hok0.
  { destruct Hok as [? [? Hbase] ? ? ? ?]. by split. }
  apply (new_connection_ok s sv); [done|done|]. intros c k w1 Had.
  change (next_loop sv w0) with l in *.
  pose proof (ad_rest _ _ _ _ _ _ _ _ Had) as Hrest. injection Hrest as Ht1 _ Hl1 _ _.
  destruct (adopted_fresh s sv (r_ret r) (written_storage sizeof_pointer (r_data r)) w0 c k lp cb ops w1)
    as [cn Hf]; try done.
  { by apply (loop_ok_call l _ (set_w_tid t w)). }
  { intros k' ch Hk' Hlo Hfd. apply (fd_fresh (os := os) (w_hist w) (accept_call ac) eq_refl).
    change (os (w_hist w) (accept_call ac)) with r. rw -Hfd. by eapply Hop. }
  fold t l in Hf. assert (tc_loop_ cn = l) as Hcl.
  { symmetry. apply (cl_ok _ _ _ _ _ _ _ _ _ (fr_live _ _ _ _ _ _ _ _ _ _ _ Hf)). }
  pose proof (establish_streamed s c cb (r_ret r) (w_hist w0) ops cn _ lp w1 Hf) as He.
  rw Hcl in He. eapply wp_conseq; [exact He|].
  intros [] w2 [Hq Hs]. exists c, k, w1. rw Ht1 in Hq Hs.
  split_and!; [done|by eapply adopted_ok|done|done].
Qed.
End adopting.

(** ** Removing a connection *)

Section removing.
Context (host : endian) {text : InetText} {os : OS} {heap : Heap} {user : UserCode}.
Implicit Types (w : World) (cn : TcpConnection) (lp : EventLoop) (sv : TcpServer).

Definition without_conn (name : string) (sv : TcpServer) : TcpServer :=
  set_sv_connections_ (delete name (sv_connections_ sv)) sv.
Definition removed (s : nat) (name : string) (sv : TcpServer) (w : World) : World :=
  set_w_servers (<[s := without_conn name sv]> (w_servers w)) w.

(** The lambda of [remove_connection] up to its assertion. *)
Lemma remove_in_loop_eq s sv c cn w :
  w_servers w !! s = Some sv → w_conns w !! c = Some cn →
  remove_connection_in_loop s c w =
    (if bool_decide (is_Some (sv_connections_ sv !! tc_name_ cn))
     then QueueInLoop (tc_loop_ cn) (FConnectionDestroyed c) else crash AssertFailed)
      (removed s (tc_name_ cn) sv w).
Proof.
  intros Hs Hc. rw /remove_connection_in_loop /get_server /get_conn /mbind /M_bind /= Hs /= Hc /=.
  rw /alter_server /modify /= (alter_insert _ s sv) //. by case_bool_decide.
Qed.

Lemma remove_eq s sv base c w :
  w_servers w !! s = Some sv → w_loops w !! sv_loop_ sv = Some base →
  remove_connection s c w =
    (if (el_thread_id_ base =? w_tid w)%nat then remove_connection_in_loop s c
     else QueueInLoop (sv_loop_ sv) (FRemoveConnection s c)) w.
Proof.
  intros Hs Hb. rw /remove_connection /get_server /mbind /M_bind /= Hs /=.
  rw /RunInLoop /IsInLoopThread /get_loop /mbind /M_bind /= Hb /=. by destruct (_ =? _)%nat.
Qed.

(** Queueing always completes. *)
Lemma QueueInLoop_done l lp cb w :
  w_loops w !! l = Some lp → ∃ w', QueueInLoop l cb w = Done () w' ∧ queued l lp cb w w'.
Proof. intros Hl. by destruct (wp_done _ _ _ (QueueInLoop_ok l lp cb never w Hl)) as ([] & w' & ? & ?); eauto. Qed.

Lemma removed_ok s sv name task l lp w w' :
  server_ok host s sv w → queued l lp task (removed s name sv w) w' → w_loops w !! l = Some lp →
  server_ok host s (without_conn name sv) w'.
Proof.
  intros [Hs [Hst (base & Hb & Ht)] Hbase Hi Hid Hconns] Hq Hl.
  pose proof Hq as [Hlo _ Hcn _ Htid Hot _]. injection Hot as _ Hsv _ Hid' Hi'. simpl in *.
  split; simpl; rw ?Hid' ?Hi' //.
  - by rw Hsv lookup_insert_eq.
  - split; [done|]. rw Hlo Htid lookup_insert. case_decide as D; [|by eauto].
    eexists. split; [done|]. simpl. rw D in Hl. by simplify_eq.
  - intros n c [_ Hn]%lookup_delete_Some. rw Hcn. by apply Hconns.
Qed.

(** C20: the close callback of a server's connection.  On a loop other than
    the server's it only queues the removal there.  On the server's thread it
    takes exactly this connection out of the map and queues its destruction,
    once, on its own loop; a second removal of the same connection fails the
    assertion.  A removal that is still queued when the server is destroyed
    runs into a dangling pointer. *)
Theorem connection_removed s sv base c cn lp w :
  server_ok host s sv w → w_conns w !! c = Some cn →
  w_loops w !! sv_loop_ sv = Some base → w_loops w !! tc_loop_ cn = Some lp →
  (∀ t, t ≠ el_thread_id_ base → ∃ w', remove_connection s c (set_w_tid t w) = Done () w' ∧
     queued (sv_loop_ sv) base (FRemoveConnection s c) (set_w_tid t w) w') ∧
  (sv_connections_ sv !! tc_name_ cn = Some c →
     ∃ w', remove_connection s c w = Done () w' ∧ remove_connection_in_loop s c w = Done () w' ∧
       queued (tc_loop_ cn) lp (FConnectionDestroyed c) (removed s (tc_name_ cn) sv w) w' ∧
       server_ok host s (without_conn (tc_name_ cn) sv) w' ∧
       (∀ name, sv_connections_ (without_conn (tc_name_ cn) sv) !! name ≠ Some c) ∧
       ∃ w'', remove_connection s c w' = Crash AssertFailed w'') ∧
  (∀ w', w_servers w' !! s = None → remove_connection_in_loop s c w' = Crash UB w').
Proof.
  intros Hok Hc Hb Hl. pose proof (so_server _ _ _ _ Hok) as Hs.
  destruct (so_pool _ _ _ _ Hok) as [_ (base' & Hb' & Ht)]. rw (so_base _ _ _ _ Hok) in Hb'. simplify_eq.
  split_and!.
  - intros t Hne. rw (remove_eq s sv base) //=. destruct (Nat.eqb_spec (el_thread_id_ base) t); [done|].
    by apply QueueInLoop_done.
  - intros Hin. destruct (QueueInLoop_done (tc_loop_ cn) lp (FConnectionDestroyed c) (removed s (tc_name_ cn) sv w))
      as (w' & Hw' & Hq); [done|].
    pose proof (remove_in_loop_eq s sv c cn w Hs Hc) as Hrun. rw bool_decide_eq_true_2 in Hrun; [by rw Hin|].
    pose proof (removed_ok s sv _ _ _ lp w w' Hok Hq Hl) as Hok'.
    exists w'. split_and!; [by rw (remove_eq s sv base) // Ht Nat.eqb_refl Hrun|by rw Hrun|done|done| |].
    + intros name. rw /without_conn /=. intros [Hne Hn]%lookup_delete_Some. apply Hne.
      by eapply (server_names_unique host s sv w _ name c).
    + pose proof Hq as [Hlo _ Hcn _ Htid _ _]. simpl in *.
      assert (∃ base2, w_loops w' !! sv_loop_ sv = Some base2 ∧ el_thread_id_ base2 = w_tid w') as (base2 & Hb2 & Ht2).
      { destruct (so_pool _ _ _ _ Hok') as [_ (b & Hbl & ?)].
        rw (so_base _ _ _ _ Hok') in Hbl. by exists b. }
      rw (remove_eq s (without_conn (tc_name_ cn) sv) base2); [apply Hok'|done|].
      rw Ht2 Nat.eqb_refl (remove_in_loop_eq s (without_conn (tc_name_ cn) sv) c cn); [apply Hok'|by rw Hcn|].
      rw bool_decide_eq_false_2; [by rw /= lookup_delete_eq; intros []|]. by eexists.
  - intros w' Hn. by rw /remove_connection_in_loop /get_server /mbind /M_bind /= Hn.
Qed.
End removing.

(** ** The destructor *)

Section destroying.
Context (host : endian) {text : InetText} {os : OS} {heap : Heap} {user : UserCode} {refs : AppRefs}.
Implicit Types (w : World) (cn : TcpConnection) (lp : EventLoop) (sv : TcpServer).

(** The connections of [cs] that loop [l] serves. *)
Definition served_by (w : World) (l : nat) (cs : list nat) : list nat :=
  filter (λ c, tc_loop_ <$> w_conns w !! c = Some l) cs.

(** Every connection is on a loop of another thread. *)
Definition elsewhere (w : World) (cs : list nat) : Prop :=
  Forall (λ c, ∃ cn lp, w_conns w !! c = Some cn ∧ w_loops w !! tc_loop_ cn = Some lp ∧
    el_thread_id_ lp ≠ w_tid w) cs.

(** Each loop got these tasks in addition to its own. *)
Definition tasks_added (f : nat → list Functor) (w w' : World) : Prop :=
  ∀ l, w_loops w' !! l = (λ lp, set_el_pendings_ (el_pendings_ lp ++ f l) lp) <$> w_loops w !! l.

(** The map with null pointers under the names of [items]. *)
Definition emptied (items : list (string * nat)) (conns : gmap string nat) : gmap string nat :=
  foldl (λ m item, <[item.1 := O]> m) conns items.

Lemma emptied_lookup items conns (name : string) :
  emptied items conns !! name = if bool_decide (name ∈ items.*1) then Some O else conns !! name.
Proof.
  revert conns. induction items as [|[n c] items IH]; intros conns; [done|]. rw /emptied /= -/(emptied _ _) IH lookup_insert.
  destruct (decide (name ∈ items.*1)) as [Hin|Hn].
  - by rw !bool_decide_eq_true_2; [done|by right|].
  - rw bool_decide_eq_false_2 //. destruct (decide (n = name)) as [-> |Hne]; [by rw bool_decide_eq_true_2; [left|]|].
    rw bool_decide_eq_false_2 // elem_of_cons. naive_solver.
Qed.

(** A connection whose destruction is queued is referred to. *)
Lemma released_queued c l lp w :
  w_loops w !! l = Some lp → FConnectionDestroyed c ∈ el_pendings_ lp → referenced [] w c = true.
Proof.
  intros Hl Hin. rw /referenced. apply orb_true_iff. left. apply orb_true_iff. left. apply orb_true_iff. right.
  apply bool_decide_eq_true. exists l, lp. split; [done|]. apply list_elem_of_fmap. by exists (FConnectionDestroyed c).
Qed.

Lemma destroy_others_ok s sv items w :
  w_servers w !! s = Some sv → elsewhere w items.*2 →
  wp (for_each items (λ item, let conn := item.2 in
      alter_server (λ sv, set_sv_connections_ (<[item.1 := O]> (sv_connections_ sv)) sv) s ;;
      cn ← get_conn conn;
      RunInLoop (tc_loop_ cn) (FConnectionDestroyed conn) (ConnectionDestroyed conn) ;; release [] conn)) (λ _ w',
    tasks_added (λ l, FConnectionDestroyed <$> served_by w l items.*2) w w' ∧
    w_conns w' = w_conns w ∧ w_chans w' = w_chans w ∧ w_tid w' = w_tid w ∧
    w_servers w' = <[s := set_sv_connections_ (emptied items (sv_connections_ sv)) sv]> (w_servers w)) never w.
Proof.
  revert sv w. induction items as [|[name c] items IH]; intros sv w Hs He; simpl.
  { wp_step. split_and!; try done; [|by rw insert_id //; rw Hs; destruct sv].
    intros l. destruct (w_loops w !! l) as [lp|]; [|done]. simpl. rw app_nil_r. by destruct lp. }
  apply Forall_cons in He as [(cn & lp & Hc & Hl & Ht) He]. wp_step. wp_step. eapply wp_alter_server; [done|].
  set (sv1 := set_sv_connections_ (<[name := O]> (sv_connections_ sv)) sv). wp_step. eapply wp_get_conn; [done|]. wp_step.
  eapply wp_conseq; [by apply (RunInLoop_other _ lp)|].
  intros [] w1 [Hlo Hch Hcn _ Htid Hot _]. injection Hot as _ Hsv1 _ _ _. rw /release. do 2 wp_step.
  rw (released_queued c (tc_loop_ cn) (set_el_pendings_ (el_pendings_ lp ++ [FConnectionDestroyed c]) lp) w1);
    [by rw Hlo lookup_insert_eq|apply elem_of_app; right; by left|]. wp_step. cbn [negb]. wp_step.
  assert (elsewhere w1 items.*2) as He1.
  { eapply Forall_impl; [exact He|]. intros c' (cn' & lp' & ? & Hl' & ?). rw /= Hcn Hlo Htid.
    destruct (decide (tc_loop_ cn = tc_loop_ cn')) as [E|E].
    - exists cn'. eexists. rw E lookup_insert_eq. split_and!; [done|done|]. rw E Hl' in Hl. by simplify_eq.
    - exists cn', lp'. by rw lookup_insert_ne. }
  eapply wp_conseq; [apply (IH sv1); [by rw Hsv1 lookup_insert_eq|done]|]. intros [] w' (Htasks & Hcn' & Hch' & Ht' & Hsv').
  split_and!; [|by rw Hcn'|by rw Hch'|by rw Ht'|by rw Hsv' Hsv1 /= insert_insert_eq]. intros l. rw Htasks Hlo /served_by Hcn. simpl.
  rw lookup_insert filter_cons Hc /=. destruct (decide (tc_loop_ cn = l)) as [<-|Hne].
  - rw Hl /= decide_True //. by rw /= -app_assoc.
  - rw decide_False //. congruence.
Qed.

Lemma in_order_perm conns : in_order conns ≡ₚ map_to_list conns.
Proof. rw /in_order merge_sort_Permutation //. Qed.

Lemma emptied_all conns : emptied (in_order conns) conns = (λ _, O) <$> conns.
Proof.
  apply map_eq. intros name. rw emptied_lookup lookup_fmap. destruct (conns !! name) as [c|] eqn:Hc.
  - rw bool_decide_eq_true_2 //. rw in_order_perm. apply list_elem_of_fmap. exists (name, c). by rw elem_of_map_to_list.
  - rw bool_decide_eq_false_2 // in_order_perm. intros ([n c] & -> & Hin%elem_of_map_to_list)%list_elem_of_fmap. by rw Hc in Hin.
Qed.

(** C21: the destructor of a server all of whose connections are served by
    loops of other threads queues the destruction of every connection of its
    map, once each and on its own loop, in the order of their names, and
    destroys and changes no connection itself; the map holds only null
    pointers then, so that from there on the queued tasks are what keeps the
    connections alive. *)
Theorem server_hands_over_destruction s sv w :
  server_ok host s sv w →
  (∀ name c, sv_connections_ sv !! name = Some c → elsewhere w [c]) →
  let cs := (in_order (sv_connections_ sv)).*2 in
  (∀ c, c ∈ cs ↔ ∃ name, sv_connections_ sv !! name = Some c) ∧ NoDup cs ∧
  ∃ w', destroy_connections s w = Done () w' ∧
    tasks_added (λ l, FConnectionDestroyed <$> served_by w l cs) w w' ∧
    w_conns w' = w_conns w ∧ w_chans w' = w_chans w ∧
    w_servers w' = <[s := set_sv_connections_ ((λ _, O) <$> sv_connections_ sv) (set_sv_started_ false sv)]> (w_servers w) ∧
    ∀ c, c ∈ cs → referenced [] w' c = true.
Proof.
  intros Hok Hel cs.
  assert (∀ c, c ∈ cs ↔ ∃ name, sv_connections_ sv !! name = Some c) as Hin.
  { intros c. rw /cs in_order_perm list_elem_of_fmap. split.
    - intros ([name c'] & -> & Hc%elem_of_map_to_list). by exists name.
    - intros [name Hc]. exists (name, c). by rw elem_of_map_to_list. }
  split_and!; [done| |].
  - rw /cs in_order_perm. apply NoDup_fmap_2_strong; [|apply NoDup_map_to_list].
    intros [n1 c1] [n2 c2] H1%elem_of_map_to_list H2%elem_of_map_to_list. simpl. intros ->. f_equal.
    by eapply server_names_unique.
  - destruct (so_pool _ _ _ _ Hok) as [_ (base & Hb & Ht)]. rw (so_base _ _ _ _ Hok) in Hb.
    pose proof (so_server _ _ _ _ Hok) as Hs. set (sv1 := set_sv_started_ false sv).
    set (w1 := set_w_servers (<[s := sv1]> (w_servers w)) w).
    assert (elsewhere w1 cs) as He.
    { apply Forall_forall. intros c [name Hc]%Hin. apply Hel in Hc. by apply Forall_cons in Hc as [Hc _]. }
    destruct (wp_done _ _ _ (destroy_others_ok s sv1 (in_order (sv_connections_ sv)) w1 (lookup_insert_eq _ _ _) He))
      as ([] & w' & Hrun & Htasks & Hcn & Hch & _ & Hsv).
    exists w'. split_and!; [|done|done|done|by rw Hsv /= insert_insert_eq emptied_all|].
    + rw /destroy_connections /get_server /mbind /M_bind /= Hs /=.
      rw /AssertInLoopThread /IsInLoopThread /get_loop /mbind /M_bind /= Hb /= Ht Nat.eqb_refl /=.
      rw /alter_server /modify (alter_insert _ s sv) //.
    + intros c Hc. rw /elsewhere Forall_forall in He. destruct (He c Hc) as (cn & lp & Hcn1 & Hl & _).
      eapply (released_queued c (tc_loop_ cn)); [by rw Htasks Hl|]. apply elem_of_app. right.
      apply list_elem_of_fmap. exists c. split; [done|]. apply list_elem_of_filter. by rw Hcn1.
Qed.
End destroying.

(** ** Samples *)

(** A server on loop 1 (thread 0) with one more loop, on thread 7. *)
Definition pool_loop : EventLoop :=
  mkEventLoop true false 7 false (EPoller_new 13) 0 [] None false [] 14 12 (built_queue 15 13).

Definition sample_server (conns : gmap string nat) : TcpServer :=
  mkTcpServer 1 any_addr "Echo" 5 (mkEventLoopThreadPool 1 "Echo.IoThreads" true 1 [2%nat])
    None (Some (UserCb 3)) (Some DefaultCb) None true conns.

Definition server_world (conns : gmap nat TcpConnection) (m : gmap string nat) (next : Z) : World :=
  mkWorld 0 0 [] {[ 3%nat := Channel_new 1 6 ]} ∅ {[ 1%nat := sample_loop; 2%nat := pool_loop ]} conns
    {[ 5%nat := mkAcceptor true 1 6 3 (Some 8%nat) 7 ]} {[ 8%nat := sample_server m ]}
    {[ 0%nat := 1%nat; 7%nat := 2%nat ]} next 0.

Definition idle_server : World := server_world ∅ ∅ 0.

Definition first_name : string := conn_name LittleEndian (sample_server ∅) 0.
Definition first_conn : TcpConnection :=
  set_tc_on_close_ (Some (RemoveConnection 8)) (new_conn 2 first_name 9 10 [] []).
Definition busy_server : World := server_world {[ 20%nat := first_conn ]} {[ first_name := 20%nat ]} 1.

Lemma sample_server_ok conns m next :
  0 ≤ next →
  (∀ name c, m !! name = Some c → ∃ id cn, 0 ≤ id < next ∧ name = conn_name LittleEndian (sample_server ∅) id ∧
    conns !! c = Some cn ∧ tc_name_ cn = name ∧ tc_on_close_ cn = Some (RemoveConnection 8)) →
  server_ok LittleEndian 8 (sample_server m) (server_world conns m next).
Proof.
  intros Hn Hm. split; try done. split; [done|]. by exists sample_loop.
Qed.

Lemma server_world_chan conns m next c ch :
  w_chans (server_world conns m next) !! c = Some ch → ch_loop_ ch = 1%nat.
Proof. rw /=. by intros [_ <-]%lookup_singleton_Some. Qed.

Lemma idle_server_ok : server_ok LittleEndian 8 (sample_server ∅) idle_server.
Proof. by apply sample_server_ok. Qed.

Lemma busy_server_ok : server_ok LittleEndian 8 (sample_server {[ first_name := 20%nat ]}) busy_server.
Proof.
  apply sample_server_ok; [done|]. intros name c [<- <-]%lookup_singleton_Some.
  exists 0, first_conn. by rw lookup_singleton_eq.
Qed.

(** A kernel whose new connection answers every read and takes every write. *)
Lemma accepted_connection_stream_witness :
  wp (handle_accept (os := sample_os) (new_connection (os := sample_os) LittleEndian (user := quiet_user)) 5)
    (λ _ w2, ∃ c lp', w_loops w2 !! 2%nat = Some lp' ∧ el_pendings_ lp' = [FConnectionEstablished c] ∧
      wp (ConnectionEstablished (os := sample_os) (user := quiet_user) c ;;
          for_each sample_requests (conn_exec (os := sample_os) (user := quiet_user)
            (close_code (os := sample_os) (user := quiet_user)) c))
        (λ _, streamed 8 c (UserCb 3) 3 (w_hist (after_call (os := sample_os) (SysAccept4 6 8) idle_server))
           sample_requests) only_exit (set_w_tid 7 w2)) only_exit idle_server.
Proof.
  refine (wp_conseq _ _ _ _ _ (accepted_connection_stream LittleEndian (os := sample_os)
    (user := quiet_user) 5 (mkAcceptor true 1 6 3 (Some 8%nat) 7) 8 (sample_server ∅) pool_loop (UserCb 3)
    sample_requests idle_server eq_refl eq_refl eq_refl idle_server_ok _ eq_refl _ _ _ eq_refl _ _ _ _) _).
  - by vm_compute.
  - apply (loop_ok_fresh 2 0 pool_loop); try done.
    + intros h1 k r h2 H. by destruct h1.
    + intros c ch Hc Hl. by rw (server_world_chan ∅ ∅ 0 c ch Hc) in Hl.
  - intros c ch Hc Hl. by rw (server_world_chan ∅ ∅ 0 c ch Hc) in Hl.
  - done.
  - by eexists.
  - by vm_compute.
  - by vm_compute.
  - by vm_compute.
  - intros [] w2 (c & k & w1 & Had & _ & Hq & Hs). exists c. eexists. split_and!; [| |exact Hs].
    + rw (qd_loops _ _ _ _ _ (Hq ltac:(done))) lookup_insert_eq. reflexivity.
    + reflexivity.
Defined.

Lemma connection_removed_witness :
  ∃ w', remove_connection (os := sample_os) 8 20 busy_server = Done () w' ∧
    server_ok LittleEndian 8 (without_conn first_name (sample_server {[ first_name := 20%nat ]})) w'.
Proof.
  destruct (connection_removed LittleEndian (os := sample_os) 8 (sample_server {[ first_name := 20%nat ]})
    sample_loop 20 first_conn pool_loop busy_server busy_server_ok eq_refl eq_refl eq_refl) as (_ & H & _).
  destruct H as (w' & ? & _ & _ & ? & _); [apply lookup_singleton_eq|]. by exists w'.
Defined.

Lemma server_hands_over_destruction_witness :
  ∃ w', destroy_connections (os := sample_os) (user := quiet_user) (refs := no_refs) 8 busy_server = Done () w' ∧
    ∃ lp', w_loops w' !! 2%nat = Some lp' ∧ el_pendings_ lp' = [FConnectionDestroyed 20].
Proof.
  destruct (server_hands_over_destruction LittleEndian (os := sample_os) (user := quiet_user) (refs := no_refs) 8
    (sample_server {[ first_name := 20%nat ]}) busy_server busy_server_ok) as (_ & _ & w' & Hrun & Htasks & _).
  - intros name c. cbn [sample_server sv_connections_]. intros [<- <-]%lookup_singleton_Some.
    apply Forall_singleton. by exists first_conn, pool_loop.
  - exists w'. split; [exact Hrun|]. rw (Htasks 2%nat). eexists. split; [reflexivity|]. by vm_compute.
Defined.
