(* ===== verification/System.v ===== *)
(** * System: all components together

    [dispatch] is the code behind what the library binds to channels,
    [run_functor] the code behind the closures it hands to loops and timers,
    [drop_tasks] what happens when the closures of a round are destroyed: the
    last pointer to a connection takes it with it, and so does the application
    when it has given up the last one.  With them the main loop of
    EventLoop.v is the program a thread runs.

    - whatever runs on a loop, no loop disappears or changes its thread or
      its descriptors, and no request to stop is forgotten;
    - hence a loop that is asked to stop returns from [Start] after the round
      it is in. *)

From S2P Require Import Prelude Buffer World Kernel Poller Channel Sample Reactor EventLoop.
From S2P Require Import Timer Socket TcpConnection ConnInv ConnSteps ConnSpec ConnLife TimerSpec LoopLife.
From S2P Require Import Inet Acceptor ThreadPool TcpServer ServerSpec.

Section operations.
Context (host : endian) {text : InetText} {os : OS} {heap : Heap} {user : UserCode}.

Definition run_functor (f : Functor) : M World () :=
  match f with
  | FUser u => call_user (UTask u)
  | FAddTimer l t => add_timer_in_loop l t
  | FCancelTimer l t => cancel_timer_in_loop l t
  | FSendInLoop c message => send_in_loop close_code c message
  | FShutdown c => shutdown_in_loop c
  | FForceClose c => force_close_in_loop close_code c
  | FForceCloseWeak c => force_close_weak c
  | FStartRead c => start_read_in_loop c
  | FStopRead c => stop_read_in_loop c
  | FShutdownDrained c => shutdown_drained c
  | FWriteComplete u c => call_user (UWriteComplete u c)
  | FHighWaterMark u c n => call_user (UHighWaterMark u c n)
  | FConnectionEstablished c => ConnectionEstablished c
  | FConnectionDestroyed c => ConnectionDestroyed c
  | FRemoveConnection s c => remove_connection_in_loop s c
  | FListen a => Listen a
  end.

Definition dispatch (cb : callback) (t : Z) : M World () :=
  match cb with
  | CbResetWakeup l => reset_wakeup l
  | CbTimerfd l => handle_timerfd run_functor l
  | CbAccept a => handle_accept (new_connection host) a
  | CbHandleRead c => handle_read close_code c t
  | CbHandleWrite c => handle_write close_code c
  | CbHandleClose c => handle_close close_code c
  | CbHandleError c => handle_error c
  | CbUser u => call_user (UChannel u)
  end.

(** ** The end of a connection *)

(** What the application has let go of meanwhile and nobody else refers to. *)
Definition let_go {refs : AppRefs} : M World () :=
  w ← get; for_each (elements (dom (w_conns w))) (release []).

(** The closures are destroyed one after the other, each giving up its
    pointer.  At the end of the round those connections go of which the
    application gave up the last pointer in its course. *)
Fixpoint drop_tasks {refs : AppRefs} (fs : list Functor) : M World () :=
  match fs with
  | [] => let_go
  | f :: fs =>
      (if owns f is Some c then release fs c else mret ()) ;;
      drop_tasks fs
  end.

Definition loop_Start {refs : AppRefs} (fuel l : nat) : M World bool := Start dispatch run_functor drop_tasks fuel l.
End operations.

(** ** What never changes *)

(** A loop keeps its thread and its descriptors, and a request to stop. *)
Definition same_loop (lp lp' : EventLoop) : Prop :=
  el_thread_id_ lp' = el_thread_id_ lp ∧ el_wakeup_fd_ lp' = el_wakeup_fd_ lp ∧
  el_wakeup_channel_ lp' = el_wakeup_channel_ lp ∧
  ep_epoll_fd_ (el_poller_ lp') = ep_epoll_fd_ (el_poller_ lp) ∧
  tq_timerfd_ (el_timer_queue_ lp') = tq_timerfd_ (el_timer_queue_ lp) ∧
  (el_quitting_ lp = true → el_quitting_ lp' = true).

(** [P] says what becomes of a connection. *)
Definition steady (P : relation TcpConnection) (w w' : World) : Prop :=
  w_tid w' = w_tid w ∧
  (∀ l lp, w_loops w !! l = Some lp → ∃ lp', w_loops w' !! l = Some lp' ∧ same_loop lp lp') ∧
  (∀ c cn, w_conns w !! c = Some cn → ∃ cn', w_conns w' !! c = Some cn' ∧ P cn cn').

(** A connection keeps its identity; ... *)
Definition same_conn (cn cn' : TcpConnection) : Prop :=
  (tc_loop_ cn', tc_name_ cn', tc_socket_ cn', tc_channel_ cn', tc_local_addr_ cn', tc_peer_addr_ cn') =
  (tc_loop_ cn, tc_name_ cn, tc_socket_ cn, tc_channel_ cn, tc_local_addr_ cn, tc_peer_addr_ cn).
(** ... its input and its message callback as well. *)
Definition same_input (cn cn' : TcpConnection) : Prop :=
  same_conn cn cn' ∧ tc_input_buffer_ cn' = tc_input_buffer_ cn ∧ tc_on_message_ cn' = tc_on_message_ cn.

(** What sending and closing change of a connection. *)
Class ConnKept (P : relation TcpConnection) : Prop := {
  #[global] kept_preorder :: PreOrder P;
  kept_state : ∀ s cn, P cn (set_tc_state_ s cn);
  kept_reading : ∀ b cn, P cn (set_tc_reading_ b cn);
  kept_output : ∀ b cn, P cn (set_tc_output_buffer_ b cn);
}.

#[export] Instance same_conn_kept : ConnKept same_conn.
Proof. split; [split; [done|]|done..]. rw /same_conn. intros x y z H1 H2. by rw H2. Qed.

#[export] Instance same_input_kept : ConnKept same_input.
Proof.
  split; [split|done..]; [done|]. intros x y z (? & ? & ?) (? & ? & ?).
  split_and!; [by etrans|congruence..].
Qed.

#[export] Instance same_loop_preorder : PreOrder same_loop.
Proof.
  split; [intros x; rw /same_loop; by split_and!|]. intros x y z (?&?&?&?&?&?) (?&?&?&?&?&?).
  rw /same_loop. split_and!; try congruence. auto.
Qed.

#[export] Instance steady_preorder P `{!PreOrder P} : PreOrder (steady P).
Proof.
  split.
  - intros w. split_and!; [done|intros l lp Hl; by exists lp|intros c cn Hc; by exists cn].
  - intros x y z (Ht1 & H1 & C1) (Ht2 & H2 & C2). split_and!; [congruence|..].
    + intros l lp Hl. destruct (H1 l lp Hl) as (lp1 & Hl1 & E1). destruct (H2 l lp1 Hl1) as (lp2 & Hl2 & E2).
      exists lp2. split; [done|]. by etrans.
    + intros c cn Hc. destruct (C1 c cn Hc) as (cn1 & Hc1 & E1). destruct (C2 c cn1 Hc1) as (cn2 & Hc2 & E2).
      exists cn2. split; [done|]. by etrans.
Qed.

(** ** Computations along a relation *)

(** What code does to the world when it completes, and when it fails. *)
Record effect := mkEffect { goes : relation World; fails : relation World }.

Class Effect (R : effect) : Prop := {
  #[global] goes_preorder :: PreOrder (goes R);
  fails_at_once : ∀ w w', goes R w w' → fails R w w';
  fails_after : ∀ w w1 w2, goes R w w1 → fails R w1 w2 → fails R w w2;
}.

(** [R], with nothing said of failures, and [R] in both cases. *)
Definition calmly (R : relation World) : effect := mkEffect R (λ _ _, True).
Definition always (R : relation World) : effect := mkEffect R R.

#[export] Instance calmly_effect R `{!PreOrder R} : Effect (calmly R).
Proof. by split. Qed.
#[export] Instance always_effect R `{!PreOrder R} : Effect (always R).
Proof. split; [done|done|]. intros x y z ??. by etrans. Qed.

(** [R] holds between the worlds before and after [m]. *)
Definition along (R : effect) {A} (m : M World A) : Prop :=
  ∀ w, match m w with Done _ w' => goes R w w' | Crash _ w' => fails R w w' end.

Lemma along_done (R : effect) {A} (m : M World A) a w w' : along R m → m w = Done a w' → goes R w w'.
Proof. intros H Hr. specialize (H w). by rw Hr in H. Qed.
Lemma along_calm (R : relation World) {A} (m : M World A) :
  (∀ w a w', m w = Done a w' → R w w') → along (calmly R) m.
Proof. intros H w. destruct (m w) as [a w'|] eqn:Hr; [|done]. by eapply H. Qed.

Section rules.
Context (R : effect) `{!Effect R}.

Lemma along_ret {A} (a : A) : along R (mret a).
Proof. intros w. simpl. reflexivity. Qed.
Lemma along_crash {A} f : along R (crash f : M World A).
Proof. intros w. by apply fails_at_once. Qed.
Lemma along_bind {A B} (m : M World A) (k : A → M World B) :
  along R m → (∀ a, along R (k a)) → along R (m ≫= k).
Proof.
  intros Hm Hk w. rw /mbind /M_bind. specialize (Hm w). destruct (m w) as [a w1|]; [|done].
  specialize (Hk a w1). destruct (k a w1); [by etrans|by eapply fails_after].
Qed.
Lemma along_get : along R get.
Proof. intros w. simpl. reflexivity. Qed.
Lemma along_gets {A} (f : World → A) : along R (gets f).
Proof. intros w. simpl. reflexivity. Qed.
Lemma along_assert b : along R (assert_ b).
Proof. destruct b; [exact (along_ret ())|exact (along_crash _)]. Qed.
Lemma along_deref {A} (o : option A) : along R (deref o).
Proof. destruct o; [exact (along_ret _)|exact (along_crash _)]. Qed.
Lemma along_when b (m : M World ()) : along R m → along R (when b m).
Proof. intros Hm. destruct b; [done|exact (along_ret ())]. Qed.
Lemma along_for_each {A} (f : A → M World ()) l : (∀ x, along R (f x)) → along R (for_each l f).
Proof.
  intros Hf. induction l as [|x l IH]; [exact (along_ret ())|]. by apply along_bind.
Qed.
Lemma along_modify (f : World → World) : (∀ w, goes R w (f w)) → along R (modify f).
Proof. intros Hf w. apply Hf. Qed.
End rules.

(** Calls that neither move bytes on a socket nor accept or close one. *)
Definition silent (k : call) : bool :=
  match k with SysSend _ _ | SysReadv _ _ | SysAccept4 _ _ | SysAccept _ | SysClose _ => false | _ => true end.

(** Tasks that send a message. *)
Definition sends (f : Functor) : bool := match f with FSendInLoop _ _ => true | _ => false end.

(** Steps of the library that move no bytes and make or destroy no objects. *)
Class Stable (R : effect) : Prop := {
  #[global] stable_effect :: Effect R;
  stable_frame : ∀ w w',
    (w_tid w', w_hist w', w_chans w', w_timers w', w_loops w', w_conns w', w_accs w', w_servers w') =
    (w_tid w, w_hist w, w_chans w, w_timers w, w_loops w, w_conns w, w_accs w, w_servers w) → goes R w w';
  stable_call : ∀ k r w, silent k = true → goes R w (set_w_hist (w_hist w ++ [Sys k r]) w);
  stable_user : ∀ u w, goes R w (set_w_hist (w_hist w ++ [User u]) w);
  stable_chan : ∀ f k w, (∀ ch, ch_fd_ (f ch) = ch_fd_ ch) → goes R w (set_w_chans (alter f k (w_chans w)) w);
  stable_loop : ∀ f l w, (∀ lp, same_loop lp (f lp) ∧ el_pendings_ (f lp) = el_pendings_ lp) →
    goes R w (set_w_loops (alter f l (w_loops w)) w);
  stable_push : ∀ t l w, sends t = false →
    goes R w (set_w_loops (alter (λ lp, set_el_pendings_ (el_pendings_ lp ++ [t]) lp) l (w_loops w)) w);
  stable_state : ∀ s c w, s ≠ Connecting → s ≠ Connected →
    goes R w (set_w_conns (alter (set_tc_state_ s) c (w_conns w)) w);
  stable_reading : ∀ b c w, goes R w (set_w_conns (alter (set_tc_reading_ b) c (w_conns w)) w);
  stable_listening : ∀ b a w, goes R w (set_w_accs (alter (set_ac_listening_ b) a (w_accs w)) w);
  stable_map : ∀ f s w,
    goes R w (set_w_servers (alter (λ sv, set_sv_connections_ (f (sv_connections_ sv)) sv) s (w_servers w)) w);
}.

Create HintDb keeps.

(** Closes [along] goals by the structure of the computation; the
    operations proved so far are hints of the database. *)
Ltac along_side := first [exact _ | done | (intros; split; [rw /same_loop; by split_and!|done]) | by cbn].
Ltac along_step := first
  [ progress intros
  | match goal with |- Effect _ => exact _ end
  | apply along_ret | apply along_crash | apply along_get | apply along_gets | apply along_assert
  | apply along_deref
  | solve [auto with keeps nocore]
  | apply along_when | apply along_for_each | apply along_bind
  | match goal with |- along _ (match ?x with _ => _ end) => destruct x end ].
Ltac solve_along := repeat along_step.

Section stable.
Context {text : InetText} {os : OS} {heap : Heap} {user : UserCode}.
Context (R : effect) `{HR : !Stable R}.

Lemma along_frame (f : World → World) :
  (∀ w, (w_tid (f w), w_hist (f w), w_chans (f w), w_timers (f w), w_loops (f w), w_conns (f w), w_accs (f w), w_servers (f w)) =
    (w_tid w, w_hist w, w_chans w, w_timers w, w_loops w, w_conns w, w_accs w, w_servers w)) → along R (modify f).
Proof. intros Hf. apply along_modify. intros w. by apply stable_frame. Qed.
Lemma along_syscall k : silent k = true → along R (syscall k).
Proof.
  intros Hk w. change (goes R w (after_call k w)).
  etrans; [by apply (stable_call k (os_reply (w_hist w) k) w)|]. by apply stable_frame.
Qed.
Lemma along_now : along R now.
Proof. intros w. by apply (stable_call ClockNow). Qed.
Lemma along_errno : along R errno. Proof. apply along_gets. exact _. Qed.
Lemma along_event u : along R (modify (λ w, set_w_hist (w_hist w ++ [User u]) w)).
Proof. apply along_modify. intros w. apply stable_user. Qed.
Lemma along_alter_chan f k : (∀ ch, ch_fd_ (f ch) = ch_fd_ ch) → along R (alter_chan f k).
Proof. intros Hf. apply along_modify. intros w. by apply stable_chan. Qed.
Lemma along_alter_loop f l :
  (∀ lp, same_loop lp (f lp) ∧ el_pendings_ (f lp) = el_pendings_ lp) → along R (alter_loop f l).
Proof. intros Hf. apply along_modify. intros w. by apply stable_loop. Qed.
Lemma along_state s c : s ≠ Connecting → s ≠ Connected → along R (alter_conn (set_tc_state_ s) c).
Proof. intros H1 H2. apply along_modify. intros w. by apply stable_state. Qed.
Lemma along_reading b c : along R (alter_conn (set_tc_reading_ b) c).
Proof. apply along_modify. intros w. apply stable_reading. Qed.
Lemma along_listening b a : along R (alter_acc (set_ac_listening_ b) a).
Proof. apply along_modify. intros w. apply stable_listening. Qed.
Lemma along_map f s : along R (alter_server (λ sv, set_sv_connections_ (f (sv_connections_ sv)) sv) s).
Proof. apply along_modify. intros w. apply stable_map. Qed.

#[local] Hint Resolve along_now along_errno along_event along_reading along_listening : keeps.
#[local] Hint Extern 1 (along _ (syscall _)) => apply along_syscall; [along_side..] : keeps.
#[local] Hint Extern 1 (along _ (alter_chan _ _)) => apply along_alter_chan; [along_side..] : keeps.
#[local] Hint Extern 1 (along _ (alter_loop _ _)) => apply along_alter_loop; [along_side..] : keeps.
#[local] Hint Extern 1 (along _ (alter_conn (set_tc_state_ _) _)) => apply along_state; [along_side..] : keeps.
#[local] Hint Extern 1 (along _ (alter_server _ _)) => apply along_map; [along_side..] : keeps.

(** ** Loops, pollers and channels *)

Lemma along_get_loop l : along R (get_loop l). Proof. rw /get_loop. solve_along. Qed.
Lemma along_get_chan c : along R (get_chan c). Proof. rw /get_chan. solve_along. Qed.
Lemma along_get_conn c : along R (get_conn c). Proof. rw /get_conn. solve_along. Qed.
Lemma along_get_timer t : along R (get_timer t). Proof. rw /get_timer. solve_along. Qed.
Lemma along_get_acc a : along R (get_acc a). Proof. rw /get_acc. solve_along. Qed.
Lemma along_get_server s : along R (get_server s). Proof. rw /get_server. solve_along. Qed.
#[local] Hint Resolve along_get_loop along_get_chan along_get_conn along_get_timer along_get_acc
  along_get_server : keeps.

Lemma along_is_in_thread l : along R (IsInLoopThread l). Proof. rw /IsInLoopThread. solve_along. Qed.
#[local] Hint Resolve along_is_in_thread : keeps.
Lemma along_assert_thread l : along R (AssertInLoopThread l).
Proof. rw /AssertInLoopThread /critical. solve_along. Qed.
#[local] Hint Resolve along_assert_thread : keeps.

Lemma along_epoll_operation l op c : along R (update_epoll_operation l op c).
Proof. rw /update_epoll_operation /critical. solve_along. Qed.
#[local] Hint Resolve along_epoll_operation : keeps.
Lemma along_update_channel l c : along R (EventLoop_UpdateChannel l c).
Proof. rw /EventLoop_UpdateChannel /EPoller_UpdateChannel /alter_poller. solve_along. Qed.
Lemma along_remove_channel l c : along R (EventLoop_RemoveChannel l c).
Proof. rw /EventLoop_RemoveChannel /EPoller_RemoveChannel /alter_poller. solve_along. Qed.
#[local] Hint Resolve along_update_channel along_remove_channel : keeps.
Lemma along_change_events f c : along R (change_events f c).
Proof. rw /change_events /update_events. solve_along. Qed.
Lemma along_remove_from_loop c : along R (RemoveFromLoop c). Proof. rw /RemoveFromLoop. solve_along. Qed.
Lemma along_tie k c : along R (Tie k c). Proof. rw /Tie. solve_along. Qed.
#[local] Hint Resolve along_change_events along_remove_from_loop along_tie : keeps.

(** ** Tasks and timers *)

Lemma along_set_wakeup l : along R (set_wakeup l). Proof. rw /set_wakeup. solve_along. Qed.
#[local] Hint Resolve along_set_wakeup : keeps.
Lemma along_queue l f : sends f = false → along R (QueueInLoop l f).
Proof.
  intros Hf. rw /QueueInLoop. apply along_bind; [exact _|apply along_modify; intros w; by apply stable_push|]. solve_along.
Qed.
Lemma along_run_in_loop l f body : sends f = false → along R body → along R (RunInLoop l f body).
Proof. intros Hf Hb. pose proof (along_queue l f Hf). rw /RunInLoop. solve_along. Qed.
Lemma along_stop l : along R (Stop l). Proof. rw /Stop. solve_along. Qed.
Lemma along_reset_wakeup l : along R (reset_wakeup l). Proof. rw /reset_wakeup. solve_along. Qed.
#[local] Hint Extern 1 (along _ (QueueInLoop _ _)) => apply along_queue; [along_side..] : keeps.
#[local] Hint Resolve along_run_in_loop along_stop along_reset_wakeup : keeps.

Lemma along_get_tq l : along R (get_tq l). Proof. rw /get_tq. solve_along. Qed.
Lemma along_set_timerfd fd e : along R (set_timerfd fd e).
Proof. rw /set_timerfd /critical. solve_along. Qed.
#[local] Hint Resolve along_get_tq along_set_timerfd : keeps.
Lemma along_insert l t : along R (insert l t). Proof. rw /insert /alter_tq. solve_along. Qed.
#[local] Hint Resolve along_insert : keeps.
Lemma along_add_timer l t : along R (add_timer_in_loop l t). Proof. rw /add_timer_in_loop. solve_along. Qed.
Lemma along_cancel_timer l t : along R (cancel_timer_in_loop l t).
Proof. rw /cancel_timer_in_loop /alter_tq. solve_along. Qed.
#[local] Hint Resolve along_add_timer along_cancel_timer : keeps.
Lemma along_take_expired l t : along R (take_expired l t). Proof. rw /take_expired /alter_tq. solve_along. Qed.
Lemma along_rearm l : along R (rearm l). Proof. rw /rearm. solve_along. Qed.

(** ** Connections *)

Lemma along_logged k : silent k = true → along R (logged k). Proof. intros Hk. rw /logged. solve_along. Qed.
Lemma along_or_die k : silent k = true → along R (or_die k). Proof. intros Hk. rw /or_die /critical. solve_along. Qed.
#[local] Hint Extern 1 (along _ (logged _)) => apply along_logged; [along_side..] : keeps.
#[local] Hint Extern 1 (along _ (or_die _)) => apply along_or_die; [along_side..] : keeps.
Lemma along_socket_error fd : along R (get_socket_error fd).
Proof. rw /get_socket_error. solve_along. Qed.
#[local] Hint Resolve along_socket_error : keeps.

(** Application code for which the notifications are along [R]. *)
Context (Hnote : ∀ c u, tells c u = true → along R (user_run u)).

Lemma along_note c u : tells c u = true → along R (call_user u).
Proof. intros Hu. rw /call_user. solve_along. by eapply Hnote. Qed.
Lemma along_connection_cb u c : along R (call_user (UConnection u c)).
Proof. apply (along_note c), Nat.eqb_refl. Qed.
Lemma along_close_cb u c : along R (call_user (UClose u c)).
Proof. apply (along_note c), Nat.eqb_refl. Qed.
#[local] Hint Resolve along_connection_cb along_close_cb : keeps.

Lemma along_remove_in_loop s c : along R (remove_connection_in_loop s c).
Proof. rw /remove_connection_in_loop. solve_along. Qed.
#[local] Hint Resolve along_remove_in_loop : keeps.
Lemma along_close_code cb c : along R (close_code cb c).
Proof. rw /close_code /remove_connection. solve_along. Qed.
Lemma along_call_connection c : along R (call_connection c).
Proof. rw /call_connection. solve_along. Qed.
#[local] Hint Resolve along_close_code along_call_connection : keeps.
Lemma along_handle_close c : along R (handle_close close_code c).
Proof. rw /handle_close /set_state /DisableAllEvent /call_close. solve_along. Qed.
Lemma along_handle_error c : along R (handle_error c).
Proof. rw /handle_error. solve_along. Qed.
Lemma along_error_with_code c e : along R (handle_error_with_code c e).
Proof. rw /handle_error_with_code. solve_along. Qed.
Lemma along_write_complete c : along R (queue_write_complete c).
Proof. rw /queue_write_complete. solve_along. Qed.
#[local] Hint Resolve along_handle_close along_handle_error along_error_with_code along_write_complete : keeps.
Lemma along_force_close c : along R (ForceClose c).
Proof. rw /ForceClose /compare_exchange /set_state. solve_along. Qed.
#[local] Hint Resolve along_force_close : keeps.
Lemma along_shutdown_drained c : along R (shutdown_drained c).
Proof. rw /shutdown_drained /ShutdownWrite /shutdown_write. solve_along. Qed.
#[local] Hint Resolve along_shutdown_drained : keeps.

(** The tasks that neither send a message nor establish a connection. *)
Definition still (f : Functor) : bool :=
  match f with FSendInLoop _ _ | FConnectionEstablished _ | FUser _ | FWriteComplete _ _ | FHighWaterMark _ _ _ => false | _ => true end.
Lemma along_still f : still f = true → along R (run_functor f).
Proof.
  intros Hf. destruct f; try done; simpl; rw ?/shutdown_in_loop ?/ShutdownWrite ?/shutdown_write ?/force_close_in_loop
    ?/force_close_weak ?/start_read_in_loop ?/stop_read_in_loop ?/ConnectionDestroyed
    ?/EnableReadEvent ?/DisableReadEvent ?/DisableAllEvent
    ?/compare_exchange ?/set_state ?/Listen ?/Socket_Listen ?/listen_or_die; solve_along.
Qed.

(** ** The main loop *)

Lemma along_fill_actives evs acts : along R (fill_actives evs acts).
Proof. revert acts. induction evs as [|[ev c] evs IH]; intros acts; simpl; solve_along. Qed.
#[local] Hint Resolve along_fill_actives : keeps.
Lemma along_poll_phase l : along R (poll_phase l).
Proof. rw /poll_phase /EPoller_Poll /alter_poller /critical. solve_along. Qed.
Lemma along_handle_event run c t : (∀ cb t, along R (run cb t)) → along R (HandleEvent run c t).
Proof. intros Hrun. rw /HandleEvent /fire. solve_along. Qed.
#[local] Hint Resolve along_poll_phase along_handle_event : keeps.
Lemma along_event_phase run l : (∀ cb t, along R (run cb t)) → along R (event_phase run l).
Proof. intros Hrun. rw /event_phase. solve_along. Qed.
End stable.

#[export] Hint Resolve along_now along_errno along_event along_reading along_listening along_get_loop along_get_chan
  along_get_conn along_get_timer along_get_acc along_get_server along_is_in_thread along_assert_thread
  along_epoll_operation along_update_channel along_remove_channel along_change_events along_remove_from_loop along_tie
  along_set_wakeup along_run_in_loop along_stop along_reset_wakeup along_get_tq along_set_timerfd along_insert
  along_add_timer along_cancel_timer along_take_expired along_rearm along_socket_error along_connection_cb
  along_close_cb along_remove_in_loop along_close_code along_call_connection along_handle_close along_handle_error
  along_error_with_code along_write_complete along_force_close along_shutdown_drained along_fill_actives
  along_poll_phase along_handle_event along_event_phase : keeps.
#[export] Hint Extern 1 (along _ (syscall _)) => apply along_syscall; [along_side..] : keeps.
#[export] Hint Extern 1 (along _ (alter_chan _ _)) => apply along_alter_chan; [along_side..] : keeps.
#[export] Hint Extern 1 (along _ (alter_loop _ _)) => apply along_alter_loop; [along_side..] : keeps.
#[export] Hint Extern 1 (along _ (alter_conn (set_tc_state_ _) _)) => apply along_state; [along_side..] : keeps.
#[export] Hint Extern 1 (along _ (alter_server _ _)) => apply along_map; [along_side..] : keeps.
#[export] Hint Extern 1 (along _ (QueueInLoop _ _)) => apply along_queue; [along_side..] : keeps.
#[export] Hint Extern 1 (along _ (logged _)) => apply along_logged; [along_side..] : keeps.
#[export] Hint Extern 1 (along _ (or_die _)) => apply along_or_die; [along_side..] : keeps.
#[export] Hint Extern 0 (Stable _) => exact _ : keeps.

(** ** What never changes, as such a relation *)

Abbreviation keeps P := (along (calmly (steady P))).

Section steady.
Context {text : InetText} {os : OS} {heap : Heap} {user : UserCode}.
Context (P : relation TcpConnection) `{!ConnKept P}.

Lemma steady_same w w' :
  w_loops w' = w_loops w → w_conns w' = w_conns w → w_tid w' = w_tid w → steady P w w'.
Proof.
  intros Hl Hc Ht. split_and!; [done|..]; rw ?Hl ?Hc; [intros l lp H; by exists lp|intros c cn H; by exists cn].
Qed.
Lemma steady_loop f l w : (∀ lp, same_loop lp (f lp)) → steady P w (set_w_loops (alter f l (w_loops w)) w).
Proof.
  intros Hf. split_and!; [done| |intros c cn H; by exists cn].
  intros l' lp Hl. rw /= lookup_alter. case_decide; subst; [rw Hl; by eexists|by exists lp].
Qed.
Lemma steady_conn f c w : (∀ cn, P cn (f cn)) → steady P w (set_w_conns (alter f c (w_conns w)) w).
Proof.
  intros Hf. split_and!; [done|intros l lp Hl; by exists lp|].
  intros c' cn Hc. rw /= lookup_alter. case_decide; subst; [rw Hc; by eexists|by exists cn].
Qed.
#[export] Instance steady_stable : Stable (calmly (steady P)).
Proof.
  split.
  - exact _.
  - intros w w' [= ? ? ? ? ? ? ? ?]. by apply steady_same.
  - intros k r w _. by apply steady_same.
  - intros u w. by apply steady_same.
  - intros f k w _. by apply steady_same.
  - intros f l w Hf. apply steady_loop. intros lp. apply Hf.
  - intros t l w _. apply steady_loop. intros lp. rw /same_loop. by split_and!.
  - intros s c w _ _. apply steady_conn. intros cn. apply kept_state.
  - intros b c w. apply steady_conn. intros cn. apply kept_reading.
  - intros b a w. by apply steady_same.
  - intros f s w. by apply steady_same.
Qed.

(** The steps that move bytes keep it as well. *)
Lemma keeps_syscall c : keeps P (syscall c).
Proof. intros w. by apply steady_same. Qed.
Lemma keeps_alter_conn f c : (∀ cn, P cn (f cn)) → keeps P (alter_conn f c).
Proof. intros Hf. apply along_modify. intros w. by apply steady_conn. Qed.
Lemma keeps_alter_loop f l : (∀ lp, same_loop lp (f lp)) → keeps P (alter_loop f l).
Proof. intros Hf. apply along_modify. intros w. by apply steady_loop. Qed.
Lemma keeps_conn c cn' w :
  (∀ cn, w_conns w !! c = Some cn → P cn cn') → steady P w (set_w_conns (<[c := cn']> (w_conns w)) w).
Proof.
  intros Hcn. split_and!; [done|intros l lp Hl; by exists lp|].
  intros c' cn Hc. rw /= lookup_insert. case_decide; subst; [|by exists cn]. exists cn'. split; [done|]. by apply Hcn.
Qed.
Lemma keeps_on_buffer {A} g p c (m : M Buffer A) :
  (∀ b cn, P cn (p b cn)) → keeps P (on_buffer g p c m).
Proof.
  intros Hp. apply along_calm. intros w a w'. rw /on_buffer /get_conn /mbind /M_bind /=. destruct (w_conns w !! c) as [cn|] eqn:Hc; [|done].
  rw /= /zoom. destruct (m _) as [x b|]; [|done]. intros [= _ <-]. apply keeps_conn. intros ? ?. by simplify_eq.
Qed.
Lemma keeps_modify (f : World → World) :
  (∀ w, w_loops (f w) = w_loops w ∧ w_conns (f w) = w_conns w ∧ w_tid (f w) = w_tid w) → keeps P (modify f).
Proof. intros Hf. apply along_modify. intros w. destruct (Hf w) as (? & ? & ?). by apply steady_same. Qed.
End steady.

(** The same without the connections. *)
Definition steady_loops (w w' : World) : Prop :=
  w_tid w' = w_tid w ∧
  ∀ l lp, w_loops w !! l = Some lp → ∃ lp', w_loops w' !! l = Some lp' ∧ same_loop lp lp'.
Abbreviation keeps_loops := (along (calmly steady_loops)).

#[export] Instance steady_loops_preorder : PreOrder steady_loops.
Proof.
  split; [intros w; split; [done|]; intros l lp H; by exists lp|]. intros x y z [Ht1 H1] [Ht2 H2]. split; [congruence|].
  intros l lp Hl. destruct (H1 l lp Hl) as (lp1 & Hl1 & E1). destruct (H2 l lp1 Hl1) as (lp2 & Hl2 & E2).
  exists lp2. split; [done|]. by etrans.
Qed.
Lemma steady_loops_refl w w' : w_tid w' = w_tid w → w_loops w' = w_loops w → steady_loops w w'.
Proof. intros Ht Hl. split; [done|]. rw Hl. intros l lp H. by exists lp. Qed.
Lemma loops_bind {A B} (m : M World A) (k : A → M World B) :
  keeps_loops m → (∀ a, keeps_loops (k a)) → keeps_loops (m ≫= k).
Proof. apply along_bind. exact _. Qed.

(** Closes [keeps] goals. *)
Ltac solve_keeps := repeat first
  [ match goal with |- ConnKept _ => exact _ end
  | apply keeps_syscall
  | (apply keeps_on_buffer; first [exact _ | intros; first [apply kept_output | done]])
  | along_step
  | (apply keeps_modify; first [exact _ | intros; split_and!; reflexivity])
  | (apply keeps_alter_loop; first [exact _ | intros; rw /same_loop; by split_and!])
  | (apply keeps_alter_conn; first [exact _ | intros; first [apply kept_state | apply kept_reading | done]]) ].

Section outgoing.
Context {text : InetText} {os : OS} {heap : Heap} {user : UserCode}.
Context (P : relation TcpConnection) `{!ConnKept P}.
Context (Hnote : ∀ c u, tells c u = true → keeps P (user_run u)).

Lemma keeps_timerfd run l : (∀ f, keeps P (run f)) → keeps P (handle_timerfd run l).
Proof.
  intros H. rw /handle_timerfd /reset_timerfd /run_expired /restart_expired /alter_tq /alter_timer. solve_keeps.
Qed.
Lemma keeps_send_directly c msg : keeps P (send_directly c msg).
Proof. rw /send_directly. solve_keeps. Qed.
Lemma keeps_buffer_rest c msg n m : keeps P (buffer_rest c msg n m).
Proof. rw /buffer_rest /sub_range /on_output /EnableWriteEvent. solve_keeps. Qed.
#[local] Hint Resolve keeps_send_directly keeps_buffer_rest : keeps.
Lemma keeps_send_in_loop c msg : keeps P (send_in_loop close_code c msg).
Proof. rw /send_in_loop. solve_keeps. Qed.
Lemma keeps_established c : keeps P (ConnectionEstablished c).
Proof. rw /ConnectionEstablished /set_state /EnableReadEvent. solve_keeps. Qed.
Lemma keeps_handle_write c : keeps P (handle_write close_code c).
Proof. rw /handle_write /on_output /DisableWriteEvent. solve_keeps. Qed.
End outgoing.

#[export] Hint Resolve keeps_timerfd keeps_send_in_loop keeps_established keeps_handle_write : keeps.
#[export] Hint Extern 0 (ConnKept _) => exact _ : keeps.

(** ** Everything a loop runs *)

Section components.
Context (host : endian) {text : InetText} {os : OS} {heap : Heap} {user : UserCode}.
Context `{!HeapFresh heap} (Huser : ∀ u, keeps same_conn (user_run u)).
Abbreviation P := same_conn.

Lemma Hnote c u : tells c u = true → keeps P (user_run u).
Proof. intros _. apply Huser. Qed.
#[local] Hint Resolve Hnote : keeps.
Lemma keeps_call_user u : keeps P (call_user u). Proof. rw /call_user. solve_keeps. Qed.
#[local] Hint Resolve keeps_call_user : keeps.
Lemma keeps_call_message c t : keeps P (call_message c t).
Proof. rw /call_message /default_message_callback /on_input. solve_keeps. Qed.
#[local] Hint Resolve keeps_call_message : keeps.

(** Every task ... *)
Lemma keeps_run_functor f : keeps P (run_functor f).
Proof.
  destruct f; simpl; rw ?/shutdown_in_loop ?/ShutdownWrite ?/shutdown_write ?/force_close_in_loop
    ?/force_close_weak ?/start_read_in_loop ?/stop_read_in_loop ?/ConnectionDestroyed
    ?/compare_exchange ?/set_state ?/Listen ?/Socket_Listen ?/listen_or_die; solve_keeps.
Qed.
#[local] Hint Resolve keeps_run_functor : keeps.

(** ... and every handler. *)
Lemma keeps_new_conn l fd local peer name : keeps P (TcpConnection_new l fd local peer name).
Proof.
  apply along_calm. intros w c w' Hr.
  pose proof (TcpConnection_new_ok l fd local peer name (λ _ w', steady P w w') never w) as H.
  rw /wp Hr in H. apply H. intros c' k Hc' _ _ _. set (w1 := set_w_chans _ _).
  etrans; [|exact (along_done _ _ _ w1 _ (keeps_syscall P _) eq_refl)]. rw /w1.
  transitivity (set_w_conns (<[c' := new_conn l name fd k local peer]> (w_conns w)) w).
  - apply keeps_conn; [exact _|]. by rw Hc'.
  - exact (along_done _ _ _ _ _ (keeps_modify P (set_w_chans _) ltac:(done)) eq_refl).
Qed.
#[local] Hint Resolve keeps_new_conn : keeps.
Lemma keeps_new_connection s fd peer : keeps P (new_connection host s fd peer).
Proof.
  rw /new_connection /GetNextLoop /take_conn_id /get_local_addr.
  rw /BindConnectionCallback /BindMessageCallback /BindWriteCompleteCallback /Conn_BindCloseCallback.
  solve_keeps.
Qed.
#[local] Hint Resolve keeps_new_connection : keeps.
Lemma keeps_dispatch cb t : keeps P (dispatch host cb t).
Proof.
  destruct cb; simpl; rw ?/handle_accept ?/Socket_Accept ?/accept ?/close_excessfd_with_idlefd
    ?/close_fd ?/create_idlefd ?/sockets_close ?/handle_read ?/on_input ?/handle_write ?/on_output
    ?/handle_error ?/errno ?/critical; solve_keeps.
Qed.
#[local] Hint Resolve keeps_dispatch : keeps.

(** ** The main loop *)

(** Destroying connections leaves the loops alone. *)
Lemma loops_keeps {A} (m : M World A) : keeps P m → keeps_loops m.
Proof.
  intros H. apply along_calm. intros w x w' Hr. by destruct (along_done _ _ _ _ _ H Hr) as (? & ? & _).
Qed.

Context {refs : AppRefs}.

Lemma loops_Channel_dtor k : keeps_loops (Channel_dtor k).
Proof. apply loops_keeps. rw /Channel_dtor /EventLoop_HasChannel /Poller_HasChannel. solve_keeps. Qed.
Lemma loops_conn_dtor c : keeps_loops (TcpConnection_dtor c).
Proof.
  rw /TcpConnection_dtor /Socket_dtor /sockets_close. apply loops_bind; [apply loops_keeps; solve_keeps|]. intros cn.
  apply loops_bind; [apply loops_keeps; solve_keeps|]. intros _. apply loops_bind; [apply loops_Channel_dtor|]. intros _.
  apply loops_bind; [apply loops_keeps; solve_keeps|]. intros _. apply along_modify. intros w. by apply steady_loops_refl.
Qed.
Lemma loops_release fs c : keeps_loops (release fs c).
Proof.
  rw /release. apply loops_bind; [apply loops_keeps; solve_keeps|]. intros w.
  destruct (negb _); [apply loops_conn_dtor|apply loops_keeps; solve_keeps].
Qed.
Lemma loops_let_go : keeps_loops let_go.
Proof.
  rw /let_go. apply loops_bind; [apply loops_keeps; solve_keeps|]. intros w.
  apply along_for_each; [exact _|]. intros c. apply loops_release.
Qed.
Lemma loops_drop_tasks fs : keeps_loops (drop_tasks fs).
Proof.
  induction fs as [|f fs IH]; cbn [drop_tasks].
  - apply loops_let_go.
  - apply loops_bind; [|done]. destruct (owns f); [apply loops_release|apply loops_keeps; solve_keeps].
Qed.

Lemma loops_pending_phase l : keeps_loops (pending_phase run_functor drop_tasks l).
Proof.
  rw /pending_phase. apply loops_bind; [apply loops_keeps; solve_keeps|]. intros _.
  apply loops_bind; [apply loops_keeps; solve_keeps|]. intros lp.
  apply loops_bind; [apply loops_keeps; solve_keeps|]. intros _.
  apply loops_bind; [apply loops_keeps; solve_keeps|]. intros _.
  apply loops_bind; [apply loops_drop_tasks|]. intros _. apply loops_keeps. solve_keeps.
Qed.
Abbreviation round := (loop_round (dispatch host) run_functor drop_tasks).
Lemma loops_round l : keeps_loops (round l).
Proof.
  rw /loop_round. apply loops_bind; [apply loops_keeps; solve_keeps|]. intros _.
  apply loops_bind; [apply loops_keeps; solve_keeps|]. intros _. apply loops_pending_phase.
Qed.
Lemma loops_while fuel l : keeps_loops (loop_while (dispatch host) run_functor drop_tasks fuel l).
Proof.
  induction fuel as [|fuel IH]; cbn [loop_while]; [apply loops_keeps; solve_keeps|].
  apply loops_bind; [apply loops_keeps; solve_keeps|]. intros lp.
  destruct (el_quitting_ lp); [apply loops_keeps; solve_keeps|]. by apply loops_bind; [apply loops_round|].
Qed.

(** C16: whatever handlers, timers and tasks run on a loop, and whatever the
    application does within its callbacks as long as it does not destroy a
    loop or a connection itself: no loop disappears, changes its thread or
    loses its descriptors, no request to stop is taken back, and the running
    code stays on its thread.  No handler and no task makes a connection
    disappear or changes its loop, its name, its socket, its channel or its
    addresses; in the whole of [Start] a connection goes only when the
    closures of a round are destroyed. *)
Theorem loops_are_steady :
  (∀ f, keeps P (run_functor f)) ∧ (∀ cb t, keeps P (dispatch host cb t)) ∧
  (∀ l, keeps P (poll_phase l ;; event_phase (dispatch host) l)) ∧
  ∀ fuel l, keeps_loops (loop_Start host fuel l).
Proof.
  split_and!; [apply keeps_run_functor|apply keeps_dispatch|intros l; solve_keeps|].
  intros fuel l. rw /loop_Start /Start. do 5 (apply loops_bind; [apply loops_keeps; solve_keeps|intros ?]).
  apply loops_bind; [apply loops_while|]. intros ended. apply loops_keeps. solve_keeps.
Qed.

(** ** Stopping *)

Definition quitting_at (l : nat) (w : World) : bool :=
  match w_loops w !! l with Some lp => el_quitting_ lp | None => false end.

(** Wherever [m] completes, loop [l] has been asked to stop. *)
Definition stops (l : nat) (m : M World ()) : Prop :=
  ∀ w w', m w = Done () w' → quitting_at l w' = true.

Lemma steady_quitting l w w' : steady_loops w w' → quitting_at l w = true → quitting_at l w' = true.
Proof.
  intros (_ & Hs). rw /quitting_at. destruct (w_loops w !! l) as [lp|] eqn:Hl; [|done].
  destruct (Hs l lp Hl) as (lp' & -> & (_ & _ & _ & _ & _ & Hq)). done.
Qed.

(** A stop in the middle of a sequence lasts to its end. *)
Lemma stops_for_each {A} l (f : A → M World ()) xs x :
  (∀ y, keeps P (f y)) → x ∈ xs → stops l (f x) → stops l (for_each xs f).
Proof.
  intros Hk Hx Hs. apply list_elem_of_split in Hx as (xs1 & xs2 & ->). intros w w'.
  rw for_each_app /= /mbind /M_bind. destruct (for_each xs1 f w) as [[] w1|]; [|done].
  destruct (f x w1) as [[] w2|] eqn:Hf; [|done]. intros Hr.
  apply (steady_quitting l w2); [by eapply (along_done _ _ _ _ _ (loops_keeps _ (along_for_each (calmly (steady P)) f xs2 Hk)))|by eapply Hs].
Qed.

Lemma Stop_stops l : stops l (Stop l).
Proof.
  intros w w'. rw /Stop /alter_loop /IsInLoopThread /get_loop /mbind /M_bind /=. rw lookup_alter_eq.
  destruct (w_loops w !! l) as [lp|] eqn:Hl; [|done]. simpl.
  assert (∀ h e, quitting_at l (set_w_hist h (set_w_errno e
    (set_w_loops (alter (set_el_quitting_ true) l (w_loops w)) w))) = true) as Hq.
  { intros h e. by rw /quitting_at /= lookup_alter_eq Hl. }
  destruct (negb _); simpl.
  - rw /set_wakeup /get_loop /mbind /M_bind /= lookup_alter_eq Hl /=. intros [= <-]. apply Hq.
  - intros [= <-]. by rw /quitting_at /= lookup_alter_eq Hl.
Qed.

(** The tasks a round takes out, and the channels it dispatches. *)
Definition round_tasks (l : nat) (w : World) : list Functor :=
  match (poll_phase l ;; event_phase (dispatch host) l) w with
  | Done _ w1 => match w_loops w1 !! l with Some lp => el_pendings_ lp | None => [] end
  | Crash _ _ => []
  end.

(** A round runs all the tasks it takes out, one after the other, then
    destroys their closures. *)
Record round_run (l : nat) (w w1 w2 w3 w4 : World) : Prop := {
  rr_events : (poll_phase l ;; event_phase (dispatch host) l) w = Done () w1;
  rr_tasks : for_each (round_tasks l w) run_functor
    (set_w_loops (alter (λ lp, set_el_pendings_ [] (set_el_calling_pendings_ true lp)) l (w_loops w1)) w1) = Done () w2;
  rr_drop : drop_tasks (round_tasks l w) w2 = Done () w3;
  rr_end : w4 = set_w_loops (alter (set_el_calling_pendings_ false) l (w_loops w3)) w3;
}.

Lemma round_runs l w w4 : round l w = Done () w4 → ∃ w1 w2 w3, round_run l w w1 w2 w3 w4.
Proof.
  rw /loop_round. intros Hr. rw -seq_assoc in Hr. rw /mbind {1}/M_bind in Hr.
  destruct (M_bind _ _ _ (poll_phase l) w) as [[] w1|] eqn:Hpe; [|done].
  rw /pending_phase /alter_loop /get_loop /mbind /M_bind /= lookup_alter_eq in Hr.
  destruct (w_loops w1 !! l) as [lp|] eqn:Hl; [|done]. simpl in Hr.
  destruct (for_each (el_pendings_ lp) run_functor _) as [[] w2|] eqn:Hrun; [|done].
  destruct (drop_tasks (el_pendings_ lp) w2) as [[] w3|] eqn:Hdrop; [|done]. injection Hr as <-.
  assert (round_tasks l w = el_pendings_ lp) as Htk by by rw /round_tasks /mbind Hpe Hl.
  exists w1, w2, w3. split; rw ?Htk //. rw -Hrun. by rw /= alter_alter_eq.
Qed.

(** A round in which a task calls [Stop]. *)
Lemma round_stops l f w w' :
  f ∈ round_tasks l w → stops l (run_functor f) →
  round l w = Done () w' → quitting_at l w' = true.
Proof.
  intros Hf Hs (w1 & w2 & w3 & [_ Hrun Hdrop ->])%round_runs.
  apply (stops_for_each l run_functor _ f keeps_run_functor Hf Hs) in Hrun.
  apply (steady_quitting l w2 w3) in Hrun; [|by eapply (along_done _ _ _ _ _ (loops_drop_tasks _))].
  rw /quitting_at /= lookup_alter_eq. rw /quitting_at in Hrun. by destruct (w_loops w3 !! l).
Qed.

(** [n] rounds before which nobody asked to stop. *)
Fixpoint rounds (n l : nat) (w w' : World) : Prop :=
  match n with
  | O => w' = w
  | S n => quitting_at l w = false ∧ ∃ w1,
      round l w = Done () w1 ∧ rounds n l w1 w'
  end.

Lemma rounds_snoc n l w w1 w2 :
  rounds n l w w1 → quitting_at l w1 = false →
  round l w1 = Done () w2 → rounds (n + 1) l w w2.
Proof.
  intros Hr Hq Hr2. revert w Hr. induction n as [|n IH]; intros w; cbn [rounds Nat.add].
  - intros ->. split; [done|]. by exists w2.
  - intros [? (w' & ? & ?)]. split; [done|]. exists w'. split; [done|]. by apply IH.
Qed.

Lemma loop_while_eq fuel l lp w :
  w_loops w !! l = Some lp →
  loop_while (dispatch host) run_functor drop_tasks fuel l w =
    if el_quitting_ lp then Done true w
    else match fuel with
         | O => Done false w
         | S fuel => (round l ;;
                      loop_while (dispatch host) run_functor drop_tasks fuel l) w
         end.
Proof.
  intros Hl. destruct fuel; simpl; rw /get_loop /mbind /M_bind /= Hl /=; by destruct (el_quitting_ lp).
Qed.

Lemma rounds_end n fuel l w w1 :
  is_Some (w_loops w !! l) → rounds n l w w1 → quitting_at l w1 = true →
  loop_while (dispatch host) run_functor drop_tasks (n + fuel) l w = Done true w1 ∧ is_Some (w_loops w1 !! l).
Proof.
  revert w. induction n as [|n IH]; intros w [lp Hl]; cbn [rounds Nat.add].
  - intros ->. rw /quitting_at Hl. intros Hq. rw (loop_while_eq _ _ lp) // Hq. by eauto.
  - intros [Hq (w2 & Hr & Hrest)] Hend.
    destruct (IH w2) as [Hw Hsome]; [|done|done|].
    { destruct (along_done _ _ _ _ _ (loops_round l) Hr) as (_ & Hs). destruct (Hs l lp Hl) as (lp' & ? & _). by exists lp'. }
    split; [|done]. rw (loop_while_eq (S (n + fuel)) _ lp) //. rw /quitting_at Hl in Hq. rw Hq.
    by rw /mbind /M_bind Hr.
Qed.

(** The world in which [Start] enters its loop, and the one it leaves. *)
Definition set_running (b : bool) (l : nat) (w : World) : World :=
  set_w_loops (alter (set_el_running_ b) l (w_loops w)) w.

(** C15: [Start] terminates when it is asked to: when a task calls [Stop] on
    its loop in the round after [n] others, then, whatever else this round
    runs, all tasks taken out with it are run, one after the other and to the
    end, and their closures are destroyed; [Start] returns right after this
    round, with [running_] cleared again.  Any bound on the number of rounds
    beyond [n + 1] gives the same result. *)
Theorem stop_ends_start n fuel l lp f w w1 w2 :
  w_loops w !! l = Some lp → el_thread_id_ lp = w_tid w →
  el_running_ lp = false → el_quitting_ lp = false →
  rounds n l (set_running true l w) w1 → quitting_at l w1 = false →
  f ∈ round_tasks l w1 → stops l (run_functor f) →
  round l w1 = Done () w2 →
  (∃ w3 w4 w5, round_run l w1 w3 w4 w5 w2) ∧
  loop_Start host (n + S fuel) l w = Done true (set_running false l w2).
Proof.
  intros Hl Ht Hrun Hq Hr Hq1 Hf Hs Hr2. split; [by apply round_runs|]. set (w0 := set_running true l w) in *.
  pose proof (round_stops l f w1 w2 Hf Hs Hr2) as Hq2.
  assert (w_loops w0 !! l = Some (set_el_running_ true lp)) as Hl0 by by rw /w0 /= lookup_alter_eq Hl.
  destruct (rounds_end (n + 1) fuel l w0 w2) as [Hw _]; [by eauto|by eapply rounds_snoc|done|].
  rw /loop_Start /Start. rw (assert_thread_eq l lp) // /get_loop /mbind /M_bind /= Hl /= Hrun Hq /=.
  change (set_w_loops (alter (set_el_running_ true) l (w_loops w)) w) with w0.
  by rw -Nat.add_1_r (Nat.add_comm fuel 1) Nat.add_assoc Hw.
Qed.
End components.

(** ** Samples *)

Lemma loops_are_steady_witness :
  keeps_loops (loop_Start LittleEndian (os := sample_os) (user := quiet_user) (refs := no_refs) 10 1).
Proof.
  apply (loops_are_steady LittleEndian (os := sample_os) (user := quiet_user) (refs := no_refs) (λ u, along_ret (calmly (steady same_conn)) tt)).
Defined.

(** An application whose task stops the loop, and a loop with this task and
    another one after it. *)
Definition stop_user : UserCode := λ u, match u with UTask 7 => Stop (os := sample_os) 1 | _ => mret () end.

Definition asked_world : World :=
  final (QueueInLoop (os := sample_os) 1 (FUser 7) ;; QueueInLoop (os := sample_os) 1 (FUser 8)) built_world.

Definition sample_round : M World () :=
  loop_round (os := sample_os) (dispatch LittleEndian (os := sample_os) (user := stop_user))
    (run_functor (os := sample_os) (user := stop_user)) (drop_tasks (os := sample_os) (refs := no_refs)) 1.

Lemma stop_user_keeps u : keeps same_conn (user_run (UserCode := stop_user) u).
Proof.
  destruct u as [[|[|[|[|[|[|[|[|]]]]]]]]| | | | | | |]; try exact (along_ret _ _).
  exact (along_stop (calmly (steady same_conn)) 1).
Qed.

Lemma stop_user_stops : stops 1 (run_functor (os := sample_os) (user := stop_user) (FUser 7)).
Proof. intros w w'. rw /= /call_user /mbind /M_bind. apply Stop_stops. Qed.

Lemma stop_ends_start_witness :
  loop_Start LittleEndian (os := sample_os) (user := stop_user) (refs := no_refs) 5 1 asked_world =
    Done true (set_running false 1 (final sample_round (set_running true 1 asked_world))).
Proof.
  refine (proj2 (stop_ends_start LittleEndian (os := sample_os) (user := stop_user) (refs := no_refs) stop_user_keeps 0 4 1
    (default sample_loop (w_loops asked_world !! 1%nat)) (FUser 7) asked_world (set_running true 1 asked_world)
    _ _ _ _ _ eq_refl _ _ stop_user_stops _)); try by vm_compute.
  rw (_ : round_tasks _ _ _ = [FUser 7; FUser 8]); [by vm_compute|]. left.
Defined.
