(* ===== verification/ServerLife.v ===== *)
(** * ServerLife: the end of a server's connection

    The last three tasks of a connection, on two threads: its loop closes it
    and tells the server, the server's loop takes it out of the map, and its
    own loop takes it out of the poller, after which the last reference goes
    and the destructor runs. *)

From S2P Require Import Prelude Buffer World Kernel Poller Channel Sample Reactor EventLoop.
From S2P Require Import Timer Socket TcpConnection ConnInv ConnSteps ConnSpec ConnLife TimerSpec LoopLife.
From S2P Require Import Inet Acceptor ThreadPool TcpServer ServerSpec System.

Section ending.
Context {os : OS} {heap : Heap} {user : UserCode} `{!EpollDelOk os, !EpollCtlRet os}.
Context (s c : nat) `{!CalmUser c user}.
Implicit Types (w : World) (cn : TcpConnection) (ch : Channel) (lp : EventLoop) (sv : TcpServer).

(** Nothing of the connection is left: no object, no channel, no entry of the
    poller; the descriptor is closed, as the last thing that happens. *)
Record gone (cn : TcpConnection) (w' : World) : Prop := {
  go_conn : w_conns w' !! c = None;
  go_chan : w_chans w' !! tc_channel_ cn = None;
  go_poller : ∀ lp, w_loops w' !! tc_loop_ cn = Some lp →
    ep_channels_ (el_poller_ lp) !! tc_socket_ cn ≠ Some (tc_channel_ cn);
  go_fd : ∃ r, last (w_hist w') = Some (Sys (SysClose (tc_socket_ cn)) r);
}.

(** The server has forgotten the connection, and the last task of the
    connection's loop is to destroy it. *)
Definition handed_over (cn : TcpConnection) (w' : World) : Prop := ∃ sv lp,
  w_servers w' !! s = Some sv ∧ sv_connections_ sv !! tc_name_ cn = None ∧
  w_loops w' !! tc_loop_ cn = Some lp ∧ last (el_pendings_ lp) = Some (FConnectionDestroyed c).

(** The last task and the destructor. *)
Definition last_rites : M World () := run_functor (FConnectionDestroyed c) ;; TcpConnection_dtor c.

(** The flag of a channel that is not being dispatched: it has a value only
    once the channel was. *)
Definition flag_of (dispatched : bool) : option bool := if dispatched then Some false else None.

(** A closed connection whose channel is silent and may be removed. *)
Record closing (dispatched : bool) (cn : TcpConnection) (w : World) : Prop := {
  cg_ok : ∃ ch lp, conn_ok c cn ch lp w ∧ IsNoneEvent ch = true ∧ ch_event_handing_ ch = flag_of dispatched;
  cg_state : tc_state_ cn = Disconnected;
  cg_removable : removable (tc_loop_ cn) (tc_channel_ cn) w;
}.

(** The last task: the channel leaves the poller. *)
Lemma last_task_ok dispatched cn w :
  closing dispatched cn w →
  wp (run_functor (FConnectionDestroyed c)) (λ _ w', ∃ ch lp, w_conns w' !! c = Some cn ∧
    w_chans w' !! tc_channel_ cn = Some ch ∧ ch_added_in_loop_ ch = Some false ∧ ch_event_handing_ ch = flag_of dispatched ∧
    w_loops w' !! tc_loop_ cn = Some lp ∧ ch_loop_ ch = tc_loop_ cn ∧ ch_fd_ ch = tc_socket_ cn ∧
    ep_channels_ (el_poller_ lp) !! tc_socket_ cn ≠ Some (tc_channel_ cn) ∧
    obs c (tc_socket_ cn) (w_hist w') = obs c (tc_socket_ cn) (w_hist w)) never w.
Proof.
  intros [(ch & lp & Hok & Hnone & Hev) Hst Hrem]. pose proof (co_ready _ _ _ _ _ Hok) as Hr.
  simpl. eapply wp_same; [by apply (destroy_closed_eq c cn ch lp)|].
  eapply wp_conseq; [apply (RemoveFromLoop_ok (tc_loop_ cn) _ ch lp w Hr Hnone), Hrem, Hr|].
  intros [] w1 [Hinv Hf]. destruct Hf as [Ht Hcn _ Hch [m Hlo] Hh _].
  assert (w_loops w1 !! tc_loop_ cn = Some (with_channels m lp)) as Hl1.
  { by rw Hlo lookup_alter_eq (cr_lp _ _ _ _ _ Hr). }
  eexists _, (with_channels m lp). rw Hcn Hch lookup_insert_eq. split_and!; [apply Hok|done|done|done|done| | | |].
  - by rw /= (cr_loop _ _ _ _ _ Hr).
  - by rw /= (co_fd _ _ _ _ _ Hok).
  - intros Hin. destruct (pi_map _ _ _ Hinv _ _ _ Hl1 Hin) as (ch' & Hc' & _ & _ & Hix).
    rw Hch lookup_insert_eq in Hc'. injection Hc' as <-. by destruct Hix.
  - destruct Hh as [-> |(? & ? & ? & ? & ? & ->)]; [done|]. by apply obs_inert.
Qed.

Lemma last_rites_ok cn w :
  closing true cn w →
  wp last_rites (λ _ w', gone cn w' ∧ obs_grows c (tc_socket_ cn) [] [] [] w w') never w.
Proof.
  intros Hcl. rw /last_rites. wp_step. eapply wp_conseq; [by apply (last_task_ok true)|].
  intros [] w1 (ch & lp & Hc & Hk & Hadd & Hev & Hl & Hkl & Hfd & Hep & Ho).
  rw /TcpConnection_dtor. wp_step. eapply wp_get_conn; [done|]. wp_step.
  apply wp_assert_true; [by apply bool_decide_eq_true_2, Hcl|]. wp_step. eapply wp_run.
  { by eapply (Channel_dtor_done _ ch lp); [done|rw Hkl|done|done|rw Hfd]. }
  wp_step. rw /Socket_dtor /sockets_close. apply wp_logged. wp_step. split.
  - split; simpl; [apply lookup_delete_eq|apply lookup_delete_eq| |].
    + rw Hl. by intros lp' [= <-].
    + eexists. by rw last_snoc.
  - apply obs_same. simpl. rw /obs sent_app fins_app notes_app /= !app_nil_r. exact Ho.
Qed.

(** Without a dispatch before, the destructor reads a flag without a value. *)
Lemma last_rites_undefined cn w :
  closing false cn w → ∃ w', run_functor (FConnectionDestroyed c) w = Done () w' ∧ TcpConnection_dtor c w' = Crash UB w'.
Proof.
  intros Hcl. destruct (wp_done _ _ _ (last_task_ok false cn w Hcl)) as ([] & w' & Hrun & ch & lp & Hc & Hk & _ & Hev & _).
  exists w'. split; [done|]. rw /TcpConnection_dtor /get_conn /mbind /M_bind /= Hc /=.
  rw bool_decide_eq_true_2; [apply Hcl|]. by rw /= /Channel_dtor /get_chan /mbind /M_bind /= Hk /= Hev.
Qed.

Lemma set_w_tid_id w : set_w_tid (w_tid w) w = w.
Proof. by destruct w. Qed.

(** A task that thread [t] queues for some loop. *)
Lemma closing_queued d cn l lp' task t w w' :
  closing d cn w → w_loops w !! l = Some lp' → queued l lp' task (set_w_tid t w) w' →
  closing d cn (set_w_tid (w_tid w) w') ∧
  obs c (tc_socket_ cn) (w_hist w') = obs c (tc_socket_ cn) (w_hist w).
Proof.
  intros [(ch & lp & [Hc Hr Hfd Hi Ho Hhome] & Hnone & Hev) Hst Hrem] Hl [Hlo Hch Hcn _ Ht _ [r Hh]]. simpl in *.
  set (lp1 := if bool_decide (l = tc_loop_ cn) then set_el_pendings_ (el_pendings_ lp ++ [task]) lp else lp).
  assert (w_loops w' !! tc_loop_ cn = Some lp1) as Hl1.
  { rw Hlo lookup_insert /lp1. pose proof (cr_lp _ _ _ _ _ Hr) as Hlp. case_decide as D;
      case_bool_decide; try done. rw -D Hl in Hlp. by simplify_eq. }
  split; [split; [|done|]|].
  - exists ch, lp1. split; [|done]. split; try done; [by rw /= Hcn|].
    eapply (chan_ready_quiet _ _ _ lp); try done; [by rw /lp1; case_bool_decide..|]. by destruct (_ || _).
  - intros lp2. rw /= Hl1. intros [= <-]. rw /lp1.
    case_bool_decide; exact (Hrem lp (cr_lp _ _ _ _ _ Hr)).
  - rw Hh. apply obs_inert. by destruct (_ || _).
Qed.

(** The task of the server's loop, run by its thread [t]. *)
Lemma removal_ok d cn sv t w :
  closing d cn w → w_servers w !! s = Some sv → sv_connections_ sv !! tc_name_ cn = Some c →
  ∃ w', remove_connection_in_loop s c (set_w_tid t w) = Done () w' ∧ w_tid w' = t ∧
    closing d cn (set_w_tid (w_tid w) w') ∧ handed_over cn w' ∧
    obs c (tc_socket_ cn) (w_hist w') = obs c (tc_socket_ cn) (w_hist w).
Proof.
  intros Hcl Hs Hin. pose proof Hcl as [(ch & lp & Hok & Hnone & Hev) Hst Hrem].
  pose proof (cr_lp _ _ _ _ _ (co_ready _ _ _ _ _ Hok)) as Hl. set (w1 := removed s (tc_name_ cn) sv w).
  destruct (QueueInLoop_done (tc_loop_ cn) lp (FConnectionDestroyed c) (set_w_tid t w1)) as (w' & Hw' & Hq); [done|].
  assert (closing d cn w1) as Hcl1.
  { split; [|done|done]. exists ch, lp. split; [|done]. by apply (conn_ok_servers c cn ch lp _ w). }
  destruct (closing_queued d cn (tc_loop_ cn) lp _ t w1 w' Hcl1 Hl Hq) as [Hcl' Ho].
  exists w'. split_and!; [|apply Hq|done| |exact Ho].
  - rw (remove_in_loop_eq s sv c cn) //; [apply Hok|]. by rw bool_decide_eq_true_2 ?Hin.
  - destruct Hq as [Hlo _ _ _ _ Hot _]. injection Hot as _ Hsv _ _ _.
    eexists (without_conn (tc_name_ cn) sv), _. rw Hsv Hlo !lookup_insert_eq /=.
    split_and!; [done|apply lookup_delete_eq|done|]. by rw /= last_snoc.
Qed.

(** The connection has left the map, and what is left to do ends it, unless
    its channel was never dispatched. *)
Definition ending (dispatched : bool) (cn : TcpConnection) (h : list event) (note : list ucall) (w : World) : Prop :=
  handed_over cn w ∧ sent (tc_socket_ cn) (w_hist w) = sent (tc_socket_ cn) h ∧ notes c (w_hist w) = notes c h ++ note ∧
  if dispatched then
    wp last_rites (λ _ w', gone cn w' ∧ sent (tc_socket_ cn) (w_hist w') = sent (tc_socket_ cn) h ∧
      fins (tc_socket_ cn) (w_hist w') = fins (tc_socket_ cn) h ∧ notes c (w_hist w') = notes c h ++ note) never w
  else ∃ w', run_functor (FConnectionDestroyed c) w = Done () w' ∧ TcpConnection_dtor c w' = Crash UB w'.

Lemma closing_ending d b cn h note w :
  closing d (closed b cn) w → handed_over (closed b cn) w →
  obs c (tc_socket_ cn) (w_hist w) = (sent (tc_socket_ cn) h, fins (tc_socket_ cn) h, notes c h ++ note) →
  ending d cn h note w.
Proof.
  intros Hcl Hho [= H1 H2 H3]. split_and!; [exact Hho|done|done|]. destruct d; [|by apply (last_rites_undefined (closed b cn))].
  eapply wp_conseq; [by apply (last_rites_ok (closed b cn))|].
  intros [] w' [[? ? ? ?] (E1 & E2 & E3)%obs_grows_inv]. simpl in *.
  by rw E1 E2 E3 !app_nil_r H1 H2 H3.
Qed.

(** C9: the whole end of a connection of a server, from the task that
    closes it to the destructor, for a connection that is not being
    dispatched.  The application is told once and nothing more is sent.  When
    the server's loop is another loop, exactly the removal is handed to it,
    and its thread hands back exactly the destruction.  If the channel of the
    connection was dispatched before, nothing of this fails, and in the end
    the server's map, the poller, the channel and the connection object have
    nothing of it and its descriptor is closed.  If it never was, the three
    tasks run as well, but the destructor that follows has undefined
    behaviour: it reads the flag [event_handing_], which only a dispatch sets. *)
Theorem connection_ends dispatched cn ch lp cb w :
  conn_ok c cn ch lp w → tc_state_ cn = Connected ∨ tc_state_ cn = Disconnecting →
  tc_on_connection_ cn = Some cb → tc_on_close_ cn = Some (RemoveConnection s) →
  removable (tc_loop_ cn) (tc_channel_ cn) w → ch_event_handing_ ch = flag_of dispatched →
  wp (run_functor (FForceClose c)) (λ _ w1,
    ending dispatched cn (w_hist w) (conn_note cb c) w1 ∨
    ∃ l base, w_loops w1 !! l = Some base ∧ l ≠ tc_loop_ cn ∧ el_thread_id_ base ≠ w_tid w1 ∧
      last (el_pendings_ base) = Some (FRemoveConnection s c) ∧
      wp (as_thread (el_thread_id_ base) (run_functor (FRemoveConnection s c)))
        (λ _, ending dispatched cn (w_hist w) (conn_note cb c)) never w1) only_exit w.
Proof.
  intros Hok Hst Hcb Hcb' Hrem Hev. rw /= /force_close_in_loop. wp_step. eapply wp_get_conn; [apply Hok|]. wp_step.
  eapply wp_conn_thread; [done|]. rw (_ : _ || _ = true) /=.
  { by destruct Hst as [-> | ->]. }
  eapply (handle_close_until close_code c cn ch lp cb); [done..|].
  intros b lp1 w1 Hok1 _ Hhome Ho Hrem1. simpl. set (cn1 := closed b cn) in *.
  assert (closing dispatched cn1 w1) as Hcl by (split; [by exists (changed (λ _, kNoneEvent) ch), lp1|done|by apply Hrem1]).
  rw /home_open Hcb' in Hhome. destruct Hhome as (sv & base & Hs & Hb & Hth & Hin).
  eapply wp_same; [by apply (remove_eq s sv base)|].
  destruct (Nat.eqb_spec (el_thread_id_ base) (w_tid w1)) as [Heq|Hne].
  - destruct (removal_ok dispatched cn1 sv (w_tid w1) w1 Hcl Hs Hin) as (w' & Hrun & Ht & Hcl' & Hho & Ho').
    rw set_w_tid_id in Hrun. rw -Ht set_w_tid_id in Hcl'. eapply wp_run; [done|]. left.
    apply (closing_ending dispatched b); [done|done|]. by rw Ho' Ho !app_nil_r.
  - assert (sv_loop_ sv ≠ tc_loop_ cn) as Hl.
    { intros Hl. rw Hl in Hb. pose proof (co_ready _ _ _ _ _ Hok1) as [_ _ _ Hl1 Ht1 _].
      change (tc_loop_ cn1) with (tc_loop_ cn) in Hl1. by simplify_eq. }
    eapply wp_conseq; [by apply QueueInLoop_ok|]. intros [] w2 Hq. right.
    rw -(set_w_tid_id w1) in Hq.
    destruct (closing_queued dispatched cn1 _ _ _ _ w1 w2 Hcl Hb Hq) as [Hcl2 Ho2].
    destruct Hq as [Hlo _ _ _ Ht2 Hot _]. injection Hot as _ Hs2 _ _ _. simpl in *.
    rw -Ht2 set_w_tid_id in Hcl2.
    eexists (sv_loop_ sv), _. rw Hlo lookup_insert_eq.
    split_and!; [done|done|by rw /= Ht2|by rw /= last_snoc|].
    destruct (removal_ok dispatched cn1 sv (el_thread_id_ base) w2 Hcl2) as (w' & Hrun & Ht & Hcl' & Hho & Ho');
      [by rw Hs2|done|].
    rw /as_thread. wp_step. apply wp_gets. wp_step. wp_step. wp_step. eapply wp_run; [exact Hrun|].
    wp_step. wp_step. wp_step. apply (closing_ending dispatched b); [done|done|].
    by rw /= Ho' Ho2 Ho !app_nil_r.
Qed.
End ending.

(** ** Samples *)

(** Connection 20 of server 8, up on loop 2 and dispatched before, the
    server being on loop 1; thread 7 runs. *)
Definition ending_conn : TcpConnection :=
  set_tc_state_ Connected (set_tc_on_connection_ (Some (UserCb 3)) first_conn).
Definition ending_chan : Channel := set_ch_event_handing_ (Some false) (new_chan 20 2 9).
Definition ending_world : World :=
  set_w_tid 7 (set_w_chans {[ 3%nat := Channel_new 1 6; 10%nat := ending_chan ]}
    (server_world {[ 20%nat := ending_conn ]} {[ first_name := 20%nat ]} 1)).

Lemma ending_conn_ok : conn_ok 20 ending_conn ending_chan pool_loop ending_world.
Proof.
  split; try done; [|apply fresh_buffer_inv..|].
  - split; try done. apply poller_inv_fresh; [by intros lp [= <-]| |done].
    intros c ch. cbn [ending_world set_w_tid set_w_chans w_chans].
    intros [[<- <-]|[_ [<- <-]%lookup_singleton_Some]]%lookup_insert_Some; done.
  - intros _. exists (sample_server {[ first_name := 20%nat ]}), sample_loop.
    split_and!; [done|done|by right|apply lookup_singleton_eq].
Qed.

Lemma connection_ends_witness :
  wp (run_functor (os := sample_os) (user := quiet_user) (FForceClose 20)) (λ _ w1,
    ending 8 20 (os := sample_os) (user := quiet_user) true ending_conn [] [UConnection 3 20] w1 ∨
    ∃ l base, w_loops w1 !! l = Some base ∧ l ≠ 2%nat ∧ el_thread_id_ base ≠ w_tid w1 ∧
      last (el_pendings_ base) = Some (FRemoveConnection 8 20) ∧
      wp (as_thread (el_thread_id_ base) (run_functor (os := sample_os) (user := quiet_user) (FRemoveConnection 8 20)))
        (λ _, ending 8 20 (os := sample_os) (user := quiet_user) true ending_conn [] [UConnection 3 20]) never w1)
    only_exit ending_world.
Proof.
  refine (connection_ends (os := sample_os) (user := quiet_user) 8 20 true ending_conn ending_chan pool_loop
    (UserCb 3) ending_world ending_conn_ok _ _ _ _ _); [by left|done|done| |done].
  by intros lp [= <-].
Defined.

(** The three tasks one after the other. *)
Example ending_runs :
  let m := run_functor (os := sample_os) (user := quiet_user) (FForceClose 20) ;;
    as_thread 0 (run_functor (os := sample_os) (user := quiet_user) (FRemoveConnection 8 20)) ;;
    last_rites (os := sample_os) (user := quiet_user) 20 in
  let w' := final m ending_world in
  is_done (m ending_world) = true ∧ w_conns w' !! 20%nat = None ∧ w_chans w' !! 10%nat = None ∧
  notes 20 (w_hist w') = [UConnection 3 20] ∧
  (sv_connections_ <$> w_servers w' !! 8%nat) = Some ∅.
Proof. by vm_compute. Qed.

(** Without a dispatch before: the last of them ends in the destructor. *)
Example ending_undispatched :
  let w := set_w_chans {[ 3%nat := Channel_new 1 6; 10%nat := new_chan 20 2 9 ]} ending_world in
  let m := run_functor (os := sample_os) (user := quiet_user) (FForceClose 20) ;;
    as_thread 0 (run_functor (os := sample_os) (user := quiet_user) (FRemoveConnection 8 20)) ;;
    last_rites (os := sample_os) (user := quiet_user) 20 in
  match m w with Crash UB w' => bool_decide (is_Some (w_conns w' !! 20%nat)) | _ => false end = true.
Proof. by vm_compute. Qed.
