(* ===== verification/SysInv.v ===== *)
(** * SysInv: the invariant of a single-threaded server

    One loop with its wakeup and timer channels, a server on it without a
    thread pool, its acceptor, and any number of connections in any states.
    [sys_ok] is what holds of such a world between any two steps of the code,
    in particular whenever application code is called; [ext] says what no
    step takes back.  Every primitive step of the library gets one lemma.

    The set [X] holds the connections that are being closed: they are
    disconnected already but still in the server's map.  The context [K] says
    which tasks of the round are still to run, which channel is being
    dispatched, and to which connections others hold pointers. *)

From S2P Require Import Prelude Buffer World Kernel Poller Channel Sample Reactor EventLoop.
From S2P Require Import Timer Socket TcpConnection ConnInv ConnSteps ConnSpec ConnLife TimerSpec LoopLife.
From S2P Require Import Inet Acceptor ThreadPool TcpServer ServerSpec System.

(** The connections accepted so far. *)
Definition accept_step (e : event) : Z :=
  match e with Sys (SysAccept4 _ _) r => if 0 <=? r_ret r then 1 else 0 | _ => 0 end.
Definition accepted (h : list event) : Z := foldr (λ e, Z.add (accept_step e)) 0 h.

Lemma accepted_app h1 h2 : accepted (h1 ++ h2) = accepted h1 + accepted h2.
Proof. induction h1 as [|e h1 IH]; simpl; [done|]. rw IH. lia. Qed.

(** No machine accepts 2^64 connections: the names of connections come from
    a 64-bit counter. *)
Class FewAccepts (os : OS) : Prop := few_accepts : ∀ h fd n,
  two64 - 2 ≤ accepted h → r_ret (os h (SysAccept4 fd n)) < 0.

(** Quiet events only open descriptors. *)
Lemma accept_step_nonneg e : 0 ≤ accept_step e.
Proof. destruct e as [[] r|]; simpl; try done. by destruct (_ <=? _). Qed.
Lemma quiet_fds h e : quiet e = true → open_fds h ⊆ open_fds (h ++ [e]).
Proof.
  intros He. rw open_fds_app. destruct e as [k r|u]; [|done]. simpl. destruct k; try done; simpl;
    destruct (_ <=? _); set_solver.
Qed.

(** What a channel is and stays. *)
Definition slots (ch : Channel) : list (option callback) :=
  [ch_on_read_ ch; ch_on_write_ ch; ch_on_close_ ch; ch_on_error_ ch].
Definition chan_id (ch : Channel) := (ch_loop_ ch, ch_fd_ ch, slots ch).

(** The channel has been dispatched before: the flag that its destructor
    reads has a value. *)
Definition seen (ch : Channel) : Prop := is_Some (ch_event_handing_ ch).

(** The channel has been taken from its loop. *)
Definition detached_chan (ch : Channel) : Prop :=
  ch_index_ ch = kNewChannel ∧ ch_added_in_loop_ ch = Some false.

(** What is not taken back while a round runs: connections and channels
    stay, and a connection that is down stays down. *)
Record ext (w w' : World) : Prop := {
  ex_tid : w_tid w' = w_tid w;
  ex_conns : ∀ c cn, w_conns w !! c = Some cn → ∃ cn', w_conns w' !! c = Some cn' ∧
    same_conn cn cn' ∧ (tc_state_ cn = Disconnected → tc_state_ cn' = Disconnected);
  ex_chans : ∀ k ch, w_chans w !! k = Some ch → ∃ ch', w_chans w' !! k = Some ch' ∧ chan_id ch' = chan_id ch ∧
    (seen ch → seen ch');
}.

#[export] Instance ext_preorder : PreOrder ext.
Proof.
  split.
  - intros w. split; [done|intros c cn Hc; by exists cn|intros k ch Hk; by exists ch].
  - intros x y z [T1 C1 K1] [T2 C2 K2]. split; [congruence|..].
    + intros c cn Hc. destruct (C1 c cn Hc) as (cn1 & Hc1 & E1 & D1). destruct (C2 c cn1 Hc1) as (cn2 & Hc2 & E2 & D2).
      exists cn2. split_and!; [done|by etrans|auto].
    + intros k ch Hk. destruct (K1 k ch Hk) as (ch1 & Hk1 & E1 & S1). destruct (K2 k ch1 Hk1) as (ch2 & Hk2 & E2 & S2).
      exists ch2. split_and!; [done|congruence|auto].
Qed.

(** The tasks of the round that are still to run, the channel that is being
    dispatched, the connections that somebody outside the queue of the loop
    holds a pointer to, and the timers that are being fired. *)
Record ctx := mkCtx {
  cx_batch : list Functor; cx_now : option nat; cx_held : nat → Prop; cx_fired : list nat }.

(** ** Timers *)

(** The spans of time, in nanoseconds, for which timers are set, the times
    for which timers are set, and the times that the clock shows. *)
Class Clockwork := { spans : list Z; moments : list Z; shows : Z → Prop }.

(** The clock shows times after the epoch, which stay within the range of
    their type for these spans; moments are time points, too. *)
Class ClockFit (cw : Clockwork) (os : OS) : Prop := {
  fit_shown : ∀ h, shows (r_ret (os h ClockNow));
  fit_epoch : ∀ t, shows t → 0 ≤ t;
  fit_range : ∀ t d, shows t → d ∈ spans → in_int64 (t + d) = true;
  fit_moments : ∀ e, e ∈ moments → in_int64 e = true;
}.

(** Moreover no time shown is such a moment or exactly a span after another:
    the code asserts that no timer is due at the very nanosecond at which it
    looks. *)
Class TimersFit (cw : Clockwork) (os : OS) : Prop := {
  #[global] fit_clock :: ClockFit cw os;
  fit_tie : ∀ t t' d, shows t → shows t' → d ∈ spans → t' ≠ t + d;
  fit_moment : ∀ t e, shows t → e ∈ moments → t ≠ e;
}.

Section timers.
Context {cw : Clockwork}.

(** What a timer may run: the application, or the closing of a connection. *)
Definition timer_task (f : Functor) : Prop := ∃ u, f = FUser u ∨ f = FForceCloseWeak u.

(** A repeating timer is repeated after one of the spans. *)
Definition timer_ok (tm : Timer) : Prop :=
  timer_task (tm_callback_ tm) ∧
  (tm_repeat_ tm = true → ∃ d, d ∈ spans ∧ nanoseconds (tm_interval_ tm) = Some d).

(** A time at which a timer may be due. *)
Definition scheduled (e : Z) : Prop := e ∈ moments ∨ ∃ t d, shows t ∧ d ∈ spans ∧ e = t + d.

Lemma scheduled_not_shown {os : OS} `{!TimersFit cw os} t e : shows t → scheduled e → t ≠ e.
Proof. intros Ht [He|(t' & d & Ht' & Hd & ->)]; [by apply fit_moment|by apply fit_tie]. Qed.

(** After the epoch the times for which timers are set are time points. *)
Lemma scheduled_range {os : OS} `{!ClockFit cw os} e : scheduled e → in_int64 e = true.
Proof. intros [He|(t & d & Ht & Hd & ->)]; [by apply fit_moments|by apply fit_range]. Qed.

(** The handler of a timer descriptor looks at the very nanosecond at which a
    timer is due: what the assertion in timer_queue.cpp rules out. *)
Definition tied (w : World) : Prop := ∃ l lp x, w_loops w !! l = Some lp ∧
  x ∈ tq_timers_ (el_timer_queue_ lp) ∧ clock (w_hist w) = x.1 ∧ shows x.1 ∧ scheduled x.1.

(** The ways in which the program may end: [exit] on an error the code does
    not survive, a buffer that outgrows the address space, ... *)
Definition sys_exit {S} : failure → S → Prop := λ f _, f = Exit2 ∨ f = LengthError.
(** ... and the assertion of the timer queue. *)
Definition sys_end : failure → World → Prop := λ f w, f = Exit2 ∨ f = LengthError ∨ (f = AssertFailed ∧ tied w).

(** The assertion cannot fail when no time shown is one for which a timer is
    set. *)
Lemma sys_end_exit {os : OS} `{!TimersFit cw os} f w : sys_end f w → sys_exit f w.
Proof.
  intros [?|[?|[_ (l & lp & x & _ & _ & _ & Hs & Hx)]]]; [by left|by right|]. by destruct (scheduled_not_shown (os := os) _ _ Hs Hx).
Qed.

(** The queue of the loop; [ex] are the timers being fired that are not back
    in it yet. *)
Record timers_ok (ex : list nat) (tms : gmap nat Timer) (tq : TimerQueue) : Prop := {
  to_queue : queue_ok tms (set_tq_expired ex tq);
  to_cancel : ∀ t, t ∈ tq_canceling_timers_ tq → is_Some (tms !! t);
  to_expired : ∀ t, t ∈ tq_expired tq → is_Some (tms !! t);
  to_due : Forall (λ x, scheduled x.1) (tq_timers_ tq);
  to_each : map_Forall (λ _, timer_ok) tms;
}.
End timers.

Lemma sub_app {A} (l1 l2 : list A) : l1 ⊆ l1 ++ l2.
Proof. set_solver. Qed.

(** Connection [c] has been dispatched before. *)
Definition seen_conn (w : World) (c : nat) : Prop := ∃ cn ch,
  w_conns w !! c = Some cn ∧ w_chans w !! tc_channel_ cn = Some ch ∧ seen ch.

(** A connection that a timer has a weak pointer to is gone, or has been
    dispatched before. *)
Definition weak_fine (w : World) (c : nat) : Prop := w_conns w !! c = None ∨ seen_conn w c.
Definition weak_ok (w : World) : Prop := ∀ c, c ∈ weak_refs (w_timers w) → weak_fine w c.

Section invariant.
Context (host : endian) {text : InetText} {cw : Clockwork} {os : OS}.
(** The loop, its server and the server's acceptor. *)
Context (l s a : nat) (K : ctx).
Implicit Types (w : World) (cn : TcpConnection) (ch : Channel) (lp : EventLoop) (sv : TcpServer).

(** What a slot of channel [k] may hold. *)
Definition slot_ok w (k : nat) (o : option callback) : Prop :=
  match o with
  | None | Some (CbUser _) => True
  | Some (CbResetWakeup l') | Some (CbTimerfd l') => l' = l
  | Some (CbAccept a') => a' = a
  | Some (CbHandleRead c) | Some (CbHandleWrite c) | Some (CbHandleClose c) | Some (CbHandleError c) =>
      ∃ cn, w_conns w !! c = Some cn ∧ tc_channel_ cn = k
  end.

(** Tasks that may be waiting.  A connection is destroyed only once it is
    down, and only one that was dispatched before may be brought down. *)
Definition task_ok w (f : Functor) : Prop :=
  match f with
  | FUser _ => True
  | FSendInLoop c msg => seen_conn w c ∧ zlength msg ≤ vector_max_size
  | FForceClose c | FWriteComplete _ c | FHighWaterMark _ c _ => seen_conn w c
  | FShutdown c => is_Some (w_conns w !! c)
  | FConnectionDestroyed c => ∃ cn, w_conns w !! c = Some cn ∧ tc_state_ cn = Disconnected
  | _ => False
  end.

(** Application code is called about connections that exist. *)
Definition ucall_ok w (u : ucall) : Prop :=
  match u with
  | UTask _ | UChannel _ => True
  | UConnection _ c | UClose _ c => is_Some (w_conns w !! c)
  | UMessage _ c _ | UWriteComplete _ c | UHighWaterMark _ c _ => seen_conn w c
  | UThreadInit _ l' => l' = l
  end.

Lemma is_some_ext c w w' : ext w w' → is_Some (w_conns w !! c) → is_Some (w_conns w' !! c).
Proof. intros He [cn Hc]. destruct (ex_conns _ _ He c cn Hc) as (cn' & -> & _). by eexists. Qed.
Lemma seen_ext c w w' : ext w w' → seen_conn w c → seen_conn w' c.
Proof.
  intros He (cn & ch & Hc & Hk & Hs). destruct (ex_conns _ _ He c cn Hc) as (cn' & Hc' & Hsame & _).
  destruct (ex_chans _ _ He _ ch Hk) as (ch' & Hk' & _ & Hs'). injection Hsame as _ _ _ E _ _.
  exists cn', ch'. rw E. split_and!; auto.
Qed.
Lemma weak_ok_ext w w' :
  ext w w' → w_timers w' = w_timers w →
  (∀ c, c ∈ weak_refs (w_timers w) → w_conns w !! c = None → w_conns w' !! c = None) → weak_ok w → weak_ok w'.
Proof.
  intros He Ht Hn Hw c. rw Ht. intros Hc. destruct (Hw c Hc); [left; by apply Hn|right]. by eapply seen_ext.
Qed.
Lemma weak_ok_same w w' :
  w_timers w' = w_timers w → w_conns w' = w_conns w → ext w w' → weak_ok w → weak_ok w'.
Proof. intros Ht Hc He. apply weak_ok_ext; [done|done|]. by rw Hc. Qed.
Lemma seen_some c w : seen_conn w c → is_Some (w_conns w !! c).
Proof. intros (cn & ch & Hc & _). by exists cn. Qed.
Lemma slot_ok_ext w w' k o : ext w w' → slot_ok w k o → slot_ok w' k o.
Proof.
  intros He. assert (∀ c, (∃ cn, w_conns w !! c = Some cn ∧ tc_channel_ cn = k) →
    ∃ cn, w_conns w' !! c = Some cn ∧ tc_channel_ cn = k) as H.
  { intros c (cn & Hc & Hk). destruct (ex_conns _ _ He c cn Hc) as (cn' & Hc' & Hsame & _).
    injection Hsame as _ _ _ E _ _. exists cn'. split; congruence. }
  destruct o as [[]|]; simpl; auto.
Qed.
Lemma task_ok_ext w w' f : ext w w' → task_ok w f → task_ok w' f.
Proof.
  intros He. destruct f; simpl; try done; try (by apply is_some_ext); try (by apply seen_ext).
  - intros [? ?]. split; [by eapply seen_ext|done].
  - intros (cn & Hc & Hd). destruct (ex_conns _ _ He c cn Hc) as (cn' & ? & _ & ?). eauto.
Qed.
Lemma ucall_ok_ext w w' u : ext w w' → ucall_ok w u → ucall_ok w' u.
Proof. intros He. destruct u; simpl; try done; (by apply is_some_ext) || (by apply seen_ext). Qed.

(** The tasks that wait in the loop. *)
Definition pending w : list Functor :=
  match w_loops w !! l with Some lp => el_pendings_ lp | None => [] end.

(** Somebody holds a pointer to [c]: a task that waits, or another holder. *)
Definition owned w c : Prop := Some c ∈ owns <$> (pending w ++ cx_batch K) ∨ cx_held K c.

(** What holds of the channel of a connection that is down: it is silent
    and was dispatched before, and once the connection has left the map, its
    destruction is waiting, or has happened and somebody still holds it. *)
Definition dead_ok (X : gset nat) w c ch : Prop :=
  IsNoneEvent ch = true ∧ seen ch ∧
  (c ∉ X → FConnectionDestroyed c ∈ pending w ++ cx_batch K ∨ detached_chan ch ∧ owned w c).

(** A connection of the server. *)
Record sys_conn (X : gset nat) sv w c cn : Prop := {
  sc_loop : tc_loop_ cn = l;
  sc_chan : ∃ ch, w_chans w !! tc_channel_ cn = Some ch ∧ ch_loop_ ch = l ∧ ch_fd_ ch = tc_socket_ cn ∧
    (tc_state_ cn = Disconnected → dead_ok X w c ch);
  sc_in : inv (tc_input_buffer_ cn);
  sc_out : inv (tc_output_buffer_ cn);
  sc_cbs : is_Some (tc_on_connection_ cn) ∧ is_Some (tc_on_message_ cn) ∧ tc_on_close_ cn = Some (RemoveConnection s);
  sc_home : tc_state_ cn ≠ Disconnected ∨ c ∈ X ↔ sv_connections_ sv !! tc_name_ cn = Some c;
}.

(** The loop: [ph] says whether it is dispatching events. *)
Record lp_ok (ph : bool) w lp : Prop := {
  lk_phase : el_event_handing_ lp = ph;
  lk_timers : timers_ok (cx_fired K) (w_timers w) (el_timer_queue_ lp);
  lk_size : 0 < ep_events_size (el_poller_ lp);
  lk_tasks : Forall (task_ok w) (el_pendings_ lp);
  lk_weak : weak_ok w;
}.

Record sys_ok (ph : bool) (X : gset nat) w : Prop := {
  sy_loop : loop_ok l w;
  sy_fds : fds_open l w;
  sy_lp : ∃ lp, w_loops w !! l = Some lp ∧ lp_ok ph w lp;
  sy_acc : ∃ ac, w_accs w !! a = Some ac ∧ ac_loop_ ac = l ∧ ac_on_new_connection_ ac = Some s ∧
    ac_idle_fd_ ac ∈ open_fds (w_hist w) ∧
    ∀ k ch, w_chans w !! k = Some ch → ch_loop_ ch = l → ch_fd_ ch ≠ ac_idle_fd_ ac;
  sy_srv : ∃ sv, server_ok host s sv w ∧ sv_loop_ sv = l ∧ tp_loops_ (sv_thread_pool_ sv) = [] ∧
    is_Some (sv_connection_cb_ sv) ∧ is_Some (sv_message_cb_ sv) ∧
    ∀ c cn, w_conns w !! c = Some cn → sys_conn X sv w c cn;
  sy_own : ∀ c1 c2 cn1 cn2, w_conns w !! c1 = Some cn1 → w_conns w !! c2 = Some cn2 →
    tc_channel_ cn1 = tc_channel_ cn2 → c1 = c2;
  sy_slots : ∀ k ch, w_chans w !! k = Some ch → ch_loop_ ch = l → Forall (slot_ok w k) (slots ch);
  sy_now : ∀ k ch, w_chans w !! k = Some ch → ch_loop_ ch = l → ch_event_handing_ ch = Some true → cx_now K = Some k;
  sy_ids : w_next_conn_id_ w ≤ accepted (w_hist w);
  sy_closing : ∀ c, c ∈ X → ∃ cn, w_conns w !! c = Some cn ∧ tc_state_ cn = Disconnected;
  sy_only : dom (w_loops w) = {[l]} ∧ dom (w_servers w) = {[s]};
}.

(** The invariant holds, and nothing was taken back since [w]. *)
Definition keep ph X w w' : Prop := sys_ok ph X w' ∧ ext w w'.

Lemma keep_refl ph X w : sys_ok ph X w → keep ph X w w.
Proof. done. Qed.
Lemma keep_trans ph X ph' X' w w1 w2 : keep ph X w w1 → keep ph' X' w1 w2 → keep ph' X' w w2.
Proof. intros [_ H1] [H2 H3]. split; [done|]. by etrans. Qed.

(** ** The frame *)

(** What a step may do to a connection. *)
Record conn_step (X X' : gset nat) w' c cn cn' : Prop := {
  cs_same : same_conn cn cn';
  cs_cbs : (tc_on_connection_ cn', tc_on_message_ cn', tc_on_close_ cn') =
           (tc_on_connection_ cn, tc_on_message_ cn, tc_on_close_ cn);
  cs_in : inv (tc_input_buffer_ cn');
  cs_out : inv (tc_output_buffer_ cn');
  cs_home : tc_state_ cn' ≠ Disconnected ∨ c ∈ X' ↔ tc_state_ cn ≠ Disconnected ∨ c ∈ X;
  cs_stay : tc_state_ cn = Disconnected → tc_state_ cn' = Disconnected;
  cs_dead : tc_state_ cn' = Disconnected → ∀ ch', w_chans w' !! tc_channel_ cn' = Some ch' → dead_ok X' w' c ch';
}.

(** What a step leaves alone of a channel. *)
Definition chan_flags (ch : Channel) := (chan_id ch, ch_event_handing_ ch).

Record changes (ph' : bool) (X X' : gset nat) w w' : Prop := {
  cg_tid : w_tid w' = w_tid w;
  cg_others : (w_accs w', w_servers w', w_next_conn_id_ w', w_next_index_ w') =
              (w_accs w, w_servers w, w_next_conn_id_ w, w_next_index_ w);
  cg_chans : ∀ k, chan_flags <$> w_chans w' !! k = chan_flags <$> w_chans w !! k;
  cg_conns : ∀ c cn, w_conns w !! c = Some cn → ∃ cn', w_conns w' !! c = Some cn' ∧ conn_step X X' w' c cn cn';
  cg_none : ∀ c, w_conns w !! c = None → w_conns w' !! c = None;
  cg_lp : ∀ lp, w_loops w !! l = Some lp → ∃ lp', w_loops w' !! l = Some lp' ∧
    el_event_handing_ lp' = ph' ∧ el_timer_queue_ lp' = el_timer_queue_ lp ∧
    (0 < ep_events_size (el_poller_ lp) → 0 < ep_events_size (el_poller_ lp')) ∧
    el_pendings_ lp ⊆ el_pendings_ lp' ++ cx_batch K ∧
    ∀ f, f ∈ el_pendings_ lp' → f ∈ el_pendings_ lp ∨ task_ok w' f;
  cg_timers : w_timers w' = w_timers w;
  cg_open : open_fds (w_hist w) ⊆ open_fds (w_hist w');
  cg_accepts : accepted (w_hist w) ≤ accepted (w_hist w');
  cg_closing : ∀ c, c ∈ X' → c ∈ X ∨ ∃ cn', w_conns w' !! c = Some cn' ∧ tc_state_ cn' = Disconnected;
  cg_loops : dom (w_loops w') = dom (w_loops w);
}.

Lemma changes_chan ph' X X' w w' k ch' :
  changes ph' X X' w w' → w_chans w' !! k = Some ch' → ∃ ch, w_chans w !! k = Some ch ∧
    chan_id ch' = chan_id ch ∧ ch_event_handing_ ch' = ch_event_handing_ ch.
Proof.
  intros Hc Hk. pose proof (cg_chans _ _ _ _ _ Hc k) as E. rw Hk /= in E. symmetry in E.
  apply fmap_Some in E as (ch & ? & [= E1 E2 E3 E4 E5 E6 E7]). exists ch. rw /chan_id /slots. split_and!; congruence.
Qed.

Lemma changes_ext ph' X X' w w' : changes ph' X X' w w' → ext w w'.
Proof.
  intros Hc. split.
  - apply Hc.
  - intros c cn Hcn. destruct (cg_conns _ _ _ _ _ Hc c cn Hcn) as (cn' & ? & Hs). exists cn'.
    split_and!; [done|apply Hs|apply Hs].
  - intros k ch Hk. pose proof (cg_chans _ _ _ _ _ Hc k) as E. rw Hk in E.
    apply fmap_Some in E as (ch' & ? & [= E1 E2 E3 E4 E5 E6 E7]). exists ch'. rw /chan_id /slots /seen.
    split_and!; [done|congruence|congruence].
Qed.

(** A step that changes only what [changes] allows and leaves the poller in
    order keeps the invariant. *)
Lemma sys_ok_changes ph X ph' X' w w' :
  sys_ok ph X w → loop_ok l w' → changes ph' X X' w w' → keep ph' X' w w'.
Proof.
  intros [Hlok Hfds (lp & Hl & [_ Htm Hsz Htk Hwk]) (ac & Ha & Hal & Hnc & Hio & Hidle) (sv & Hsv & Hsl & Htp & Hcb1 & Hcb2 & Hcns) Hown Hslots Hnow Hids HX Hon]
    Hlok' Hc. pose proof (changes_ext _ _ _ _ _ Hc) as He. split; [|done].
  pose proof (cg_others _ _ _ _ _ Hc) as Ho. injection Ho as Hoa Hos Hoi Hox.
  assert (∀ k ch', w_chans w' !! k = Some ch' → ch_loop_ ch' = l → ∃ ch, w_chans w !! k = Some ch ∧
    ch_loop_ ch = l ∧ ch_fd_ ch' = ch_fd_ ch ∧ slots ch' = slots ch ∧ ch_event_handing_ ch' = ch_event_handing_ ch) as Hback.
  { intros k ch' Hk Hkl. destruct (changes_chan _ _ _ _ _ k ch' Hc Hk) as (ch & Hk0 & [= E1 E2 E3 E4 E5 E6] & E7).
    exists ch. rw /slots. split_and!; congruence. }
  assert (∀ c cn', w_conns w' !! c = Some cn' → ∃ cn, w_conns w !! c = Some cn ∧ conn_step X X' w' c cn cn') as Hcback.
  { intros c cn' Hcn'. destruct (w_conns w !! c) as [cn|] eqn:Hcn.
    - destruct (cg_conns _ _ _ _ _ Hc c cn Hcn) as (cn1 & ? & ?). exists cn. by simplify_eq.
    - by rw (cg_none _ _ _ _ _ Hc c Hcn) in Hcn'. }
  split; [done| | | | | | | | | |].
  - intros k ch' Hk Hkl. destruct (Hback k ch' Hk Hkl) as (ch & Hk0 & Hkl0 & -> & _).
    apply (cg_open _ _ _ _ _ Hc). by eapply Hfds.
  - destruct (cg_lp _ _ _ _ _ Hc lp Hl) as (lp' & Hl' & Hph & Htm' & Hsz' & _ & Htk'). exists lp'. split; [done|].
    split; [done| |auto| |eapply weak_ok_ext; [done|apply Hc|intros c' _; by apply Hc|done]].
    { by rw Htm' (cg_timers _ _ _ _ _ Hc). }
    apply Forall_forall. intros f [Hin|Hf]%Htk'; [|done].
    eapply task_ok_ext; [done|]. rw Forall_forall in Htk. by apply Htk.
  - exists ac. rw Hoa. split_and!; [done|done|done|by apply (cg_open _ _ _ _ _ Hc)|]. intros k ch' Hk Hkl.
    destruct (Hback k ch' Hk Hkl) as (ch & Hk0 & Hkl0 & -> & _). by eapply Hidle.
  - exists sv. split_and!; [|done..|].
    + destruct Hsv as [Hs [Hst _] Hbase Hi Hid Hmap]. split; rw ?Hos ?Hox ?Hoi //.
      * split; [done|]. rw Hbase Hsl. apply Hlok'.
      * intros name c Hin. destruct (Hmap name c Hin) as (id & cn & ? & ? & Hcn & ? & ?).
        destruct (cg_conns _ _ _ _ _ Hc c cn Hcn) as (cn' & Hcn' & [Hsame [= _ _ Hcl] _ _ _ _ _]).
        exists id, cn'. injection Hsame as _ Hn _ _ _ _. split_and!; congruence || lia.
    + intros c cn' Hcn'. destruct (Hcback c cn' Hcn') as (cn & Hcn & Hst).
      destruct (Hcns c cn Hcn) as [H1 (ch & Hk & H2 & H3 & _) _ _ H4 H5].
      destruct Hst as [Hsame [= E1 E2 E3] Hi Ho' Hh _ Hd]. injection Hsame as S1 S2 S3 S4 _ _.
      split; [congruence| |done|done|by rw E1 E2 E3|].
      * pose proof (cg_chans _ _ _ _ _ Hc (tc_channel_ cn)) as E. rw Hk in E.
        apply fmap_Some in E as (ch' & Hk' & [= F1 F2 _ _ _ _ _]). exists ch'. rw S4.
        split_and!; [done|congruence|congruence|]. intros Hdn. apply (Hd Hdn). by rw S4.
      * by rw S2 Hh.
  - intros c1 c2 cn1 cn2 H1 H2 Heq. destruct (Hcback c1 cn1 H1) as (d1 & D1 & [Hs1 _ _ _ _ _ _]).
    destruct (Hcback c2 cn2 H2) as (d2 & D2 & [Hs2 _ _ _ _ _ _]).
    injection Hs1 as _ _ _ E1 _ _. injection Hs2 as _ _ _ E2 _ _. apply (Hown c1 c2 d1 d2 D1 D2). congruence.
  - intros k ch' Hk Hkl. destruct (Hback k ch' Hk Hkl) as (ch & Hk0 & Hkl0 & _ & -> & _).
    eapply Forall_impl; [by eapply Hslots|]. intros o. by apply slot_ok_ext.
  - intros k ch' Hk Hkl. destruct (Hback k ch' Hk Hkl) as (ch & Hk0 & Hkl0 & _ & _ & ->). by eapply Hnow.
  - rw Hoi. pose proof (cg_accepts _ _ _ _ _ Hc). lia.
  - intros c [Hin|?]%(cg_closing _ _ _ _ _ Hc); [|done]. destruct (HX c Hin) as (cn & Hcn & Hd).
    destruct (ex_conns _ _ He c cn Hcn) as (cn' & ? & _ & ?). eauto.
  - by rw (cg_loops _ _ _ _ _ Hc) Hos.
Qed.

(** ** Steps that leave connections and masks alone *)

Definition chan_face (ch : Channel) :=
  (chan_flags ch, ch_events_ ch, ch_index_ ch, ch_added_in_loop_ ch).

Lemma owned_mono w w' c : pending w ⊆ pending w' ++ cx_batch K → owned w c → owned w' c.
Proof.
  intros Hp [(f & Hf & Hin)%list_elem_of_fmap|]; [left|by right]. apply list_elem_of_fmap. exists f.
  split; [done|]. set_solver.
Qed.

Lemma dead_ok_mono X X' w w' c ch ch' :
  dead_ok X w c ch → chan_face ch' = chan_face ch → pending w ⊆ pending w' ++ cx_batch K → X ⊆ X' → dead_ok X' w' c ch'.
Proof.
  intros (Hn & Hs & Hd) [= _ _ _ _ _ _ E1 E2 E3 E4] Hp HX. rw /dead_ok /IsNoneEvent /seen /detached_chan E1 E2 E3 E4.
  split_and!; [done|done|]. intros Hc. destruct Hd as [Hd|[Hd Ho]]; [set_solver|left; set_solver|right].
  split; [done|]. by eapply owned_mono.
Qed.

Lemma conn_step_id X X' sv w w' c cn :
  sys_conn X sv w c cn → (chan_face <$> w_chans w' !! tc_channel_ cn = chan_face <$> w_chans w !! tc_channel_ cn) →
  pending w ⊆ pending w' ++ cx_batch K → X ⊆ X' → (c ∈ X' → c ∈ X) → conn_step X X' w' c cn cn.
Proof.
  intros [_ (ch & Hk & _ & _ & Hd) Hi Ho _ _] E Hp HX HcX. split; try done; [naive_solver|]. intros Hdn ch' Hk'.
  rw Hk Hk' in E. apply (inj Some) in E. eapply dead_ok_mono; [by apply Hd|done|done|done].
Qed.

Lemma pending_sub w w' :
  is_Some (w_loops w !! l) →
  (∀ lp, w_loops w !! l = Some lp → ∃ lp', w_loops w' !! l = Some lp' ∧
     el_pendings_ lp ⊆ el_pendings_ lp' ++ cx_batch K) →
  pending w ⊆ pending w' ++ cx_batch K.
Proof. intros [lp Hl] H. destruct (H lp Hl) as (lp' & Hl' & Hp). by rw /pending Hl Hl'. Qed.

(** The loop after a step that queues only tasks in order. *)
Definition lp_step (ph' : bool) w' lp lp' : Prop :=
  el_event_handing_ lp' = ph' ∧ el_timer_queue_ lp' = el_timer_queue_ lp ∧
  (0 < ep_events_size (el_poller_ lp) → 0 < ep_events_size (el_poller_ lp')) ∧
  el_pendings_ lp ⊆ el_pendings_ lp' ++ cx_batch K ∧
  ∀ f, f ∈ el_pendings_ lp' → f ∈ el_pendings_ lp ∨ task_ok w' f.

Lemma sys_ok_same ph X ph' w w' :
  sys_ok ph X w → loop_ok l w' → w_conns w' = w_conns w →
  (w_tid w', w_timers w', w_accs w', w_servers w', w_next_conn_id_ w', w_next_index_ w') =
    (w_tid w, w_timers w, w_accs w, w_servers w, w_next_conn_id_ w, w_next_index_ w) →
  (∀ k, chan_face <$> w_chans w' !! k = chan_face <$> w_chans w !! k) →
  (∀ lp, w_loops w !! l = Some lp → el_event_handing_ lp = ph →
     ∃ lp', w_loops w' !! l = Some lp' ∧ lp_step ph' w' lp lp') → dom (w_loops w') = dom (w_loops w) →
  open_fds (w_hist w) ⊆ open_fds (w_hist w') → accepted (w_hist w) ≤ accepted (w_hist w') →
  keep ph' X w w'.
Proof.
  intros Hok Hlok Hcn [= Ht Htm Ha Hs Hi Hx] Hch Hlp Hdom Hop Hac. eapply sys_ok_changes; [done|done|].
  destruct (sy_srv _ _ _ Hok) as (sv & _ & _ & _ & _ & _ & Hcns).
  destruct (sy_lp _ _ _ Hok) as (lp0 & Hl0 & [Hph _ _ _]). split; try done.
  - by rw Ha Hs Hi Hx.
  - intros k. specialize (Hch k). destruct (w_chans w !! k), (w_chans w' !! k); try done; simpl in *.
    apply (inj Some), (f_equal (λ x, x.1.1.1)) in Hch. by f_equal.
  - intros c cn Hc. exists cn. rw Hcn. split; [done|]. eapply conn_step_id; [by apply Hcns|done| |done|done].
    apply pending_sub; [by eexists|]. intros lp Hl. assert (lp = lp0) as -> by congruence.
    destruct (Hlp lp0 Hl Hph) as (lp' & ? & (_ & _ & _ & ? & _)). eauto.
  - by rw Hcn.
  - intros lp Hl. simplify_eq. by apply Hlp.
  - auto.
Qed.

Lemma lp_step_refl w' lp : lp_step (el_event_handing_ lp) w' lp lp.
Proof. split_and!; try done; [set_solver|auto]. Qed.

(** System calls and calls of the application, as seen by the history. *)
Lemma sys_event ph X e w w' :
  sys_ok ph X w → quiet e = true → w_hist w' = w_hist w ++ [e] →
  (w_tid w', w_chans w', w_timers w', w_loops w', w_conns w', w_accs w', w_servers w', w_next_conn_id_ w', w_next_index_ w') =
    (w_tid w, w_chans w, w_timers w, w_loops w, w_conns w, w_accs w, w_servers w, w_next_conn_id_ w, w_next_index_ w) →
  keep ph X w w'.
Proof.
  intros Hok He Hh [= Ht Hch Htm Hl Hcn Ha Hs Hi Hx]. destruct (sy_lp _ _ _ Hok) as (lp & Hlp & Hlk).
  apply (sys_ok_same ph X ph); try done.
  - apply (loop_ok_equiv l w); [| |by rw Hl Hlp|done|apply Hok].
    + apply (poller_equiv_quiet _ [e]); [by rw /poller_view Hl|by rw Hch|done|]. by rw /= He.
    + intros lp'. rw Hl. by eauto.
  - congruence.
  - by rw Hch.
  - intros lp' Hl' <-. exists lp'. rw Hl. split; [done|apply lp_step_refl].
  - by rw Hl.
  - rw Hh. by apply quiet_fds.
  - rw Hh accepted_app /=. pose proof (accept_step_nonneg e). lia.
Qed.

Lemma sys_call ph X k w :
  sys_ok ph X w → quiet (Sys k (ok 0)) = true → keep ph X w (after_call k w).
Proof. intros Hok Hk. eapply (sys_event _ _ (Sys k (os_reply (w_hist w) k))); [done|by destruct k|done|done]. Qed.

(** Fields of the loop that the invariant does not read. *)
Lemma sys_alter_loop ph X ph' f w :
  sys_ok ph X w →
  (∀ lp, w_loops w !! l = Some lp → lp_ok ph w lp → lp_step ph' w lp (f lp) ∧
     el_thread_id_ (f lp) = el_thread_id_ lp ∧
     (ep_channels_ (el_poller_ (f lp)), ep_epoll_fd_ (el_poller_ (f lp))) =
       (ep_channels_ (el_poller_ lp), ep_epoll_fd_ (el_poller_ lp))) →
  keep ph' X w (set_w_loops (alter f l (w_loops w)) w).
Proof.
  intros Hok Hf. destruct (sy_lp _ _ _ Hok) as (lp & Hl & Hlk). destruct (Hf lp Hl Hlk) as (Hst & Hth & [= E1 E2]).
  rw (alter_insert f l lp) //. apply (sys_ok_same ph X ph'); try done.
  - apply (loop_ok_equiv l w); [| |by rw /= lookup_insert_eq|done|apply Hok].
    + apply (poller_equiv_quiet _ []); [|done|by rw app_nil_r|done].
      by rw /poller_view /= lookup_insert_eq Hl /= E1 E2.
    + intros lp'. rw /= lookup_insert_eq. intros [= <-]. by eauto.
  - intros lp0 Hl0 _. simplify_eq. eexists. by rw /= lookup_insert_eq.
  - by rw /= dom_insert_lookup_L.
Qed.

(** Fields of a channel that neither the poller nor the invariant reads. *)
Lemma sys_alter_chan ph X f k w :
  sys_ok ph X w → (∀ ch, chan_core (f ch) = chan_core ch ∧ chan_face (f ch) = chan_face ch) →
  keep ph X w (set_w_chans (alter f k (w_chans w)) w).
Proof.
  intros Hok Hf. destruct (sy_lp _ _ _ Hok) as (lp & Hl & Hlk).
  assert (∀ k', chan_core <$> w_chans w !! k' = chan_core <$> alter f k (w_chans w) !! k') as Hcore.
  { intros k'. rw lookup_alter. case_decide; [subst|done]. destruct (w_chans w !! k'); [|done]. simpl.
    by rw (proj1 (Hf _)). }
  apply (sys_ok_same ph X ph); try done.
  - apply (loop_ok_equiv l w); [|by eauto|by rw /= Hl|done|apply Hok].
    by apply (poller_equiv_quiet _ []); [done| |by rw app_nil_r|].
  - intros k'. simpl. specialize (Hcore k'). rw lookup_alter in Hcore |- *. case_decide; [subst|done].
    destruct (w_chans w !! k') as [ch|]; [|done]. simpl in *. f_equal. apply Hf.
  - intros lp' Hl' <-. exists lp'. split; [done|apply lp_step_refl].
Qed.

(** Queueing a task that is in order. *)
Lemma sys_queued ph X lp task w w' :
  sys_ok ph X w → w_loops w !! l = Some lp → queued l lp task w w' → task_ok w task → keep ph X w w'.
Proof.
  intros Hok Hl [Hlo Hch Hcn Htm Ht Hot [r Hh]] Htask. injection Hot as Ha Hs _ Hi Hx.
  assert (∀ b : bool, let evs := if b then [Sys (EventfdWrite (el_wakeup_fd_ lp) 1) r] else [] in
    forallb quiet evs = true ∧ open_fds (w_hist w ++ evs) = open_fds (w_hist w) ∧ accepted evs = 0) as Hev.
  { intros []; simpl; [|by rw app_nil_r]. by rw open_fds_app. }
  destruct (Hev (negb (el_thread_id_ lp =? w_tid w)%nat || el_calling_pendings_ lp)) as (Hq & Hop & Hac).
  apply (sys_ok_same ph X ph); try done.
  - apply (loop_ok_equiv l w); [| |by rw Hlo lookup_insert_eq|done|apply Hok].
    + eapply poller_equiv_quiet; [|by rw Hch|exact Hh|done].
      by rw /poller_view Hlo lookup_insert_eq Hl.
    + intros lp'. rw Hlo lookup_insert_eq. intros [= <-]. by eauto.
  - congruence.
  - by rw Hch.
  - intros lp0 Hl0 <-. simplify_eq. eexists. rw Hlo lookup_insert_eq. split; [done|]. split_and!; try done; [set_solver|].
    intros f [Hf|Hf]%elem_of_app; [by left|]. apply list_elem_of_singleton in Hf as ->. right.
    eapply task_ok_ext; [|exact Htask]. split; [done| |]; rw ?Hcn ?Hch; eauto.
    intros c cn Hc. exists cn. by split_and!.
  - by rw Hlo dom_insert_lookup_L.
  - by rw Hh Hop.
  - rw Hh accepted_app Hac. lia.
Qed.
End invariant.

Section steps.
Context (host : endian) {text : InetText} {cw : Clockwork} {os : OS} {heap : Heap}.
Context `{!EpollDelOk os, !EpollCtlRet os}.
Context (l s a : nat) (K : ctx).
Implicit Types (w : World) (cn : TcpConnection) (ch : Channel) (lp : EventLoop) (sv : TcpServer) (X : gset nat).

Abbreviation sys_ok := (sys_ok host l s a K).
Abbreviation keep := (keep host l s a K).
Abbreviation sys_conn := (sys_conn l s K).

(** The connection [c] and what the invariant says of it. *)
Lemma sys_lookup ph X c cn w :
  sys_ok ph X w → w_conns w !! c = Some cn → ∃ sv, w_servers w !! s = Some sv ∧ sv_loop_ sv = l ∧ sys_conn X sv w c cn.
Proof.
  intros Hok Hc. destruct (sy_srv _ _ _ _ _ _ _ _ Hok) as (sv & Hsv & Hl & _ & _ & _ & Hcns).
  exists sv. split_and!; [apply Hsv|done|by apply Hcns].
Qed.

(** The loop runs on this thread. *)
Lemma sys_thread ph X w : sys_ok ph X w → ∃ lp, w_loops w !! l = Some lp ∧ el_thread_id_ lp = w_tid w.
Proof. intros Hok. apply (sy_loop _ _ _ _ _ _ _ _ Hok). Qed.

Lemma sys_assert_thread ph X (Q : () → World → Prop) E w :
  sys_ok ph X w → Q () w → wp (AssertInLoopThread l) Q E w.
Proof. intros Hok HQ. destruct (sys_thread ph X w Hok) as (lp & ? & ?). by eapply AssertInLoopThread_ok. Qed.

Lemma sys_in_thread ph X (Q : bool → World → Prop) E w :
  sys_ok ph X w → Q true w → wp (IsInLoopThread l) Q E w.
Proof.
  intros Hok HQ. destruct (sys_thread ph X w Hok) as (lp & ? & Ht). eapply wp_IsInLoopThread; [done|].
  by rw Ht Nat.eqb_refl.
Qed.

Lemma sys_queue ph X task w :
  sys_ok ph X w → task_ok w task →
  wp (QueueInLoop l task) (λ _ w', keep ph X w w' ∧ w_conns w' = w_conns w ∧ task ∈ pending l w') sys_end w.
Proof.
  intros Hok Ht. destruct (sys_thread ph X w Hok) as (lp & Hl & _).
  eapply wp_conseq; [by apply QueueInLoop_ok|]. intros [] w' Hq. split_and!; [by eapply sys_queued|apply Hq|].
  rw /pending (qd_loops _ _ _ _ _ Hq) lookup_insert_eq /=. set_solver.
Qed.

(** ** Masks *)

Lemma frame_hist k ch' w w' :
  chan_frame l k ch' w w' → open_fds (w_hist w') = open_fds (w_hist w) ∧ accepted (w_hist w') = accepted (w_hist w).
Proof.
  intros Hf. split; [by eapply frame_fds|].
  destruct (cf_hist _ _ _ _ _ Hf) as [-> |(? & ? & ? & ? & ? & ->)]; [done|]. rw accepted_app /=. lia.
Qed.

(** An operation on the channel [k] of the connection [c] whose mask becomes
    [ev]; the connection itself may have changed to [cn'] before. *)
Lemma sys_frame ph X X' c cn cn' ch ch' w w1 w' :
  sys_ok ph X w → w_conns w !! c = Some cn → w_chans w !! tc_channel_ cn = Some ch →
  w1 = set_w_conns (<[c := cn']> (w_conns w)) w →
  loop_ok l w' → chan_frame l (tc_channel_ cn) ch' w1 w' → chan_flags ch' = chan_flags ch →
  conn_step l K X X' w' c cn cn' → X ⊆ X' → (∀ c', c' ∈ X' → c' ∈ X ∨ c' = c ∧ tc_state_ cn' = Disconnected) →
  keep ph X' w w'.
Proof.
  intros Hok Hc Hk -> Hlok' Hf Hid Hst HXX HX. destruct (frame_hist _ _ _ _ Hf) as [Hop Hac].
  destruct (sy_lp _ _ _ _ _ _ _ _ Hok) as (lp0 & Hl0 & [Hph0 _ _ _]).
  destruct Hf as [Ht Hcn Htm Hch [m Hlo] _ Hot]. injection Hot as Ha Hs _ Hi Hx. simpl in *.
  destruct (sy_srv _ _ _ _ _ _ _ _ Hok) as (sv & _ & _ & _ & _ & _ & Hcns).
  assert (pending l w ⊆ pending l w' ++ cx_batch K) as Hpend by (rw /pending Hlo lookup_alter_eq Hl0 /=; set_solver).
  eapply sys_ok_changes; [done|done|]. split.
  - done.
  - congruence.
  - intros k. rw Hch lookup_insert. case_decide; [subst; by rw Hk /= Hid|done].
  - intros c' d Hd. rw Hcn lookup_insert. case_decide as D.
    + subst. simplify_eq. by exists cn'.
    + exists d. split; [done|]. pose proof (Hcns c' d Hd) as Hsc.
      eapply conn_step_id; [exact Hsc| |by apply Hpend|done|by intros [?|[? _]]%HX].
      rw Hch lookup_insert_ne //. intros Heq. apply D. by eapply (sy_own _ _ _ _ _ _ _ _ Hok).
  - intros c' Hn. rw Hcn lookup_insert. by case_decide; simplify_eq.
  - intros lp Hl. rw Hlo lookup_alter_eq Hl /=. simplify_eq. eexists. split; [done|].
    split_and!; try done; [set_solver|auto].
  - done.
  - by rw Hop.
  - by rw Hac.
  - intros c' [?|[-> ?]]%HX; [by left|right]. exists cn'. by rw Hcn lookup_insert_eq.
  - by rw Hlo dom_alter_L.
Qed.

Lemma sys_change_events ph X f c cn w :
  sys_ok ph X w → w_conns w !! c = Some cn → tc_state_ cn ≠ Disconnected →
  wp (change_events f (tc_channel_ cn)) (λ _, keep ph X w) sys_end w.
Proof.
  intros Hok Hc Hst. destruct (sys_lookup ph X c cn w Hok Hc) as (sv & _ & _ & [_ (ch & Hk & Hkl & Hfd & Hd) Hi Ho Hcbs Hh]).
  eapply wp_mono; [by apply (change_events_loop f l _ ch); [apply Hok|..]| |by left].
  intros [] w' [Hlok' Hfr]. eapply (sys_frame ph X X c cn cn ch _ w w w'); try done; [by rw conn_id_world|by auto].
Qed.

(** An operation on a channel that is no connection's. *)
Lemma sys_frame_free ph X k ch ch' w w' :
  sys_ok ph X w → w_chans w !! k = Some ch → (∀ c cn, w_conns w !! c = Some cn → tc_channel_ cn ≠ k) →
  loop_ok l w' → chan_frame l k ch' w w' → chan_flags ch' = chan_flags ch → keep ph X w w'.
Proof.
  intros Hok Hk Hfree Hlok' Hf Hid. destruct (frame_hist _ _ _ _ Hf) as [Hop Hac].
  destruct (sy_lp _ _ _ _ _ _ _ _ Hok) as (lp0 & Hl0 & [Hph0 _ _ _]).
  destruct Hf as [Ht Hcn Htm Hch [m Hlo] _ Hot]. injection Hot as Ha Hs _ Hi Hx.
  destruct (sy_srv _ _ _ _ _ _ _ _ Hok) as (sv & _ & _ & _ & _ & _ & Hcns).
  eapply sys_ok_changes; [done|done|]. split; rw ?Hcn ?Hop ?Hac //.
  - congruence.
  - intros k'. rw Hch lookup_insert. case_decide; [subst; by rw Hk /= Hid|done].
  - intros c d Hd. exists d. split; [done|]. eapply conn_step_id; [by apply Hcns| |rw /pending Hlo lookup_alter_eq Hl0 /=; set_solver|done|done].
    rw Hch lookup_insert_ne //. intros Heq. by apply (Hfree c d).
  - intros lp Hl. rw Hlo lookup_alter_eq Hl /=. simplify_eq. eexists. split; [done|]. split_and!; try done; [set_solver|auto].
  - auto.
  - by rw Hlo dom_alter_L.
Qed.

(** [state_ = Disconnected; channel_->DisableAllEvent()] *)
Lemma sys_close ph X c cn w :
  sys_ok ph X w → w_conns w !! c = Some cn → tc_state_ cn ≠ Disconnected → seen_conn w c →
  wp (set_state Disconnected c ;; DisableAllEvent (tc_channel_ cn)) (λ _ w',
    keep ph (X ∪ {[c]}) w w' ∧ ∃ cn', w_conns w' !! c = Some cn' ∧ tc_state_ cn' = Disconnected) sys_end w.
Proof.
  intros Hok Hc Hst (cn0 & ch & Hc0 & Hk & Hseen). assert (cn0 = cn) as -> by congruence.
  destruct (sys_lookup ph X c cn w Hok Hc) as (sv & _ & _ & [_ (ch0 & Hk0 & Hkl & Hfd & _) Hi Ho Hcbs Hh]).
  assert (ch0 = ch) as -> by congruence. wp_step. rw /set_state. eapply wp_alter_conn; [done|]. set (cn' := set_tc_state_ Disconnected cn).
  set (w1 := set_w_conns _ w). destruct (sys_thread ph X w Hok) as (lp & Hl & _).
  assert (loop_ok l w1) as Hlok1.
  { apply (loop_ok_equiv l w); [|by eauto|by exists lp|done|apply Hok].
    by apply (poller_equiv_quiet _ []); [done|done|rw app_nil_r|]. }
  eapply wp_mono; [by apply (change_events_loop _ l _ ch)| |by left].
  intros [] w' [Hlok' Hfr]. split.
  - eapply (sys_frame ph X _ c cn cn' ch _ w w1 w'); try done; [|set_solver..].
    split; try done; [split; [by left|intros _; right; set_solver]|]. intros _ ch'. rw (cf_chans _ _ _ _ _ Hfr) lookup_insert_eq. intros [= <-].
    split_and!; [done|done|set_solver].
  - exists cn'. by rw (cf_conns _ _ _ _ _ Hfr) lookup_insert_eq.
Qed.

(** Changing the connection object. *)
Lemma sys_update ph X c cn cn' w :
  sys_ok ph X w → w_conns w !! c = Some cn → same_conn cn cn' →
  (tc_on_connection_ cn', tc_on_message_ cn', tc_on_close_ cn') =
    (tc_on_connection_ cn, tc_on_message_ cn, tc_on_close_ cn) →
  (tc_state_ cn' = Disconnected ↔ tc_state_ cn = Disconnected) →
  inv (tc_input_buffer_ cn') → inv (tc_output_buffer_ cn') →
  keep ph X w (set_w_conns (<[c := cn']> (w_conns w)) w).
Proof.
  intros Hok Hc Hsame Hcbs Hst Hi Ho. set (w' := set_w_conns _ w).
  destruct (sy_srv _ _ _ _ _ _ _ _ Hok) as (sv & _ & _ & _ & _ & _ & Hcns).
  destruct (sy_lp _ _ _ _ _ _ _ _ Hok) as (lp & Hl & [Hph _ _ _]).
  eapply sys_ok_changes; [done| |].
  { apply (loop_ok_equiv l w); [|by eauto|by exists lp|done|apply Hok].
    by apply (poller_equiv_quiet _ []); [done|done|rw app_nil_r|]. }
  split; try done.
  - intros c' d Hd. rw /= lookup_insert. case_decide as D; [subst c'|].
    + assert (d = cn) as -> by congruence. exists cn'. split; [done|]. destruct (Hcns _ _ Hc) as [_ (ch & Hk & _ & _ & Hdd) _ _ _ _].
      pose proof Hsame as [= _ _ _ S4 _ _]. split; [exact Hsame|exact Hcbs|exact Hi|exact Ho|naive_solver|apply Hst|].
      intros Hdn ch'. rw S4 /= Hk. intros [= <-]. by apply Hdd, Hst.
    + exists d. split; [done|]. eapply conn_step_id; [by apply Hcns|done|by apply pending_sub; [exists lp|]; eauto using sub_app|done|done].
  - intros c' Hn. rw /= lookup_insert. by case_decide; simplify_eq.
  - intros lp0 Hl0. assert (lp0 = lp) as -> by congruence. exists lp. split_and!; auto using sub_app.
  - auto.
Qed.

(** [RemoveFromLoop] of the channel of a connection that is down, outside
    the dispatch of events. *)
Lemma sys_remove_channel X c cn w :
  sys_ok false X w → w_conns w !! c = Some cn → tc_state_ cn = Disconnected → cx_held K c →
  wp (RemoveFromLoop (tc_channel_ cn)) (λ _ w', keep false X w w' ∧
    ∃ ch', w_chans w' !! tc_channel_ cn = Some ch' ∧ detached_chan ch') sys_end w.
Proof.
  intros Hok Hc Hst Hheld. destruct (sys_lookup _ X c cn w Hok Hc) as (sv & _ & _ & [_ (ch & Hk & Hkl & Hfd & Hd) Hi Ho Hcbs Hh]).
  destruct (loop_ok_ready l (tc_channel_ cn) ch w) as [lp Hr]; [apply Hok|done|done|].
  destruct (sy_lp _ _ _ _ _ _ _ _ Hok) as (lp0 & Hl0 & [Hph _ _ _]).
  assert (lp0 = lp) as -> by (pose proof (cr_lp _ _ _ _ _ Hr); congruence).
  eapply wp_mono; [apply (RemoveFromLoop_ok l _ ch lp); [done|by apply Hd|by rw Hph]| |done].
  intros [] w' [Hinv Hfr]. destruct (loop_ok_frame l _ ch _ w w' (sy_loop _ _ _ _ _ _ _ _ Hok) Hinv Hfr) as [Hlok' _]; try done.
  split; [|eexists; by rw (cf_chans _ _ _ _ _ Hfr) lookup_insert_eq].
  eapply (sys_frame false X X c cn cn ch _ w w w'); try done; [by rw conn_id_world| |by auto].
  split; try done. intros Hdn ch'. rw (cf_chans _ _ _ _ _ Hfr) /= lookup_insert_eq. intros [= <-].
  destruct (Hd Hdn) as (? & ? & _). split_and!; [done|done|]. intros _. right. split; [done|by right].
Qed.

(** The flag of a channel that its destructor reads. *)
Lemma sys_flag ph X k b w :
  sys_ok ph X w → (b = true → cx_now K = Some k) →
  keep ph X w (set_w_chans (alter (set_ch_event_handing_ (Some b)) k (w_chans w)) w).
Proof.
  intros Hok Hb. set (w' := set_w_chans _ w).
  assert (∀ k' ch', w_chans w' !! k' = Some ch' → ∃ ch, w_chans w !! k' = Some ch ∧
    (ch' = ch ∨ k' = k ∧ ch' = set_ch_event_handing_ (Some b) ch)) as Hback.
  { intros k' ch'. rw /= lookup_alter. case_decide; [subst|by eauto]. destruct (w_chans w !! k') as [ch|]; [|done].
    intros [= <-]. eauto. }
  assert (ext w w') as He.
  { split; [done|intros c d ?; by exists d|]. intros k' ch Hk'. rw /= lookup_alter.
    case_decide; [subst; rw Hk'|by exists ch]. exists (set_ch_event_handing_ (Some b) ch). split_and!; [done|done|]. by eexists. }
  destruct Hok as [Hlok Hfds (lp & Hl & Hlk) (ac & Hac & Hal & Hnc & Hio & Hid1) (sv & Hsv & Hsl & Htp & Hcb1 & Hcb2 & Hcns) Hown Hslots Hnow Hids HX Hon].
  split; [|done]. split; try done.
  - apply (loop_ok_equiv l w); [|by eauto|by exists lp|done|done].
    apply (poller_equiv_quiet _ []); [done| |by rw app_nil_r|done].
    intros k'. rw /= lookup_alter. case_decide; [subst|done]. by destruct (w_chans w !! k').
  - intros k' ch' Hk' Hkl. destruct (Hback k' ch' Hk') as (ch & Hk0 & [-> |[-> ->]]); exact (Hfds _ ch Hk0 Hkl).
  - exists lp. split; [done|]. destruct Hlk. split; try done; [|by apply (weak_ok_same w)]. eapply Forall_impl; [done|]. intros f. by apply task_ok_ext.
  - exists ac. split_and!; try done. intros k' ch' Hk' Hkl.
    destruct (Hback k' ch' Hk') as (ch & Hk0 & [-> |[-> ->]]); exact (Hid1 _ ch Hk0 Hkl).
  - exists sv. split_and!; try done; [by destruct Hsv as [? [? ?] ? ? ? ?]|].
    intros c cn Hc. destruct (Hcns c cn Hc) as [? (ch & Hk & Hkl & Hkf & Hd) ? ? ? ?]. split; try done.
    rw /= lookup_alter. case_decide as D; [|by exists ch]. rw D Hk. exists (set_ch_event_handing_ (Some b) ch).
    split_and!; try done. intros Hdn. destruct (Hd Hdn) as (? & ? & ?). split_and!; try done. by eexists.
  - intros k' ch' Hk' Hkl. destruct (Hback k' ch' Hk') as (ch & Hk0 & [-> |[-> ->]]);
      (eapply Forall_impl; [exact (Hslots _ ch Hk0 Hkl)|]; intros o; by apply slot_ok_ext).
  - intros k' ch' Hk' Hkl. destruct (Hback k' ch' Hk') as (ch & Hk0 & [-> |[-> ->]]); [by apply Hnow|].
    intros [= ->]. auto.
Qed.
End steps.

(** ** Changes of the context *)

Section contexts.
Context (host : endian) {text : InetText} {cw : Clockwork} {os : OS} (l s a : nat).
Implicit Types (w : World) (cn : TcpConnection) (ch : Channel) (lp : EventLoop) (sv : TcpServer) (X : gset nat) (K : ctx).

(** Another context that accounts for the connections that are down. *)
Lemma sys_context K K' ph X w :
  sys_ok host l s a K ph X w → cx_fired K' = cx_fired K →
  (∀ c cn ch, w_conns w !! c = Some cn → w_chans w !! tc_channel_ cn = Some ch → tc_state_ cn = Disconnected →
     c ∉ X → FConnectionDestroyed c ∈ cx_batch K →
     FConnectionDestroyed c ∈ pending l w ++ cx_batch K' ∨ detached_chan ch) →
  (∀ c cn, w_conns w !! c = Some cn → tc_state_ cn = Disconnected → c ∉ X →
     Some c ∈ owns <$> cx_batch K ∨ cx_held K c → owned l K' w c) →
  (∀ k ch, w_chans w !! k = Some ch → ch_loop_ ch = l → ch_event_handing_ ch = Some true → cx_now K' = Some k) →
  sys_ok host l s a K' ph X w.
Proof.
  intros [? ? (lp & Hl & Hlk) ? (sv & Hsv & Hsl & Htp & Hcb1 & Hcb2 & Hcns) ? ? _ ? ? ?] Hex Hb Hh Hnow. split; try done.
  { exists lp. split; [done|]. destruct Hlk. by split; rw ?Hex. }
  exists sv. split_and!; try done. intros c cn Hc. destruct (Hcns c cn Hc) as [? (ch & Hk & ? & ? & Hd) ? ? ? ?].
  split; try done. exists ch. split_and!; try done. intros Hdn. destruct (Hd Hdn) as (? & ? & Hq).
  split_and!; [done|done|]. intros HcX. specialize (Hh c cn Hc Hdn HcX).
  destruct (Hq HcX) as [[Hp|Hp]%elem_of_app|[Hdet Ho]].
  - left. apply elem_of_app. by left.
  - destruct (Hb c cn ch) as [|]; auto. right. split; [done|]. apply Hh. left.
    apply list_elem_of_fmap. by exists (FConnectionDestroyed c).
  - right. split; [done|]. rw /owned fmap_app in Ho. destruct Ho as [[Ho|Ho]%elem_of_app|Ho]; [|by apply Hh; left|by apply Hh; right].
    left. rw fmap_app. apply elem_of_app. by left.
Qed.

(** The connection leaves the server's map; its destruction is still to be
    queued. *)
Lemma sys_leave K ph X c cn sv w :
  sys_ok host l s a K ph (X ∪ {[c]}) w → w_conns w !! c = Some cn → tc_state_ cn = Disconnected →
  w_servers w !! s = Some sv → c ∉ X →
  keep host l s a (mkCtx (FConnectionDestroyed c :: cx_batch K) (cx_now K) (cx_held K) (cx_fired K)) ph X w (removed s (tc_name_ cn) sv w).
Proof.
  intros Hok Hc Hst Hs HcX. destruct Hok as [Hlok Hfds (lp & Hl & Hlk) Hacc (sv' & Hsv & Hsl & Htp & Hcb1 & Hcb2 & Hcns) Hown Hslots Hnow Hids HX Hon].
  assert (sv' = sv) as -> by (pose proof (so_server _ _ _ _ Hsv); congruence).
  set (w' := removed _ _ _ w). assert (ext w w') as He.
  { split; [done|intros c' d ?; by exists d|intros k ch ?; by exists ch]. }
  assert (sv_connections_ sv !! tc_name_ cn = Some c) as Hin by (apply (Hcns c cn Hc); set_solver).
  split; [|done]. split; try done.
  - apply (loop_ok_equiv l w); [|by eauto|by exists lp|done|done].
    by apply (poller_equiv_quiet _ []); [done|done|rw app_nil_r|].
  - exists lp. split; [done|]. by destruct Hlk.
  - exists (without_conn (tc_name_ cn) sv). split_and!; try done.
    + destruct Hsv as [? [? ?] ? ? ? Hmap]. split; try done; [by rw /= lookup_insert_eq|].
      intros name c'. rw /without_conn /=. intros [_ Hn]%lookup_delete_Some. by apply Hmap.
    + intros c' d Hd. change (w_conns w !! c' = Some d) in Hd.
      destruct (Hcns c' d Hd) as [? (ch & Hk & ? & ? & Hdead) ? ? ? Hh]. split; try done.
      * exists ch. split_and!; try done. intros Hdn. destruct (Hdead Hdn) as (? & ? & Hq). split_and!; [done|done|].
        intros Hn. destruct (decide (c' = c)) as [-> |Hne]; [left; simpl; set_solver|].
        destruct Hq as [Hq|[? [Ho|Ho]]]; [set_solver|left|right; split; [done|left]|right; split; [done|by right]].
        { change (pending l w') with (pending l w). simpl. set_solver. }
        change (pending l w') with (pending l w). rw /= fmap_app /=. rw fmap_app in Ho. set_solver.
      * rw /without_conn /= lookup_delete. destruct (decide (c' = c)) as [-> |Hne].
        { assert (d = cn) as -> by congruence. rw decide_True //. naive_solver. }
        assert (tc_state_ d ≠ Disconnected ∨ c' ∈ X ↔ tc_state_ d ≠ Disconnected ∨ c' ∈ X ∪ {[c]}) as -> by set_solver.
        rw Hh. case_decide as Heq; [|done]. rw -Heq Hin. split; [congruence|done].
  - intros c' Hc'. apply HX. set_solver.
  - by rw /= dom_insert_lookup_L.
Qed.

(** Only the timers and the queue of the loop have changed, [ex] being fired
    from now on, and calls that neither open nor close descriptors may have
    been made. *)
Definition unseen (e : event) : bool :=
  match e with Sys (TimerfdSettime _ _ _) _ | Sys ClockNow _ => true | _ => false end.

Record timed (ex : list nat) lp w w' : Prop := {
  td_queue : ∃ tq, w_loops w' = <[l := with_tq tq lp]> (w_loops w) ∧ timers_ok ex (w_timers w') tq;
  td_weak : weak_ok w → weak_ok w';
  td_hist : ∃ evs, w_hist w' = w_hist w ++ evs ∧ forallb unseen evs = true;
  td_rest : (w_tid w', w_chans w', w_conns w', w_accs w', w_servers w', w_tls w', w_next_conn_id_ w', w_next_index_ w') =
            (w_tid w, w_chans w, w_conns w, w_accs w, w_servers w, w_tls w, w_next_conn_id_ w, w_next_index_ w);
}.

Lemma unseen_hist h evs : forallb unseen evs = true →
  forallb quiet evs = true ∧ open_fds (h ++ evs) = open_fds h ∧ accepted (h ++ evs) = accepted h.
Proof.
  induction evs as [|e evs IH] using rev_ind; [by rw app_nil_r|].
  rw forallb_app /= andb_true_r. intros [H1 H2]%andb_prop. destruct (IH H1) as (IH1 & IH2 & IH3).
  rw app_assoc open_fds_app accepted_app IH2 IH3 forallb_app IH1. destruct e as [[] r|]; simpl; split_and!; done || lia.
Qed.

(** The same in one step. *)
Lemma timed_set ex tq lp w :
  timers_ok ex (w_timers w) tq → timed ex lp w (set_w_loops (<[l := with_tq tq lp]> (w_loops w)) w).
Proof. intros Htq. split; [by exists tq|done|exists []; by rw app_nil_r|done]. Qed.

Definition refired (ex : list nat) K : ctx := mkCtx (cx_batch K) (cx_now K) (cx_held K) ex.

Lemma sys_timers K ph X ex lp w w' :
  sys_ok host l s a K ph X w → w_loops w !! l = Some lp → timed ex lp w w' →
  keep host l s a (refired ex K) ph X w w'.
Proof.
  intros [Hlok Hfds (lp0 & Hl0 & Hlk) Hacc (sv & Hsv & Hsl & Htp & Hcb1 & Hcb2 & Hcns) Hown Hslots Hnow Hids HX [Hdl Hds]] Hl
    [(tq & Hlo & Htq) Hwk (evs & Hh & Hev) Hrest].
  injection Hrest as Ht Hch Hcn Ha Hs _ Hi Hx. destruct (unseen_hist (w_hist w) evs Hev) as (Hq & Hop & Hac). rw -Hh in Hop, Hac.
  assert (lp0 = lp) as -> by congruence.
  assert (pending l w' = pending l w) as Hpend by by rw /pending Hlo lookup_insert_eq Hl.
  assert (ext w w') as He.
  { split; rw ?Hcn ?Hch; [done|intros c cn Hc; by exists cn|intros k ch Hk; by exists ch]. }
  assert (loop_ok l w') as Hlok'.
  { apply (loop_ok_equiv l w); [| |by rw Hlo lookup_insert_eq|done|done].
    - apply (poller_equiv_quiet _ evs); [|by rw Hch|done|done]. by rw /poller_view Hlo lookup_insert_eq Hl.
    - intros lp'. rw Hlo lookup_insert_eq. intros [= <-]. by exists lp. }
  split; [|done]. split; rw ?Hcn ?Hch ?Hac ?Hi //.
  - intros k ch. rw Hch Hop. apply Hfds.
  - exists (with_tq tq lp). rw Hlo lookup_insert_eq. split; [done|]. destruct Hlk as [? ? ? Htk ?]. split; try done; [|by apply Hwk].
    eapply Forall_impl; [exact Htk|]. intros f. by apply task_ok_ext.
  - rw Ha Hop. done.
  - exists sv. split_and!; try done.
    + destruct Hsv as [? [? _] Hb ? ? ?]. split; rw ?Hs ?Hx ?Hi ?Hcn //. split; [done|]. rw Hb Hsl. apply Hlok'.
    + intros c cn Hc. destruct (Hcns c cn Hc) as [? (ch & ? & ? & ? & Hd) ? ? ? ?]. split; try done. rw Hch.
      exists ch. split_and!; try done. by rw /dead_ok /owned Hpend.
  - intros k ch Hk Hkl. eapply Forall_impl; [by eapply Hslots|]. intros o. by apply slot_ok_ext.
  - by rw Hlo Hs dom_insert_lookup_L.
Qed.
End contexts.

(** A field of the loop that the invariant does not read, and nothing but
    the phase. *)
Ltac lp_field := intros ? ? []; rw /lp_step; split_and!; (done || congruence || by auto using sub_app).
