(* ===== verification/ConnSafe.v ===== *)
(** * ConnSafe: connection handlers keep the invariant of the server

    Every handler, task and member function of a connection, run in any world
    in order, completes or ends the process, and leaves the world in order:
    whatever the states of this and of the other connections are, and
    whatever the kernel answers.  Application code is required to do the
    same ([GoodUser]). *)

From S2P Require Import Prelude Buffer World Kernel Poller Channel Sample Reactor EventLoop.
From S2P Require Import Timer Socket TcpConnection ConnInv ConnSteps ConnSpec ConnLife TimerSpec LoopLife.
From S2P Require Import Inet Acceptor ThreadPool TcpServer ServerSpec System SysInv.

(** Application code that keeps the world in order. *)
Class GoodUser (host : endian) {text : InetText} {cw : Clockwork} (l s a : nat) (user : UserCode) : Prop :=
  good_user : ∀ K ph X u w, sys_ok host l s a K ph X w → ucall_ok l w u →
    wp (user_run u) (λ _, keep host l s a K ph X w) sys_end w.

Section handlers.
Context (host : endian) {text : InetText} {cw : Clockwork} {os : OS} {heap : Heap} {user : UserCode}.
Context `{!EpollDelOk os, !EpollCtlRet os, !SendOk os, !ReadvOk os}.
Context (l s a : nat) (K : ctx) `{!GoodUser host l s a user}.
Implicit Types (w : World) (cn : TcpConnection) (ch : Channel) (lp : EventLoop) (sv : TcpServer) (X : gset nat).

Abbreviation sys_ok := (sys_ok host l s a K).
Abbreviation keep := (keep host l s a K).

(** [m] is safe to run in [w]. *)
Definition safe {A} ph X (m : M World A) w : Prop := wp m (λ _, keep ph X w) sys_end w.

(** One safe step of a longer computation that started in [w0]. *)
Lemma safe_step {A} ph X ph' X' w0 (m : M World A) (Q : A → World → Prop) w :
  keep ph X w0 w → wp m (λ _, keep ph' X' w) sys_end w → (∀ x w', keep ph' X' w0 w' → Q x w') →
  wp m Q sys_end w.
Proof. intros Hk Hm HQ. eapply wp_conseq; [exact Hm|]. intros x w' Hk'. apply HQ. by eapply keep_trans. Qed.

Lemma keep_lookup ph X w0 w c cn :
  keep ph X w0 w → w_conns w0 !! c = Some cn → ∃ cn', w_conns w !! c = Some cn' ∧ same_conn cn cn' ∧
    (tc_state_ cn = Disconnected → tc_state_ cn' = Disconnected).
Proof. intros [_ He] Hc. by apply (ex_conns _ _ He). Qed.

Lemma keep_some ph X w0 w c : keep ph X w0 w → is_Some (w_conns w0 !! c) → is_Some (w_conns w !! c).
Proof. intros [_ He]. by apply is_some_ext. Qed.

Lemma keep_seen ph X w0 w c : keep ph X w0 w → seen_conn w0 c → seen_conn w c.
Proof. intros [_ He]. by apply seen_ext. Qed.

(** The loop and the channel of a connection. *)
Lemma safe_loop ph X w c cn : sys_ok ph X w → w_conns w !! c = Some cn → tc_loop_ cn = l.
Proof. intros Hok Hc. by destruct (sys_lookup host l s a K ph X c cn w Hok Hc) as (sv & _ & _ & [? _ _ _ _ _]). Qed.

Lemma safe_get_chan ph X c cn (Q : Channel → World → Prop) E w :
  sys_ok ph X w → w_conns w !! c = Some cn → (∀ ch, w_chans w !! tc_channel_ cn = Some ch → Q ch w) →
  wp (get_chan (tc_channel_ cn)) Q E w.
Proof.
  intros Hok Hc HQ. destruct (sys_lookup host l s a K ph X c cn w Hok Hc) as (sv & _ & _ & [_ (ch & Hk & _) _ _ _ _]).
  eapply wp_get_chan; [done|]. by apply HQ.
Qed.

Lemma safe_assert ph X c cn (Q : () → World → Prop) E w :
  sys_ok ph X w → w_conns w !! c = Some cn → Q () w → wp (AssertInLoopThread (tc_loop_ cn)) Q E w.
Proof. intros Hok Hc. rw (safe_loop ph X w c cn Hok Hc). by eapply sys_assert_thread. Qed.

Lemma safe_call_user ph X u w : sys_ok ph X w → ucall_ok l w u → safe ph X (call_user u) w.
Proof.
  intros Hok Hu. rw /safe /call_user. do 2 wp_step. set (w1 := set_w_hist _ w).
  assert (keep ph X w w1) as Hk by by eapply (sys_event _ _ _ _ _ _ _ (User u)).
  eapply safe_step; [exact Hk| |by intros]. apply good_user; [apply Hk|]. eapply ucall_ok_ext; [apply Hk|done].
Qed.

(** A call of the kernel that closes and registers nothing. *)
Lemma safe_syscall ph X k (Q : reply → World → Prop) w0 w :
  keep ph X w0 w → quiet (Sys k (ok 0)) = true →
  (keep ph X w0 (after_call k w) → w_conns (after_call k w) = w_conns w → Q (os_reply (w_hist w) k) (after_call k w)) →
  wp (syscall k) Q sys_end w.
Proof.
  intros Hk Hh HQ. apply wp_syscall. apply HQ; [|done]. eapply keep_trans; [exact Hk|]. apply sys_call; [apply Hk|done].
Qed.

Lemma safe_logged ph X k w : sys_ok ph X w → quiet (Sys k (ok 0)) = true → safe ph X (logged k) w.
Proof. intros Hok Hk. apply wp_logged. by apply sys_call. Qed.

Lemma safe_socket_error ph X fd w : sys_ok ph X w → safe ph X (get_socket_error fd) w.
Proof.
  intros Hok. rw /safe /get_socket_error. wp_step. eapply safe_syscall; [by apply keep_refl|done|].
  intros Hk _. destruct (_ <? 0); [rw /errno|]; by wp_step.
Qed.

Lemma safe_handle_error ph X c w : sys_ok ph X w → is_Some (w_conns w !! c) → safe ph X (handle_error c) w.
Proof.
  intros Hok [cn Hc]. rw /safe /handle_error. wp_step. eapply wp_get_conn; [done|]. wp_step.
  eapply safe_get_chan; [done|done|]. intros ch _. wp_step. eapply wp_conseq; [by apply safe_socket_error|].
  intros e w' Hk. by wp_step.
Qed.

(** ** Closing *)

Lemma safe_call_connection ph X c w : sys_ok ph X w → is_Some (w_conns w !! c) → safe ph X (call_connection c) w.
Proof.
  intros Hok [cn Hc]. rw /safe /call_connection. wp_step. eapply wp_get_conn; [done|].
  destruct (sys_lookup host l s a K ph X c cn w Hok Hc) as (sv & _ & _ & [_ _ _ _ ([cb Hcb] & _) _]). rw Hcb.
  destruct cb; [by wp_step|]. apply safe_call_user; [done|]. by exists cn.
Qed.

(** The server forgets a connection that is down and queues its end. *)
Lemma safe_call_close ph X c cn w :
  sys_ok ph (X ∪ {[c]}) w → w_conns w !! c = Some cn → tc_state_ cn = Disconnected → c ∉ X →
  wp (call_close close_code c) (λ _, keep ph X w) sys_end w.
Proof.
  intros Hok Hc Hst HcX. rw /call_close. wp_step. eapply wp_get_conn; [done|].
  destruct (sys_lookup host l s a K ph _ c cn w Hok Hc) as (sv & Hs & Hsl & [Hcl _ _ _ (_ & _ & Hcb) Hh]). rw Hcb /=.
  destruct (sys_thread host l s a K ph _ w Hok) as (lp & Hl & Ht). rw -Hsl in Hl.
  eapply wp_same; [by apply (remove_eq s sv lp c w)|]. rw Ht Nat.eqb_refl.
  eapply wp_same; [by apply (remove_in_loop_eq s sv c cn w)|].
  rw bool_decide_eq_true_2; [rw (proj1 Hh); [set_solver|done]|]. set (w1 := removed _ _ _ w).
  pose proof (sys_leave host l s a K ph X c cn sv w Hok Hc Hst Hs HcX) as Hk. rw Hcl.
  eapply wp_conseq; [eapply (sys_queue host l s a _ ph X); [apply Hk|by exists cn]|].
  intros [] w' ([Hok' He'] & _ & Hin). split; [|by etrans; [apply Hk|]].
  eapply sys_context; [exact Hok'|done|simpl..|apply Hok'].
  - intros c' cn' ch' _ _ _ _ [[= ->]|Hb]%elem_of_cons; left; apply elem_of_app; [by left|by right].
  - intros c' cn' _ _ _ [[[= ->]|Hb]%elem_of_cons|Hh']; [left|left|by right]; rw fmap_app; apply elem_of_app; [left|by right].
    apply list_elem_of_fmap. by exists (FConnectionDestroyed c).
Qed.

Lemma safe_handle_close ph X c w :
  sys_ok ph X w → seen_conn w c → safe ph X (handle_close close_code c) w.
Proof.
  intros Hok Hseen. destruct (seen_some _ _ Hseen) as [cn Hc]. rw /safe /handle_close. wp_step. eapply wp_get_conn; [done|]. wp_step.
  eapply safe_assert; [done|done|]. destruct (bool_decide _ && bool_decide _) eqn:Hb.
  { wp_step. by apply keep_refl. }
  assert (tc_state_ cn ≠ Disconnected) as Hst by (intros H; by rw H in Hb).
  assert (c ∉ X) as HcX.
  { intros Hin. destruct (sy_closing _ _ _ _ _ _ _ _ Hok c Hin) as (? & ? & ?). by simplify_eq. }
  apply wp_group. wp_step. eapply wp_conseq; [by apply (sys_close host l s a K ph X c cn)|].
  intros [] w1 [Hk1 (cn1 & Hc1 & Hd1)].
  destruct (keep_lookup _ _ _ _ _ _ Hk1 Hc) as (cn' & Hc' & Hsame & _). simplify_eq.
  injection Hsame as _ _ _ Hch _ _. rw -Hch.
  apply (wp_conseq _ (λ _, keep ph X w1)); [|intros [] w' Hk'; by eapply keep_trans].
  pose proof (keep_refl host l s a K _ _ w1 (proj1 Hk1)) as Hk.
  wp_step. eapply safe_get_chan; [apply Hk|done|]. intros ch _.
  wp_step. eapply safe_step; [exact Hk|by apply safe_socket_error, Hk|]. intros _ w2 Hk2.
  wp_step. eapply safe_step; [exact Hk2|apply safe_call_connection; [apply Hk2|by eapply keep_some]|]. intros _ w3 Hk3.
  destruct (keep_lookup _ _ _ _ _ _ Hk3 Hc1) as (cn3 & Hc3 & _ & Hd3).
  eapply safe_step; [exact Hk3| |by intros]. apply (safe_call_close _ _ _ cn3); [apply Hk3|done|auto|done].
Qed.

(** ** Sending *)

Lemma safe_write_complete ph X c w :
  sys_ok ph X w → seen_conn w c →
  wp (queue_write_complete c) (λ _ w', keep ph X w w' ∧ w_conns w' = w_conns w) sys_end w.
Proof.
  intros Hok Hseen. destruct (seen_some _ _ Hseen) as [cn Hc]. rw /queue_write_complete. wp_step.
  eapply wp_get_conn; [done|].
  destruct (tc_on_write_complete_ cn) as [u|]; [|wp_step; split; [by apply keep_refl|done]].
  rw (safe_loop ph X w c cn) //. eapply wp_conseq; [by apply (sys_queue host l s a K ph X)|]. by intros [] w' (? & ? & _).
Qed.

(** The counts of a direct attempt. *)
Definition counted (msg : list byte) (r : Z * Z * bool) : Prop :=
  0 ≤ r.1.1 ∧ 0 ≤ r.1.2 ∧ r.1.1 + r.1.2 = zlength msg.

Lemma safe_send_directly ph X c msg w :
  sys_ok ph X w → seen_conn w c → zlength msg ≤ vector_max_size →
  wp (send_directly c msg) (λ r w', keep ph X w w' ∧ w_conns w' = w_conns w ∧ counted msg r) sys_end w.
Proof.
  intros Hok Hseen Hlen. destruct (seen_some _ _ Hseen) as [cn Hc]. pose proof (zlength_nonneg msg). rw /send_directly. wp_step.
  eapply wp_get_conn; [done|]. wp_step. eapply safe_get_chan; [done|done|]. intros ch _.
  assert (∀ b w', keep ph X w w' → w_conns w' = w_conns w →
    keep ph X w w' ∧ w_conns w' = w_conns w ∧ counted msg (0, zlength msg, b)) as Hnone.
  { intros b w' ? ?. split_and!; [done|done|rw /counted /=; lia]. }
  destruct (negb _ && _); [|wp_step; by apply Hnone; [apply keep_refl|]].
  wp_step. eapply safe_syscall; [by apply keep_refl|done|]. set (k := SysSend _ _). intros Hk Hcs.
  set (r := os_reply (w_hist w) k). assert (r_ret r ≤ zlength msg) as Hr by apply send_ok.
  destruct (Z.leb_spec 0 (r_ret r)) as [Hge|Hlt]; last first.
  { wp_step. apply wp_gets. destruct (negb _ && negb _); wp_step; by apply Hnone. }
  wp_step. rw u64_small; [slia|]. destruct (Z.eqb_spec (zlength msg - r_ret r) 0); simpl.
  - eapply wp_conseq; [apply (safe_write_complete ph X c); [apply Hk|by eapply keep_seen]|].
    intros [] w' [Hk' Hc']. wp_step. split_and!; [by eapply keep_trans|by rw Hc'|rw /counted /=; lia].
  - do 2 wp_step. split_and!; [done|done|rw /counted /=; lia].
Qed.

(** A buffer operation whose only failure is to outgrow the vector. *)
Lemma safe_on_output {A} ph X (m : M Buffer A) c cn w P n (Q : A → World → Prop) :
  sys_ok ph X w → w_conns w !! c = Some cn → wp m P (too_long n) (tc_output_buffer_ cn) →
  (∀ x b, P x b → inv b) →
  (∀ x b, P x b → let w' := set_w_conns (<[c := set_tc_output_buffer_ b cn]> (w_conns w)) w in
     keep ph X w w' → Q x w') →
  wp (on_output c m) Q sys_end w.
Proof.
  intros Hok Hc Hm Hinv HQ. rw /on_output /on_buffer. wp_step. eapply wp_get_conn; [done|].
  apply wp_zoom. eapply wp_mono; [exact Hm| |]; [|by intros f b [-> _]; right; left].
  intros x b HP. simpl. apply HQ; [done|].
  destruct (sys_lookup host l s a K ph X c cn w Hok Hc) as (sv & _ & _ & [_ _ Hi Ho _ _]).
  apply (sys_update host l s a K ph X c cn); try done. simpl. by eapply Hinv.
Qed.

Lemma safe_on_input {A} ph X (m : M Buffer A) c cn w P n (Q : A → World → Prop) :
  sys_ok ph X w → w_conns w !! c = Some cn → wp m P (too_long n) (tc_input_buffer_ cn) →
  (∀ x b, P x b → inv b) →
  (∀ x b, P x b → let w' := set_w_conns (<[c := set_tc_input_buffer_ b cn]> (w_conns w)) w in
     keep ph X w w' → Q x w') →
  wp (on_input c m) Q sys_end w.
Proof.
  intros Hok Hc Hm Hinv HQ. rw /on_input /on_buffer. wp_step. eapply wp_get_conn; [done|].
  apply wp_zoom. eapply wp_mono; [exact Hm| |]; [|by intros f b [-> _]; right; left].
  intros x b HP. simpl. apply HQ; [done|].
  destruct (sys_lookup host l s a K ph X c cn w Hok Hc) as (sv & _ & _ & [_ _ Hi Ho _ _]).
  apply (sys_update host l s a K ph X c cn); try done. simpl. by eapply Hinv.
Qed.

Lemma never_too_long {A} (m : M Buffer A) P b : wp m P never b → wp m P (too_long 0) b.
Proof. intros H. by eapply wp_mono; [exact H| |]. Qed.

(** The buffers of a connection are in order. *)
Lemma safe_bufs ph X w c cn :
  sys_ok ph X w → w_conns w !! c = Some cn → inv (tc_input_buffer_ cn) ∧ inv (tc_output_buffer_ cn).
Proof. intros Hok Hc. by destruct (sys_lookup host l s a K ph X c cn w Hok Hc) as (sv & _ & _ & [_ _ ? ? _ _]). Qed.

Lemma safe_buffer_rest ph X c cn msg n rem w :
  sys_ok ph X w → w_conns w !! c = Some cn → tc_state_ cn ≠ Disconnected →
  seen_conn w c → 0 ≤ n → 0 ≤ rem → n + rem = zlength msg → zlength msg ≤ vector_max_size →
  safe ph X (buffer_rest c msg n rem) w.
Proof.
  intros Hok Hc Hst Hseen Hn Hrem Hsum Hmax. rw /safe /buffer_rest. wp_step. eapply wp_get_conn; [done|]. wp_step.
  apply (wp_conseq _ (λ _ w', keep ph X w w' ∧ w_conns w' = w_conns w)).
  { destruct (_ && _); [|wp_step; split; [by apply keep_refl|done]].
    destruct (tc_on_high_water_mark_ cn); [|wp_step; split; [by apply keep_refl|done]].
    rw (safe_loop ph X w c cn) //. eapply wp_conseq; [by apply (sys_queue host l s a K ph X)|]. by intros [] w' (? & ? & _). }
  intros [] w1 [Hk1 Hcs1]. wp_step. apply sub_range_ok; [done|done|done|]. set (d := drop _ msg).
  assert (zlength d ≤ vector_max_size) as Hd by (rw /d /zlength length_drop; unfold zlength in *; lia).
  assert (w_conns w1 !! c = Some cn) as Hc1 by by rw Hcs1.
  wp_step. eapply (safe_on_output ph X _ c cn); [apply Hk1|done| | |].
  { apply Append_any; [|done]. by eapply safe_bufs. }
  { by intros [] b (? & _). }
  intros [] b (Hb & _) w2 Hk2. wp_step. set (cn2 := set_tc_output_buffer_ b cn) in *.
  assert (w_conns w2 !! c = Some cn2) as Hc2 by apply lookup_insert_eq.
  change (tc_channel_ cn) with (tc_channel_ cn2). pose proof (keep_trans _ _ _ _ _ _ _ _ _ _ _ _ Hk1 Hk2) as Hk.
  eapply (safe_get_chan ph X c cn2); [apply Hk|done|]. intros ch _.
  destruct (IsWriteEvent ch); simpl; [by wp_step|].
  eapply safe_step; [exact Hk| |by intros]. by apply (sys_change_events host l s a K ph X _ c cn2); [apply Hk|..].
Qed.

Lemma safe_send_in_loop ph X c msg w :
  sys_ok ph X w → seen_conn w c → zlength msg ≤ vector_max_size →
  safe ph X (send_in_loop close_code c msg) w.
Proof.
  intros Hok Hseen Hlen. destruct (seen_some _ _ Hseen) as [cn Hc]. rw /safe /send_in_loop. wp_step. eapply wp_get_conn; [done|]. wp_step.
  eapply safe_assert; [done|done|]. case_bool_decide as Hst; [wp_step; by apply keep_refl|].
  wp_step.
  eapply wp_conseq; [by apply (safe_send_directly ph X)|].
  intros [[n rem] fault] w1 (Hk1 & Hcs1 & Hn & Hrem & Hsum); simpl in *.
  assert (w_conns w1 !! c = Some cn) as Hc1 by by rw Hcs1.
  destruct fault.
  - wp_step. apply wp_gets. wp_step. eapply safe_step; [exact Hk1| |].
    { apply safe_handle_error; [apply Hk1|by exists cn]. }
    intros _ w2 Hk2. eapply safe_step; [exact Hk2| |by intros].
    apply safe_handle_close; [apply Hk2|by eapply keep_seen].
  - destruct (Z.leb_spec rem 0); [by wp_step|]. eapply safe_step; [exact Hk1| |by intros].
    apply (safe_buffer_rest ph X c cn); [apply Hk1|done|by rw Hst|by eapply keep_seen|done..].
Qed.

Lemma safe_Send ph X c msg w :
  sys_ok ph X w → seen_conn w c → zlength msg ≤ vector_max_size → safe ph X (Send close_code c msg) w.
Proof.
  intros Hok Hseen Hlen. destruct (seen_some _ _ Hseen) as [cn Hc]. rw /safe /Send. wp_step. eapply wp_get_conn; [done|].
  case_bool_decide; [wp_step; by apply keep_refl|]. wp_step. rw (safe_loop ph X w c cn) //.
  eapply sys_in_thread; [done|]. by apply safe_send_in_loop.
Qed.

Lemma content_max b : inv b → zlength (content b) ≤ vector_max_size.
Proof. intros Hb. rw (zlength_content b Hb) (ReadableBytes_eq b Hb). binv. lia. Qed.

Lemma safe_Send_buffer ph X c src w :
  sys_ok ph X w → seen_conn w c → is_Some (w_conns w !! src) →
  safe ph X (Send_buffer close_code c src) w.
Proof.
  intros Hok Hseen [sn Hsrc]. destruct (seen_some _ _ Hseen) as [cn Hc]. rw /safe /Send_buffer. wp_step. eapply wp_get_conn; [done|].
  case_bool_decide; [wp_step; by apply keep_refl|]. wp_step. rw (safe_loop ph X w c cn) //.
  eapply sys_in_thread; [done|]. destruct (safe_bufs ph X w src sn Hok Hsrc) as [Hi _].
  wp_step. eapply (safe_on_input ph X _ src sn); [done|done|by apply never_too_long, peek_all_ok|by intros ? b [_ ->]|].
  intros msg b [-> _] w1 Hk1. wp_step. eapply safe_step; [exact Hk1| |].
  { apply (safe_send_in_loop ph X); [apply Hk1|by eapply keep_seen|by apply content_max]. }
  intros _ w2 Hk2. destruct (keep_lookup _ _ _ _ _ _ Hk2 Hsrc) as (sn2 & Hsrc2 & _).
  destruct (safe_bufs ph X w2 src sn2) as [Hi2 _]; [apply Hk2|done|].
  eapply (safe_on_input ph X _ src sn2); [apply Hk2|done|by apply never_too_long, RetrieveAll_ok|by intros ? ? (? & _)|].
  intros [] b2 _ w3 Hk3. by eapply keep_trans.
Qed.

(** ** Shutting down *)

Lemma safe_shutdown_drained ph X c w : sys_ok ph X w → is_Some (w_conns w !! c) → safe ph X (shutdown_drained c) w.
Proof.
  intros Hok [cn Hc]. rw /safe /shutdown_drained. wp_step. eapply wp_get_conn; [done|]. wp_step.
  eapply safe_get_chan; [done|done|]. intros ch _. destruct (IsWriteEvent ch); simpl; [wp_step; by apply keep_refl|].
  by apply safe_logged.
Qed.

Lemma safe_shutdown_in_loop ph X c w : sys_ok ph X w → is_Some (w_conns w !! c) → safe ph X (shutdown_in_loop c) w.
Proof.
  intros Hok [cn Hc]. rw /safe /shutdown_in_loop. wp_step. eapply wp_get_conn; [done|]. wp_step.
  eapply safe_assert; [done|done|]. wp_step.
  eapply safe_get_chan; [done|done|]. intros ch _. destruct (IsWriteEvent ch); simpl; [wp_step; by apply keep_refl|].
  by apply safe_logged.
Qed.

(** [Connected] to [Disconnecting], if it is. *)
Lemma safe_disconnecting ph X c w :
  sys_ok ph X w → is_Some (w_conns w !! c) → safe ph X (compare_exchange c Connected Disconnecting) w.
Proof.
  intros Hok [cn Hc]. rw /safe /compare_exchange. wp_step. eapply wp_get_conn; [done|].
  case_bool_decide as Hst; wp_step; [|by apply keep_refl]. rw /set_state. eapply wp_alter_conn; [done|]. wp_step.
  destruct (safe_bufs ph X w c cn Hok Hc). apply (sys_update host l s a K ph X c cn); try done. by rw Hst.
Qed.

Lemma safe_Shutdown ph X c w : sys_ok ph X w → is_Some (w_conns w !! c) → safe ph X (Shutdown c) w.
Proof.
  intros Hok Hc. rw /safe /Shutdown. wp_step. eapply wp_conseq; [by apply (safe_disconnecting ph X c)|].
  intros b w1 Hk1. pose proof (keep_some _ _ _ _ _ Hk1 Hc) as [cn1 Hc1]. destruct b; wp_step; [|done].
  eapply wp_get_conn; [done|]. rw /RunInLoop (safe_loop ph X w1 c cn1 (proj1 Hk1) Hc1). wp_step.
  eapply sys_in_thread; [apply Hk1|]. eapply safe_step; [exact Hk1| |by intros].
  apply safe_shutdown_in_loop; [apply Hk1|by exists cn1].
Qed.

Lemma safe_force_close_in_loop ph X c w :
  sys_ok ph X w → seen_conn w c → safe ph X (force_close_in_loop close_code c) w.
Proof.
  intros Hok Hseen. destruct (seen_some _ _ Hseen) as [cn Hc]. rw /safe /force_close_in_loop. wp_step. eapply wp_get_conn; [done|]. wp_step.
  eapply safe_assert; [done|done|]. destruct (_ || _); simpl; [|wp_step; by apply keep_refl].
  by apply safe_handle_close.
Qed.

Lemma safe_ForceClose ph X c w : sys_ok ph X w → seen_conn w c → safe ph X (ForceClose c) w.
Proof.
  intros Hok Hseen. rw /safe /ForceClose. wp_step.
  eapply wp_conseq; [by apply (safe_disconnecting ph X c); [|apply seen_some]|].
  intros b w1 Hk1. pose proof (keep_seen _ _ _ _ _ Hk1 Hseen) as Hs1. destruct (seen_some _ _ Hs1) as [cn1 Hc1].
  wp_step. eapply wp_get_conn; [done|].
  rw (safe_loop ph X w1 c cn1 (proj1 Hk1) Hc1). destruct (_ || _); simpl; [|by wp_step].
  eapply safe_step; [exact Hk1| |by intros].
  eapply wp_conseq; [by apply (sys_queue host l s a K ph X); [apply Hk1|]|]. by intros [] w2 [? _].
Qed.

(** The connection may be gone by the time the timer fires. *)
Lemma safe_force_close_weak ph X c w : sys_ok ph X w → weak_fine w c → safe ph X (force_close_weak c) w.
Proof.
  intros Hok Hc. rw /safe /force_close_weak. do 2 wp_step.
  destruct (w_conns w !! c) as [cn|] eqn:Hcn; [|wp_step; by apply keep_refl].
  destruct Hc as [?|Hs]; [congruence|]. by apply safe_ForceClose.
Qed.

(** ** Reading on and off *)

(** Both are for connections that are not down. *)
Lemma safe_stop_read_in_loop ph X c cn w :
  sys_ok ph X w → w_conns w !! c = Some cn → tc_state_ cn ≠ Disconnected → safe ph X (stop_read_in_loop c) w.
Proof.
  intros Hok Hc Hst. rw /safe /stop_read_in_loop. wp_step. eapply wp_get_conn; [done|]. wp_step.
  eapply safe_assert; [done|done|]. wp_step. eapply safe_get_chan; [done|done|]. intros ch _.
  destruct (_ || _); simpl; [|wp_step; by apply keep_refl]. wp_step.
  eapply wp_conseq; [by apply (sys_change_events host l s a K ph X _ c cn)|]. intros [] w1 Hk1.
  destruct (keep_lookup _ _ _ _ _ _ Hk1 Hc) as (cn1 & Hc1 & _). eapply wp_alter_conn; [done|].
  destruct (safe_bufs ph X w1 c cn1 (proj1 Hk1) Hc1). eapply keep_trans; [exact Hk1|].
  by apply (sys_update host l s a K ph X c cn1); [apply Hk1|..].
Qed.

Lemma safe_start_read_in_loop ph X c cn w :
  sys_ok ph X w → w_conns w !! c = Some cn → tc_state_ cn ≠ Disconnected → safe ph X (start_read_in_loop c) w.
Proof.
  intros Hok Hc Hst. rw /safe /start_read_in_loop. wp_step. eapply wp_get_conn; [done|]. wp_step.
  eapply safe_assert; [done|done|]. wp_step. eapply safe_get_chan; [done|done|]. intros ch _.
  destruct (_ || _); simpl; [|wp_step; by apply keep_refl]. wp_step.
  eapply wp_conseq; [by apply (sys_change_events host l s a K ph X _ c cn)|]. intros [] w1 Hk1.
  destruct (keep_lookup _ _ _ _ _ _ Hk1 Hc) as (cn1 & Hc1 & _). eapply wp_alter_conn; [done|].
  destruct (safe_bufs ph X w1 c cn1 (proj1 Hk1) Hc1). eapply keep_trans; [exact Hk1|].
  by apply (sys_update host l s a K ph X c cn1); [apply Hk1|..].
Qed.

Lemma safe_SetTcpNoDelay ph X c on w : sys_ok ph X w → is_Some (w_conns w !! c) → safe ph X (SetTcpNoDelay c on) w.
Proof.
  intros Hok [cn Hc]. rw /safe /SetTcpNoDelay. wp_step. eapply wp_get_conn; [done|]. by apply safe_logged.
Qed.

(** ** Event handlers *)

Lemma safe_call_message ph X c t w : sys_ok ph X w → seen_conn w c → safe ph X (call_message c t) w.
Proof.
  intros Hok Hseen. destruct (seen_some _ _ Hseen) as [cn Hc]. rw /safe /call_message. wp_step. eapply wp_get_conn; [done|].
  destruct (sys_lookup host l s a K ph X c cn w Hok Hc) as (sv & _ & _ & [_ _ Hi _ (_ & [cb Hcb] & _) _]). rw Hcb.
  destruct cb; [|by apply safe_call_user]. rw /default_message_callback.
  by eapply (safe_on_input ph X _ c cn); [done|done|by apply never_too_long, RetrieveAll_ok|by intros ? ? (? & _)|].
Qed.

(** After a failed call: nothing, or the connection is closed. *)
Lemma safe_failed ph X c w0 w :
  keep ph X w0 w → seen_conn w0 c →
  wp (e ← errno;
      if (e =? EAGAIN) || (e =? EWOULDBLOCK) then mret ()
      else if e =? EINTR then mret ()
      else handle_error_with_code c e ;; handle_close close_code c) (λ _, keep ph X w0) sys_end w.
Proof.
  intros Hk Hc. wp_step. apply wp_gets. destruct (_ || _); [by wp_step|]. destruct (_ =? EINTR); [by wp_step|].
  wp_step. eapply safe_step; [exact Hk|apply safe_handle_error; [apply Hk|eapply seen_some, keep_seen; done]|].
  intros _ w2 Hk2. eapply safe_step; [exact Hk2| |by intros].
  apply safe_handle_close; [apply Hk2|by eapply keep_seen].
Qed.

Lemma safe_handle_read ph X c t w :
  sys_ok ph X w → seen_conn w c → safe ph X (handle_read close_code c t) w.
Proof.
  intros Hok Hsome. destruct (seen_some _ _ Hsome) as [cn Hc].
  rw /safe /handle_read. wp_step. eapply wp_get_conn; [done|]. wp_step.
  eapply safe_assert; [done|done|]. wp_step. eapply safe_get_chan; [done|done|]. intros ch _.
  wp_step. eapply safe_syscall; [by apply keep_refl|done|]. intros Hk1 Hcs1.
  set (k := SysReadv _ _) in *. set (r := os_reply (w_hist w) k). set (w1 := after_call k w) in *.
  wp_step. eapply (safe_on_input ph X _ c cn _ (λ _ b, inv b)); [apply Hk1|done| |done|].
  { rw /wp (ReadFd_ext _ (λ iov, let r := os_reply (w_hist w) (SysReadv (ch_fd_ ch) iov) in (r_ret r, r_data r))) //.
    eapply wp_conseq; [apply ReadFd_any; [by eapply safe_bufs|apply sys_readv_ok]|]. by intros n b (_ & ? & _). }
  intros n b _ w2 Hk2. pose proof (keep_trans _ _ _ _ _ _ _ _ _ _ _ _ Hk1 Hk2) as Hk.
  pose proof (keep_seen _ _ _ _ _ Hk Hsome) as Hsome2.
  destruct (0 <? n).
  - eapply safe_step; [exact Hk| |by intros]. apply safe_call_message; [apply Hk|done].
  - destruct (n =? 0); [|by apply safe_failed].
    eapply safe_step; [exact Hk| |by intros]. apply safe_handle_close; [apply Hk|done].
Qed.

Lemma safe_handle_write ph X c w :
  sys_ok ph X w → seen_conn w c → safe ph X (handle_write close_code c) w.
Proof.
  intros Hok Hsome. destruct (seen_some _ _ Hsome) as [cn Hc].
  rw /safe /handle_write. wp_step. eapply wp_get_conn; [done|]. wp_step.
  eapply safe_assert; [done|done|]. wp_step. eapply safe_get_chan; [done|done|]. intros ch Hch.
  destruct (IsWriteEvent ch) eqn:Hwe; simpl; [|wp_step; by apply keep_refl].
  assert (tc_state_ cn ≠ Disconnected) as Hst.
  { intros Hd. destruct (sys_lookup host l s a K ph X c cn w Hok Hc) as (sv & _ & _ & [_ (ch0 & Hk0 & _ & _ & Hdead) _ _ _ _]).
    assert (ch0 = ch) as -> by congruence. destruct (Hdead Hd) as [Hn _]. rw /IsNoneEvent in Hn. apply Z.eqb_eq in Hn.
    by rw /IsWriteEvent Hn in Hwe. }
  destruct (safe_bufs ph X w c cn Hok Hc) as [_ Ho].
  wp_step. eapply (safe_on_output ph X _ c cn); [done|done|by apply never_too_long, peek_all_ok|by intros ? b [_ ->]|].
  intros data b [-> ->] w1 Hk1. set (data := content (tc_output_buffer_ cn)).
  wp_step. eapply safe_syscall; [exact Hk1|done|]. intros Hk2 Hcs2. set (k := SysSend _ _) in *.
  set (r := os_reply (w_hist w1) k). assert (r_ret r ≤ zlength data) as Hr by apply send_ok.
  destruct (Z.leb_spec (r_ret r) 0); [by apply safe_failed|].
  set (cn2 := set_tc_output_buffer_ (tc_output_buffer_ cn) cn). set (w2 := after_call k w1) in *.
  assert (w_conns w2 !! c = Some cn2) as Hc2 by apply lookup_insert_eq.
  wp_step. eapply (safe_on_output ph X _ c cn2); [apply Hk2|done| | |].
  { apply never_too_long, Retrieve_ok; [done|]. change (tc_output_buffer_ cn2) with (tc_output_buffer_ cn). fold data. lia. }
  { by intros [] ? (? & _). }
  intros [] b3 _ w3 Hk3'. set (cn3 := set_tc_output_buffer_ b3 cn2) in *.
  pose proof (keep_trans _ _ _ _ _ _ _ _ _ _ _ _ Hk2 Hk3') as Hk3. clear Hk3'.
  assert (w_conns w3 !! c = Some cn3) as Hc3 by apply lookup_insert_eq.
  wp_step. eapply wp_get_conn; [done|]. destruct (0 <? _); [by wp_step|].
  wp_step. eapply safe_step; [exact Hk3| |].
  { apply (sys_change_events host l s a K ph X _ c cn3); [apply Hk3|done|done]. }
  intros _ w4 Hk4. wp_step. eapply safe_step; [exact Hk4| |].
  { eapply wp_conseq; [apply (safe_write_complete ph X c); [apply Hk4|by eapply keep_seen]|]. by intros [] w' [? _]. }
  intros _ w5 Hk5. destruct (seen_some _ _ (keep_seen _ _ _ _ _ Hk5 Hsome)) as [cn5 Hc5]. wp_step. eapply wp_get_conn; [done|].
  case_bool_decide; [|by wp_step]. rw /RunInLoop (safe_loop ph X w5 c cn5 (proj1 Hk5) Hc5). wp_step.
  eapply sys_in_thread; [apply Hk5|]. eapply safe_step; [exact Hk5| |by intros].
  apply safe_shutdown_drained; [apply Hk5|by exists cn5].
Qed.

(** ** Beginning and end *)

Lemma safe_established ph X c cn w :
  sys_ok ph X w → w_conns w !! c = Some cn → tc_state_ cn = Connecting → safe ph X (ConnectionEstablished c) w.
Proof.
  intros Hok Hc Hst. rw /safe /ConnectionEstablished. wp_step. eapply wp_get_conn; [done|]. wp_step.
  eapply safe_assert; [done|done|]. wp_step. apply wp_assert_true; [by apply bool_decide_eq_true_2|].
  wp_step. rw /set_state. eapply wp_alter_conn; [done|]. set (cn1 := set_tc_state_ Connected cn). set (w1 := set_w_conns _ w).
  destruct (safe_bufs ph X w c cn Hok Hc).
  assert (keep ph X w w1) as Hk1 by (apply (sys_update host l s a K ph X c cn); try done; by rw Hst).
  assert (w_conns w1 !! c = Some cn1) as Hc1 by apply lookup_insert_eq.
  rw /Tie /alter_chan. do 4 wp_step. set (w2 := set_w_chans _ w1). set (w3 := set_w_chans _ w2).
  assert (keep ph X w1 w2) as Hk2 by by apply sys_alter_chan; [apply Hk1|].
  assert (keep ph X w2 w3) as Hk3 by by apply sys_alter_chan; [apply Hk2|].
  pose proof (keep_trans _ _ _ _ _ _ _ _ _ _ _ _ Hk1 (keep_trans _ _ _ _ _ _ _ _ _ _ _ _ Hk2 Hk3)) as Hk.
  wp_step. eapply safe_step; [exact Hk| |].
  { by apply (sys_change_events host l s a K ph X _ c cn1); [apply Hk|..]. }
  intros _ w4 Hk4. eapply safe_step; [exact Hk4| |by intros].
  apply safe_call_connection; [apply Hk4|eapply keep_some; [exact Hk4|by exists cn]].
Qed.

Lemma safe_destroyed X c cn w :
  sys_ok false X w → w_conns w !! c = Some cn → tc_state_ cn = Disconnected → cx_held K c →
  wp (ConnectionDestroyed c) (λ _ w', keep false X w w' ∧
    ∃ ch', w_chans w' !! tc_channel_ cn = Some ch' ∧ detached_chan ch') sys_end w.
Proof.
  intros Hok Hc Hst Hheld. rw /ConnectionDestroyed. wp_step. eapply wp_get_conn; [done|]. wp_step.
  eapply safe_assert; [done|done|]. wp_step. rw /compare_exchange. wp_step. eapply wp_get_conn; [done|].
  rw Hst /=. do 3 wp_step. by apply (sys_remove_channel host l s a K X c).
Qed.
End handlers.
