(* ===== verification/TimerSafe.v ===== *)
(** * TimerSafe: timers keep the invariant of the server

    Setting and cancelling timers, and the handler of the timer descriptor
    with all it does: taking the timers that are due, running the task of
    each, which calls the application or closes a connection if it is still
    there, putting the repeating ones back and arming the descriptor.  The
    application may set and cancel timers while it is called.  What is assumed
    of the clock is [ClockFit]; at a reading at which a timer is due the
    assertion of the handler fails, and that is the only failure it adds. *)

From S2P Require Import Prelude Buffer World Kernel Poller Channel Sample Reactor EventLoop.
From S2P Require Import Timer Socket TcpConnection ConnInv ConnSteps ConnSpec ConnLife TimerSpec TimerFire LoopLife.
From S2P Require Import Inet Acceptor ThreadPool TcpServer ServerSpec System SysInv ConnSafe.

Section timers.
Context (host : endian) {text : InetText} {cw : Clockwork} {os : OS} {heap : Heap} {user : UserCode}.
Context `{!EpollDelOk os, !EpollCtlRet os, !SendOk os, !ReadvOk os, !HeapFresh heap, !ClockFit cw os}.
Context (l s a : nat) `{!GoodUser host l s a user}.
Implicit Types (w : World) (lp : EventLoop) (tm : Timer) (X : gset nat) (K : ctx) (ex : list nat).

Abbreviation sys_ok := (sys_ok host l s a).
Abbreviation keep := (keep host l s a).
Abbreviation safe := (safe host l s a).

Lemma queue_ok_same tms tq tq' :
  queue_ok tms tq → (tq_timers_ tq', tq_expired tq') = (tq_timers_ tq, tq_expired tq) → queue_ok tms tq'.
Proof. intros [? ? ? ?] [= E1 E2]. by split; rw ?E1 ?E2. Qed.

Lemma refired_id K : refired (cx_fired K) K = K.
Proof. by destruct K. Qed.

(** The queue as the lemmas about timers see it. *)
Lemma sys_queue_at K ph X w : sys_ok K ph X w → ∃ lp, w_loops w !! l = Some lp ∧
  timers_ok (cx_fired K) (w_timers w) (el_timer_queue_ lp) ∧ tq_at l lp (cx_fired K) w.
Proof.
  intros Hok. destruct (sy_lp _ _ _ _ _ _ _ _ Hok) as (lp & Hl & [_ Htm _ Htk]).
  destruct (sys_thread host l s a K ph X w Hok) as (lp0 & Hl0 & Ht). assert (lp0 = lp) as -> by congruence.
  exists lp. split_and!; [done|done|]. split_and!; [done|done|apply Htm|]. destruct Htm as [Hq Hc He _ _].
  intros t [Ho|[Ho|[Ho|[l' Ho]]]]%timer_owned_spec; [|by apply Hc|by apply He|].
  - apply list_elem_of_fmap in Ho as ([e t'] & -> & Hin). destruct (qo_entry _ _ Hq e t' Hin) as (_ & tm & ? & _). by exists tm.
  - rw Forall_forall in Htk. by apply Htk in Ho.
Qed.

(** Changing the queue. *)
Lemma safe_alter_tq K ph X ex f w :
  sys_ok K ph X w →
  (∀ lp, w_loops w !! l = Some lp → timers_ok (cx_fired K) (w_timers w) (el_timer_queue_ lp) →
     timers_ok ex (w_timers w) (f (el_timer_queue_ lp))) →
  wp (alter_tq f l) (λ _, keep (refired ex K) ph X w) sys_end w.
Proof.
  intros Hok Hf. destruct (sys_queue_at K ph X w Hok) as (lp & Hl & Htm & _). eapply wp_alter_tq; [done|].
  eapply sys_timers; [done|done|]. apply timed_set; auto.
Qed.

(** The clock. *)
Lemma safe_now K ph X (Q : Z → World → Prop) w0 w :
  keep K ph X w0 w →
  (∀ t w', keep K ph X w0 w' → shows t → (w_timers w', w_loops w', w_conns w', clock (w_hist w')) = (w_timers w, w_loops w, w_conns w, t) → Q t w') →
  wp now Q sys_end w.
Proof.
  intros Hk HQ. apply wp_now. apply HQ; [|apply fit_shown|by rw /= clock_app].
  eapply keep_trans; [exact Hk|]. by eapply (sys_event _ _ _ _ _ _ _ (Sys ClockNow _)); [apply Hk|..].
Qed.

Lemma safe_set_timerfd K ph X fd e w :
  sys_ok K ph X w → in_int64 e = true → wp (set_timerfd fd e) (λ _ w', keep K ph X w w' ∧ w_timers w' = w_timers w) sys_end w.
Proof.
  intros Hok Hrange. rw /set_timerfd. wp_step. eapply safe_now; [by apply keep_refl|].
  intros t w1 Hk Ht Hw. injection Hw as Htm _ _ _. destruct (how_long_some t e (fit_epoch t Ht) Hrange) as [v Hv].
  wp_step. eapply wp_deref; [exact Hv|]. wp_step.
  eapply safe_syscall; [exact Hk|done|]. intros Hk2 _. destruct (negb _); [by left|]. by wp_step.
Qed.

(** ** Requests *)

(** The queue may be worked on. *)
Definition queue_at ex lp w : Prop :=
  tq_at l lp ex w ∧ timers_ok ex (w_timers w) (el_timer_queue_ lp).

(** Putting a timer into the set that is neither in it nor being fired. *)
Lemma insert_timed ex lp t tm E w :
  queue_at ex lp w → w_timers w !! t = Some tm → t ≠ O → t ∉ ex → t ∉ (tq_timers_ (el_timer_queue_ lp)).*2 →
  scheduled (tm_expiration_ tm) →
  wp (insert l t) (λ _ w', timed l ex lp w w' ∧ w_timers w' = w_timers w) E w.
Proof.
  intros [Hat [Hq Hc He Hd Hea]] Htm H0 Hnex Hnin Hsch.
  eapply wp_conseq; [by apply (insert_at l lp ex t tm), scheduled_range|]. intros r w' (_ & -> & (_ & _ & Hq' & _)).
  split; [|done]. apply timed_set. split; try done.
  apply Forall_forall. intros x [->|Hin]%set_insert_in; [done|]. rw Forall_forall in Hd. by apply Hd.
Qed.

(** A new timer: nobody knows its address yet. *)
Lemma new_timer_at ex lp t tm w :
  queue_at ex lp w → w_timers w !! t = None → timer_ok tm →
  queue_at ex lp (set_w_timers (<[t := tm]> (w_timers w)) w) ∧
  (t ∉ ex) ∧ t ∉ (tq_timers_ (el_timer_queue_ lp)).*2.
Proof.
  intros [(Hl & Ht & Hq & Hown) [_ Hc He Hd Hea]] Hn Hok'.
  assert (∀ t', is_Some (w_timers w !! t') → is_Some (<[t := tm]> (w_timers w) !! t')) as Hkeep.
  { intros t' ?. rw lookup_insert. by case_decide. }
  assert (t ∉ (tq_timers_ (el_timer_queue_ lp)).*2) as Hnin.
  { intros ([e t'] & -> & Hin)%list_elem_of_fmap. destruct (qo_entry _ _ Hq e t' Hin) as (_ & tm' & ? & _). by simplify_eq/=. }
  assert (queue_ok (<[t := tm]> (w_timers w)) (set_tq_expired ex (el_timer_queue_ lp))) as Hq' by by apply queue_ok_timer.
  split_and!; [|intros Hin|done].
  - split; [split_and!; auto|]. split; auto. by apply map_Forall_insert_2.
  - destruct (qo_expired _ _ Hq t Hin) as (_ & _ & [tm' ?]). congruence.
Qed.

(** Arming the descriptor, and what came before is kept. *)
Lemma timed_later ex lp w w1 w2 :
  timed l ex lp w w1 → (∃ evs, w_hist w2 = w_hist w1 ++ evs ∧ forallb unseen evs = true) →
  w2 = set_w_hist (w_hist w2) (set_w_errno (w_errno w2) w1) → timed l ex lp w w2.
Proof.
  intros [(tq & Hl & Htq) Hwk (evs & Hh & Hev) Hrest] (evs' & Hh' & Hev') ->. split; [|done|exists (evs ++ evs')|done].
  - by exists tq.
  - by rw /= Hh' Hh app_assoc forallb_app Hev.
Qed.

Lemma set_timerfd_timed ex lp fd e w0 w :
  timed l ex lp w0 w → in_int64 e = true → wp (set_timerfd fd e) (λ _ w', timed l ex lp w0 w') only_exit w.
Proof.
  intros Htd Hrange. rw /set_timerfd. wp_step. apply wp_now. set (t := r_ret _).
  destruct (how_long_some t e (fit_epoch t (fit_shown _)) Hrange) as [v Hv]. wp_step. eapply wp_deref; [exact Hv|].
  wp_step. apply wp_syscall. destruct (negb _); [done|]. wp_step. eapply timed_later; [exact Htd| |by destruct w].
  eexists. split; [by rw /= -app_assoc|done].
Qed.

(** What a new timer may run. *)
Definition may_run w (f : Functor) : Prop := timer_task f ∧ ∀ c, weak_target f = Some c → weak_fine w c.

(** The weak pointers after a timer was set or changed. *)
Lemma weak_ok_insert t tm w :
  (∀ c, weak_target (tm_callback_ tm) = Some c → weak_fine w c) →
  weak_ok w → weak_ok (set_w_timers (<[t := tm]> (w_timers w)) w).
Proof.
  intros Htm Hw c. rw elem_of_weak_refs. intros (t' & tm' & Hin & Hc).
  change (weak_fine w c). simpl in Hin. apply lookup_insert_Some in Hin as [[-> ->]|[_ Hin]]; [by apply Htm|].
  apply Hw, elem_of_weak_refs. by exists t', tm'.
Qed.

(** [AddTimer] on the loop's thread. *)
Lemma AddTimer_timed ex lp cb when_ interval w :
  queue_at ex lp w → timer_ok (Timer_new cb when_ interval) → (∀ c, weak_target cb = Some c → weak_fine w c) →
  scheduled when_ →
  wp (AddTimer l cb when_ interval) (λ _ w', timed l ex lp w w') only_exit w.
Proof.
  intros Hat Hok' Hfine Hsch. rw /AddTimer. do 2 wp_step. set (t := heap_new _).
  destruct (heap_fresh (dom (w_timers w))) as [Hfr H0]. fold t in Hfr, H0. apply not_elem_of_dom in Hfr.
  set (tm := Timer_new cb when_ interval). destruct (new_timer_at ex lp t tm w Hat Hfr Hok') as (Hat1 & Hnex & Hnin).
  do 2 wp_step. set (w1 := set_w_timers _ w). pose proof Hat1 as [(Hl & Ht & _) _]. wp_step. rw /RunInLoop. wp_step.
  eapply wp_IsInLoopThread; [done|]. rw Ht Nat.eqb_refl. rw /add_timer_in_loop. wp_step.
  eapply wp_conseq; [by apply (insert_timed ex lp t tm); [..|apply lookup_insert_eq| | | |]|].
  intros earliest w2 [Htd Htm2]. assert (timed l ex lp w w2) as Htd0.
  { destruct Htd as [? Hwk ? ?]. split; try done. intros Hw. by apply Hwk, weak_ok_insert. }
  destruct earliest; [|by repeat wp_step]. wp_step. eapply wp_get_timer; [rw Htm2; apply lookup_insert_eq|].
  destruct (td_queue _ _ _ _ _ Htd) as (tq & Hlo & _). wp_step. eapply wp_get_tq; [by rw Hlo lookup_insert_eq|].
  eapply wp_conseq; [by apply (set_timerfd_timed ex lp _ _ w), scheduled_range|]. intros [] w3 Htd3. by wp_step.
Qed.

(** [RunAfter] and [RunEvery] for one of the spans. *)
Lemma run_timed ex lp f span interval d w :
  queue_at ex lp w → may_run w f → nanoseconds span = Some d → d ∈ spans →
  (double_gt0 interval = true → ∃ d', d' ∈ spans ∧ nanoseconds interval = Some d') →
  wp (t ← now; d ← deref (nanoseconds span); t' ← deref (add_ns t d); AddTimer l f t' interval)
    (λ _ w', timed l ex lp w w') only_exit w.
Proof.
  intros [(Hl & Ht & Hq & Hown) Htm] [Hf Hfine] Hd Hin Hrep. wp_step. apply wp_now. set (t := r_ret _). set (w1 := after_now w).
  assert (shows t) as Hsh by apply fit_shown. wp_step. eapply wp_deref; [done|]. wp_step.
  assert (add_ns t d = Some (t + d)) as Hadd by by rw /add_ns fit_range. eapply wp_deref; [exact Hadd|].
  eapply wp_conseq; [apply (AddTimer_timed ex lp)|].
  - by split.
  - by split.
  - done.
  - right. by exists t, d.
  - intros t' w' [Hqu Hwk (evs & Hh & Hev) Hrest]. split; [done|done| |done].
    eexists. by rw Hh /= -app_assoc.
Qed.

Lemma safe_run K ph X f span interval d w :
  sys_ok K ph X w → may_run w f → nanoseconds span = Some d → d ∈ spans →
  (double_gt0 interval = true → ∃ d', d' ∈ spans ∧ nanoseconds interval = Some d') →
  safe K ph X (t ← now; d ← deref (nanoseconds span); t' ← deref (add_ns t d); AddTimer l f t' interval) w.
Proof.
  intros Hok Hf Hd Hin Hrep. destruct (sys_queue_at K ph X w Hok) as (lp & Hl & Htm & Hat).
  eapply wp_mono; [by apply (run_timed (cx_fired K) lp f span interval d)| |by left].
  intros t w' Htd. rw -(refired_id K). by eapply sys_timers.
Qed.

Lemma may_run_user w u : may_run w (FUser u).
Proof. split; [exists u; by left|done]. Qed.

Lemma safe_RunEvery K ph X u interval d w :
  sys_ok K ph X w → nanoseconds interval = Some d → d ∈ spans → safe K ph X (RunEvery l interval (FUser u)) w.
Proof. intros Hok Hd Hin. apply (safe_run K ph X (FUser u) interval interval d); eauto using may_run_user. Qed.

Lemma safe_RunAfter K ph X u delay d w :
  sys_ok K ph X w → nanoseconds delay = Some d → d ∈ spans → safe K ph X (RunAfter l delay (FUser u)) w.
Proof. intros Hok Hd Hin. by apply (safe_run K ph X (FUser u) delay d_zero d); [|apply may_run_user|..]. Qed.

(** [RunAt] for one of the moments. *)
Lemma safe_RunAt K ph X u time w : sys_ok K ph X w → time ∈ moments → safe K ph X (RunAt l time (FUser u)) w.
Proof.
  intros Hok Hin. destruct (sys_queue_at K ph X w Hok) as (lp & Hl & Htm & Hat). destruct (may_run_user w u) as [Hu Hfine].
  eapply wp_mono; [by apply (AddTimer_timed (cx_fired K) lp); [|split| |left]| |by left].
  intros t w' Htd. rw -(refired_id K). by eapply sys_timers.
Qed.

(** Closing a connection after one of the spans. *)
Lemma safe_ForceCloseDelay K ph X c sec d w :
  sys_ok K ph X w → seen_conn w c → nanoseconds sec = Some d → d ∈ spans → safe K ph X (ForceCloseDelay c sec) w.
Proof.
  intros Hok Hseen Hd Hin. destruct (seen_some _ _ Hseen) as [cn Hc]. rw /safe /ForceCloseDelay. wp_step.
  eapply wp_get_conn; [done|]. rw (safe_loop host l s a K ph X w c cn Hok Hc). wp_step.
  eapply wp_conseq; [apply (safe_run K ph X (FForceCloseWeak c) sec d_zero d); try done|].
  - split; [exists c; by right|]. intros c' [= <-]. by right.
  - intros t w' Hk. by wp_step.
Qed.

Lemma safe_CancelTimer K ph X t w : sys_ok K ph X w → safe K ph X (CancelTimer l t) w.
Proof.
  intros Hok. destruct (sys_queue_at K ph X w Hok) as (lp & Hl & [Hq Hc He Hd Hea] & (_ & _ & _ & Hown)).
  rw /safe /CancelTimer /RunInLoop. wp_step. eapply sys_in_thread; [done|]. rw /cancel_timer_in_loop. wp_step.
  eapply wp_get_loop; [done|]. destruct (timer_owned lp t) eqn:Ho; simpl; [|wp_step; by apply keep_refl].
  destruct (Hown t Ho) as [tm Htm]. wp_step. eapply wp_get_timer; [done|].
  rw /set_find. case_bool_decide as Hin.
  - wp_step. eapply wp_conseq; [apply (safe_alter_tq K ph X (cx_fired K)); [done|]|].
    + intros lp' Hl' _. simplify_eq. split; try done; [by apply (queue_ok_erase _ (set_tq_expired (cx_fired K) _))|].
      apply Forall_forall. intros x [_ Hx]%set_erase_in. rw Forall_forall in Hd. by apply Hd.
    + intros [] w' Hk. rw refired_id in Hk. rw (set_erase_length _ _ (qo_sorted _ _ Hq) Hin).
      apply wp_assert_true; [apply Nat.eqb_eq; simpl; lia|done].
  - destruct (tq_calling_expired_timers_ _); simpl; [|wp_step; by apply keep_refl].
    eapply wp_conseq; [apply (safe_alter_tq K ph X (cx_fired K)); [done|]|].
    + intros lp' Hl' _. simplify_eq. split; try done; [by eapply queue_ok_same|]. simpl. intros t' [->%elem_of_singleton|?]%elem_of_union; [by eexists|auto].
    + intros [] w' Hk. by rw refired_id in Hk.
Qed.

(** ** Firing *)

(** Taking the timers that are due at the time just read; the assertion fails
    when one is due at this very time. *)
Lemma safe_take_expired K ph X t w :
  sys_ok K ph X w → cx_fired K = [] → shows t → clock (w_hist w) = t →
  wp (take_expired l t) (λ r, keep (refired r.*2 K) ph X w) sys_end w.
Proof.
  intros Hok Hex Ht Hck. destruct (sys_queue_at K ph X w Hok) as (lp & Hl & [Hq Hc He Hd Hea] & Hat). rw Hex in Hat, Hq.
  rw Forall_forall in Hd.
  destruct (decide (Exists (λ x, x.1 = t) (tq_timers_ (el_timer_queue_ lp)))) as [Htie|Htie].
  { apply Exists_exists in Htie as ([e t'] & Hin & Heq). simpl in Heq. subst e. rw /wp (take_expired_tie l lp t t') //.
    right. right. split; [done|]. exists l, lp, (t, t'). split_and!; try done. by apply (Hd (t, t')). }
  eapply wp_conseq; [apply (take_expired_ok l lp t); [done|]|].
  { intros t' Hin. apply Htie, Exists_exists. by exists (t, t'). }
  intros r w' (-> & -> & (_ & _ & Hq' & _)). 
  eapply sys_timers; [done|done|]. apply timed_set. split; try done.
  - intros t' ([e t''] & -> & [_ Hin]%list_elem_of_filter)%list_elem_of_fmap.
    destruct (qo_entry _ _ Hq e t'' Hin) as (_ & tm & ? & _). by exists tm.
  - apply Forall_forall. intros x [_ Hin]%list_elem_of_filter. by apply Hd.
Qed.

(** Running the task of one of them. *)
Lemma safe_timer_task K ph X t tm w :
  sys_ok K ph X w → w_timers w !! t = Some tm → timer_task (tm_callback_ tm) →
  safe K ph X (run_functor (tm_callback_ tm)) w.
Proof.
  intros Hok Htm [u [E|E]]; rw E /=; [by apply (safe_call_user host l s a K ph X (UTask u))|].
  apply safe_force_close_weak; [done..|]. destruct (sy_lp _ _ _ _ _ _ _ _ Hok) as (lp & _ & [_ _ _ _ Hwk]).
  apply Hwk, elem_of_weak_refs. exists t, tm. by rw E.
Qed.

(** Running all of them. *)
Lemma safe_run_expired K ph X es w :
  sys_ok K ph X w → cx_fired K = es.*2 →
  wp (run_expired run_functor l es) (λ _, keep K ph X w) sys_end w.
Proof.
  intros Hok Hex. rw /run_expired. wp_step.
  assert (∀ f w, sys_ok K ph X w → (∀ tq, (tq_timers_ (f tq), tq_expired (f tq)) = (tq_timers_ tq, tq_expired tq)) →
    (∀ tq, tq_canceling_timers_ (f tq) ⊆ tq_canceling_timers_ tq) → wp (alter_tq f l) (λ _, keep K ph X w) sys_end w) as Hflag.
  { intros f w1 Hok1 Hf Hcan. eapply wp_conseq; [apply (safe_alter_tq K ph X (cx_fired K)); [done|]|].
    - intros lp _ [Hq Hc He Hd Hea]. specialize (Hf (el_timer_queue_ lp)). specialize (Hcan (el_timer_queue_ lp)).
      pose proof Hf as [= E1 E2]. split; rw ?E1 ?E2 //; [eapply queue_ok_same; [exact Hq|by rw /= E1]|auto].
    - intros [] w2 Hk. by rw refired_id in Hk. }
  eapply wp_conseq; [by apply Hflag|]. intros [] w1 Hk1. wp_step.
  eapply safe_step; [exact Hk1|by apply Hflag; [apply Hk1|..]|]. intros _ w2 Hk2. wp_step.
  eapply wp_conseq; [apply (wp_for_each (λ fs w', keep K ph X w w' ∧ fs ⊆ es))|].
  - done.
  - intros e fs w3 [Hk3 Hsub]. destruct (sys_queue_at K ph X w3 (proj1 Hk3)) as (lp & _ & [Hq _ _ _ Hea] & _).
    destruct (qo_expired _ _ Hq e.2) as (_ & _ & tm & Htm).
    { rw /= Hex. apply list_elem_of_fmap. exists e. split; [done|]. apply Hsub. by left. }
    wp_step. eapply wp_get_timer; [done|]. destruct (Hea e.2 tm Htm) as [Htask _].
    eapply safe_step; [exact Hk3|apply (safe_timer_task K ph X e.2 tm); [apply Hk3|done|done]|].
    intros _ w4 Hk4. split; [done|]. intros e' ?. apply Hsub. by right.
  - intros [] w3 [Hk3 _]. eapply safe_step; [exact Hk3|by apply Hflag; [apply Hk3|..]|by intros].
Qed.

(** One timer less is still to be put back. *)
Lemma handled_at t ex lp w : queue_at (t :: ex) lp w → queue_at ex lp w.
Proof.
  intros [(Hl & Ht & [Hs He Hx Hn] & Hown) [_ Hc Hexp Hd Hea]].
  assert (queue_ok (w_timers w) (set_tq_expired ex (el_timer_queue_ lp))) as Hq.
  { split; try done; [|by apply NoDup_cons in Hn as [_ ?]]. intros t' Hin. apply Hx. by right. }
  split; [by split_and!|by split].
Qed.

Lemma sys_handled K ph X t ex w :
  sys_ok (refired (t :: ex) K) ph X w → sys_ok (refired ex K) ph X w.
Proof.
  intros Hok. destruct (sys_queue_at _ ph X w Hok) as (lp & Hl & Htm & Hat).
  destruct (handled_at t ex lp w) as [_ Htm']; [done|]. eapply (sys_timers host l s a _ ph X ex lp w w Hok Hl).
  split; [|done|exists []; by rw app_nil_r|done]. exists (el_timer_queue_ lp). split; [|done].
  rw insert_id //. rw Hl. by destruct lp.
Qed.

(** The timer [t] gets another time and goes back into the set. *)
Lemma safe_put_back K ph X t tm tm' ex w :
  sys_ok (refired (t :: ex) K) ph X w → w_timers w !! t = Some tm → timer_ok tm' →
  tm_callback_ tm' = tm_callback_ tm → scheduled (tm_expiration_ tm') →
  wp (alter_timer (λ _, tm') t ;; _ ← insert l t; mret ())
    (λ _, keep (refired ex K) ph X w) sys_end w.
Proof.
  intros Hok Htm Hok' Hcb Hsch. destruct (sys_queue_at _ ph X w Hok) as (lp & Hl & Hto & Hat).
  pose proof (to_queue _ _ _ Hto) as Hq. destruct (qo_expired _ _ Hq t) as (Hnin & H0 & _); [by left|].
  pose proof (qo_nodup _ _ Hq) as [Hnex _]%NoDup_cons.
  destruct (handled_at t ex lp w) as [(_ & Ht & Hq' & Hown) [_ Hc He Hd Hea]]; [done|].
  rw /alter_timer. wp_step. wp_step. rw (alter_insert _ t tm) //. set (w1 := set_w_timers _ w).
  assert (∀ t', is_Some (w_timers w !! t') → is_Some (<[t := tm']> (w_timers w) !! t')) as Hkeep.
  { intros t' ?. rw lookup_insert. by case_decide. }
  assert (queue_at ex lp w1) as Hat1.
  { assert (queue_ok (<[t := tm']> (w_timers w)) (set_tq_expired ex (el_timer_queue_ lp))) by by apply queue_ok_timer.
    split; [split_and!; auto|]. split; auto. by apply map_Forall_insert_2. }
  wp_step. eapply wp_conseq; [by apply (insert_timed ex lp t tm'); [..|apply lookup_insert_eq| | | |]|].
  intros _ w2 [[? Hwk ? ?] _]. wp_step. eapply (sys_timers host l s a _ ph X ex lp w w2 Hok Hl).
  split; try done. intros Hw. apply Hwk, weak_ok_insert; [|done].
  rw Hcb. intros c Hwc. apply Hw, elem_of_weak_refs. by exists t, tm.
Qed.

(** Putting the repeating timers back. *)
Lemma safe_restart_expired K ph X t es w :
  sys_ok (refired es.*2 K) ph X w → shows t →
  wp (restart_expired l t es) (λ _, keep (refired [] K) ph X w) sys_end w.
Proof.
  intros Hok Ht. rw /restart_expired.
  eapply wp_conseq; [apply (wp_for_each (λ fs, keep (refired fs.*2 K) ph X w))|].
  - done.
  - intros [e t'] fs w1 Hk1. destruct (sys_queue_at _ ph X w1 (proj1 Hk1)) as (lp & Hl & [Hq _ _ _ Hea] & _).
    destruct (qo_expired _ _ Hq t') as (_ & _ & tm & Htm); [by left|]. simpl.
    assert (keep (refired fs.*2 K) ph X w w1) as Hskip.
    { split; [|apply Hk1]. by apply (sys_handled _ _ _ t'), Hk1. }
    destruct (Hea t' tm Htm) as [Hcb Hrep]. wp_step. eapply wp_get_timer; [done|].
    destruct (tm_repeat_ tm) eqn:Hr; simpl; [|by wp_step]. destruct (Hrep eq_refl) as (d & Hin & Hd).
    wp_step. eapply wp_get_tq; [done|]. case_bool_decide; [by wp_step|]. wp_step.
    assert (Restart t tm = Some (set_tm_expiration_ (t + d) tm)) as Hre.
    { rw /Restart Hr Hd /=. by rw /add_ns fit_range. }
    eapply wp_deref; [exact Hre|].
    eapply wp_conseq; [apply (safe_put_back K ph X t' tm _ fs.*2); [apply Hk1|done|split; [exact Hcb|by exists d]|done|]|].
    + right. by exists t, d.
    + intros [] w2 Hk2. split; [apply Hk2|etrans; [apply Hk1|apply Hk2]].
  - by intros [] w' ?.
Qed.

Lemma safe_rearm K ph X w : sys_ok K ph X w → safe K ph X (rearm l) w.
Proof.
  intros Hok. destruct (sys_queue_at K ph X w Hok) as (lp & Hl & [Hq _ _ _ _] & _). rw /safe /rearm.
  wp_step. eapply wp_get_tq; [done|]. wp_step.
  assert (∀ e, in_int64 e = true → wp (if negb (e =? InvalidTimePoint) then set_timerfd (tq_timerfd_ (el_timer_queue_ lp)) e else mret ())
    (λ _, keep K ph X w) sys_end w) as Hset.
  { intros e Hrange. destruct (negb _); [|wp_step; by apply keep_refl].
    eapply wp_conseq; [by apply (safe_set_timerfd K ph X)|]. by intros [] w' [? _]. }
  destruct (tq_timers_ (el_timer_queue_ lp)) as [|[e t] es] eqn:Hs; [wp_step; by apply Hset|].
  destruct (qo_entry _ _ Hq e t) as (_ & tm & Htm & He); [rw /= Hs; by left|].
  wp_step. eapply wp_get_timer; [done|]. wp_step. apply Hset. rw He.
  pose proof (qo_range _ _ Hq) as Hr. simpl in Hr. rw Hs in Hr. by apply Forall_cons in Hr as [? _].
Qed.

(** The handler of the timer descriptor. *)
Lemma safe_handle_timerfd K ph X w :
  sys_ok K ph X w → cx_fired K = [] → safe K ph X (handle_timerfd run_functor l) w.
Proof.
  intros Hok Hex. assert (refired [] K = K) as HK by by rw -{2}(refired_id K) Hex.
  rw /safe /handle_timerfd. wp_step. eapply sys_assert_thread; [done|]. wp_step.
  eapply safe_now; [by apply keep_refl|]. intros t w1 Hk1 Ht Hsame. injection Hsame as Htm1 Hl1 _ Hck1.
  destruct (sys_queue_at K ph X w1 (proj1 Hk1)) as (lp & Hl & _).
  wp_step. eapply wp_get_tq; [done|]. wp_step. rw /reset_timerfd. wp_step. eapply safe_syscall; [exact Hk1|done|].
  set (w2 := after_call _ w1). intros Hk2 _. wp_step. wp_step.
  eapply wp_conseq; [apply (safe_take_expired K ph X t); [apply Hk2|done|done|by rw /= clock_app]|].
  intros es w3 Hk3. wp_step.
  eapply wp_conseq; [apply (safe_run_expired (refired es.*2 K)); [apply Hk3|done]|]. intros [] w4 Hk4. wp_step.
  eapply wp_conseq; [by apply (safe_restart_expired K ph X t es); [apply Hk4|]|].
  rw HK. intros [] w5 Hk5. wp_step. eapply wp_conseq; [apply safe_rearm, Hk5|]. intros [] w6 Hk6.
  eapply wp_conseq; [apply (safe_alter_tq K ph X []); [apply Hk6|]|].
  - intros lp' _ [Hq Hc He Hd Hea]. rw Hex in Hq. split; try done. by intros t' ?%not_elem_of_nil.
  - intros [] w7 Hk7. rw HK in Hk7. split; [apply Hk7|].
    etrans; [apply Hk2|]. etrans; [apply Hk3|]. etrans; [apply Hk4|]. etrans; [apply Hk5|]. etrans; [apply Hk6|apply Hk7].
Qed.
End timers.
