(* ===== verification/ServerSafe.v ===== *)
(** * ServerSafe: what a single-threaded server does in a round

    Accepting, the descriptors of the loop, dispatching and running tasks:
    every step keeps the invariant of SysInv.v, whatever the kernel reports
    and answers, whoever connects and whatever they send, and whatever the
    application does within the library's rules. *)

From S2P Require Import Prelude Buffer BufferSpec World Kernel Poller Channel Sample Reactor EventLoop.
From S2P Require Import Timer Socket TcpConnection ConnInv ConnSteps ConnSpec ConnLife TimerSpec LoopLife.
From S2P Require Import Inet Acceptor ThreadPool TcpServer ServerSpec System SysInv ConnSafe TimerSafe.

Section server.
Context (host : endian) {text : InetText} {cw : Clockwork} {os : OS} {heap : Heap} {user : UserCode}.
Context `{!EpollDelOk os, !EpollCtlRet os, !SendOk os, !ReadvOk os, !EpollWaitOk os}.
Context `{!FdFresh os, !HeapFresh heap, !FewAccepts os, !ClockFit cw os}.
Context (l s a : nat) `{!GoodUser host l s a user}.

Section handlers.
Context (K : ctx).
Implicit Types (w : World) (cn : TcpConnection) (ch : Channel) (lp : EventLoop) (sv : TcpServer) (X : gset nat).

Abbreviation sys_ok := (sys_ok host l s a K).
Abbreviation keep := (keep host l s a K).
Abbreviation safe := (safe host l s a K).

(** ** A new connection *)

(** Entering a connection reads and sets options of its socket only. *)
Lemma adopted_hist sv fd peer c k w w' :
  adopted host s sv fd peer w c k w' →
  open_fds (w_hist w') = open_fds (w_hist w) ∧ accepted (w_hist w') = accepted (w_hist w).
Proof.
  intros Had. destruct (ad_hist _ _ _ _ _ _ _ _ _ Had) as (evs & Hh & Hq). rw Hh. clear Had Hh.
  induction evs as [|e evs IH] using rev_ind; [by rw app_nil_r|].
  rw forallb_app in Hq. apply andb_prop in Hq as [Hq1 Hq2]. specialize (IH Hq1) as [IH1 IH2].
  rw app_assoc open_fds_app accepted_app IH1 IH2 /=. by destruct e as [[] ?|]; simpl; split; lia || done.
Qed.

(** It takes nothing back, ... *)
Lemma adopted_ext sv fd peer c k w w' : adopted host s sv fd peer w c k w' → ext w w'.
Proof.
  intros [Hc Hk _ _ [local Hcn] Hch _ _ [= Ht _ _ _ _] _ _]. split; [done| |].
  - intros c' d Hd. exists d. rw Hcn lookup_insert_ne; [|done]. by intros ->; simplify_eq.
  - intros k' ch Hk'. exists ch. rw Hch lookup_insert_ne; [|done]. by intros ->; simplify_eq.
Qed.

(** ... and the loop is in order with the new channel. *)
Lemma adopted_loop_ok sv fd peer c k w w' :
  loop_ok l w → adopted host s sv fd peer w c k w' → next_loop sv w = l →
  (∀ k ch, w_chans w !! k = Some ch → ch_loop_ ch = l → ch_fd_ ch ≠ fd) → loop_ok l w'.
Proof.
  intros Hlok [_ Hk _ _ _ Hch _ _ [= Ht _ Hl _ _] (evs & Hh & Hq) _] Hnl Hnew. rw Hnl in Hch.
  destruct (lo_loop _ _ Hlok) as (lp & Hlp & _). pose proof (loop_ok_new_channel l k fd _ Hlok Hk Hnew) as Hlok1.
  apply (loop_ok_equiv l (set_w_chans (<[k := Channel_new l fd]> (w_chans w)) w));
    [|intros lp'; simpl; rw Hl; by eauto|exists lp; by rw Hl|done|done].
  apply (poller_equiv_quiet _ evs); [by rw /poller_view /= Hl| |done|].
  - intros k'. simpl. rw Hch !lookup_insert. by case_decide.
  - eapply forallb_mono, Hq. by intros [[] r|].
Qed.

(** The connection that was entered is one of the server's. *)
Lemma adopted_keep ph X sv fd peer c k w w' :
  sys_ok ph X w → server_ok host s sv w → tp_loops_ (sv_thread_pool_ sv) = [] → sv_loop_ sv = l →
  is_Some (sv_connection_cb_ sv) → is_Some (sv_message_cb_ sv) →
  fd ∈ open_fds (w_hist w) → (∀ k ch, w_chans w !! k = Some ch → ch_loop_ ch = l → ch_fd_ ch ≠ fd) →
  (∀ ac, w_accs w !! a = Some ac → ac_idle_fd_ ac ≠ fd) →
  w_next_conn_id_ w + 1 ≤ accepted (w_hist w) →
  adopted host s sv fd peer w c k w' →
  keep ph X w w' ∧ ∃ cn, w_conns w' !! c = Some cn ∧ tc_state_ cn = Connecting.
Proof.
  intros Hok Hsv Htp Hsl Hcb1 Hcb2 Hfd Hnew Hidle Hids Had. pose proof (adopted_ok host s sv fd peer w c k w' Hsv Had) as Hsv'.
  assert (next_loop sv w = l) as Hnl by rw /next_loop /loop_at Htp (so_base _ _ _ _ Hsv) Hsl //.
  destruct (adopted_hist _ _ _ _ _ _ _ Had) as [Hop Hacc]. pose proof (adopted_ext _ _ _ _ _ _ _ Had) as He.
  pose proof (λ H, adopted_loop_ok _ _ _ _ _ _ _ H Had Hnl Hnew) as Hlok'.
  destruct Had as [Hc Hk Hn Hs [local Hcn] Hch Hid Hidx Hrest _ Hwkc]. rw Hnl in Hch.
  injection Hrest as Ht Htms Hl Ha _.
  destruct Hok as [Hlok Hfds (lp & Hlp & Hlk) (ac & Hac & Hal & Hnc & Hio & Hid1) (sv0 & Hsv0 & _ & _ & _ & _ & Hcns) Hown Hslots Hnow _ HX Hon].
  assert (sv0 = sv) as -> by (pose proof (so_server _ _ _ _ Hsv0); pose proof (so_server _ _ _ _ Hsv); congruence).
  assert (pending l w' = pending l w) as Hpend by by rw /pending Hl.
  set (cn := adopted_conn _ _ _ _ _ _ _ _) in Hcn. assert (tc_loop_ cn = l) as Hcl by done.
  split; [split; [|done]|exists cn; by rw Hcn lookup_insert_eq].
  split.
  - by apply Hlok'.
  - intros k' ch. rw Hch Hop lookup_insert. case_decide; [by intros [= <-] _|by apply Hfds].
  - exists lp. rw Hl. split; [done|]. destruct Hlk as [? ? ? Htk Hwk]. split; try done.
    + by rw Htms.
    + eapply Forall_impl; [exact Htk|]. intros f. by apply task_ok_ext.
    + apply (weak_ok_ext w); [done|done| |done]. intros c' Hin Hn'. rw Hcn lookup_insert_ne //. by intros ->.
  - exists ac. rw Ha Hop. split_and!; [done..|]. intros k' ch. rw Hch lookup_insert.
    case_decide; [|by apply Hid1]. intros [= <-] _ Heq. by apply (Hidle ac Hac).
  - exists (with_conn host sv w c). split_and!; try done. intros c' d. rw Hcn lookup_insert. case_decide as D.
    + intros [= <-]. subst c'. pose proof fresh_buffer_inv. split; try done.
      * exists (new_chan c l fd). by rw Hch lookup_insert_eq.
      * rw /= lookup_insert_eq. split; [done|by left].
    + intros Hd. destruct (Hcns c' d Hd) as [? (ch & ? & ? & ? & Hdead) ? ? ? Hhome]. split; try done.
      * exists ch. rw Hch lookup_insert_ne; [by intros ->; simplify_eq|]. split_and!; try done. by rw /dead_ok /owned Hpend.
      * rw Hhome /= lookup_insert. case_decide as Heq; [|done]. rw -Heq Hn. split; [done|congruence].
  - assert (∀ c' d, w_conns w !! c' = Some d → tc_channel_ d ≠ k) as Hne.
    { intros c' d Hd Heq. destruct (Hcns c' d Hd) as [_ (ch & Hk' & _) _ _ _ _]. by rw Heq Hk in Hk'. }
    intros c1 c2 d1 d2. rw Hcn !lookup_insert. case_decide; case_decide; try congruence.
    + intros [= <-] H2 Heq. by destruct (Hne c2 d2 H2).
    + intros H1 [= <-] Heq. by destruct (Hne c1 d1 H1).
    + by apply Hown.
  - intros k' ch. rw Hch lookup_insert. case_decide.
    + intros [= <-] _. subst k'.
      assert (∃ d, w_conns w' !! c = Some d ∧ tc_channel_ d = k) by (exists cn; by rw Hcn lookup_insert_eq).
      repeat constructor; done.
    + intros Hk' Hkl. eapply Forall_impl; [by eapply Hslots|]. intros o. by apply slot_ok_ext.
  - intros k' ch. rw Hch lookup_insert. case_decide; [by intros [= <-]|by apply Hnow].
  - rw Hid Hacc. lia.
  - intros c' Hin. destruct (HX c' Hin) as (d & Hd & Hdn). exists d. rw Hcn lookup_insert_ne; [|done].
    by intros ->; simplify_eq.
  - rw Hl Hs dom_insert_lookup_L //. exists sv. apply Hsv.
Qed.

(** Entering a connection and establishing it. *)
Lemma safe_new_connection ph X fd peer w :
  sys_ok ph X w → fd ∈ open_fds (w_hist w) →
  (∀ k ch, w_chans w !! k = Some ch → ch_loop_ ch = l → ch_fd_ ch ≠ fd) →
  (∀ ac, w_accs w !! a = Some ac → ac_idle_fd_ ac ≠ fd) →
  w_next_conn_id_ w + 1 ≤ accepted (w_hist w) → w_next_conn_id_ w + 1 < two64 →
  safe ph X (new_connection host s fd peer) w.
Proof.
  intros Hok Hfd Hnew Hidle Hids Hid. destruct (sy_srv _ _ _ _ _ _ _ _ Hok) as (sv & Hsv & Hsl & Htp & Hcb1 & Hcb2 & _).
  apply (new_connection_ok host s sv); [done|done|]. intros c k w1 Had.
  destruct (adopted_keep ph X sv fd peer c k w w1) as [Hk (cn & Hc & Hst)]; try done.
  rw /RunInLoop /next_loop /loop_at Htp (so_base _ _ _ _ Hsv) Hsl. wp_step.
  eapply sys_in_thread; [apply Hk|]. eapply safe_step; [exact Hk| |by intros].
  by apply (safe_established host l s a K ph X c cn); [apply Hk|..].
Qed.

(** ** Accepting *)

(** A descriptor that no channel of the loop is for may be closed. *)
Lemma close_foreign fd w :
  loop_ok l w → (∀ k ch, w_chans w !! k = Some ch → ch_loop_ ch = l → ch_fd_ ch ≠ fd) →
  loop_ok l (after_call (SysClose fd) w).
Proof.
  intros Hlok Hne. destruct (lo_loop _ _ Hlok) as (lp & Hl & _). eapply loop_ok_close; [done|done|].
  destruct (ep_channels_ (el_poller_ lp) !! fd) as [k|] eqn:Hm; [|done].
  destruct (pi_map _ _ _ (lo_inv _ _ Hlok) lp fd k Hl Hm) as (ch & Hk & Hfd & Hkl & _). by destruct (Hne k ch).
Qed.

(** Changing the acceptor: it may have another descriptor in reserve. *)
Lemma sys_acceptor ph X ac ac' idle w w' :
  sys_ok ph X w → w_accs w !! a = Some ac → loop_ok l w' →
  (w_tid w', w_chans w', w_timers w', w_loops w', w_conns w', w_servers w', w_next_conn_id_ w', w_next_index_ w') =
    (w_tid w, w_chans w, w_timers w, w_loops w, w_conns w, w_servers w, w_next_conn_id_ w, w_next_index_ w) →
  w_accs w' = <[a := ac']> (w_accs w) → accepted (w_hist w') = accepted (w_hist w) →
  (ac_loop_ ac', ac_on_new_connection_ ac', ac_idle_fd_ ac') = (ac_loop_ ac, ac_on_new_connection_ ac, idle) →
  let rest := open_fds (w_hist w) ∖ {[ac_idle_fd_ ac]} in
  idle ∉ rest → open_fds (w_hist w') = {[idle]} ∪ rest → keep ph X w w'.
Proof.
  intros Hok Ha Hlok' [= Ht Hch Htms Hl Hcn Hs Hi Hx] Ha' Hacc [= Hal' Hnc' Hid'] rest Hnew Hop.
  destruct Hok as [Hlok Hfds (lp & Hlp & Hlk) (ac0 & Hac & Hal & Hnc & Hio & Hid1) (sv & Hsv & Hrest) Hown Hslots Hnow Hids HX Hon].
  assert (ac0 = ac) as -> by congruence. assert (ext w w') as He.
  { split; rw ?Hcn ?Hch; [done|intros c' d ?; by exists d|intros k ch ?; by exists ch]. }
  assert (fds_open l w' ∧ ∀ k ch, w_chans w !! k = Some ch → ch_loop_ ch = l → ch_fd_ ch ≠ idle) as [Hfds' Hne].
  { assert (∀ k ch, w_chans w !! k = Some ch → ch_loop_ ch = l → ch_fd_ ch ∈ rest) as Hin.
    { intros k ch Hk Hkl. apply elem_of_difference. rw elem_of_singleton. by eauto. }
    split; intros k ch; rw ?Hch ?Hop; intros Hk Hkl; [by eapply elem_of_union_r, Hin|].
    intros Heq. apply Hnew. rw -Heq. by eapply Hin. }
  split; [|done]. split; rw ?Hcn ?Hch ?Hacc ?Hi //.
  - exists lp. rw Hl. split; [done|]. destruct Hlk as [? ? ? Htk]. split; try done.
    + by rw Htms.
    + eapply Forall_impl; [exact Htk|]. intros f. by apply task_ok_ext.
    + by apply (weak_ok_same w).
  - exists ac'. rw Ha' lookup_insert_eq Hop Hal' Hnc' Hid'. split_and!; try done. by apply elem_of_union_l, elem_of_singleton.
  - exists sv. destruct Hrest as (? & ? & ? & ? & Hcns). split_and!; try done.
    + destruct Hsv as [? [? ?] ? ? ? ?]. split; rw ?Hs ?Hx ?Hi ?Hcn //. split; by rw ?Hl ?Ht.
    + intros c cn Hc. destruct (Hcns c cn Hc). split; try done. rw Hch.
      by rw /dead_ok /owned /pending Hl.
  - intros k ch Hk Hkl. eapply Forall_impl; [by eapply Hslots|]. intros o. by apply slot_ok_ext.
  - by rw Hl Hs.
Qed.

Lemma safe_excess ph X ac fd w :
  sys_ok ph X w → w_accs w !! a = Some ac → safe ph X (close_excessfd_with_idlefd a fd) w.
Proof.
  intros Hok Ha. destruct (sy_acc _ _ _ _ _ _ _ _ Hok) as (ac0 & ? & _ & _ & _ & Hidle). simplify_eq.
  rw /safe /close_excessfd_with_idlefd. wp_step. eapply wp_get_acc; [done|].
  wp_step. apply close_fd_ok. set (w1 := after_call _ w). wp_step. apply wp_syscall.
  set (w2 := after_call _ w1). set (r := os_reply (w_hist w1) _).
  wp_step. eapply wp_alter_acc; [done|]. wp_step. eapply wp_get_acc; [apply lookup_insert_eq|].
  wp_step. apply close_fd_ok. set (w3 := set_w_accs _ w2). cbn [ac_idle_fd_ set_ac_idle_fd_].
  set (w4 := after_call _ w3). wp_step. eapply (wp_mono _ _ _ only_exit); [|intros x ? H; exact H|by left].
  apply or_die_fd; [done|]. intros idle Hge Hnew Ho. eapply wp_alter_acc; [apply lookup_insert_eq|].
  assert (loop_ok l w1) as H1 by by apply close_foreign; [apply Hok|].
  assert (loop_ok l w2) as H2 by by apply loop_ok_call.
  assert (open_fds (w_hist w1) = open_fds (w_hist w) ∖ {[ac_idle_fd_ ac]}) as Ho1 by by rw /= open_fds_app.
  assert (r_ret r ∉ open_fds (w_hist w1)) as Hr by by apply (fd_fresh (os := os)).
  assert (open_fds (w_hist w4) = open_fds (w_hist w1)) as Ho4.
  { change (w_hist w4) with ((w_hist w1 ++ [Sys (SysAccept fd) r]) ++ [Sys (SysClose (r_ret r)) (os_reply (w_hist w2) (SysClose (r_ret r)))]).
    rw !open_fds_app /=. destruct (_ <=? _); set_solver. }
  assert (loop_ok l w4) as H4.
  { apply close_foreign.
    - apply (loop_ok_equiv l w2); [|by eauto|destruct (lo_loop _ _ H2) as (lp & Hl & _); by exists lp|done|done].
      by apply (poller_equiv_quiet _ []); [done|done|rw app_nil_r|].
    - intros k ch Hk Hkl Heq. apply Hr. rw -Heq Ho1. pose proof (sy_fds _ _ _ _ _ _ _ _ Hok k ch Hk Hkl).
      pose proof (Hidle k ch Hk Hkl). set_solver. }
  rw Ho4 Ho1 in Hnew, Ho. apply (sys_acceptor ph X ac (set_ac_idle_fd_ idle ac) idle w); try done; [|by rw /= insert_insert_eq|].
  - apply (loop_ok_equiv l (after_call SysOpenNull w4));
      [|by eauto|destruct (lo_loop _ _ H4) as (lp & Hl & _); by exists lp|done|by apply loop_ok_call].
    by apply (poller_equiv_quiet _ []); [done|done|rw app_nil_r|].
  - rw /= !accepted_app /=. lia.
Qed.

Lemma safe_handle_accept ph X w : sys_ok ph X w → safe ph X (handle_accept (new_connection host) a) w.
Proof.
  intros Hok. destruct (sy_acc _ _ _ _ _ _ _ _ Hok) as (ac & Ha & Hal & Hnc & Hio & Hidle).
  destruct (sys_thread host l s a K ph X w Hok) as (lp & Hl & Ht). rw -Hal in Hl.
  eapply wp_same; [exact (handle_accept_eq (new_connection host) a ac lp w Ha Hl Ht)|].
  set (k := accept_call ac). set (r := os_reply (w_hist w) k).
  assert (keep ph X w (after_call k w)) as Hk by by apply sys_call.
  destruct (Z.ltb_spec (r_ret r) 0) as [Hn|Hn].
  - destruct (accept_errno_ok _); [|by left]. destruct (_ =? EMFILE); [|by apply wp_ret].
    eapply safe_step; [exact Hk| |by intros]. by apply (safe_excess ph X ac); [apply Hk|].
  - rw Hnc. pose proof (fd_fresh (os := os) (w_hist w) k eq_refl) as Hfr. change (os (w_hist w) k) with r in Hfr.
    assert (accepted (w_hist (after_call k w)) = accepted (w_hist w) + 1) as Hacc.
    { rw /= accepted_app /= -/k -/r. destruct (Z.leb_spec 0 (r_ret r)); lia. }
    assert (accepted (w_hist w) < two64 - 2) as Hfew.
    { destruct (Z.le_gt_cases (two64 - 2) (accepted (w_hist w))) as [H|]; [|lia].
      pose proof (few_accepts (w_hist w) (ac_accept_socket_ ac) sizeof_pointer H) as Hneg. change (r_ret r < 0) in Hneg. lia. }
    pose proof (sy_ids _ _ _ _ _ _ _ _ Hok) as Hids. eapply safe_step; [exact Hk| |by intros].
    apply safe_new_connection; [apply Hk| | | | |].
    + rw /= open_fds_app /= -/k -/r. destruct (Z.leb_spec 0 (r_ret r)); [set_solver|lia].
    + intros k' ch Hk' Hkl Heq. apply Hfr. rw -Heq. by eapply (sy_fds _ _ _ _ _ _ _ _ Hok).
    + intros ac' Ha' Heq. simpl in Ha'. assert (ac' = ac) as -> by congruence. apply Hfr. by rw -Heq.
    + rw Hacc. simpl. lia.
    + simpl. lia.
Qed.
(** [Listen], the accepting channel being no connection's. *)
Lemma safe_Listen ph X ac ch w :
  sys_ok ph X w → w_accs w !! a = Some ac → w_chans w !! ac_accept_channel_ ac = Some ch → ch_loop_ ch = l →
  (∀ c cn, w_conns w !! c = Some cn → tc_channel_ cn ≠ ac_accept_channel_ ac) →
  wp (Listen a) (λ _ w', keep ph X w w' ∧ w_conns w' = w_conns w ∧ ∃ m, w_loops w' = alter (with_channels m) l (w_loops w)) sys_end w.
Proof.
  intros Hok Ha Hk Hkl Hfree. destruct (sy_acc _ _ _ _ _ _ _ _ Hok) as (ac0 & ? & Hal & _ & Hio & _).
  assert (ac0 = ac) as -> by congruence. rw /Listen. wp_step. eapply wp_get_acc; [done|]. wp_step.
  rw Hal. eapply sys_assert_thread; [done|]. wp_step. eapply wp_alter_acc; [done|]. set (w1 := set_w_accs _ w).
  assert (keep ph X w w1) as Hk1.
  { destruct (sys_thread host l s a K ph X w Hok) as (lp & Hl & _).
    apply (sys_acceptor ph X ac (set_ac_listening_ true ac) (ac_idle_fd_ ac) w w1); try done.
    - apply (loop_ok_equiv l w); [|by eauto|by exists lp|done|apply Hok].
      by apply (poller_equiv_quiet _ []); [done|done|rw app_nil_r|].
    - simpl. set_solver.
    - simpl. by apply union_difference_singleton_L. }
  rw /Socket_Listen /listen_or_die. do 2 wp_step. eapply (wp_mono _ _ _ only_exit); [|intros x ? HQ; exact HQ|by left].
  apply wp_or_die. intros _. wp_step. set (w2 := after_call _ w1).
  assert (keep ph X w1 w2) as Hk2 by by apply sys_call; [apply Hk1|].
  eapply wp_mono; [apply (change_events_loop _ l _ ch); [apply Hk2|done|done]| |by left]. intros [] w3 [Hlok3 Hf].
  split_and!; [|exact (cf_conns _ _ _ _ _ Hf)|apply (cf_loops _ _ _ _ _ Hf)]. eapply keep_trans; [exact Hk1|]. eapply keep_trans; [exact Hk2|].
  by apply (sys_frame_free host l s a K ph X (ac_accept_channel_ ac) ch _ w2 w3 (proj1 Hk2)) in Hf.
Qed.

(** ** The loop's own descriptors *)

Lemma safe_alter_loop ph X ph' f w :
  sys_ok ph X w →
  (∀ lp, w_loops w !! l = Some lp → lp_ok K ph w lp → lp_step K ph' w lp (f lp) ∧
     el_thread_id_ (f lp) = el_thread_id_ lp ∧
     (ep_channels_ (el_poller_ (f lp)), ep_epoll_fd_ (el_poller_ (f lp))) =
       (ep_channels_ (el_poller_ lp), ep_epoll_fd_ (el_poller_ lp))) →
  wp (alter_loop f l) (λ _, keep ph' X w) sys_end w.
Proof. intros Hok Hf. rw /alter_loop. wp_step. by eapply sys_alter_loop. Qed.

Lemma safe_reset_wakeup ph X w : sys_ok ph X w → safe ph X (reset_wakeup l) w.
Proof.
  intros Hok. destruct (sys_thread host l s a K ph X w Hok) as (lp & Hl & _). rw /safe /reset_wakeup.
  wp_step. eapply wp_get_loop; [done|]. wp_step. eapply safe_syscall; [by apply keep_refl|done|].
  intros Hk _. by wp_step.
Qed.

(** ** Callbacks and tasks *)

Lemma safe_dispatch ph X k ch cb t w :
  sys_ok ph X w → cx_fired K = [] → slot_ok l a w k (Some cb) → w_chans w !! k = Some ch → seen ch → safe ph X (dispatch host cb t) w.
Proof.
  intros Hok Hex Hs Hk Hseen.
  assert (∀ c, (∃ cn, w_conns w !! c = Some cn ∧ tc_channel_ cn = k) → seen_conn w c) as Hc.
  { intros c (cn & Hc & Hck). exists cn, ch. by rw Hck. }
  destruct cb; simpl in *; try specialize (Hc _ Hs); subst.
  - by apply safe_reset_wakeup.
  - by apply safe_handle_timerfd.
  - by apply safe_handle_accept.
  - by apply safe_handle_read.
  - by apply safe_handle_write.
  - by apply safe_handle_close.
  - by apply safe_handle_error, seen_some.
  - by apply safe_call_user.
Qed.

(** What a task of a batch has done in [w'] for the batch after it. *)
Definition task_done (f : Functor) w w' : Prop := ∀ c cn, f = FConnectionDestroyed c → w_conns w !! c = Some cn →
  ∃ ch, w_chans w' !! tc_channel_ cn = Some ch ∧ detached_chan ch.

Lemma safe_run_functor X f w :
  sys_ok false X w → task_ok w f → (∀ c, owns f = Some c → cx_held K c) →
  wp (run_functor f) (λ _ w', keep false X w w' ∧ task_done f w w') sys_end w.
Proof.
  intros Hok Hf Hheld.
  assert ((∀ c, f ≠ FConnectionDestroyed c) → safe false X (run_functor f) w →
    wp (run_functor f) (λ _ w', keep false X w w' ∧ task_done f w w') sys_end w) as Hmost.
  { intros Hne Hs. eapply wp_conseq; [exact Hs|]. intros [] w' Hk. split; [done|]. intros c cn ->. by destruct (Hne c). }
  destruct f; simpl in *; try done; try (apply Hmost; [done|]).
  - by apply safe_call_user.
  - destruct Hf. by apply safe_send_in_loop.
  - by apply safe_shutdown_in_loop.
  - by apply safe_force_close_in_loop.
  - by apply safe_call_user.
  - by apply safe_call_user.
  - destruct Hf as (cn & Hc & Hst). eapply wp_conseq; [by apply (safe_destroyed host l s a K X c cn); [..|apply Hheld]|].
    intros [] w' [Hk Hd]. split; [done|]. intros c' cn' [= <-] Hc'. assert (cn' = cn) as -> by congruence. done.
Qed.

(** ** Dispatching the events of a channel *)

Definition live_chan w (k : nat) : Prop := ∃ ch, w_chans w !! k = Some ch ∧ ch_loop_ ch = l.
Definition seen_chan w (k : nat) : Prop := ∃ ch, w_chans w !! k = Some ch ∧ ch_loop_ ch = l ∧ seen ch.

Lemma live_chan_ext w w' k : ext w w' → live_chan w k → live_chan w' k.
Proof.
  intros He (ch & Hk & Hkl). destruct (ex_chans _ _ He k ch Hk) as (ch' & Hk' & E & _). exists ch'. split; [done|].
  injection E as E1 _ _ _ _ _. congruence.
Qed.
Lemma seen_chan_ext w w' k : ext w w' → seen_chan w k → seen_chan w' k.
Proof.
  intros He (ch & Hk & Hkl & Hs). destruct (ex_chans _ _ He k ch Hk) as (ch' & Hk' & E & Hs'). exists ch'.
  injection E as E1 _ _ _ _ _. split_and!; [done|congruence|auto].
Qed.

(** One [if] of [HandleEvent]. *)
Lemma safe_stage ph X k (cond : Channel → bool) (slot : Channel → option callback) t w :
  (∀ ch, slot ch ∈ slots ch) → cx_fired K = [] → sys_ok ph X w → seen_chan w k →
  safe ph X (ch ← get_chan k; when (cond ch) (fire (dispatch host) (slot ch) t)) w.
Proof.
  intros Hin Hex Hok (ch & Hk & Hkl & Hseen). rw /safe. wp_step. eapply wp_get_chan; [done|].
  destruct (cond ch); simpl; [|wp_step; by apply keep_refl].
  pose proof (sy_slots _ _ _ _ _ _ _ _ Hok k ch Hk Hkl) as Hs. rw Forall_forall in Hs. specialize (Hs _ (Hin ch)).
  rw /fire. destruct (slot ch) as [cb|]; [by apply (safe_dispatch ph X k ch)|wp_step; by apply keep_refl].
Qed.

End handlers.
End server.
