(* ===== verification/RoundSafe.v ===== *)
(** * RoundSafe: the main loop of a single-threaded server

    Polling, dispatching, running the tasks of the round and destroying
    their closures, with which connections go: the invariant of SysInv.v
    holds again after every round, for any number of rounds. *)

From S2P Require Import Prelude Buffer BufferSpec World Kernel Poller Channel Sample Reactor EventLoop.
From S2P Require Import Timer Socket TcpConnection ConnInv ConnSteps ConnSpec ConnLife TimerSpec LoopLife.
From S2P Require Import Inet Acceptor ThreadPool TcpServer ServerSpec System SysInv ConnSafe TimerSafe ServerSafe.

Section rounds.
Context (host : endian) {text : InetText} {cw : Clockwork} {os : OS} {heap : Heap} {user : UserCode} {refs : AppRefs}.
Context `{!EpollDelOk os, !EpollCtlRet os, !SendOk os, !ReadvOk os, !EpollWaitOk os}.
Context `{!FdFresh os, !HeapFresh heap, !FewAccepts os, !ClockFit cw os}.
Context (l s a : nat) `{!GoodUser host l s a user}.
Implicit Types (w : World) (cn : TcpConnection) (ch : Channel) (lp : EventLoop) (sv : TcpServer) (X : gset nat).

Abbreviation sys_ok := (sys_ok host l s a).
Abbreviation keep := (keep host l s a).
Abbreviation safe := (safe host l s a).

(** The connections that one of the closures [fs] owns, or that the
    application holds at some time. *)
Definition held_by (fs : list Functor) (c : nat) : Prop := Some c ∈ owns <$> fs ∨ ∃ h, app_holds h c = true.

(** Nothing is under way. *)
Definition idle : ctx := mkCtx [] None (held_by []) [].
(** The tasks [fs] of the batch [all] are still to run. *)
Definition running (all fs : list Functor) : ctx := mkCtx fs None (held_by all) [].

(** ** Dispatching *)

Lemma safe_HandleEvent ph X k t w :
  sys_ok idle ph X w → live_chan l w k → safe idle ph X (HandleEvent (dispatch host) k t) w.
Proof.
  intros Hok (ch & Hk & Hkl). rw /safe /HandleEvent. wp_step.
  eapply wp_get_chan; [done|]. repeat wp_step. destruct (_ && _); [wp_step; by apply keep_refl|].
  rw /alter_chan. do 2 wp_step. set (w1 := set_w_chans _ w). set (K := mkCtx [] (Some k) (held_by []) []).
  assert (sys_ok K ph X w) as HokK.
  { eapply sys_context; [exact Hok|done|by intros ????????%not_elem_of_nil|by intros ????? [?%not_elem_of_nil|?]; [|right]|].
    intros k' ch' Hk' Hkl' Hf. by pose proof (sy_now _ _ _ _ _ _ _ _ Hok k' ch' Hk' Hkl' Hf). }
  assert (keep K ph X w w1) as Hk1 by by apply sys_flag.
  assert (seen_chan l w1 k) as Hs1.
  { exists (set_ch_event_handing_ (Some true) ch). rw /= lookup_alter_eq Hk. split_and!; [done|done|by eexists]. }
  assert (∀ w', keep K ph X w1 w' → seen_chan l w' k) as Hl by (intros w' [_ He]; by eapply seen_chan_ext).
  assert (∀ ch, ch_on_error_ ch ∈ slots ch ∧ ch_on_close_ ch ∈ slots ch ∧ ch_on_read_ ch ∈ slots ch ∧
    ch_on_write_ ch ∈ slots ch) as Hin by (intros d; rw /slots; set_solver).
  pose proof (keep_refl host l s a K ph X w1 (proj1 Hk1)) as Hk1'.
  apply wp_bind. eapply safe_step; [exact Hk1'|apply (safe_stage host l s a K ph X); [apply Hin|done|apply Hk1|auto]|].
  intros _ w2 Hk2. apply wp_bind. eapply safe_step; [exact Hk2|apply (safe_stage host l s a K ph X); [apply Hin|done|apply Hk2|auto]|].
  intros _ w3 Hk3. apply wp_bind. eapply safe_step; [exact Hk3|apply (safe_stage host l s a K ph X); [apply Hin|done|apply Hk3|auto]|].
  intros _ w4 Hk4. apply wp_bind. eapply safe_step; [exact Hk4|apply (safe_stage host l s a K ph X); [apply Hin|done|apply Hk4|auto]|].
  intros _ w5 Hk5. wp_step. set (w6 := set_w_chans _ w5).
  assert (keep K ph X w5 w6) as Hk6 by by apply sys_flag; [apply Hk5|].
  split; [|etrans; [apply Hk1|]; etrans; [apply Hk5|apply Hk6]].
  eapply sys_context; [apply Hk6|done|by intros ????????%not_elem_of_nil|by intros ????? [?%not_elem_of_nil|?]; [|right]|].
  intros k' ch' Hk' Hkl' Hf. pose proof (sy_now _ _ _ _ _ _ _ _ (proj1 Hk6) k' ch' Hk' Hkl' Hf) as [= <-].
  exfalso. rw /= lookup_alter_eq in Hk'. destruct (w_chans w5 !! k); [|done]. by injection Hk' as <-.
Qed.

(** ** Polling and dispatching *)

Lemma store_revents_face evs m k : chan_face <$> store_revents evs m !! k = chan_face <$> m !! k.
Proof.
  revert m. induction evs as [|[ev p] evs IH]; intros m; [done|]. simpl. rw IH lookup_alter.
  case_decide; [|done]. subst. by destruct (m !! k).
Qed.

Lemma grown_pos size n : 0 < size → 0 < grown size n.
Proof.
  intros H. rw /grown. destruct (Z.ltb_spec 0 n); [|done]. destruct (size =? n); [|done]. simpl.
  apply Z.div_str_pos. lia.
Qed.

Lemma sys_polled K ph X lp fd n t rep w w' :
  let k := EpollWait fd n t in
  sys_ok K ph X w → w_loops w !! l = Some lp → poll_post l lp rep k w w' → keep K ph X w w'.
Proof.
  intros k Hok Hl [Hinv Hch Hlo [r Hh] Hcn Htm Ht Hot]. injection Hot as Ha Hs _ Hi Hx.
  eapply (sys_ok_same _ _ _ _ _ ph X ph); try done.
  - apply (loop_ok_equiv l w); [| |by rw Hlo lookup_insert_eq|done|apply Hok].
    + eapply poller_equiv_quiet; [by rw /poller_view Hlo lookup_insert_eq Hl| |exact Hh|done].
      intros c. by rw Hch store_revents_core.
    + intros lp'. rw Hlo lookup_insert_eq. intros [= <-]. by eauto.
  - congruence.
  - intros c. by rw Hch store_revents_face.
  - intros lp0 Hl0 <-. assert (lp0 = lp) as -> by congruence. eexists. rw Hlo lookup_insert_eq. split; [done|].
    rw /lp_step /=. split_and!; [done|done|by apply grown_pos|apply sub_app|by auto].
  - by rw Hlo dom_insert_lookup_L.
  - by rw Hh (assoc_L (++) _ [_] [_]) !open_fds_app.
  - rw Hh accepted_app /=. lia.
Qed.

Definition polled K X w0 w : Prop := keep K false X w0 w ∧
  ∃ lp, w_loops w !! l = Some lp ∧ Forall (live_chan l w) (el_active_channels_ lp).

Lemma safe_poll_phase K X w : sys_ok K false X w → wp (poll_phase l) (λ _, polled K X w) sys_end w.
Proof.
  intros Hok. rw /poll_phase. wp_step.
  eapply wp_conseq; [apply (safe_alter_loop host l s a K false X false); [done|lp_field]|]. intros [] w1 Hk1.
  destruct (sy_lp _ _ _ _ _ _ _ _ (proj1 Hk1)) as (lp & Hl & Hlk). wp_step.
  eapply wp_mono; [apply (EPoller_Poll_ok l lp); [apply Hk1|done|apply Hlk]| |by intros f w' [-> _]; left].
  intros r w2 (Hr & _ & Hlive & Hpost). pose proof (sys_polled K false X lp _ _ _ _ w1 w2 (proj1 Hk1) Hl Hpost) as Hk2.
  assert (Forall (live_chan l w2) r.2) as Hact.
  { rw Hr. apply Forall_forall. intros c ([ev c'] & -> & Hin)%list_elem_of_fmap.
    destruct (Hlive ev c' Hin) as (ch & _ & Hkl & _ & Hk). by eexists. }
  pose proof (pp_loops _ _ _ _ _ _ Hpost) as Hlo. rw /alter_loop. repeat wp_step.
  set (w3 := set_w_loops _ w2). set (w4 := set_w_loops _ w3).
  assert (keep K false X w2 w3) as Hk3 by (apply (sys_alter_loop _ _ _ _ _ false); [apply Hk2|lp_field]).
  assert (keep K false X w3 w4) as Hk4 by (apply (sys_alter_loop _ _ _ _ _ false); [apply Hk3|lp_field]).
  split; [do 2 (eapply keep_trans; [eassumption|]); by eapply keep_trans|].
  eexists. by rw /= !lookup_alter_eq Hlo lookup_insert_eq.
Qed.

Lemma safe_event_phase X w0 w :
  polled idle X w0 w → wp (event_phase (dispatch host) l) (λ _, keep idle false X w) sys_end w.
Proof.
  intros [[Hok _] (lp & Hl & Hact)]. rw /event_phase /alter_loop. repeat wp_step. set (w1 := set_w_loops _ w).
  assert (keep idle true X w w1) as Hk1 by (apply (sys_alter_loop _ _ _ _ _ false); [done|lp_field]).
  eapply wp_get_loop; [by rw /= lookup_alter_eq Hl|]. simpl. wp_step.
  eapply wp_conseq; [apply (wp_for_each (λ cs w', keep idle true X w w' ∧ Forall (live_chan l w') cs))|].
  - done.
  - intros k cs w2 [Hk2 [Hlive Hrest]%Forall_cons]. repeat wp_step. set (w3 := set_w_loops _ w2).
    assert (keep idle true X w2 w3) as Hk3 by (apply (sys_alter_loop _ _ _ _ _ true); [apply Hk2|lp_field]).
    destruct (sys_thread _ _ _ _ _ true X w3 (proj1 Hk3)) as (lp3 & Hl3 & _). eapply wp_get_loop; [done|].
    eapply wp_conseq; [by apply (safe_HandleEvent true X); [apply Hk3|]|]. intros [] w4 Hk4.
    split; [do 2 (eapply keep_trans; [eassumption|]); done|].
    eapply Forall_impl; [exact Hrest|]. intros k' H. eapply live_chan_ext; [apply Hk4|exact H].
  - intros [] w2 [Hk2 _]. repeat wp_step. set (w3 := set_w_loops _ w2). set (w4 := set_w_loops _ w3).
    assert (keep idle true X w2 w3) as Hk3 by (apply (sys_alter_loop _ _ _ _ _ true); [apply Hk2|lp_field]).
    assert (keep idle false X w3 w4) as Hk4 by (apply (sys_alter_loop _ _ _ _ _ true); [apply Hk3|lp_field]).
    do 2 (eapply keep_trans; [eassumption|]). done.
Qed.

(** ** Running the tasks *)

(** The connections that the closures [fs] own are there. *)
Definition owned_ok (fs : list Functor) w : Prop := ∀ c, Some c ∈ owns <$> fs → is_Some (w_conns w !! c).

Lemma task_owned f c w : task_ok w f → owns f = Some c → is_Some (w_conns w !! c).
Proof.
  destruct f; simpl; intros Hf [= <-]; try done; try by apply seen_some.
  - by apply seen_some, Hf.
  - destruct Hf as (cn & -> & _). by eexists.
Qed.

Lemma tasks_owned fs w : Forall (task_ok w) fs → owned_ok fs w.
Proof.
  intros Hfs c (f & Hf & Hin)%list_elem_of_fmap. rw Forall_forall in Hfs. by eapply task_owned; [apply Hfs|].
Qed.

(** The batch gets shorter by a task that has run. *)
Lemma sys_ran all f fs w0 w X :
  sys_ok (running all (f :: fs)) false X w → task_done f w0 w → ext w0 w → task_ok w0 f → f ∈ all →
  sys_ok (running all fs) false X w.
Proof.
  intros Hok Hdone He Hf Hall. eapply sys_context; [exact Hok|done|simpl..|apply Hok].
  2:{ intros c cn _ _ _ [[Ho|Ho]%elem_of_cons|Ho]; [right; left|left|by right].
      - apply list_elem_of_fmap. by exists f.
      - rw fmap_app. apply elem_of_app. by right. }
  intros c cn ch Hc Hk Hst _ [<-|Hin]%elem_of_cons; [right|left; apply elem_of_app; by right].
  destruct Hf as (cn0 & Hc0 & _). destruct (Hdone c cn0 eq_refl Hc0) as (ch' & Hk' & Hd).
  destruct (ex_conns _ _ He c cn0 Hc0) as (cn' & Hc' & Hsame & _). injection Hsame as _ _ _ E _ _.
  assert (cn' = cn) as -> by congruence. rw E Hk' in Hk. by injection Hk as <-.
Qed.

Lemma safe_tasks X all w :
  sys_ok (running all all) false X w → Forall (task_ok w) all →
  wp (for_each all run_functor) (λ _ w', keep (running all []) false X w w') sys_end w.
Proof.
  intros Hok Htk.
  eapply wp_conseq; [apply (wp_for_each (λ fs w', keep (running all fs) false X w w' ∧ Forall (task_ok w') fs ∧ fs ⊆ all))|].
  - done.
  - intros f rest w1 (Hk1 & [Hf Hrest]%Forall_cons & Hsub). assert (f ∈ all) as Hall by (apply Hsub; by left).
    eapply wp_conseq; [apply (safe_run_functor host l s a); [apply Hk1|done|]|].
    { intros c Hc. left. apply list_elem_of_fmap. by exists f. }
    intros [] w2 [Hk2 Hd]. split_and!.
    + split; [|etrans; [apply Hk1|apply Hk2]]. by eapply sys_ran; [apply Hk2|..|apply Hk2| |].
    + eapply Forall_impl; [exact Hrest|]. intros g. apply task_ok_ext, Hk2.
    + intros g Hg. apply Hsub. by right.
  - by intros [] w' [? _].
Qed.

(** ** Destroying the closures *)

(** Everything but the connection [c] and its channel is still there. *)
Definition but_for c w w' : Prop :=
  (∀ c', c' ≠ c → w_conns w' !! c' = w_conns w !! c') ∧
  (∀ c' cn, c' ≠ c → w_conns w !! c' = Some cn → w_chans w' !! tc_channel_ cn = w_chans w !! tc_channel_ cn).

Lemma seen_without c c' w w' : but_for c w w' → c' ≠ c → seen_conn w c' → seen_conn w' c'.
Proof. intros [Hc Hk] Hne (cn & ch & H1 & H2 & H3). exists cn, ch. by rw Hc // (Hk c' cn). Qed.

(** A task that does not own [c] does not need it. *)
Lemma task_ok_without c w w' f : but_for c w w' → owns f ≠ Some c → task_ok w f → task_ok w' f.
Proof.
  intros Hb Hne. pose proof Hb as [Hc _]. pose proof (λ c', seen_without c c' w w' Hb) as Hs.
  destruct f; simpl in *; try done; try (apply Hs; congruence); try (rw Hc; [congruence|done]).
  intros [? ?]. split; [|done]. apply Hs; [congruence|done].
Qed.

(** The world without the connection, its channel and its descriptor. *)
Definition without c cn w : World :=
  let w1 := set_w_chans (delete (tc_channel_ cn) (w_chans w)) w in
  let w2 := after_call (SysClose (tc_socket_ cn)) w1 in
  set_w_conns (delete c (w_conns w2)) w2.

Lemma loop_ok_without c cn ch w :
  loop_ok l w → w_chans w !! tc_channel_ cn = Some ch → ch_loop_ ch = l → ch_fd_ ch = tc_socket_ cn →
  ch_index_ ch = kNewChannel → loop_ok l (without c cn w).
Proof.
  intros Hlok Hk Hkl Hkf Hix. destruct (lo_loop _ _ Hlok) as (lp & Hl & _).
  pose proof (loop_ok_unregistered l _ ch lp w Hlok Hl Hk Hkl Hix) as Hep.
  pose proof (loop_ok_delete l _ ch lp w Hlok Hl Hk Hep) as Hlok1. rw Hkf in Hep.
  pose proof (loop_ok_close l lp (tc_socket_ cn) _ Hlok1 Hl Hep) as Hlok2.
  apply (loop_ok_equiv l (after_call (SysClose (tc_socket_ cn)) (set_w_chans (delete (tc_channel_ cn) (w_chans w)) w)));
    [|by eauto|by exists lp|done|done].
  by apply (poller_equiv_quiet _ []); [done|done|rw app_nil_r|].
Qed.

Lemma sys_without held c cn ch sv w :
  sys_ok (mkCtx [] None held []) false ∅ w → w_conns w !! c = Some cn → w_chans w !! tc_channel_ cn = Some ch →
  ch_index_ ch = kNewChannel → w_servers w !! s = Some sv → (∀ name, sv_connections_ sv !! name ≠ Some c) →
  (∀ f, f ∈ pending l w → owns f ≠ Some c) → sys_ok (mkCtx [] None held []) false ∅ (without c cn w).
Proof.
  intros [Hlok Hfds (lp & Hl & Hlk) (ac & Hac & Hal & Hnc & Hio & Hid1) (sv0 & Hsv & Hsl & Htp & Hcb1 & Hcb2 & Hcns) Hown Hslots Hnow Hids _ Hon]
    Hc Hk Hix Hs Hout Hfree.
  assert (sv0 = sv) as -> by (pose proof (so_server _ _ _ _ Hsv); congruence).
  destruct (Hcns c cn Hc) as [Hcl (ch0 & Hk0 & Hkl & Hkf & _) _ _ _ _]. assert (ch0 = ch) as -> by congruence.
  set (w' := without c cn w). set (k := tc_channel_ cn) in *. set (fd := tc_socket_ cn) in *.
  assert (open_fds (w_hist w') = open_fds (w_hist w) ∖ {[fd]}) as Hop by by rw /= open_fds_app.
  assert (accepted (w_hist w') = accepted (w_hist w)) as Hacc by (rw /= accepted_app /=; lia).
  assert (∀ k' ch', w_chans w' !! k' = Some ch' → k' ≠ k ∧ w_chans w !! k' = Some ch') as Hback.
  { intros k' ch' H. simpl in H. apply lookup_delete_Some in H as [Hne H]. by split. }
  assert (∀ c' cn', w_conns w' !! c' = Some cn' → c' ≠ c ∧ w_conns w !! c' = Some cn' ∧ tc_channel_ cn' ≠ k) as Hcback.
  { intros c' cn' H. simpl in H. apply lookup_delete_Some in H as [Hne H]. split_and!; [done|done|]. intros Heq. apply Hne. symmetry. by eapply Hown. }
  assert (∀ k' ch', k' ≠ k → w_chans w !! k' = Some ch' → ch_loop_ ch' = l → ch_fd_ ch' ≠ fd) as Hnefd.
  { intros k' ch' Hne Hk' Hkl' Heq. apply Hne. eapply (lo_fds _ _ Hlok); try done. congruence. }
  assert (but_for c w w') as Hb.
  { split.
    - intros c' Hne. by rw /= lookup_delete_ne.
    - intros c' cn' Hne Hc'. rw /= lookup_delete_ne //. intros Heq. apply Hne. by eapply Hown. }
  split; try done.
  - by eapply loop_ok_without.
  - intros k' ch' [Hne Hk']%Hback Hkl'. rw Hop. pose proof (Hfds k' ch' Hk' Hkl'). pose proof (Hnefd k' ch' Hne Hk' Hkl').
    by apply elem_of_difference; rw elem_of_singleton.
  - exists lp. split; [done|]. destruct Hlk as [? ? ? Htk Hwk]. split; try done.
    + rw Forall_forall in Htk.
      apply Forall_forall. intros f Hf. apply (task_ok_without c w); [done|by apply Hfree; rw /pending Hl|by apply Htk].
    + intros c' Hin. destruct (decide (c' = c)) as [-> |Hne]; [left; by rw /= lookup_delete_eq|].
      rw /weak_fine (proj1 Hb) //. destruct (Hwk c' Hin); [by left|right]. by apply (seen_without c c' w).
  - exists ac. rw Hop. pose proof (Hid1 k ch Hk Hkl). split_and!; try done.
    { apply elem_of_difference. rw elem_of_singleton. split; congruence. }
    intros k' ch' [_ Hk']%Hback. by apply (Hid1 k').
  - exists sv. split_and!; try done.
    + destruct Hsv as [? [? ?] ? ? ? Hm]. split; try done. intros name c' Hin. destruct (Hm name c' Hin) as (id & cn' & ?).
      exists id, cn'. rw /= lookup_delete_ne //. intros <-. by apply (Hout name).
    + intros c' cn' (Hne & Hc' & Hck)%Hcback. destruct (Hcns c' cn' Hc') as [? (ch' & ? & ? & ? & ?) ? ? ? ?].
      split; try done. exists ch'. by rw /= lookup_delete_ne.
  - intros c1 c2 cn1 cn2 (_ & H1 & _)%Hcback (_ & H2 & _)%Hcback. by eapply Hown.
  - intros k' ch' [Hne Hk']%Hback Hkl'. eapply Forall_impl; [exact (Hslots k' ch' Hk' Hkl')|]. intros o.
    assert (∀ c', (∃ cn', w_conns w !! c' = Some cn' ∧ tc_channel_ cn' = k') →
      ∃ cn', w_conns w' !! c' = Some cn' ∧ tc_channel_ cn' = k') as Hmove.
    { intros c' (cn' & Hc' & Heq). exists cn'. split; [|done]. rw /= lookup_delete_ne //. intros <-.
      apply Hne. rw -Heq. by assert (cn' = cn) as -> by congruence. }
    destruct o as [[]|]; simpl; auto.
  - intros k' ch' [_ Hk']%Hback. by apply (Hnow k').
  - rw Hacc. done.
Qed.

(** Who refers to connections does not change when one goes. *)
Definition same_refs w w' : Prop := ∀ c, referenced [] w' c = referenced [] w c.

(** The destructor of a connection that nobody refers to any more. *)
Lemma safe_conn_dtor held c w :
  sys_ok (mkCtx [] None held []) false ∅ w → is_Some (w_conns w !! c) → referenced [] w c = false →
  wp (TcpConnection_dtor c) (λ _ w', sys_ok (mkCtx [] None held []) false ∅ w' ∧
    w_conns w' = delete c (w_conns w) ∧ same_refs w w') sys_end w.
Proof.
  intros Hok [cn Hc] Href. rw /referenced in Href. rw !orb_false_iff in Href.
  destruct Href as [[[_ Hpend%bool_decide_eq_false_1] Hmap%bool_decide_eq_false_1] _].
  destruct (sys_lookup host l s a (mkCtx [] None held []) false ∅ c cn w Hok Hc) as (sv & Hs & Hsl & [Hcl (ch & Hk & Hkl & Hkf & Hd) _ _ _ Hh]).
  destruct (sys_thread host l s a (mkCtx [] None held []) false ∅ w Hok) as (lp & Hl & _).
  assert (∀ f, f ∈ pending l w → owns f ≠ Some c) as Hfree.
  { rw /pending Hl. intros f Hf Ho. apply Hpend. exists l, lp. split; [done|]. apply list_elem_of_fmap. by exists f. }
  assert (∀ name, sv_connections_ sv !! name ≠ Some c) as Hout.
  { intros name Hn. apply Hmap. exists s, sv. split; [done|]. by exists name, c. }
  assert (tc_state_ cn = Disconnected) as Hst.
  { destruct (decide (tc_state_ cn = Disconnected)) as [|Hn]; [done|]. destruct (Hout (tc_name_ cn)). apply Hh. by left. }
  destruct (Hd Hst) as (_ & [b Hseen] & Hq).
  assert (detached_chan ch) as [Hix Hadd].
  { destruct Hq as [[Hin|Hin]%elem_of_app|[? _]]; [set_solver|by destruct (Hfree _ Hin)|by apply not_elem_of_nil in Hin|done]. }
  assert (ch_event_handing_ ch = Some false) as Hev.
  { destruct b; [|done]. by pose proof (sy_now _ _ _ _ _ _ _ _ Hok _ ch Hk Hkl Hseen). }
  rw /TcpConnection_dtor. wp_step. eapply wp_get_conn; [done|]. wp_step.
  apply wp_assert_true; [by apply bool_decide_eq_true_2|]. wp_step. eapply wp_run.
  { eapply (Channel_dtor_done _ ch lp); [done|by rw Hkl|done|done|].
    by rw (loop_ok_unregistered l (tc_channel_ cn) ch lp w (sy_loop _ _ _ _ _ _ _ _ Hok)). }
  wp_step. rw /Socket_dtor /sockets_close. apply wp_logged. wp_step. split_and!; [by apply (sys_without held c cn ch sv)|done|].
  intros c'. by rw /referenced /= app_holds_close.
Qed.

(** A closure goes that was not the last one to own a connection. *)
Lemma sys_dropped f fs w :
  sys_ok (running (f :: fs) []) false ∅ w →
  (∀ c cn, owns f = Some c → w_conns w !! c = Some cn → tc_state_ cn = Disconnected → referenced fs w c = true) →
  sys_ok (running fs []) false ∅ w.
Proof.
  intros Hok Href. destruct (sy_only _ _ _ _ _ _ _ _ Hok) as [Hdl Hds]. eapply sys_context; [exact Hok|done|by intros ????????%not_elem_of_nil| |apply Hok].
  intros c cn Hc Hst _ [?%not_elem_of_nil|[[Ho|Ho]%elem_of_cons|Ho]]; [done| |right; by left|right; by right].
  destruct (sys_lookup host l s a _ false ∅ c cn w Hok Hc) as (sv & Hs & Hsl & [_ _ _ _ _ Hh]).
  destruct (sys_thread host l s a _ false ∅ w Hok) as (lp & Hl & _).
  pose proof (Href c cn (eq_sym Ho) Hc Hst) as H. rw /referenced !orb_true_iff !bool_decide_eq_true in H.
  destruct H as [[[H|H]|H]|H]; [right; by left|left| |right; right; by eexists].
  - destruct H as (l' & lp' & Hl' & Hin). assert (l' = l) as ->.
    { apply elem_of_dom_2 in Hl'. rw Hdl in Hl'. by apply elem_of_singleton in Hl'. }
    by rw /pending Hl' app_nil_r.
  - destruct H as (s' & sv' & Hs' & name & c' & Hn & ->). assert (s' = s) as ->.
    { apply elem_of_dom_2 in Hs'. rw Hds in Hs'. by apply elem_of_singleton in Hs'. }
    assert (sv' = sv) as -> by congruence.
    destruct (sy_srv _ _ _ _ _ _ _ _ Hok) as (sv0 & Hsv & _). assert (sv0 = sv) as -> by (pose proof (so_server _ _ _ _ Hsv); congruence).
    destruct (so_conns _ _ _ _ Hsv name c Hn) as (id & cn' & _ & _ & Hc' & Hname & _). assert (cn' = cn) as -> by congruence.
    rw -Hname in Hn. apply Hh in Hn as [?|?%not_elem_of_empty]; done.
Qed.

(** Every connection that is there is referred to by somebody. *)
Definition attended w : Prop := ∀ c, is_Some (w_conns w !! c) → referenced [] w c = true.

(** What the application has let go of goes. *)
Lemma safe_let_go w :
  sys_ok idle false ∅ w → wp let_go (λ _ w', sys_ok idle false ∅ w' ∧ attended w') sys_end w.
Proof.
  intros Hok. rw /let_go. do 2 wp_step. eapply wp_conseq; [apply (wp_for_each (λ cs w', sys_ok idle false ∅ w' ∧ same_refs w w' ∧
    NoDup cs ∧ (∀ c, c ∈ cs → is_Some (w_conns w' !! c)) ∧ ∀ c, is_Some (w_conns w' !! c) → c ∈ cs ∨ referenced [] w c = true))|].
  - split_and!; [done|done|apply NoDup_elements|..]; intros c; rw elem_of_elements elem_of_dom; auto.
  - intros c cs w1 (Hok1 & Hsame & [Hc Hnd]%NoDup_cons & Hin & Hout). rw /release. do 2 wp_step.
    destruct (referenced [] w1 c) eqn:Href; simpl.
    + wp_step. split_and!; [done|done|done|intros c' ?; apply Hin; by right|].
      intros c' [[-> |?]%elem_of_cons|?]%Hout; [right; by rw -Hsame|by left|by right].
    + eapply wp_conseq; [apply (safe_conn_dtor (held_by [])); [done|apply Hin; by left|done]|].
      intros [] w2 (Hok2 & Hdel & Hsame2). split_and!; [done|intros c'; by rw Hsame2 Hsame|done|..]; intros c'; rw Hdel.
      * intros Hc'. rw lookup_delete_ne; [by intros <-|]. apply Hin. by right.
      * intros [cn [Hne Hcn]%lookup_delete_Some]. destruct (Hout c') as [[->|?]%elem_of_cons|?]; [by eexists|done|by left|by right].
  - intros [] w' (Hok' & Hsame & _ & _ & Hout). split; [done|]. intros c Hc. rw Hsame.
    by destruct (Hout c Hc) as [?%not_elem_of_nil|].
Qed.

Lemma safe_drop_tasks fs w :
  sys_ok (running fs []) false ∅ w → owned_ok fs w →
  wp (drop_tasks fs) (λ _ w', sys_ok idle false ∅ w' ∧ attended w') sys_end w.
Proof.
  revert w. induction fs as [|f fs IH]; intros w Hok Hown; cbn [drop_tasks]; [by apply safe_let_go|]. wp_step.
  assert (owned_ok fs w) as Hrest by (intros c Hc; apply Hown; by right).
  destruct (owns f) as [c|] eqn:Hf; [|wp_step; apply IH; [|done]; apply (sys_dropped f); [done|congruence]].
  rw /release. do 2 wp_step.
  destruct (referenced fs w c) eqn:Href; simpl; [wp_step; apply IH; [|done]; apply (sys_dropped f); [done|congruence]|].
  rw /referenced !orb_false_iff in Href. destruct Href as [[[Hfs H1] H2] H3]. apply bool_decide_eq_false_1 in Hfs.
  eapply wp_conseq; [apply (safe_conn_dtor (held_by (f :: fs))); [done|apply Hown; rw fmap_cons Hf; by left|]|].
  { by rw /referenced H1 H2 H3. }
  intros [] w' (Hok' & Hsame & _). apply IH.
  - apply (sys_dropped f); [done|]. intros c' cn'. rw Hf Hsame. intros [= <-]. by rw lookup_delete_eq.
  - intros c' Hc'. rw Hsame lookup_delete_ne; [by intros ->|by apply Hrest].
Qed.

(** ** Rounds *)

Lemma owned_ext fs w w' : ext w w' → owned_ok fs w → owned_ok fs w'.
Proof. intros He H c Hc. by eapply is_some_ext, H. Qed.

(** Who refers to a connection does not depend on the flags of a loop. *)
Lemma attended_alter f l' w :
  (∀ lp, el_pendings_ (f lp) = el_pendings_ lp) → attended w → attended (set_w_loops (alter f l' (w_loops w)) w).
Proof.
  intros Hf Hat c Hc. rw -(Hat c Hc) /referenced /=. do 2 f_equal. f_equal. apply bool_decide_ext. split.
  - intros (l0 & lp & Hl & Hin). rw lookup_alter in Hl. case_decide; [subst|by exists l0, lp].
    apply fmap_Some in Hl as (lp0 & Hl & ->). exists l0, lp0. by rw -(Hf lp0).
  - intros (l0 & lp & Hl & Hin). destruct (decide (l' = l0)) as [-> |Hne].
    + exists l0, (f lp). by rw lookup_alter_eq Hl Hf.
    + exists l0, lp. by rw lookup_alter_ne.
Qed.

Lemma safe_pending_phase w :
  sys_ok idle false ∅ w →
  wp (pending_phase run_functor drop_tasks l) (λ _ w', sys_ok idle false ∅ w' ∧ attended w') sys_end w.
Proof.
  intros Hok. rw /pending_phase /alter_loop. repeat wp_step. set (w1 := set_w_loops _ w).
  assert (keep idle false ∅ w w1) as Hk1 by (apply (sys_alter_loop _ _ _ _ _ false); [done|lp_field]).
  destruct (sy_lp _ _ _ _ _ _ _ _ (proj1 Hk1)) as (lp & Hl & Hlk). eapply wp_get_loop; [done|]. repeat wp_step.
  set (w2 := set_w_loops _ w1). set (K := running (el_pendings_ lp) (el_pendings_ lp)).
  assert (sys_ok K false ∅ w1) as HokK.
  { eapply sys_context; [apply Hk1|done|by intros ????????%not_elem_of_nil| |apply Hk1].
    intros c cn _ _ _ [?%not_elem_of_nil|[?%not_elem_of_nil|?]]; [done..|]. right. by right. }
  assert (keep K false ∅ w1 w2) as Hk2.
  { apply (sys_alter_loop _ _ _ _ _ false); [done|]. intros lp' Hl' [? ? ? ?]. simplify_eq. 
    rw /lp_step /=. split_and!; try done. by intros f ?%not_elem_of_nil. }
  assert (Forall (task_ok w2) (el_pendings_ lp)) as Htk.
  { eapply Forall_impl; [apply Hlk|]. intros f. apply task_ok_ext, Hk2. }
  eapply wp_conseq; [apply safe_tasks; [apply Hk2|done]|]. intros [] w3 Hk3. wp_step.
  eapply wp_conseq; [apply safe_drop_tasks; [apply Hk3|]|].
  { eapply owned_ext; [apply Hk3|]. by apply tasks_owned. }
  intros [] w4 [Hok4 Hat4]. wp_step. split; [by apply (sys_alter_loop _ _ _ _ _ false); [|lp_field]|].
  by apply attended_alter.
Qed.

Lemma safe_loop_round w :
  sys_ok idle false ∅ w →
  wp (loop_round (dispatch host) run_functor drop_tasks l) (λ _ w', sys_ok idle false ∅ w' ∧ attended w') sys_end w.
Proof.
  intros Hok. rw /loop_round. wp_step. eapply wp_conseq; [by apply (safe_poll_phase idle ∅)|]. intros [] w1 Hp. wp_step.
  eapply wp_conseq; [by eapply safe_event_phase|]. intros [] w2 Hk. apply safe_pending_phase, Hk.
Qed.

Lemma safe_loop_while fuel w :
  sys_ok idle false ∅ w → attended w →
  wp (loop_while (dispatch host) run_functor drop_tasks fuel l) (λ _ w', sys_ok idle false ∅ w' ∧ attended w') sys_end w.
Proof.
  revert w. induction fuel as [|fuel IH]; intros w Hok Hat; cbn [loop_while]; wp_step;
    destruct (sys_thread host l s a idle false ∅ w Hok) as (lp & Hl & _); (eapply wp_get_loop; [done|]);
    destruct (el_quitting_ lp); try (by wp_step).
  wp_step. eapply wp_conseq; [by apply safe_loop_round|]. intros [] w1 [Hok1 Hat1]. by apply IH.
Qed.
(** The main loop, for any number of rounds. *)
Lemma safe_Start fuel lp w :
  sys_ok idle false ∅ w → attended w → w_loops w !! l = Some lp → el_running_ lp = false → el_quitting_ lp = false →
  wp (loop_Start host fuel l) (λ _ w', sys_ok idle false ∅ w' ∧ attended w') sys_end w.
Proof.
  intros Hok Hat Hl Hr Hq. rw /loop_Start /Start. wp_step. eapply sys_assert_thread; [done|]. wp_step.
  eapply wp_get_loop; [done|]. wp_step. apply wp_assert_true; [by rw Hr|]. wp_step. apply wp_assert_true; [by rw Hq|].
  rw /alter_loop. do 2 wp_step.
  assert (∀ b w, sys_ok idle false ∅ w → sys_ok idle false ∅ (set_w_loops (alter (set_el_running_ b) l (w_loops w)) w)) as Hset.
  { intros b w1 Hok1. by apply (sys_alter_loop _ _ _ _ _ false); [|lp_field]. }
  wp_step. eapply wp_conseq; [apply safe_loop_while; [by apply Hset|by apply attended_alter]|]. intros ended w2 [Hok2 Hat2].
  destruct ended; repeat wp_step; [|done]. split; [by apply Hset|by apply attended_alter].
Qed.
End rounds.
