(* ===== verification/Startup.v ===== *)
(** * Startup: from the first instruction to a listening server

    The constructors of the loop and of the server, the setting of callbacks
    and timers, and [TcpServer::Start] without threads establish the invariant
    of SysInv.v: nothing is assumed of the state of the process. *)

From S2P Require Import Prelude Buffer BufferSpec World Kernel Poller Channel Sample Reactor EventLoop.
From S2P Require Import Timer Socket TcpConnection ConnInv ConnSteps ConnSpec ConnLife TimerSpec TimerFire LoopLife.
From S2P Require Import Inet Acceptor ThreadPool TcpServer ServerSpec System SysInv ConnSafe TimerSafe ServerSafe RoundSafe.

Lemma accepted_nonneg h : 0 ≤ accepted h.
Proof. induction h as [|e h IH]; simpl; [done|]. pose proof (accept_step_nonneg e). lia. Qed.

(** ** What construction does to sockets *)

(** Nothing is sent, received, accepted or closed. *)
Definition soundless (e : event) : bool := match e with Sys k _ => silent k | User _ => true end.
Definition hushed (w w' : World) : Prop := ∃ evs, w_hist w' = w_hist w ++ evs ∧ forallb soundless evs = true.

Lemma hushed_same w w' : w_hist w' = w_hist w → hushed w w'.
Proof. intros Hh. exists []. by rw app_nil_r. Qed.
#[export] Instance hushed_preorder : PreOrder hushed.
Proof.
  split; [intros w; by apply hushed_same|]. intros x y z (e1 & H1 & S1) (e2 & H2 & S2). exists (e1 ++ e2).
  by rw H2 H1 app_assoc forallb_app S1.
Qed.
#[export] Instance hushed_stable : Stable (always hushed).
Proof.
  split; try (intros; by apply hushed_same); [exact _|..].
  - intros w w' [= _ Hh _ _ _ _ _ _]. by apply hushed_same.
  - intros k r w Hk. exists [Sys k r]. by rw /= Hk.
  - intros u w. by exists [User u].
Qed.
Lemma hushed_hist w w' : hushed w w' → forallb soundless (w_hist w) = true → forallb soundless (w_hist w') = true.
Proof. intros (evs & -> & He) Hh. by rw forallb_app Hh. Qed.

(** A result and a relation to the world before. *)
Lemma wp_alongside (R : effect) {A} (m : M World A) Q E w :
  wp m Q E w → along R m → wp m (λ a w', Q a w' ∧ goes R w w') (λ f w', E f w' ∧ fails R w w') w.
Proof. intros Hm HR. specialize (HR w). rw /wp in Hm *. by destruct (m w). Qed.

(** [exit] before anything was sent, received, accepted or closed. *)
Definition early_exit (f : failure) (w : World) : Prop := f = Exit2 ∧ forallb soundless (w_hist w) = true.

Section construction.
Context (host : endian) {os : OS} {heap : Heap}.

Lemma hushed_modify (f : World → World) : (∀ w, w_hist (f w) = w_hist w) → along (always hushed) (modify f).
Proof. intros Hf. apply along_modify. intros w. by apply hushed_same. Qed.
Lemma hushed_channel l fd : along (always hushed) (make_channel l fd).
Proof. rw /make_channel. solve_along. by apply hushed_modify. Qed.
#[local] Hint Resolve hushed_channel : keeps.
Lemma hushed_loop : along (always hushed) EventLoop_ctor.
Proof.
  rw /EventLoop_ctor /loop_members /TimerQueue_ctor /create_epollfd /create_eventfd /create_timerfd /critical
    /BindReadCallback /EnableReadEvent /alter_tq /alter_loop. solve_along; by apply hushed_modify.
Qed.
Lemma hushed_server l addr reuse name : along (always hushed) (TcpServer_ctor host l addr reuse name).
Proof.
  rw /TcpServer_ctor /Acceptor_ctor /create_socketfd /create_idlefd /SetReuseAddr /SetReusePort /Socket_Bind
    /bind_or_die /BindReadCallback /BindNewConnCallback /alter_acc. solve_along; by apply hushed_modify.
Qed.
End construction.

Section program.
Context (host : endian) {text : InetText} {cw : Clockwork} {os : OS} {heap : Heap} {user : UserCode} {refs : AppRefs}.
Context `{!EpollDelOk os, !EpollCtlRet os, !SendOk os, !ReadvOk os, !EpollWaitOk os}.
Context `{!FdFresh os, !HeapFresh heap, !FewAccepts os, !ClockFit cw os}.
Implicit Types (w : World) (cn : TcpConnection) (ch : Channel) (lp : EventLoop) (sv : TcpServer) (X : gset nat).

(** ** Construction *)

Definition new_server (l : nat) (addr : list byte) (name : string) (a : nat) : TcpServer :=
  mkTcpServer l addr name a (EventLoopThreadPool_new l (name +:+ ".IoThreads"))
    None (Some DefaultCb) (Some DefaultCb) None false ∅.

Lemma TcpServer_ctor_ok l addr reuse name w :
  loop_ok l w → fds_open l w →
  wp (TcpServer_ctor host l addr reuse name) (λ s w', ∃ a w1 ac, acceptor_built l a w w1 ∧
    w_accs w1 !! a = Some ac ∧
    w' = set_w_accs (<[a := set_ac_on_new_connection_ (Some s) ac]> (w_accs w1))
      (set_w_servers (<[s := new_server l addr name a]> (w_servers w1)) w1)) only_exit w.
Proof.
  intros Hlok Hfds. rw /TcpServer_ctor. repeat wp_step. eapply wp_conseq; [by apply Acceptor_ctor_ok|].
  intros a w1 [Hab _]. repeat wp_step. rw /BindNewConnCallback.
  destruct (ab_made _ _ _ _ Hab) as (fd & k & ifd & _ & _ & _ & _ & _ & Hac & _).
  eapply wp_alter_acc; [by rw /= Hac lookup_insert_eq|]. wp_step.
  eexists a, w1, _. split_and!; [done|by rw Hac lookup_insert_eq|done].
Qed.

(** The timer queue of a new loop. *)
Lemma built_timers l lp w0 w1 :
  w_timers w0 = ∅ → loop_built l w0 w1 → w_loops w1 !! l = Some lp →
  timers_ok [] (w_timers w1) (el_timer_queue_ lp).
Proof.
  intros H0 [_ _ (lp' & Hl & _ & _ & Hok & Htm & _) _ _ Hr _] Hl'. injection Hr as _ Ht _ _ _ _ _.
  assert (lp' = lp) as -> by congruence. pose proof (tq_ok_at _ _ _ Hok) as Hat.
  destruct Hat as (_ & _ & Hq & Hown). assert (w_timers w1 = ∅) as He by congruence.
  split; [done|intros t Hin; apply Hown, timer_owned_spec; by auto..|by rw Htm|by rw He].
Qed.

(** A loop, an acceptor and a server that has just been started; timers may
    have been set meanwhile. *)
Lemma sys_start l s a sv lp w0 w1 w2 w3 :
  w_loops w0 = ∅ → w_chans w0 = ∅ → w_conns w0 = ∅ → w_next_conn_id_ w0 = 0 → w_next_index_ w0 = 0 →
  loop_built l w0 w1 → acceptor_built l a w1 w2 → loop_ok l w3 → w_loops w1 !! l = Some lp →
  (w_tid w3, w_chans w3, w_conns w3, w_next_conn_id_ w3, w_next_index_ w3) =
    (w_tid w2, w_chans w2, w_conns w2, w_next_conn_id_ w2, w_next_index_ w2) →
  (∃ tq, w_loops w3 = <[l := with_tq tq lp]> (w_loops w2) ∧ timers_ok [] (w_timers w3) tq) →
  (∃ evs, w_hist w3 = w_hist w2 ++ evs ∧ forallb unseen evs = true) →
  (∃ ac, w_accs w2 !! a = Some ac ∧ w_accs w3 !! a = Some (set_ac_on_new_connection_ (Some s) ac)) →
  w_servers w3 = {[s := sv]} → sv_loop_ sv = l → sv_connections_ sv = ∅ →
  tp_base_loop_ (sv_thread_pool_ sv) = l → tp_started_ (sv_thread_pool_ sv) = true →
  tp_loops_ (sv_thread_pool_ sv) = [] → is_Some (sv_connection_cb_ sv) → is_Some (sv_message_cb_ sv) →
  sys_ok host l s a idle false ∅ w3.
Proof.
  intros Hl0 Hk0 Hc0 Hid0 Hix0 [_ _ (lp' & Hl & Hfl & Hp & _ & _ & Hsz & _ & _ & _ & Hch1) Hfds1 _ Hr1 Hot1]
    [_ _ (fd & k & ifd & Hk & _ & Hfd & Hidle & Hop & Hac & Hch2) Hr2] Hlok3 Hl' H3 (tq & Hlo & Htq) (evs & Hh & Hev)
    (ac & Ha2 & Ha3) Hs Hsl Hcs Htb Hts Htl Hcb1 Hcb2.
  assert (lp' = lp) as -> by congruence. destruct (unseen_hist (w_hist w2) evs Hev) as (_ & Hop3 & _). rw -Hh in Hop3.
  injection H3 as Ht Hch Hcn Hid Hix. injection Hr2 as Ht2 _ Hlo2 Hcn2 _ _ Hid2 Hix2.
  injection Hr1 as Ht1 _ Hcn1 _ _ Hid1 Hix1.
  rw Hac lookup_insert_eq in Ha2. injection Ha2 as <-.
  assert (w_conns w3 = ∅) as Hnone by congruence.
  assert (∀ k' ch, w_chans w3 !! k' = Some ch → ch_loop_ ch = l →
    Forall (slot_ok l a w3 k') (slots ch) ∧ ch_event_handing_ ch = None ∧ ch_fd_ ch ∈ {[fd]} ∪ open_fds (w_hist w1)) as Hchans.
  { intros k' ch. rw Hch Hch2 lookup_insert. case_decide.
    - intros [= <-] _. split_and!; [by repeat constructor|done|]. cbn. set_solver.
    - intros Hk' Hkl. rw and_assoc. split; [|apply elem_of_union_r; by eapply Hfds1].
      rw Hch1 Hk0 !lookup_insert in Hk'. repeat case_decide; try done; injection Hk' as <-; (split; [by repeat constructor|done]). }
  split; rw ?Hnone //.
  - intros k' ch Hk' Hkl. rw Hop3 Hop. destruct (Hchans k' ch Hk' Hkl) as (_ & _ & ?). set_solver.
  - exists (with_tq tq lp). rw Hlo lookup_insert_eq. split; [done|]. injection Hfl as _ _ Hev' _. split; [done..|by rw /= Hp|]. intros c _. left. by rw Hnone.
  - eexists. split; [exact Ha3|]. rw Hop3 Hop. cbn. split_and!; [done|done|set_solver|].
    intros k' ch Hk' Hkl Heq. destruct (Hchans k' ch Hk' Hkl) as (_ & _ & Hin). rw Heq in Hin. by apply Hidle.
  - exists sv. split_and!; try done. split; [by rw Hs lookup_singleton_eq| |congruence|..].
    + split; [done|]. rw Htb. apply Hlok3.
    + rw Hix Hix2 Hix1 Hix0. lia.
    + rw Hid Hid2 Hid1 Hid0. lia.
    + intros name c. by rw Hcs.
  - intros k' ch Hk' Hkl. by apply (Hchans k' ch).
  - intros k' ch Hk' Hkl. by destruct (Hchans k' ch Hk' Hkl) as (_ & -> & _).
  - rw Hid Hid2 Hid1 Hid0. apply accepted_nonneg.
  - rw Hs dom_singleton_L Hlo Hlo2 dom_insert_lookup_L //. split; [|done].
    apply set_eq. intros l'. rw elem_of_dom elem_of_singleton. split.
    + intros [lp' Hl'']. destruct (decide (l' = l)) as [|Hne]; [done|]. by rw Hot1 // Hl0 in Hl''.
    + intros ->. by exists lp.
Qed.

Lemma exits {A} (m : M World A) Q w : wp m Q early_exit w → wp m Q sys_end w.
Proof. intros H. eapply wp_mono; [exact H|done|intros f w' [? _]; by left]. Qed.

(** Code that moves nothing, after nothing was moved. *)
Lemma wp_hushed {A} (m : M World A) Q w :
  wp m Q only_exit w → along (always hushed) m → forallb soundless (w_hist w) = true →
  wp m (λ a w', Q a w' ∧ forallb soundless (w_hist w') = true) early_exit w.
Proof.
  intros Hm Ha Hw. eapply wp_mono; [by apply (wp_alongside (always hushed))|..].
  - intros a w' [? ?]. split; [done|by eapply hushed_hist].
  - intros f w' [? ?]. split; [done|by eapply hushed_hist].
Qed.

Lemma empty_clean : epoll_clean (os := os) empty_world.
Proof. split; [done|]. intros h1 c r h2 H. by destruct h1. Qed.

(** The first loop of a process. *)
Lemma first_loop :
  wp EventLoop_ctor (λ l w, loop_built l empty_world w ∧ forallb soundless (w_hist w) = true) early_exit empty_world.
Proof.
  eapply wp_conseq; [apply wp_hushed; [by apply (EventLoop_ctor_ok empty_world); [|apply empty_clean]|apply hushed_loop|done]|].
  intros l w [[_ Hlb] Hh]. by split.
Qed.

(** Starting a pool without threads. *)
Lemma Pool_Start_empty tp lp w :
  tp_started_ tp = false → tp_num_threads_ tp = 0 → w_loops w !! tp_base_loop_ tp = Some lp →
  el_thread_id_ lp = w_tid w →
  Pool_Start tp None w = Done (set_tp_loops_ (tp_loops_ tp) (set_tp_started_ true tp)) w.
Proof.
  intros Hs Hn Hl Ht. rw /Pool_Start Hs. rw {1}/mbind {1}/M_bind /= (assert_thread_eq _ lp) //.
  by rw Hn.
Qed.

Definition started (sv : TcpServer) : TcpServer :=
  let tp := sv_thread_pool_ sv in
  set_sv_thread_pool_ (set_tp_loops_ (tp_loops_ tp) (set_tp_started_ true tp)) (set_sv_started_ true sv).

(** [TcpServer::Start] without threads, on the server's own thread. *)
Lemma Server_Start_empty s sv ac lp (Q : () → World → Prop) E w :
  w_servers w !! s = Some sv → tp_started_ (sv_thread_pool_ sv) = false → tp_num_threads_ (sv_thread_pool_ sv) = 0 →
  sv_thread_init_cb_ sv = None → tp_base_loop_ (sv_thread_pool_ sv) = sv_loop_ sv →
  w_loops w !! sv_loop_ sv = Some lp → el_thread_id_ lp = w_tid w →
  w_accs w !! sv_acceptor_ sv = Some ac → ac_listening_ ac = false →
  wp (Listen (sv_acceptor_ sv)) Q E (set_w_servers (<[s := started sv]> (w_servers w)) w) →
  wp (Server_Start s) Q E w.
Proof.
  intros Hs Hst Hn Hinit Hb Hl Ht Ha Hli HQ. rw /Server_Start. wp_step. eapply wp_alter_server; [done|].
  wp_step. eapply wp_get_server; [apply lookup_insert_eq|]. wp_step. rw /= Hinit.
  eapply wp_run; [eapply Pool_Start_empty; [done|done|by rw Hb|done]|]. wp_step.
  eapply wp_alter_server; [apply lookup_insert_eq|]. wp_step. eapply wp_get_acc; [done|]. wp_step.
  apply wp_assert_true; [by rw /IsListening Hli|]. rw /RunInLoop. wp_step. eapply wp_IsInLoopThread; [done|].
  rw Ht Nat.eqb_refl /= insert_insert_eq. exact HQ.
Qed.

(** ** A server under construction *)

(** The first loop of the process and a server on it, with callbacks and
    timers set but not started. *)
Record made (l s a : nat) sv w : Prop := {
  md_built : ∃ w1 w2 lp tq, loop_built l empty_world w1 ∧ acceptor_built l a w1 w2 ∧ w_loops w1 !! l = Some lp ∧
    (w_tid w, w_chans w, w_conns w, w_next_conn_id_ w, w_next_index_ w) =
      (w_tid w2, w_chans w2, w_conns w2, w_next_conn_id_ w2, w_next_index_ w2) ∧
    w_loops w = <[l := with_tq tq lp]> (w_loops w2) ∧ timers_ok [] (w_timers w) tq ∧
    (∃ evs, w_hist w = w_hist w2 ++ evs ∧ forallb unseen evs = true) ∧
    (∃ ac, w_accs w2 !! a = Some ac ∧ w_accs w = {[a := set_ac_on_new_connection_ (Some s) ac]});
  md_hist : forallb soundless (w_hist w) = true;
  md_server : w_servers w = {[s := sv]};
}.

(** What the construction of a server leaves as it is until it is started. *)
Definition unstarted (l a : nat) sv : Prop :=
  (sv_loop_ sv, sv_acceptor_ sv, sv_thread_init_cb_ sv, sv_connections_ sv) = (l, a, None, ∅) ∧
  (let tp := sv_thread_pool_ sv in
   (tp_base_loop_ tp, tp_started_ tp, tp_num_threads_ tp, tp_loops_ tp) = (l, false, 0, [])) ∧
  is_Some (sv_connection_cb_ sv) ∧ is_Some (sv_message_cb_ sv).

Lemma made_ctor l addr reuse name w1 :
  loop_built l empty_world w1 → forallb soundless (w_hist w1) = true →
  wp (TcpServer_ctor host l addr reuse name) (λ s w, ∃ a, made l s a (new_server l addr name a) w) early_exit w1.
Proof.
  intros Hlb Hs1. eapply wp_conseq; [apply wp_hushed; [apply (TcpServer_ctor_ok l); [apply Hlb|exact (lb_fds _ _ _ Hlb)]|apply hushed_server|done]|].
  intros s w [(a & w2 & ac & Hab & Ha & ->) Hh]. exists a.
  destruct (lb_loop _ _ _ Hlb) as (lp & Hl & _). pose proof (built_timers l lp empty_world w1 eq_refl Hlb Hl) as Htm.
  pose proof (ab_rest _ _ _ _ Hab) as Hr. injection Hr as _ Htms Hlo _ Hsv _ _ _.
  pose proof (lb_rest _ _ _ Hlb) as Hr1. injection Hr1 as _ _ _ Hac1 Hsv1 _ _.
  split; [|done|by rw /= Hsv Hsv1].
  exists w1, w2, lp, (el_timer_queue_ lp). split_and!; try done.
  - rw /= insert_id //. rw Hlo Hl. by destruct lp.
  - by rw /= Htms.
  - exists []. by rw app_nil_r.
  - exists ac. split; [done|]. destruct (ab_made _ _ _ _ Hab) as (fd & k & ifd & _ & _ & _ & _ & _ & Hac & _).
    by rw /= Hac Hac1 insert_insert_eq insert_empty.
Qed.

Lemma made_loop_ok l s a sv w : made l s a sv w → loop_ok l w.
Proof.
  intros [(w1 & w2 & lp & tq & Hlb & Hab & Hl & [= Ht Hch _ _ _] & Hlo & _ & (evs & Hh & Hev) & _) _ _].
  pose proof (ab_rest _ _ _ _ Hab) as Hr. injection Hr as _ _ Hlo2 _ _ _ _ _. rw -Hlo2 in Hl.
  apply (loop_ok_equiv l w2); [| |by rw Hlo lookup_insert_eq|done|apply Hab].
  - apply (poller_equiv_quiet _ evs); [|by rw Hch|done|by apply (unseen_hist [])]. by rw /poller_view Hlo lookup_insert_eq Hl.
  - intros lp'. rw Hlo lookup_insert_eq. intros [= <-]. by exists lp.
Qed.

(** Changing the server. *)
Lemma made_alter l s a sv f (Q : () → World → Prop) E w :
  made l s a sv w → (∀ w', made l s a (f sv) w' → Q () w') → wp (alter_server f s) Q E w.
Proof.
  intros [Hb Hh Hs] HQ. eapply wp_alter_server; [by rw Hs lookup_singleton_eq|]. apply HQ.
  split; [done|done|]. by rw /= Hs insert_singleton_eq.
Qed.

(** Setting timers. *)
Lemma made_queue l s a sv w : made l s a sv w → ∃ lp, queue_at l [] lp w.
Proof.
  intros Hm. destruct (lo_loop _ _ (made_loop_ok _ _ _ _ _ Hm)) as (lp' & Hl' & Ht').
  destruct Hm as [(w1 & w2 & lp & tq & Hlb & Hab & Hl & _ & Hlo & Htq & _) _ _]. exists lp'.
  rw Hlo lookup_insert_eq in Hl'. injection Hl' as <-. split; [|done].
  split_and!; [by rw Hlo lookup_insert_eq|done|apply Htq|]. destruct Htq as [Hq Hc He _ _].
  intros t [Ho|[Ho|[Ho|[l' Ho]]]]%timer_owned_spec; [|by apply Hc|by apply He|].
  - apply list_elem_of_fmap in Ho as ([e t'] & -> & Hin). destruct (qo_entry _ _ Hq e t' Hin) as (_ & tm & ? & _). by exists tm.
  - destruct (lb_loop _ _ _ Hlb) as (lp0 & Hl0 & _ & Hp & _). assert (lp0 = lp) as -> by congruence.
    rw /= Hp in Ho. by apply not_elem_of_nil in Ho.
Qed.

Lemma made_timed l s a sv lp w w' :
  made l s a sv w → w_loops w !! l = Some lp → timed l [] lp w w' → made l s a sv w'.
Proof.
  intros [(w1 & w2 & lp0 & tq & Hlb & Hab & Hl0 & H1 & Hlo & Htq & (evs & Hh & Hev) & Ha) Hsl Hs] Hl
    [(tq' & Hlo' & Htq') _ (evs' & Hh' & Hev') Hrest].
  injection Hrest as E1 E2 E3 E4 E5 _ E6 E7. injection H1 as F1 F2 F3 F4 F5.
  rw Hlo lookup_insert_eq in Hl. injection Hl as <-. split; [| |by rw E5].
  2:{ rw Hh' forallb_app Hsl. eapply forallb_mono, Hev'. by intros [[] r|]. }
  exists w1, w2, lp0, tq'. split_and!; try done; [congruence|by rw Hlo' Hlo insert_insert_eq| |by rw E4].
  exists (evs ++ evs'). by rw Hh' Hh app_assoc forallb_app Hev.
Qed.

Context `{Hgood : !∀ l s a, GoodUser host l s a user}.

(** [TcpServer::Start] without threads. *)
Lemma made_Start l s a sv w :
  made l s a sv w → unstarted l a sv →
  wp (Server_Start s) (λ _ w', sys_ok host l s a idle false ∅ w' ∧ attended w' ∧
    ∃ lp, w_loops w' !! l = Some lp ∧ el_running_ lp = false ∧ el_quitting_ lp = false) sys_end w.
Proof.
  intros Hm ([= Hsl Hsa Hin Hcs] & [= Htb Hts Htn Htl] & Hcb1 & Hcb2). pose proof (made_loop_ok _ _ _ _ _ Hm) as Hlok.
  destruct (lo_loop _ _ Hlok) as (lp & Hl & Ht).
  destruct Hm as [(w1 & w2 & lp0 & tq & Hlb & Hab & Hl0 & Hsame & Hlo & Htq & Hh & (ac & Ha2 & Ha)) _ Hs].
  destruct (ab_made _ _ _ _ Hab) as (fd & k & ifd & _ & _ & _ & _ & _ & Hac & Hch).
  rw Hac lookup_insert_eq in Ha2. injection Ha2 as <-. injection Hsame as F1 F2 F3 F4 F5.
  assert (w_accs w !! a = Some (set_ac_on_new_connection_ (Some s) (mkAcceptor false l fd k None ifd))) as Ha' by by rw Ha lookup_singleton_eq.
  eapply (Server_Start_empty s sv _ lp); [by rw Hs lookup_singleton_eq|done|done|done|congruence|by rw Hsl|done|by rw Hsa|done|].
  set (w4 := set_w_servers _ w). rw Hsa.
  assert (sys_ok host l s a idle false ∅ w4) as Hok.
  { eapply (sys_start l s a (started sv) lp0 empty_world w1 w2 w4); try done.
    - apply (loop_ok_equiv l w); [|by eauto|by exists lp|done|done]. by apply (poller_equiv_quiet _ []); [done|done|rw app_nil_r|].
    - by rw /= F1 F2 F3 F4 F5.
    - by exists tq.
    - eexists. rw Hac lookup_insert_eq. by split.
    - by rw /= Hs insert_singleton_eq. }
  pose proof (ab_rest _ _ _ _ Hab) as Hr2. injection Hr2 as _ _ _ Hcn2 _ _ _ _.
  pose proof (lb_rest _ _ _ Hlb) as Hr1. injection Hr1 as _ _ Hcn1 _ _ _ _.
  eapply wp_conseq; [eapply (safe_Listen host (user := user) l s a idle false ∅ _ (set_ch_on_read_ (Some (CbAccept a)) (Channel_new l fd))); [exact Hok|exact Ha'| |done|]|].
  - simpl. by rw F2 Hch lookup_insert_eq.
  - intros c cn. by rw /= F3 Hcn2 Hcn1.
  - intros [] w5 ([Hok5 _] & Hcn5 & [m Hlo5]). split_and!; [done| |].
    { intros c [cn Hc]. by rw Hcn5 /= F3 Hcn2 Hcn1 in Hc. }
    exists (with_channels m lp). rw Hlo5 lookup_alter_eq /= Hl.
    destruct (lb_loop _ _ _ Hlb) as (lp1 & Hl1 & [= Hrun Hquit _ _] & _). assert (lp1 = lp0) as -> by congruence.
    rw Hlo lookup_insert_eq in Hl. injection Hl as <-. by split_and!.
Qed.
End program.
