(* ===== verification/EchoServer.v ===== *)
(** * EchoServer: src/example/echo_server.cpp

    The example server: it sends back what it reads and counts messages and
    bytes.  Its counters live beside the world of the library; the part of
    its callbacks that acts on the world is the application [echo_user].

    - on a connection of this server the peer gets back exactly the bytes it
      sent, in order. *)

From S2P Require Import Prelude Buffer BufferSpec World Kernel Poller Channel Sample Reactor EventLoop.
From S2P Require Import Timer Socket TcpConnection ConnInv ConnSteps ConnSpec ConnLife TimerSpec LoopLife.
From S2P Require Import Inet Acceptor ThreadPool TcpServer System.

Record EchoServer := mkEchoServer {
  es_server_ : nat;
  es_last_print_time_ : Z;
  es_receive_bytes_ : Z;
  es_receive_msgs_ : Z;
}.

Definition set_es_last_print_time_ (v : Z) (e : EchoServer) : EchoServer :=
  mkEchoServer (es_server_ e) v (es_receive_bytes_ e) (es_receive_msgs_ e).
Definition set_es_receive_bytes_ (v : Z) (e : EchoServer) : EchoServer :=
  mkEchoServer (es_server_ e) (es_last_print_time_ e) v (es_receive_msgs_ e).
Definition set_es_receive_msgs_ (v : Z) (e : EchoServer) : EchoServer :=
  mkEchoServer (es_server_ e) (es_last_print_time_ e) (es_receive_bytes_ e) v.

(** The state of the program: the library's world and the server's members. *)
Definition in_world {A} (m : M World A) : M (World * EchoServer) A := zoom fst (λ w s, (w, s.2)) m.
Definition alter_echo (f : EchoServer → EchoServer) : M (World * EchoServer) () :=
  modify (λ s, (s.1, f s.2)).

(** The names under which its callbacks are registered. *)
Definition kOnConnection : nat := 1.
Definition kOnMessage : nat := 2.
Definition kPrintThroughput : nat := 3.

(** [2] as a [double] *)
Definition two_seconds : double := S754_finite false (2 ^ 52) (-51).

Section operations.
Context (host : endian) {text : InetText} {os : OS} {heap : Heap}.

(** Only logs. *)
Definition on_connection (c : nat) : M World () :=
  cn ← get_conn c; if IsConnected cn then mret () else mret ().

(** The callbacks a [Send] can call. *)
Definition echo_notify : UserCode := λ u,
  match u with UConnection _ c => on_connection c | _ => mret () end.

(** [conn->Send(buf)], [buf] being the connection's input buffer. *)
Definition send_back (c : nat) : M World () :=
  Send_buffer (user := echo_notify) (close_code (user := echo_notify)) c c.

Definition on_message (c : nat) : M (World * EchoServer) () :=
  alter_echo (λ e, set_es_receive_msgs_ (u64 (es_receive_msgs_ e + 1)) e) ;;
  cn ← in_world (get_conn c);
  alter_echo (λ e, set_es_receive_bytes_
    (u64 (es_receive_bytes_ e + ReadableBytes (tc_input_buffer_ cn))) e) ;;
  in_world (send_back c).

(** Returns what the printed rates are computed from: the bytes, the
    messages and the whole seconds since the last line. *)
Definition print_throughput : M (World * EchoServer) (Z * Z * Z) :=
  t ← in_world now;
  s ← get;
  let bytes := es_receive_bytes_ s.2 in
  alter_echo (set_es_receive_bytes_ 0) ;;
  let msgs := es_receive_msgs_ s.2 in
  alter_echo (set_es_receive_msgs_ 0) ;;
  let time_gap := Z.quot (t - es_last_print_time_ s.2) 1000000000 in
  alter_echo (set_es_last_print_time_ t) ;;
  mret (bytes, msgs, time_gap).

(** What these callbacks do to the world. *)
Definition echo_user : UserCode := λ u,
  match u with
  | UMessage _ c _ => send_back c
  | UTask _ => _ ← now; mret ()
  | _ => echo_notify u
  end.

Definition EchoServer_ctor (loop : nat) (addr : list byte) : M World nat :=
  s ← TcpServer_ctor host loop addr false "Echo";
  Server_BindConnectionCallback s (Some (UserCb kOnConnection)) ;;
  Server_BindMessageCallback s (Some (UserCb kOnMessage)) ;;
  sv ← get_server s;
  _ ← RunEvery (sv_loop_ sv) two_seconds (FUser kPrintThroughput);
  mret s.

Definition EchoServer_Start (n_threads : Z) : M (World * EchoServer) () :=
  s ← get;
  in_world (Server_InitThreadsNumber (es_server_ s.2) n_threads) ;;
  t ← in_world now;
  alter_echo (set_es_last_print_time_ t) ;;
  in_world (Server_Start (user := echo_user) (es_server_ s.2)).

(** [main], with a bound on the rounds of its loop and the number of
    threads as a parameter. *)
Definition echo_main (n_threads : Z) (fuel : nat) : M (World * EchoServer) bool :=
  l ← in_world EventLoop_ctor;
  addr ← in_world (match InetAddress_any host 8080 with inr a => mret a | inl f => crash f end);
  s ← in_world (EchoServer_ctor l addr);
  modify (λ st, (st.1, mkEchoServer s 0 0 0)) ;;
  EchoServer_Start n_threads ;;
  in_world (loop_Start host (user := echo_user) (refs := no_refs) fuel l).
End operations.

(** ** The echo of one connection *)

(** The callbacks that tell about a connection only log. *)
#[export] Instance echo_notify_calm c : CalmUser c echo_notify.
Proof.
  intros u cn ch lp w Hu Hok. rw /user_run /echo_notify. destruct u as [| |k c'| | | | |]; try done.
  - simpl in Hu. apply Nat.eqb_eq in Hu as ->. rw /on_connection. wp_step. eapply wp_get_conn; [apply Hok|].
    destruct (IsConnected cn); wp_step; by eapply calm_refl.
  - wp_step. by eapply calm_refl.
Qed.

#[export] Instance echo_user_calm {os : OS} c : CalmUser c echo_user.
Proof.
  intros u cn ch lp w Hu. pose proof (echo_notify_calm c u cn ch lp w Hu). by destruct u.
Qed.

Lemma echo_notify_keeps c u : tells c u = true → keeps same_input (user_run (UserCode := echo_notify) u).
Proof.
  intros Hu. rw /user_run /echo_notify /on_connection. destruct u; try done; solve_keeps.
Qed.

Lemma echo_user_keeps {os : OS} c u : tells c u = true → keeps same_input (user_run (UserCode := echo_user) u).
Proof. intros Hu. pose proof (echo_notify_keeps c u Hu). by destruct u. Qed.

(** What can happen to a connection of the echo server. *)
Inductive echo_event := EReadable (t : Z) | EWritable | EHangup | EError.

Definition is_read (e : echo_event) : bool := match e with EReadable _ => true | _ => false end.
(** The reads among the events. *)
Definition reads (evs : list echo_event) : nat := length (filter (λ e, is_read e = true) evs).

Section echo.
Context {os : OS} {heap : Heap}.
Context `{!EpollDelOk os, !EpollCtlRet os, !SendOk os, !ReadvOk os}.
Context (c : nat).
Implicit Types (w : World) (cn : TcpConnection) (ch : Channel) (lp : EventLoop) (S R : list byte).

Abbreviation echo_close := (close_code (user := echo_user)).

(** The bytes that the next read of the connection's socket delivers. *)
Definition arriving w : list byte :=
  match w_conns w !! c with
  | Some cn =>
      let r := os_reply (w_hist w) (SysReadv (tc_socket_ cn) (read_iov (tc_input_buffer_ cn))) in
      if 0 <? r_ret r then r_data r else []
  | None => []
  end.

(** One event, and the bytes it brought. *)
Definition echo_exec (e : echo_event) : M World (list byte) :=
  match e with
  | EReadable t =>
      d ← gets arriving; handle_read (user := echo_user) echo_close c t ;; mret d
  | EWritable => handle_write (user := echo_user) echo_close c ;; mret []
  | EHangup => handle_close (user := echo_user) echo_close c ;; mret []
  | EError => handle_error c ;; mret []
  end.

Fixpoint echo_run (evs : list echo_event) : M World (list byte) :=
  match evs with
  | [] => mret []
  | e :: evs => d ← echo_exec e; ds ← echo_run evs; mret (d ++ ds)
  end.

Context (cb : conn_cb) (cb' : close_cb) (N : list ucall) (F : list ()) (S0 : list byte).
Context (u : nat) (B : Z).

(** The input side with [n] reads to come: nothing is left unsent. *)
Definition input_side (n : Z) w : Prop := ∃ cn,
  w_conns w !! c = Some cn ∧ tc_on_message_ cn = Some (UserCb u) ∧
  size (tc_input_buffer_ cn) + n * kExtraBufSize ≤ B ∧
  (tc_state_ cn = Connected → content (tc_input_buffer_ cn) = []).

(** [R] is what was read so far. *)
Definition echo_inv R (n : Z) w : Prop := ∃ S,
  stream_inv c cb cb' N F S (n * B) (n * kExtraBufSize) w ∧ input_side n w ∧
  S `prefix_of` S0 ++ R ∧ (conn_state c w = Some Connected → S = S0 ++ R).

(** An event that brings nothing and leaves the input alone. *)
Lemma echo_other R n (m : M World ()) w :
  echo_inv R n w → keeps same_input m →
  (∀ S, stream_inv c cb cb' N F S (n * B) (n * kExtraBufSize) w →
     wp m (λ _ w', op_post c cb cb' N F S [] (n * B) (n * kExtraBufSize) w w') only_exit w) →
  wp m (λ _ w', echo_inv R n w') only_exit w.
Proof.
  intros (S & Hinv & (cn & Hc & Hm & Hsz & Hin) & Hpre & Hup) Hk Hm'.
  eapply wp_conseq; [by apply wp_record, Hm'|].
  intros [] w' [Hr (S' & Hinv' & Hacc & Hrej)].
  destruct (along_done _ _ _ _ _ Hk Hr) as (_ & _ & Hcs). destruct (Hcs c cn Hc) as (cn' & Hc' & _ & Hi & Hmsg).
  assert (S' = S) as ->.
  { destruct (decide (conn_state c w = Some Connected)) as [H|H]; [by rw (Hacc H) app_nil_r|by apply Hrej]. }
  assert (conn_state c w' = Some Connected → conn_state c w = Some Connected) as Hst.
  { intros H. destruct (decide (conn_state c w = Some Connected)) as [|H']; [done|by destruct (Hrej H')]. }
  exists S. split_and!; [done| |done|by auto].
  exists cn'. rw Hmsg Hi. split_and!; [done..|]. intros H. apply Hin.
  assert (conn_state c w = Some Connected) as Hw by (apply Hst; by rw /conn_state Hc' /= H).
  rw /conn_state Hc /= in Hw. by injection Hw.
Qed.

Lemma content_size b : inv b → zlength (content b) ≤ size b.
Proof. intros Hb. rw zlength_content // ReadableBytes_eq //. binv. lia. Qed.

(** Sending the input buffer back: what it holds is accepted as a whole and
    the buffer is empty afterwards. *)
Lemma send_back_ok S ro ri cn ch lp w :
  conn_live c cb cb' (zlength (content (tc_input_buffer_ cn)) + ro) ri cn ch lp w → 0 ≤ ro →
  stream_at c cb cb' N F S cn ch w →
  wp (send_back c) (λ _ w', ∃ S' cn', stream_inv c cb cb' N F S' ro ri w' ∧
    w_conns w' !! c = Some cn' ∧ tc_on_message_ cn' = tc_on_message_ cn ∧
    size (tc_input_buffer_ cn') = size (tc_input_buffer_ cn) ∧
    (tc_state_ cn = Connected → S' = S ++ content (tc_input_buffer_ cn) ∧ content (tc_input_buffer_ cn') = []) ∧
    (tc_state_ cn ≠ Connected → S' = S ∧ tc_state_ cn' ≠ Connected)) only_exit w.
Proof.
  intros Hlive Hro Hat. pose proof (cl_ok _ _ _ _ _ _ _ _ _ Hlive) as Hok.
  pose proof (zlength_nonneg (content (tc_input_buffer_ cn))) as Hz.
  rw /send_back /Send_buffer. wp_step. eapply wp_get_conn; [apply Hok|]. case_bool_decide as Hst.
  { wp_step. exists S, cn. split_and!; try done; [|apply Hok].
    exists cn, ch, lp. split; [|done]. eapply conn_live_room; [done|lia|done]. }
  wp_step. eapply wp_in_thread; [done|]. wp_step.
  eapply wp_on_input; [apply Hok|apply peek_all_ok, Hok|]. intros msg b [-> ->].
  rw (_ : set_tc_input_buffer_ (tc_input_buffer_ cn) cn = cn); [by destruct cn|].
  rw (conn_id_world c cn w); [apply Hok|]. wp_step.
  set (msg := content (tc_input_buffer_ cn)) in *.
  eapply wp_conseq; [apply wp_record, (send_in_loop_stream _ c cb cb' N F S msg ro ri w); [|done]|].
  { by exists cn, ch, lp. }
  intros [] w1 [Hr (S' & (cn1 & ch1 & lp1 & Hlive1 & Hat1) & Hacc & _)].
  destruct (along_done _ _ _ _ _ (keeps_send_in_loop same_input (echo_notify_keeps) c msg) Hr) as (_ & _ & Hcs).
  destruct (Hcs c cn (co_conn _ _ _ _ _ Hok)) as (cn1' & Hc1 & _ & Hi & Hmsg).
  pose proof (cl_ok _ _ _ _ _ _ _ _ _ Hlive1) as Hok1.
  rw (co_conn _ _ _ _ _ Hok1) in Hc1. injection Hc1 as <-.
  eapply wp_on_input; [apply Hok1|apply RetrieveAll_ok, Hok1|]. intros [] b (Hb & Hnil & _ & Hs).
  set (w2 := set_w_conns _ w1). set (cn2 := set_tc_input_buffer_ b cn1).
  assert (conn_ok c cn2 ch1 lp1 w2) as Hok2 by by apply (conn_ok_alter c cn1 _ ch1 lp1 w1); try apply Hok1.
  exists S', cn2. split_and!; [|apply Hok2|done|by rw /= Hs Hi| |done].
  - exists cn2, ch1, lp1. destruct Hlive1. split; [split; simpl; try done; lia|].
    by eapply (stream_at_same c cb cb' N F S' cn1 ch1).
  - intros _. split; [|done]. apply Hacc. by rw /conn_state (co_conn _ _ _ _ _ Hok) /= Hst.
Qed.

Lemma echo_read R n t w :
  echo_inv R (1 + n) w → 0 ≤ n → 0 ≤ B →
  wp (handle_read (user := echo_user) echo_close c t) (λ _ w', echo_inv (R ++ arriving w) n w') only_exit w.
Proof.
  intros (S & Hinv & (cn & Hc & Hm & Hsz & Hin) & Hpre & Hup) Hn HB.
  pose proof Hinv as (cn0 & ch & lp & Hlive & Hat). pose proof (cl_ok _ _ _ _ _ _ _ _ _ Hlive) as Hok.
  assert (cn0 = cn) as ->. { pose proof (co_conn _ _ _ _ _ Hok) as H. by simplify_eq. }
  rw /arriving Hc.
  assert (conn_state c w = Some (tc_state_ cn)) as Hst by by rw /conn_state Hc.
  eapply (handle_read_split _ c cb cb' N F S t (B + n * B) (n * kExtraBufSize) cn ch lp); [|done|rw /kExtraBufSize; lia|..].
  { eapply conn_live_room; [done|lia|rw /kExtraBufSize; lia]. }
  - set (r := os_reply _ _). intros b w1 Hpos Hlive1 Hat1 Hcont Hbs. destruct (Z.ltb_spec 0 (r_ret r)); [|lia].
    set (cn1 := set_tc_input_buffer_ b cn) in *. pose proof (cl_ok _ _ _ _ _ _ _ _ _ Hlive1) as Hok1.
    rw /call_message. wp_step. eapply wp_get_conn; [apply Hok1|]. rw /= Hm /call_user. wp_step. wp_step.
    set (w2 := set_w_hist _ w1). rw /user_run /=.
    assert (zlength (content b) ≤ B) as Hlen.
    { pose proof (content_size b (co_in _ _ _ _ _ Hok1)). unfold kExtraBufSize in *. lia. }
    eapply wp_conseq; [apply (send_back_ok S (n * B) (n * kExtraBufSize) cn1 ch lp w2)|].
    + apply (conn_live_room c cb cb' (B + n * B) (n * kExtraBufSize)); [|simpl; lia|done]. destruct Hlive1. split; try done. by apply conn_ok_hist.
    + nia.
    + eapply (stream_at_same c cb cb' N F S cn1 ch); try done. by apply obs_inert.
    + intros [] w' (S' & cn' & Hinv' & Hc' & Hm' & Hs' & Hacc & Hrej). exists S'.
      split_and!; [done| | |].
      * exists cn'. split_and!; [done|by rw Hm'|rw Hs' /=; lia|]. intros Hst'.
        destruct (decide (tc_state_ cn = Connected)) as [Hcn|Hcn]; [by apply Hacc|by destruct (Hrej Hcn)].
      * destruct (decide (tc_state_ cn = Connected)) as [Hcn|Hcn].
        -- destruct (Hacc Hcn) as [-> _]. rw (Hup _); [by rw Hst Hcn|]. by rw /= Hcont (Hin Hcn) /= -app_assoc.
        -- destruct (Hrej Hcn) as [-> _]. etrans; [exact Hpre|]. rw app_assoc. by eexists.
      * intros Hst'. destruct (decide (tc_state_ cn = Connected)) as [Hcn|Hcn].
        -- destruct (Hacc Hcn) as [-> _]. rw (Hup _); [by rw Hst Hcn|]. by rw /= Hcont (Hin Hcn) /= -app_assoc.
        -- rw /conn_state Hc' /= in Hst'. injection Hst' as Hst'. by destruct (Hrej Hcn).
  - set (r := os_reply _ _). intros b w1 m Hneg Hlive1 Hat1 Hcont Hbs Hends.
    destruct (Z.ltb_spec 0 (r_ret r)); [lia|]. rw app_nil_r.
    set (cn1 := set_tc_input_buffer_ b cn) in *. pose proof (cl_ok _ _ _ _ _ _ _ _ _ Hlive1) as Hok1.
    apply echo_other.
    + exists S. split_and!; [|exists cn1; split_and!; [apply Hok1|done|simpl; lia|by rw /= Hcont]|done|].
      * exists cn1, ch, lp. split; [|done]. eapply conn_live_room; [done|lia|done].
      * rw (live_state _ _ _ _ _ _ _ _ _ Hlive1) /=. by rw -Hst.
    + destruct Hends as [-> |[-> |[e ->]]]; pose proof echo_user_keeps; solve_keeps.
    + intros S1 Hinv1. eapply wp_conseq; [exact (ends_read_stream echo_close c cb cb' N F S1 _ _ m w1 Hinv1 Hends)|].
      intros [] w' [Hinv' Hor]. apply op_post_keep; [done|]. by destruct Hor as [-> | ->].
Qed.

Lemma echo_exec_ok R n e w :
  echo_inv R (Z.of_nat (reads [e]) + n) w → 0 ≤ n → 0 ≤ B →
  wp (echo_exec e) (λ d w', echo_inv (R ++ d) n w') only_exit w.
Proof.
  intros Hinv Hn HB. pose proof echo_user_keeps as Hk. destruct e as [t| | |]; simpl in *.
  - wp_step. apply wp_gets. wp_step. eapply wp_conseq; [by apply echo_read|]. intros [] w' Hinv'. by wp_step.
  - wp_step. eapply wp_conseq; [apply (echo_other R n); [done|solve_keeps|]|].
    + intros S HS. exact (handle_write_stream echo_close c cb cb' N F S _ _ w HS).
    + intros [] w' Hinv'. wp_step. by rw app_nil_r.
  - wp_step. eapply wp_conseq; [apply (echo_other R n); [done|solve_keeps|]|].
    + intros S HS. eapply wp_conseq; [exact (handle_close_stream echo_close c cb cb' N F S _ _ w HS)|].
      intros [] w' [? Hst]. apply op_post_keep; [done|]. by rw Hst.
    + intros [] w' Hinv'. wp_step. by rw app_nil_r.
  - wp_step. eapply wp_conseq; [apply (echo_other R n); [done|solve_keeps|]|].
    + intros S HS. eapply wp_conseq; [exact (socket_error_stream c cb cb' N F S _ _ w HS)|].
      intros [] w' [? Hst]. apply op_post_keep; [done|]. by rw Hst.
    + intros [] w' Hinv'. wp_step. by rw app_nil_r.
Qed.

Lemma reads_cons e evs : Z.of_nat (reads (e :: evs)) = Z.of_nat (reads [e]) + Z.of_nat (reads evs).
Proof. rw /reads !filter_cons filter_nil. case_decide; simpl; lia. Qed.

Lemma echo_run_ok evs R w :
  echo_inv R (Z.of_nat (reads evs)) w → 0 ≤ B →
  wp (echo_run evs) (λ ds w', echo_inv (R ++ ds) 0 w') only_exit w.
Proof.
  intros Hinv HB. revert R w Hinv. induction evs as [|e evs IH]; intros R w Hinv; simpl.
  { wp_step. by rw app_nil_r. }
  rw reads_cons in Hinv. wp_step. eapply wp_conseq; [apply (echo_exec_ok R (Z.of_nat (reads evs)) e); [done|lia|done]|].
  intros d w1 Hinv1. wp_step. eapply wp_conseq; [exact (IH (R ++ d) w1 Hinv1)|]. intros ds w' Hinv'. wp_step.
  by rw app_assoc.
Qed.

(** C8: the echo server echoes.  On an established connection whose message
    callback is the server's, through any sequence of readable, writable,
    hang-up and error events, no handler fails; as long as the connection is
    up, the bytes handed to the kernel followed by those still buffered are
    exactly the bytes the kernel delivered, in order, and none is left in the
    input buffer; after that, what was handed over is a prefix of what was
    delivered. *)
Theorem echo_stream evs cn ch lp w :
  let n := Z.of_nat (reads evs) in
  conn_live c cb cb' (n * B) (n * kExtraBufSize) cn ch lp w →
  stream_at c cb cb' N F S0 cn ch w → tc_state_ cn = Connected →
  tc_on_message_ cn = Some (UserCb u) → content (tc_input_buffer_ cn) = [] →
  0 ≤ B → size (tc_input_buffer_ cn) + n * kExtraBufSize ≤ B →
  wp (echo_run evs) (λ R w', ∃ cn' ch' lp', conn_ok c cn' ch' lp' w' ∧
    (tc_state_ cn' = Connected →
       sent (tc_socket_ cn') (w_hist w') ++ content (tc_output_buffer_ cn') = S0 ++ R ∧
       content (tc_input_buffer_ cn') = []) ∧
    sent (tc_socket_ cn') (w_hist w') `prefix_of` S0 ++ R) only_exit w.
Proof.
  intros n Hlive Hat Hst Hm Hin HB Hsz.
  eapply wp_conseq; [apply (echo_run_ok evs []); [|done]|].
  { exists S0. rw app_nil_r. split_and!; [by exists cn, ch, lp| |done|done].
    exists cn. split_and!; [apply Hlive|done|done|done]. }
  intros R w' (S & (cn' & ch' & lp' & Hlive' & Hat') & (cn0 & Hc0 & _ & _ & Hin') & Hpre & Hup).
  pose proof (cl_ok _ _ _ _ _ _ _ _ _ Hlive') as Hok'.
  assert (cn0 = cn') as ->. { pose proof (co_conn _ _ _ _ _ Hok') as H. by simplify_eq. }
  exists cn', ch', lp'. split_and!; [done| |].
  - intros Hst'. split; [|by apply Hin']. rw /stream_at Hst' in Hat'. destruct Hat' as [-> _].
    apply Hup. by rw (live_state _ _ _ _ _ _ _ _ _ Hlive') Hst'.
  - etrans; [|exact Hpre]. rw /stream_at in Hat'.
    destruct (tc_state_ cn'); [by apply Hat'|done|..]; destruct Hat' as [<- _]; by eexists.
Qed.
End echo.

(** ** The counters *)

(** The part of [on_message] that acts on the world is [echo_user]'s, and it
    counts one message and the bytes that were readable. *)
Lemma on_message_counts {os : OS} u c t cn w e w' :
  w_conns w !! c = Some cn → echo_user (UMessage u c t) w = Done () w' →
  on_message c (w, e) = Done () (w', mkEchoServer (es_server_ e) (es_last_print_time_ e)
    (u64 (es_receive_bytes_ e + ReadableBytes (tc_input_buffer_ cn))) (u64 (es_receive_msgs_ e + 1))).
Proof.
  intros Hc Hr. rw /on_message /in_world /alter_echo /modify /zoom /get_conn /mbind /M_bind /= Hc /=.
  rw /= in Hr. by rw Hr.
Qed.

(** ** Samples *)

(** The sample connection with the echo server's callbacks, established. *)
Definition echo_conn : TcpConnection :=
  set_tc_on_connection_ (Some (UserCb kOnConnection)) (set_tc_on_message_ (Some (UserCb kOnMessage)) sample_conn).
Definition echo_world : World := set_w_conns {[ 20%nat := echo_conn ]} sample_world.
Definition echo_up : World :=
  final (ConnectionEstablished (os := sample_os) (user := echo_user (os := sample_os)) 20) echo_world.
Definition echo_up_conn : TcpConnection := default sample_conn (w_conns echo_up !! 20%nat).

Abbreviation echo_notes := [UConnection kOnConnection 20].

Lemma echo_up_stream :
  ∃ ch lp, conn_live 20 (UserCb kOnConnection) (UserCloseCb 6) 0 0 echo_up_conn ch lp echo_up ∧
    stream_at 20 (UserCb kOnConnection) (UserCloseCb 6) echo_notes [] [] echo_up_conn ch echo_up.
Proof.
  assert (conn_fresh 20 (UserCb kOnConnection) (UserCloseCb 6) echo_notes [] [] [] echo_conn
    (Channel_new 1 9) sample_loop echo_world) as Hf.
  { destruct sample_conn_ok as [Hc Hr Hfd Hi Ho Hh]. split; try done. split; try done. split; try done.
    eapply (chan_ready_quiet _ _ _ sample_loop sample_loop []); done. }
  apply (established_stream (os := sample_os) (user := echo_user (os := sample_os))) in Hf; [|apply _].
  apply wp_final in Hf as [_ [(cn & ch & lp & Hlive & Hat) _]]; [|by vm_compute]. fold echo_up in Hlive, Hat.
  exists ch, lp. assert (cn = echo_up_conn) as ->; [|done].
  pose proof (co_conn _ _ _ _ _ (cl_ok _ _ _ _ _ _ _ _ _ Hlive)) as H. by rw /echo_up_conn H.
Qed.

Definition echo_events : list echo_event := [EReadable 0; EReadable 0; EReadable 0; EWritable; EError].

Lemma echo_stream_witness :
  wp (echo_run (os := sample_os) 20 echo_events) (λ R w', ∃ cn' ch' lp', conn_ok 20 cn' ch' lp' w' ∧
    (tc_state_ cn' = Connected →
       sent (tc_socket_ cn') (w_hist w') ++ content (tc_output_buffer_ cn') = R ∧
       content (tc_input_buffer_ cn') = []) ∧
    sent (tc_socket_ cn') (w_hist w') `prefix_of` R) only_exit echo_up.
Proof.
  destruct echo_up_stream as (ch & lp & Hlive & Hat).
  refine (echo_stream (os := sample_os) 20 (UserCb kOnConnection) (UserCloseCb 6) echo_notes [] []
    kOnMessage 1000000 echo_events echo_up_conn ch lp echo_up _ Hat _ _ _ _ _); try by vm_compute.
  destruct Hlive. split; try done; by vm_compute.
Defined.

(** Three reads of two bytes come back, and the counters say so. *)
Example echo_runs :
  match echo_run (os := sample_os) 20 echo_events echo_up with
  | Done R w' => bool_decide (R = sample_data ++ sample_data ++ sample_data ∧ sent 9 (w_hist w') = R)
  | Crash _ _ => false end = true.
Proof. by vm_compute. Qed.

(** The whole program on the sample kernel, where a client comes in every
    round and has two bytes to say every time it is asked: after three rounds
    the first client has got back what it sent in two of them, the second
    what it sent in one. *)
Definition any_text : InetText := {|
  inet_pton f s := if bool_decide (s = "0.0.0.0"%string) then Some (replicate (addr_size f) Byte.x00) else None;
  inet_ntop _ _ := "0.0.0.0"%string;
|}.

Definition fresh_process : World := mkWorld 0 0 [] ∅ ∅ ∅ ∅ ∅ ∅ ∅ 0 0.

Definition echo_program : M (World * EchoServer) bool :=
  echo_main LittleEndian (text := any_text) (os := sample_os) 0 3.

Example echo_program_runs :
  match echo_program (fresh_process, mkEchoServer 0 0 0 0) with
  | Done ended (w, _) =>
      let fds := tc_socket_ <$> (map_to_list (w_conns w)).*2 in
      bool_decide (ended = false ∧ length fds = 3%nat ∧
        merge_sort (≤)%nat ((λ fd, length (sent fd (w_hist w))) <$> fds) = [0; 2; 4]%nat)
  | Crash _ _ => false end = true.
Proof. by vm_compute. Qed.
