(* ===== verification/Program.v ===== *)
(** * Program: whole server processes

    A program that makes a loop and a server on it, binds the application's
    callbacks, starts the server and runs the loop, and the echo example of
    the repository, on one thread: the start establishes the invariant of
    SysInv.v (Startup.v) and the loop keeps it (RoundSafe.v).  The results
    hold for every kernel with the documented behaviour and every application
    that keeps to the library's rules, of which the echo application is one. *)

From S2P Require Import Prelude Buffer BufferSpec World Kernel Poller Channel Sample Reactor EventLoop.
From S2P Require Import Timer Socket TcpConnection ConnInv ConnSteps ConnSpec ConnLife TimerSpec TimerFire LoopLife.
From S2P Require Import Inet Acceptor ThreadPool TcpServer ServerSpec System SysInv ConnSafe TimerSafe ServerSafe.
From S2P Require Import RoundSafe EchoServer Startup.

(** [EventLoop loop; TcpServer server(&loop, addr, reuse_port, name);], the
    callbacks, [server.Start(); loop.Start();] with a bound on the rounds. *)
Definition server_program (host : endian) {text : InetText} {os : OS} {heap : Heap} {user : UserCode} {refs : AppRefs}
    (addr : list byte) (reuse : bool) (name : string)
    (on_conn on_msg : conn_cb) (on_wc : option nat) (fuel : nat) : M World bool :=
  l ← EventLoop_ctor;
  s ← TcpServer_ctor host l addr reuse name;
  Server_BindConnectionCallback s (Some on_conn) ;;
  Server_BindMessageCallback s (Some on_msg) ;;
  Server_BindWriteCompleteCallback s on_wc ;;
  Server_Start s ;;
  loop_Start host fuel l.

Section program.
Context (host : endian) {text : InetText} {cw : Clockwork} {os : OS} {heap : Heap} {user : UserCode} {refs : AppRefs}.
Context `{!EpollDelOk os, !EpollCtlRet os, !SendOk os, !ReadvOk os, !EpollWaitOk os}.
Context `{!FdFresh os, !HeapFresh heap, !FewAccepts os, !ClockFit cw os}.
Context `{Hgood : !∀ l s a, GoodUser host l s a user}.
Implicit Types (w : World) (cn : TcpConnection) (ch : Channel) (lp : EventLoop) (sv : TcpServer) (X : gset nat).

(** The whole program keeps the invariant, and connections that nobody
    refers to do not stay. *)
Lemma program_runs addr reuse name on_conn on_msg on_wc fuel :
  wp (server_program host addr reuse name on_conn on_msg on_wc fuel)
    (λ _ w, (∃ l s a, sys_ok host l s a idle false ∅ w) ∧ attended w) sys_end empty_world.
Proof.
  rw /server_program. wp_step. apply exits.
  eapply wp_conseq; [apply first_loop|]. intros l w1 [Hlb Hh1]. wp_step. apply exits. eapply wp_conseq; [by apply (made_ctor host l)|]. intros s w2 [a Hm2].
  wp_step. eapply made_alter; [done|]. intros w3 Hm3. wp_step. eapply made_alter; [done|]. intros w4 Hm4.
  wp_step. eapply made_alter; [done|]. intros w5 Hm5. wp_step.
  eapply wp_conseq; [by apply (made_Start host l s a _ w5 Hm5)|]. intros [] w6 (Hok & Hat & lp & Hl & Hr & Hq).
  eapply wp_conseq; [by apply (safe_Start host l s a fuel lp)|]. intros ended w' [Hok' Hat']. split; [by exists l, s, a|done].
Qed.

(** What the invariant says of the connections that are there. *)
Lemma sys_accounted l s a w :
  sys_ok host l s a idle false ∅ w → attended w → ∃ lp sv, w_loops w !! l = Some lp ∧ w_servers w !! s = Some sv ∧
    ∀ c cn, w_conns w !! c = Some cn → tc_socket_ cn ∈ open_fds (w_hist w) ∧
      (sv_connections_ sv !! tc_name_ cn = Some c ∨
       (∃ f, f ∈ el_pendings_ lp ∧ owns f = Some c) ∨ app_holds (w_hist w) c = true).
Proof.
  intros Hok Hat. destruct (sy_lp _ _ _ _ _ _ _ _ Hok) as (lp & Hl & _). destruct (sy_only _ _ _ _ _ _ _ _ Hok) as [Hdl Hds].
  destruct (sy_srv _ _ _ _ _ _ _ _ Hok) as (sv & Hsv & _ & _ & _ & _ & Hcns). pose proof (so_server _ _ _ _ Hsv) as Hs.
  exists lp, sv. split_and!; [done|done|]. intros c cn Hc.
  destruct (Hcns c cn Hc) as [_ (ch & Hk & Hkl & <- & _) _ _ _ _]. split; [by eapply (sy_fds _ _ _ _ _ _ _ _ Hok)|].
  pose proof (Hat c (mk_is_Some _ _ Hc)) as H. rw /referenced !orb_true_iff !bool_decide_eq_true in H.
  destruct H as [[[?%not_elem_of_nil|(l' & lp' & Hl' & Hin)]|(s' & sv' & Hs' & name & c' & Hn & ->)]|?]; [done|right; left|left|by auto].
  - assert (l' = l) as -> by (apply elem_of_dom_2 in Hl'; set_solver). assert (lp' = lp) as -> by congruence.
    apply list_elem_of_fmap in Hin as (f & ? & ?). by exists f.
  - assert (s' = s) as -> by (apply elem_of_dom_2 in Hs'; set_solver). assert (sv' = sv) as -> by congruence.
    destruct (so_conns _ _ _ _ Hsv name c Hn) as (id & cn' & _ & _ & Hc' & <- & _). by assert (cn' = cn) as <- by congruence.
Qed.

(** C3: connections that have ended are destroyed.  After any number of
    rounds of a server program, with an application that keeps to the
    library's rules, every connection object that still exists has its socket
    open, and is either in the server's map, or one of the queued tasks owns
    it, or the application holds a pointer to it at this time.  So with
    nothing queued exactly the connections in the map and those to which the
    application holds on are there: no other connection and no descriptor of
    one is leaked.  The clock shows times after the epoch that leave room for
    the timers; besides by an error exit the program can end only by the
    assertion about a timer that is due at the very time of the reading. *)
Theorem ended_connections_are_destroyed addr reuse name on_conn on_msg on_wc fuel :
  wp (server_program host addr reuse name on_conn on_msg on_wc fuel)
    (λ _ w, ∃ l lp s sv, w_loops w !! l = Some lp ∧ w_servers w !! s = Some sv ∧
      ∀ c cn, w_conns w !! c = Some cn → tc_socket_ cn ∈ open_fds (w_hist w) ∧
        (sv_connections_ sv !! tc_name_ cn = Some c ∨
         (∃ f, f ∈ el_pendings_ lp ∧ owns f = Some c) ∨ app_holds (w_hist w) c = true)) sys_end empty_world.
Proof.
  eapply wp_conseq; [apply program_runs|]. intros ended w' [(l & s & a & Hok) Hat].
  destruct (sys_accounted l s a w' Hok Hat) as (lp' & sv & ? & ? & ?). by exists l, lp', s, sv.
Qed.
End program.

Section safety.
Context (host : endian) {text : InetText} {cw : Clockwork} {os : OS} {heap : Heap} {user : UserCode} {refs : AppRefs}.
Context `{!EpollDelOk os, !EpollCtlRet os, !SendOk os, !ReadvOk os, !EpollWaitOk os}.
Context `{!FdFresh os, !HeapFresh heap, !FewAccepts os, !TimersFit cw os}.
Context `{Hgood : !∀ l s a, GoodUser host l s a user}.

(** C1: a server program does not fail, from its first instruction on.  On
    every kernel that behaves as documented, whatever it reports and answers
    otherwise, whatever clients connect, send and do, for every application
    that keeps to the library's rules, with timers for any spans of time that
    no two readings of the clock are apart and any times that it does not
    show, and for any number of rounds of
    the loop: no assertion fails, no object is used after its end, no empty
    callback is called, and no undefined value is read; the process either
    goes on in order or ends by [exit] after an error of the kernel or
    because a buffer outgrows the address space. *)
Theorem server_program_never_fails addr reuse name on_conn on_msg on_wc fuel :
  wp (server_program host addr reuse name on_conn on_msg on_wc fuel)
    (λ _ w, ∃ l s a, sys_ok host l s a idle false ∅ w) sys_exit empty_world.
Proof.
  eapply wp_mono; [apply (program_runs host (cw := cw))|by intros ended w' [? _]|]. intros f w'. apply (sys_end_exit (os := os)).
Qed.
End safety.

(** ** The echo application *)

(** Its callbacks keep to the rules: they log, send back what was read and
    ask for the time. *)
#[export] Instance echo_notify_good host {text : InetText} {cw : Clockwork} l s a : GoodUser host l s a echo_notify.
Proof.
  intros K ph X u w Hok Hu. rw /user_run /echo_notify. destruct u; try (wp_step; by apply keep_refl).
  destruct Hu as [cn Hc]. rw /on_connection. wp_step. eapply wp_get_conn; [done|].
  destruct (IsConnected cn); wp_step; by apply keep_refl.
Qed.

#[export] Instance echo_user_good host {text : InetText} {cw : Clockwork} {os : OS}
  `{!EpollDelOk os, !EpollCtlRet os, !SendOk os, !ReadvOk os} l s a : GoodUser host l s a echo_user.
Proof.
  intros K ph X u w Hok Hu. pose proof (good_user (user := echo_notify) K ph X u w Hok Hu) as Hn.
  destruct u as [k| | | | | | |]; try exact Hn; rw /user_run /echo_user.
  - wp_step. apply wp_now. wp_step. by eapply (sys_event _ _ _ _ _ _ _ (Sys ClockNow _)).
  - by apply (safe_Send_buffer host l s a K (user := echo_notify)); [done..|apply seen_some].
Qed.

Section echo.
Context (host : endian) {text : InetText} {cw : Clockwork} {os : OS} {heap : Heap}.
Context `{!EpollDelOk os, !EpollCtlRet os, !SendOk os, !ReadvOk os, !EpollWaitOk os}.
Context `{!FdFresh os, !HeapFresh heap, !FewAccepts os, !ClockFit cw os}.
Context (Hspan : 2000000000 ∈ spans).

(** The server that the [EchoServer] is about to start. *)
Definition echo_made l s w : Prop := ∃ a sv, made l s a sv w ∧ unstarted l a sv ∧ sv_message_cb_ sv = Some (UserCb kOnMessage).

(** The constructor sets its callbacks and its timer. *)
Lemma echo_ctor_ok l addr w1 :
  loop_built l empty_world w1 → forallb soundless (w_hist w1) = true →
  wp (EchoServer_ctor host l addr) (echo_made l) early_exit w1.
Proof.
  intros Hlb Hh1. rw /EchoServer_ctor. wp_step. eapply wp_conseq; [by apply (made_ctor host l)|]. intros s w2 [a Hm2].
  wp_step. eapply made_alter; [done|]. intros w3 Hm3. wp_step. eapply made_alter; [done|]. intros w4 Hm4. wp_step.
  set (sv := set_sv_message_cb_ _ _) in Hm4.
  eapply wp_get_server; [by rw (md_server _ _ _ _ _ Hm4) lookup_singleton_eq|]. wp_step. change (sv_loop_ sv) with l.
  destruct (made_queue _ _ _ _ _ Hm4) as [lp Hat]. pose proof Hat as [(Hl & _) _].
  eapply wp_conseq; [apply wp_hushed; [by apply (run_timed l [] lp (FUser kPrintThroughput) two_seconds two_seconds 2000000000); [|apply may_run_user| | |exists 2000000000]| |apply Hm4]|].
  { rw /AddTimer. solve_along. by apply hushed_modify. }
  intros t w5 [Htd _]. wp_step. exists a, sv. split; [by eapply made_timed|]. by split_and!.
Qed.

(** No threads. *)
Lemma echo_threads_ok l s a sv E w :
  made l s a sv w → unstarted l a sv → sv_message_cb_ sv = Some (UserCb kOnMessage) →
  wp (Server_InitThreadsNumber s 0) (λ _, echo_made l s) E w.
Proof.
  intros Hm ([= Hsl Hsa Hin Hcs] & [= Htb Hts Htn Htl] & Hcb1 & Hcb2) Hcb. rw /Server_InitThreadsNumber. wp_step.
  eapply wp_get_server; [by rw (md_server _ _ _ _ _ Hm) lookup_singleton_eq|]. wp_step.
  rw /Pool_InitThreadsNumber. wp_step. apply wp_assert_true; [by rw Hts|]. wp_step.
  eapply made_alter; [done|]. intros w' Hm'. exists a. eexists. split; [exact Hm'|]. split; [|exact Hcb].
  split_and!; [by rw /= Hsl Hsa Hin Hcs|by rw /= Htb Hts Htl|done|done].
Qed.

Lemma made_now l s a sv w : made l s a sv w → made l s a sv (after_now w).
Proof.
  intros Hm. destruct (made_queue _ _ _ _ _ Hm) as (lp & (Hl & _) & Htm). eapply made_timed; [done|done|].
  split; [exists (el_timer_queue_ lp)|done|by eexists|done]. split; [|done]. rw /= insert_id //. rw Hl. by destruct lp.
Qed.

Lemma in_world_safe {A} (m : M World A) (Q : A → World * EchoServer → Prop) (E : failure → World → Prop) w e :
  wp m (λ x w', Q x (w', e)) E w → wp (in_world m) Q (λ f st, E f st.1) (w, e).
Proof. intros H. by apply wp_zoom. Qed.

(** [main] up to the start of the server; before that nothing was sent,
    received, accepted or closed. *)
Lemma echo_reaches e fuel (Q : bool → World → Prop) (E : failure → World → Prop) :
  (∀ f w, early_exit f w → E f w) →
  (∀ l s w, echo_made l s w →
    wp (Server_Start (user := echo_user) s ;; loop_Start host (user := echo_user) (refs := no_refs) fuel l) Q E w) →
  wp (echo_main host 0 fuel) (λ b st, Q b st.1) (λ f st, E f st.1) (empty_world, e).
Proof.
  intros HE HQ. assert (∀ A (m : M World A) Q w, wp m Q early_exit w → wp m Q E w) as Hearly.
  { intros A m Q' w Hm. by eapply wp_mono. }
  rw /echo_main. wp_step. apply in_world_safe, Hearly. eapply wp_conseq; [apply first_loop|].
  intros l w1 [Hlb Hh1]. simpl. wp_step. apply in_world_safe.
  apply (wp_conseq _ (λ _ w, w = w1)); [|intros addr w ->; simpl].
  { rw /InetAddress_any /InetAddress_new. destruct (inet_pton _ _); [by wp_step|by apply HE]. }
  wp_step. apply in_world_safe, Hearly. eapply wp_conseq; [by apply (echo_ctor_ok l addr)|].
  intros s w2 (a & sv & Hm2 & Hun & Hcb). simpl. do 2 wp_step. rw /EchoServer_Start. do 4 wp_step.
  apply in_world_safe. simpl. eapply wp_conseq; [by apply (echo_threads_ok l s a sv E w2)|].
  intros [] w3 (a3 & sv3 & Hm3 & Hun3 & Hcb3). simpl. wp_step. apply in_world_safe. apply wp_now. simpl.
  wp_step. rw /alter_echo. wp_step. apply in_world_safe. simpl.
  assert (echo_made l s (after_now w3)) as Hm by (exists a3, sv3; by split_and!; [apply made_now|..]).
  eapply wp_conseq; [exact (proj1 (wp_bind _ _ _ _ _) (HQ l s _ Hm))|]. intros [] w4 H4. by apply in_world_safe.
Qed.

(** The start of the server and its loop. *)
Lemma echo_keeps_running l s fuel w :
  echo_made l s w →
  wp (Server_Start (user := echo_user) s ;; loop_Start host (user := echo_user) (refs := no_refs) fuel l)
    (λ _ w', ∃ a, sys_ok host l s a (idle (refs := no_refs)) false ∅ w') sys_end w.
Proof.
  intros (a & sv & Hm & Hun & _). wp_step.
  eapply wp_conseq; [by apply (made_Start host (user := echo_user) (refs := no_refs) l s a sv)|].
  intros [] w4 (Hok & Hat & lp & Hl & Hr & Hq).
  eapply wp_conseq; [by apply (safe_Start host (user := echo_user) (refs := no_refs) l s a fuel lp)|].
  intros ended w5 [Hok5 _]. by exists a.
Qed.

End echo.

(** ** Samples *)

(** The sample kernel, which takes no more than so many connections, and
    whose clock stands still for two seconds out of four. *)
Definition shown (t : Z) : bool := (0 <=? t) && (t <? 2 ^ 62) && (t mod 4000000000 <? 2000000000).
Definition bounded_os : OS := λ h c,
  match c with
  | SysAccept4 _ _ => if two64 - 2 <=? accepted h then mkReply (-1) EAGAIN [] [] else sample_os h c
  | ClockNow => ok (if shown (clock h + 1000) then clock h + 1000 else 0)
  | _ => sample_os h c
  end.

#[export] Instance two_second_timers : Clockwork :=
  {| spans := [2000000000]; moments := []; shows t := shown t = true |}.
#[export] Instance bounded_fit : TimersFit two_second_timers bounded_os.
Proof.
  split; [split|..]; simpl.
  - intros h. by destruct (shown (clock h + 1000)) eqn:Hs.
  - intros t Ht. rw /shown in Ht. lia.
  - intros t d Ht ->%list_elem_of_singleton. rw /shown in Ht. rw /in_int64. lia.
  - by intros e ?%not_elem_of_nil.
  - intros t t' d Ht Ht' ->%list_elem_of_singleton ->. rw /shown !andb_true_iff !Z.ltb_lt in Ht, Ht'.
    destruct Ht as [_ Ht], Ht' as [_ Ht']. Z.div_mod_to_equations. lia.
  - by intros t e _ ?%not_elem_of_nil.
Qed.

#[export] Instance bounded_few : FewAccepts bounded_os.
Proof. intros h fd n Hn. simpl. by destruct (Z.leb_spec (two64 - 2) (accepted h)); [|lia]. Qed.
#[export] Instance bounded_fd_fresh : FdFresh bounded_os.
Proof.
  intros h c Hc. destruct c; try done; try (by apply (sample_fd_fresh h)).
  rw /bounded_os. destruct (_ <=? _); [|by apply (sample_fd_fresh h)]. intros Hin%open_fds_nonneg. simpl in Hin. lia.
Qed.
#[export] Instance bounded_del_ok : EpollDelOk bounded_os := sample_del_ok.
#[export] Instance bounded_ctl_ret : EpollCtlRet bounded_os := sample_ctl_ret.
#[export] Instance bounded_wait_ok : EpollWaitOk bounded_os := sample_wait_ok.
#[export] Instance bounded_send_ok : SendOk bounded_os := sample_send_ok.
#[export] Instance bounded_readv_ok : ReadvOk bounded_os := sample_readv_law.


Lemma ended_connections_are_destroyed_witness :
  wp (server_program LittleEndian (os := bounded_os) (user := echo_user (os := bounded_os)) (refs := no_refs) any_addr true "echo"
        (UserCb kOnConnection) (UserCb kOnMessage) None 1000)
    (λ _ w, ∃ l lp s sv, w_loops w !! l = Some lp ∧ w_servers w !! s = Some sv ∧
      ∀ c cn, w_conns w !! c = Some cn → tc_socket_ cn ∈ open_fds (w_hist w) ∧
        (sv_connections_ sv !! tc_name_ cn = Some c ∨ ∃ f, f ∈ el_pendings_ lp ∧ owns f = Some c)) sys_end empty_world.
Proof.
  eapply wp_conseq; [exact (ended_connections_are_destroyed LittleEndian (os := bounded_os) (user := echo_user (os := bounded_os))
    (refs := no_refs) any_addr true "echo" (UserCb kOnConnection) (UserCb kOnMessage) None 1000)|].
  intros ended w (l & lp & s & sv & Hl & Hs & Hcns). exists l, lp, s, sv. split_and!; [done|done|]. intros c cn Hc.
  destruct (Hcns c cn Hc) as [? [?|[?|?]]]; [by auto..|done].
Defined.

(** A server that hangs up on its clients: it sends back what it reads and
    closes the connection two seconds after each message. *)
Definition impatient_user {os : OS} {heap : Heap} : UserCode := λ u,
  match u with
  | UMessage _ c _ => send_back c ;; ForceCloseDelay c two_seconds
  | _ => echo_notify u
  end.

#[export] Instance impatient_user_good host {text : InetText} {os : OS} {heap : Heap}
  `{!EpollDelOk os, !EpollCtlRet os, !SendOk os, !ReadvOk os, !HeapFresh heap, !ClockFit two_second_timers os} l s a :
  GoodUser host l s a impatient_user.
Proof.
  intros K ph X u w Hok Hu. pose proof (good_user (user := echo_notify) K ph X u w Hok Hu) as Hn.
  destruct u; try exact Hn; rw /user_run /impatient_user. wp_step.
  eapply wp_conseq; [by apply (safe_Send_buffer host l s a K (user := echo_notify)); [done..|apply seen_some]|].
  intros [] w1 Hk1. eapply safe_step; [exact Hk1| |by intros].
  eapply (safe_ForceCloseDelay host l s a); [apply Hk1|by eapply keep_seen|done|by left].
Qed.

Lemma server_program_never_fails_witness :
  wp (server_program LittleEndian (os := bounded_os) (user := impatient_user (os := bounded_os)) (refs := no_refs)
        any_addr true "echo" (UserCb kOnConnection) (UserCb kOnMessage) None 1000)
    (λ _ w, ∃ l s a, sys_ok LittleEndian l s a (idle (refs := no_refs)) false ∅ w) sys_exit empty_world.
Proof.
  exact (server_program_never_fails LittleEndian (os := bounded_os) (user := impatient_user (os := bounded_os)) (refs := no_refs)
    any_addr true "echo" (UserCb kOnConnection) (UserCb kOnMessage) None 1000).
Defined.

(** With a clock that jumps, the timer fires in every round and is set again. *)
Definition jumping_os : OS := λ h c, match c with ClockNow => ok (clock h + 4000000000) | _ => bounded_os h c end.

Example echo_timer_fires :
  match echo_main LittleEndian (text := any_text) (os := jumping_os) 0 3 (empty_world, mkEchoServer 0 0 0 0) with
  | Done ended (w, _) => bool_decide (ended = false ∧ tasks (w_hist w) = [kPrintThroughput; kPrintThroughput; kPrintThroughput])
  | Crash _ _ => false end = true.
Proof. by vm_compute. Qed.

(** The same program runs. *)
Example server_program_runs :
  match server_program LittleEndian (os := bounded_os) (user := echo_user (os := bounded_os)) (refs := no_refs) any_addr true "echo"
          (UserCb kOnConnection) (UserCb kOnMessage) None 4 empty_world with
  | Done ended w => bool_decide (ended = false ∧ length (map_to_list (w_conns w)) = 4%nat)
  | Crash _ _ => false end = true.
Proof. by vm_compute. Qed.

(** With clients that hang up when they are asked: every connection is
    closed, destroyed in the round and its descriptor given back; only the
    last one, which was not dispatched yet, is there after four rounds. *)
Definition leaving_os : OS := λ h c,
  match c with SysReadv _ _ => ok 0 | _ => bounded_os h c end.

Example connections_are_destroyed :
  match server_program LittleEndian (os := leaving_os) (user := echo_user (os := leaving_os)) (refs := no_refs)
          any_addr true "echo" (UserCb kOnConnection) (UserCb kOnMessage) None 4 empty_world with
  | Done ended w => bool_decide (ended = false ∧ accepted (w_hist w) = 4 ∧
      length (map_to_list (w_conns w)) = 1%nat ∧ length (elements (open_fds (w_hist w))) = 6%nat)
  | Crash _ _ => false end = true.
Proof. by vm_compute. Qed.

(** The same with an application that keeps a pointer to every connection
    until it has been called eight times: the ones that ended meanwhile are
    there as long, and go when it lets them go. *)
Definition calls (h : list event) : list ucall := h ≫= λ e, match e with User u => [u] | Sys _ _ => [] end.
Definition hoarding : AppRefs.
Proof.
  refine {| app_holds h c := (length (calls h) <? 8)%nat |}.
  intros h fd r c. by rw /calls bind_app /= app_nil_r.
Defined.
Definition hoarded (rounds : nat) : option (nat * list nat) :=
  match server_program LittleEndian (os := leaving_os) (user := echo_user (os := leaving_os)) (refs := hoarding)
          any_addr true "echo" (UserCb kOnConnection) (UserCb kOnMessage) None rounds empty_world with
  | Done _ w => Some (length (calls (w_hist w)), elements (dom (w_conns w)))
  | Crash _ _ => None end.

Example released_connections_go :
  hoarded 4 = Some (7, [4; 2; 3; 1])%nat ∧ hoarded 5 = Some (9, [5])%nat.
Proof. by vm_compute. Qed.

(** The server that hangs up, with a clock that advances by a second and a
    half whenever it is read: after six rounds three of the six connections
    have been closed by their timers and destroyed; the timers of the second
    message of each find its connection gone. *)
Definition brisk_os : OS := λ h c, match c with ClockNow => ok (clock h + 1500000000) | _ => bounded_os h c end.

Example late_clients_are_closed :
  match server_program LittleEndian (os := brisk_os) (user := impatient_user (os := brisk_os)) (refs := no_refs)
          any_addr true "echo" (UserCb kOnConnection) (UserCb kOnMessage) None 6 empty_world with
  | Done ended w => bool_decide (ended = false ∧ accepted (w_hist w) = 6 ∧
      dom (w_conns w) = {[4; 5; 6]}%nat ∧ weak_refs (w_timers w) = {[1; 2; 3; 4; 5]}%nat)
  | Crash _ _ => false end = true.
Proof. by vm_compute. Qed.

(** An application that greets its clients does not keep to the rules: when
    the client has reset the connection by then, the connection is closed
    before its channel was ever dispatched, and the destructor of the channel
    reads a flag that nobody has set. *)
Definition greeting_user {os : OS} : UserCode := λ u,
  match u with
  | UConnection _ c => cn ← get_conn c;
      when (IsConnected cn) (Send (user := echo_notify) (close_code (user := echo_notify)) c [Byte.x68; Byte.x69])
  | _ => mret ()
  end.

Definition resetting_os : OS := λ h c,
  match c with SysSend _ _ => mkReply (-1) ECONNRESET [] [] | _ => bounded_os h c end.

Example greeting_reads_uninitialised_flag :
  match server_program LittleEndian (os := resetting_os) (user := greeting_user (os := resetting_os)) (refs := no_refs)
          any_addr true "greeter" (UserCb kOnConnection) (UserCb kOnMessage) None 1 empty_world with
  | Done _ _ => false
  | Crash f _ => bool_decide (f = UB) end = true.
Proof. by vm_compute. Qed.
