(* ===== verification/Flow.v ===== *)
(** * Flow: bytes through a whole process

    Where the bytes of every connection of a process are: [io] is what the
    kernel delivered and took on a descriptor since it was accepted, [flows]
    relates that to the buffers of every connection at once.  Steps that move
    no bytes keep it ([Stable]); sending, reading, accepting and destroying
    get a lemma each.  The relation itself is a parameter [X], since it is
    different in the middle of a handler. *)

From S2P Require Import Prelude Buffer BufferSpec World Kernel Poller Channel Sample Reactor EventLoop.
From S2P Require Import Timer Socket TcpConnection ConnInv ConnSteps ConnSpec ConnLife TimerSpec LoopLife.
From S2P Require Import Inet Acceptor ThreadPool TcpServer ServerSpec System SysInv.

(** The bytes that the kernel took and delivered on [fd] since accept4(2)
    returned it last. *)
Definition io_step (fd : Z) (x : list byte * list byte) (e : event) : list byte * list byte :=
  match e with
  | Sys (SysAccept4 _ _) r => if r_ret r =? fd then ([], []) else x
  | Sys (SysSend fd' d) r =>
      if (fd' =? fd) && (0 <=? r_ret r) then (x.1 ++ take (Z.to_nat (r_ret r)) d, x.2) else x
  | Sys (SysReadv fd' _) r => if (fd' =? fd) && (0 <=? r_ret r) then (x.1, x.2 ++ r_data r) else x
  | _ => x
  end.
Definition io (fd : Z) (h : list event) : list byte * list byte := foldl (io_step fd) ([], []) h.

Lemma io_app fd h e : io fd (h ++ [e]) = io_step fd (io fd h) e.
Proof. by rw /io foldl_app. Qed.

Lemma io_silent fd h k r : silent k = true → io fd (h ++ [Sys k r]) = io fd h.
Proof. rw io_app. by destruct k. Qed.

Lemma open_silent h k r : silent k = true → open_fds h ⊆ open_fds (h ++ [Sys k r]).
Proof. rw open_fds_app. destruct k; try done; simpl; intros _; try set_solver; destruct (_ <=? _); set_solver. Qed.

(** At every moment so far, and on every descriptor: what was sent is the
    beginning of what had been received. *)
Definition echoed (h : list event) : Prop := ∀ h' fd, h' `prefix_of` h → (io fd h').1 `prefix_of` (io fd h').2.

Lemma echoed_snoc h e : echoed h → (∀ fd, (io fd (h ++ [e])).1 `prefix_of` (io fd (h ++ [e])).2) → echoed (h ++ [e]).
Proof.
  intros Hh He h' fd [k Hk]. destruct k as [|x k _] using rev_ind; [by rw app_nil_r in Hk; rw -Hk|].
  rw app_assoc in Hk. apply app_inj_tail in Hk as [-> _]. apply Hh. by exists k.
Qed.
Lemma echoed_now h fd : echoed h → (io fd h).1 `prefix_of` (io fd h).2.
Proof. intros Hh. by apply Hh. Qed.
Lemma echoed_same h e : echoed h → (∀ fd, io fd (h ++ [e]) = io fd h) → echoed (h ++ [e]).
Proof. intros Hh He. apply echoed_snoc; [done|]. intros fd. rw He. by apply echoed_now. Qed.
Lemma echoed_silent h k r : silent k = true → echoed h → echoed (h ++ [Sys k r]).
Proof. intros Hk Hh. apply echoed_same; [done|]. intros fd. by apply io_silent. Qed.

(** What is said of a connection, its address, and the bytes taken and
    delivered on its socket. *)
Definition content_of : Type := nat → TcpConnection → list byte → list byte → Prop.

Section flow.
Implicit Types (w : World) (cn : TcpConnection) (ch : Channel) (lp : EventLoop) (X : content_of) (F : gset Z) (S R : list byte).

(** A connection and its place in the world. *)
Record conn_flows X w c cn : Prop := {
  cf_chan : ∃ ch, w_chans w !! tc_channel_ cn = Some ch ∧ ch_fd_ ch = tc_socket_ cn;
  cf_open : tc_socket_ cn ∈ open_fds (w_hist w);
  cf_in : inv (tc_input_buffer_ cn);
  cf_out : inv (tc_output_buffer_ cn);
  cf_bytes : X c cn (io (tc_socket_ cn) (w_hist w)).1 (io (tc_socket_ cn) (w_hist w)).2;
}.

(** The descriptors of [F] are open and nobody's yet. *)
Record spare w (fd : Z) : Prop := {
  sp_open : fd ∈ open_fds (w_hist w);
  sp_conns : ∀ c cn, w_conns w !! c = Some cn → tc_socket_ cn ≠ fd;
  sp_accs : ∀ a ac, w_accs w !! a = Some ac → ac_idle_fd_ ac ≠ fd;
  sp_io : io fd (w_hist w) = ([], []);
}.

(** The acceptors' descriptors in reserve. *)
Definition reserves w : Prop := ∀ a ac, w_accs w !! a = Some ac →
  ac_idle_fd_ ac ∈ open_fds (w_hist w) ∧ (∀ c cn, w_conns w !! c = Some cn → tc_socket_ cn ≠ ac_idle_fd_ ac) ∧
  ∀ a' ac', w_accs w !! a' = Some ac' → ac_idle_fd_ ac' = ac_idle_fd_ ac → a' = a.

(** All loops are this thread's, and no message waits to be sent. *)
Definition loops_flow w : Prop := ∀ l lp, w_loops w !! l = Some lp →
  el_thread_id_ lp = w_tid w ∧ Forall (λ f, sends f = false) (el_pendings_ lp).

Record flows X F w : Prop := {
  fl_conns : ∀ c cn, w_conns w !! c = Some cn → conn_flows X w c cn;
  fl_unique : ∀ c1 c2 cn1 cn2, w_conns w !! c1 = Some cn1 → w_conns w !! c2 = Some cn2 →
    tc_socket_ cn1 = tc_socket_ cn2 → c1 = c2;
  fl_spare : ∀ fd, fd ∈ F → spare w fd;
  fl_reserve : reserves w;
  fl_loops : loops_flow w;
  fl_timers : ∀ t tm, w_timers w !! t = Some tm → timer_task (tm_callback_ tm);
  fl_servers : ∀ s sv, w_servers w !! s = Some sv → ∃ k, sv_message_cb_ sv = Some (UserCb k);
  fl_trace : echoed (w_hist w);
}.

(** What a step that moves no bytes may change. *)
Record calm_step (X X' : content_of) w w' : Prop := {
  ca_tid : w_tid w' = w_tid w;
  ca_conns : ∀ c cn', w_conns w' !! c = Some cn' → ∃ cn, w_conns w !! c = Some cn ∧
    (tc_socket_ cn', tc_channel_ cn', tc_input_buffer_ cn', tc_output_buffer_ cn') =
      (tc_socket_ cn, tc_channel_ cn, tc_input_buffer_ cn, tc_output_buffer_ cn) ∧
    ∀ S R, X c cn S R → X' c cn' S R;
  ca_chans : ∀ k ch, w_chans w !! k = Some ch → ∃ ch', w_chans w' !! k = Some ch' ∧ ch_fd_ ch' = ch_fd_ ch;
  ca_io : ∀ fd, io fd (w_hist w') = io fd (w_hist w);
  ca_open : open_fds (w_hist w) ⊆ open_fds (w_hist w');
  ca_accs : ∀ a ac', w_accs w' !! a = Some ac' → ∃ ac, w_accs w !! a = Some ac ∧ ac_idle_fd_ ac' = ac_idle_fd_ ac;
  ca_loops : ∀ l lp', w_loops w' !! l = Some lp' → ∃ lp, w_loops w !! l = Some lp ∧
    el_thread_id_ lp' = el_thread_id_ lp ∧ ∀ f, f ∈ el_pendings_ lp' → f ∈ el_pendings_ lp ∨ sends f = false;
  ca_timers : ∀ t tm', w_timers w' !! t = Some tm' → timer_task (tm_callback_ tm') ∨
    ∃ tm, w_timers w !! t = Some tm ∧ tm_callback_ tm' = tm_callback_ tm;
  ca_servers : ∀ s sv', w_servers w' !! s = Some sv' → ∃ sv, w_servers w !! s = Some sv ∧
    sv_message_cb_ sv' = sv_message_cb_ sv;
  ca_trace : echoed (w_hist w) → echoed (w_hist w');
}.

Lemma flows_calm X X' F w w' : flows X F w → calm_step X X' w w' → flows X' F w'.
Proof.
  intros [Hcn Hu Hsp Hre Hlo Htm Hsv Htr] [Ct Cc Ck Ci Co Ca Cl Cm Cs Cr]. split.
  - intros c cn' Hc'. destruct (Cc c cn' Hc') as (cn & Hc & [= E1 E2 E3 E4] & HX).
    destruct (Hcn c cn Hc) as [(ch & Hk & Hfd) Hop Hi Ho Hb]. split; rw ?E1 ?E2 ?E3 ?E4 ?Ci; auto.
    destruct (Ck _ ch Hk) as (ch' & ? & ?). exists ch'. split; [done|congruence].
  - intros c1 c2 d1 d2 H1 H2. destruct (Cc c1 d1 H1) as (cn1 & ? & [= E1 _ _ _] & _).
    destruct (Cc c2 d2 H2) as (cn2 & ? & [= E2 _ _ _] & _). rw E1 E2. eauto.
  - intros fd Hin. destruct (Hsp fd Hin) as [? Hsc Hsa ?]. split; [by apply Co| | |by rw Ci].
    + intros c cn' Hc'. destruct (Cc c cn' Hc') as (cn & ? & [= -> _ _ _] & _). eauto.
    + intros a ac' Ha'. destruct (Ca a ac' Ha') as (ac & ? & ->). eauto.
  - intros a ac' Ha'. destruct (Ca a ac' Ha') as (ac & Ha & ->). destruct (Hre a ac Ha) as (? & Hrc & Hra).
    split_and!; [by apply Co| |].
    + intros c cn' Hc'. destruct (Cc c cn' Hc') as (cn & ? & [= -> _ _ _] & _). eauto.
    + intros a' ac2 Ha2. destruct (Ca a' ac2 Ha2) as (ac3 & ? & ->). eauto.
  - intros l lp' Hl'. destruct (Cl l lp' Hl') as (lp & Hl & -> & Hp). destruct (Hlo l lp Hl) as [-> Hf].
    split; [done|]. apply Forall_forall. intros f Hin. destruct (Hp f Hin); [|done]. rw Forall_forall in Hf. by apply Hf.
  - intros t tm' Ht'. destruct (Cm t tm' Ht') as [?|(tm & Ht & ->)]; [done|]. by eapply Htm.
  - intros s sv' Hs'. destruct (Cs s sv' Hs') as (sv & Hs & ->). by eapply Hsv.
  - auto.
Qed.

Lemma calm_step_refl X w : calm_step X X w w.
Proof. split; try done; eauto 6. Qed.

(** The same where only [conns] or nothing of this has changed. *)
Lemma calm_same X w w' :
  (w_tid w', w_hist w', w_chans w', w_timers w', w_loops w', w_conns w', w_accs w', w_servers w') =
    (w_tid w, w_hist w, w_chans w, w_timers w, w_loops w, w_conns w, w_accs w, w_servers w) → calm_step X X w w'.
Proof.
  intros [= E1 E2 E3 E4 E5 E6 E7 E8]. destruct (calm_step_refl X w). split; rw ?E1 ?E2 ?E3 ?E4 ?E5 ?E6 ?E7 ?E8 //.
Qed.

(** What is said of a connection does not depend on whether it reads, and
    stays when the connection goes down. *)
Class Settled X : Prop := {
  settled_state : ∀ s c cn S R, s ≠ Connecting → s ≠ Connected → X c cn S R → X c (set_tc_state_ s cn) S R;
  settled_reading : ∀ b c cn S R, X c cn S R → X c (set_tc_reading_ b cn) S R;
}.

(** Flows are kept; where the code fails, what was sent on a descriptor is
    still the beginning of what was received on it. *)
Definition flowing X F : effect :=
  mkEffect (λ w w', flows X F w → flows X F w') (λ w w', flows X F w → echoed (w_hist w')).

#[export] Instance flowing_effect X F : Effect (flowing X F).
Proof.
  split; [split|..].
  - intros w H. exact H.
  - intros x y z H1 H2 H. exact (H2 (H1 H)).
  - intros w w' H Hf. exact (fl_trace _ _ _ (H Hf)).
  - intros w w1 w2 H1 H2 Hf. exact (H2 (H1 Hf)).
Qed.

Lemma calm_event X e w :
  (∀ fd, io_step fd (io fd (w_hist w)) e = io fd (w_hist w)) → open_fds (w_hist w) ⊆ open_fds (w_hist w ++ [e]) →
  calm_step X X w (set_w_hist (w_hist w ++ [e]) w).
Proof.
  intros Hio Hop. destruct (calm_step_refl X w).
  assert (∀ fd, io fd (w_hist w ++ [e]) = io fd (w_hist w)) as Hsame by (intros fd; by rw io_app Hio).
  split; try done. intros Hh. by apply echoed_same.
Qed.

(** The rest of [X] is as strong as that of [X']. *)
Definition elsewhere (c : nat) X X' : Prop := ∀ c' cn S R, c' ≠ c → X c' cn S R → X' c' cn S R.

Lemma calm_alter_conn X X' f c w :
  elsewhere c X X' →
  (∀ cn, (tc_socket_ (f cn), tc_channel_ (f cn), tc_input_buffer_ (f cn), tc_output_buffer_ (f cn)) =
      (tc_socket_ cn, tc_channel_ cn, tc_input_buffer_ cn, tc_output_buffer_ cn) ∧
    ∀ S R, X c cn S R → X' c (f cn) S R) →
  calm_step X X' w (set_w_conns (alter f c (w_conns w)) w).
Proof.
  intros Hel Hf. destruct (calm_step_refl X w). split; try done. intros c' cn'. rw /= lookup_alter. case_decide as D.
  - subst c'. intros (cn & Hc & ->)%fmap_Some. exists cn. split; [done|apply Hf].
  - intros Hc. exists cn'. split_and!; [done|done|]. intros S R. apply Hel. congruence.
Qed.

Lemma calm_alter_loop X f l w :
  (∀ lp, el_thread_id_ (f lp) = el_thread_id_ lp ∧ ∀ g, g ∈ el_pendings_ (f lp) → g ∈ el_pendings_ lp ∨ sends g = false) →
  calm_step X X w (set_w_loops (alter f l (w_loops w)) w).
Proof.
  intros Hf. destruct (calm_step_refl X w). split; try done. intros l' lp'. rw /= lookup_alter.
  case_decide; [subst|by eauto]. intros (lp & Hl & ->)%fmap_Some. exists lp. split; [done|apply Hf].
Qed.

#[export] Instance flowing_stable X F `{!Settled X} : Stable (flowing X F).
Proof.
  split; [exact _|..].
  - intros w w' Hw Hf. eapply flows_calm; [exact Hf|by apply calm_same].
  - intros k r w Hk Hf. eapply flows_calm; [exact Hf|]. apply calm_event; [|by apply open_silent].
    intros fd. rw -io_app. by apply io_silent.
  - intros u w Hf. eapply flows_calm; [exact Hf|]. apply calm_event; [done|]. by rw open_fds_app.
  - intros f k w Hfd Hf. eapply flows_calm; [exact Hf|]. destruct (calm_step_refl X w). split; try done.
    intros k' ch Hk. rw /= lookup_alter. case_decide; [subst|by exists ch]. rw Hk. eexists. split; [done|apply Hfd].
  - intros f l w Hs Hf. eapply flows_calm; [exact Hf|]. apply calm_alter_loop. intros lp.
    destruct (Hs lp) as [(? & _) ->]. auto.
  - intros t l w Ht Hf. eapply flows_calm; [exact Hf|]. apply calm_alter_loop. intros lp. split; [done|].
    intros g [?|H%list_elem_of_singleton]%elem_of_app; [by left|right; by rw H].
  - intros s c w H1 H2 Hf. eapply flows_calm; [exact Hf|]. apply calm_alter_conn; [by intros ?|]. intros cn. split; [done|].
    intros S R. by apply settled_state.
  - intros b c w Hf. eapply flows_calm; [exact Hf|]. apply calm_alter_conn; [by intros ?|]. intros cn. split; [done|].
    intros S R. by apply settled_reading.
  - intros b a w Hf. eapply flows_calm; [exact Hf|]. destruct (calm_step_refl X w). split; try done.
    intros a' ac'. rw /= lookup_alter. case_decide; [subst|by eauto]. intros (ac & Ha & ->)%fmap_Some. by exists ac.
  - intros f s w Hf. eapply flows_calm; [exact Hf|]. destruct (calm_step_refl X w). split; try done.
    intros s' sv'. rw /= lookup_alter. case_decide; [subst|by eauto]. intros (sv & Hs & ->)%fmap_Some. by exists sv.
Qed.
End flow.

(** ** Steps that move bytes, and objects that come and go *)

Section steps.
Context {os : OS} {heap : Heap}.
Implicit Types (w : World) (cn : TcpConnection) (ch : Channel) (lp : EventLoop) (X : content_of) (F : gset Z) (S R : list byte).

(** Changing the buffers or the state of a connection. *)
Lemma flows_conn X X' F c cn cn' w :
  flows X F w → w_conns w !! c = Some cn → (tc_socket_ cn', tc_channel_ cn') = (tc_socket_ cn, tc_channel_ cn) →
  inv (tc_input_buffer_ cn') → inv (tc_output_buffer_ cn') → elsewhere c X X' →
  (∀ S R, X c cn S R → X' c cn' S R) → flows X' F (set_w_conns (<[c := cn']> (w_conns w)) w).
Proof.
  intros [Hcn Hu Hsp Hre Hlo Htm Hsv Htr] Hc [= E1 E2] Hi Ho Hel HX.
  assert (∀ c' d', <[c := cn']> (w_conns w) !! c' = Some d' → ∃ d, w_conns w !! c' = Some d ∧ tc_socket_ d' = tc_socket_ d) as Hback.
  { intros c' d'. rw lookup_insert. case_decide; [subst|by eauto]. intros [= <-]. by exists cn. }
  split; [| | | |exact Hlo|exact Htm|exact Hsv|exact Htr].
  - intros c' d'. rw /= lookup_insert. case_decide as D.
    + intros [= <-]. subst c'. destruct (Hcn c cn Hc). split; rw ?E1 ?E2 //. auto.
    + intros Hd. destruct (Hcn c' d' Hd). split; try done. by apply (Hel c'); [congruence|].
  - intros c1 c2 d1 d2 (d1' & H1 & ->)%Hback (d2' & H2 & ->)%Hback. eauto.
  - intros fd Hin. destruct (Hsp fd Hin). split; try done. intros c' d' (d & ? & ->)%Hback. eauto.
  - intros a ac Ha. destruct (Hre a ac Ha) as (? & Hrc & ?). split_and!; try done. intros c' d' (d & ? & ->)%Hback. eauto.
Qed.

(** A call that moves bytes on the socket of a connection. *)
Lemma flows_moved X X' F c cn k w :
  let r := os_reply (w_hist w) k in
  flows X F w → w_conns w !! c = Some cn → open_fds (w_hist w ++ [Sys k r]) = open_fds (w_hist w) →
  (∀ fd x, fd ≠ tc_socket_ cn → io_step fd x (Sys k r) = x) → elsewhere c X X' →
  (∀ S R, X c cn S R → let x := io_step (tc_socket_ cn) (S, R) (Sys k r) in X' c cn x.1 x.2) →
  (∀ S R, X' c cn S R → S `prefix_of` R) → flows X' F (after_call k w).
Proof.
  intros r [Hcn Hu Hsp Hre Hlo Htm Hsv Htr] Hc Hop Hio Hel HX Hpre. split; [|exact Hu| | |exact Hlo|exact Htm|exact Hsv|].
  - intros c' d Hd. destruct (Hcn c' d Hd) as [? ? ? ? Hb]. rw /after_call -/r. split; rw /= ?Hop //. rw io_app.
    destruct (decide (c' = c)) as [-> |Hne].
    + simplify_eq/=. specialize (HX _ _ Hb). by rw -surjective_pairing in HX.
    + rw Hio; [intros Heq; apply Hne; by eapply Hu|]. by apply (Hel c').
  - intros fd Hin. destruct (Hsp fd Hin) as [? Hsc ? Hz]. rw /after_call -/r. split; rw /= ?Hop //. rw io_app Hio //.
    intros Heq. by apply (Hsc c cn).
  - intros a ac Ha. rw /after_call -/r /= Hop. by apply Hre.
  - apply echoed_snoc; [done|]. intros fd. rw io_app -/r. destruct (decide (fd = tc_socket_ cn)) as [-> |Hne].
    + apply Hpre. specialize (HX _ _ (cf_bytes _ _ _ _ (Hcn c cn Hc))). by rw -surjective_pairing in HX.
    + rw Hio //. by apply echoed_now.
Qed.

(** accept4(2) returned a new descriptor, or failed. *)
Lemma flows_accept X fd n w `{!FdFresh os} :
  let k := SysAccept4 fd n in let r := os_reply (w_hist w) k in
  flows X ∅ w → flows X (if 0 <=? r_ret r then {[r_ret r]} else ∅) (after_call k w).
Proof.
  intros k r [Hcn Hu Hsp Hre Hlo Htm Hsv Htr]. pose proof (fd_fresh (os := os) (w_hist w) k eq_refl) as Hfr.
  change (os (w_hist w) k) with r in Hfr.
  assert (open_fds (w_hist w) ⊆ open_fds (w_hist w ++ [Sys k r])) as Hop.
  { rw open_fds_app /=. destruct (_ <=? _); set_solver. }
  rw /after_call -/r. split; [|exact Hu| | |exact Hlo|exact Htm|exact Hsv|]; simpl.
  - intros c cn Hc. destruct (Hcn c cn Hc) as [? Ho ? ? Hb]. split; try done; simpl; [by apply Hop|]. rw io_app /=.
    destruct (Z.eqb_spec (r_ret r) (tc_socket_ cn)) as [E|]; [|done]. by rw -E in Ho.
  - intros fd'. destruct (Z.leb_spec 0 (r_ret r)) as [Hr|]; [|set_solver]. intros ->%elem_of_singleton. split; simpl.
    + rw open_fds_app /=. destruct (Z.leb_spec 0 (r_ret r)); [set_solver|lia].
    + intros c cn Hc Heq. apply Hfr. rw -Heq. by apply (Hcn c cn Hc).
    + intros a ac Ha Heq. apply Hfr. rw -Heq. by apply (Hre a ac Ha).
    + by rw io_app /= Z.eqb_refl.
  - intros a ac Ha. destruct (Hre a ac Ha) as (? & ? & ?). split_and!; try done. by apply Hop.
  - apply echoed_snoc; [done|]. intros fd'. rw io_app /=. destruct (_ =? _); [done|]. by apply echoed_now.
Qed.

(** Nobody wants it: it is closed. *)
Lemma flows_unwanted X fd w : flows X {[fd]} w → flows X ∅ (after_call (SysClose fd) w).
Proof.
  intros [Hcn Hu Hsp Hre Hlo Htm Hsv Htr]. destruct (Hsp fd) as [_ Hsc Hsa _]; [set_solver|].
  rw /after_call. split; [|exact Hu|set_solver| |exact Hlo|exact Htm|exact Hsv|]; simpl.
  - intros c cn Hc. destruct (Hcn c cn Hc) as [? Ho ? ? Hb]. pose proof (Hsc c cn Hc). split; try done; simpl.
    + rw open_fds_app /=. set_solver.
    + by rw io_app.
  - intros a ac Ha. destruct (Hre a ac Ha) as (? & ? & ?). pose proof (Hsa a ac Ha). split_and!; try done. rw /= open_fds_app /=.
    set_solver.
  - apply echoed_same; [done|]. intros fd'. by rw io_app.
Qed.

(** The descriptor gets a connection. *)
Lemma flows_new X X' c k ch cn fd w :
  flows X {[fd]} w → w_conns w !! c = None → w_chans w !! k = None →
  (tc_socket_ cn, tc_channel_ cn, ch_fd_ ch) = (fd, k, fd) → inv (tc_input_buffer_ cn) → inv (tc_output_buffer_ cn) →
  elsewhere c X X' → X' c cn [] [] →
  flows X' ∅ (set_w_chans (<[k := ch]> (w_chans w)) (set_w_conns (<[c := cn]> (w_conns w)) w)).
Proof.
  intros [Hcn Hu Hsp Hre Hlo Htm Hsv Htr] Hc Hk [= E1 E2 E3] Hi Ho Hel HX.
  destruct (Hsp fd) as [Hop Hsc Hsa Hz]; [set_solver|]. split; [| | | |exact Hlo|exact Htm|exact Hsv|exact Htr]; simpl.
  - intros c' d. rw lookup_insert. case_decide as D.
    + intros [= <-]. subst c'. split; rw ?E1 ?E2 //; simpl; [exists ch; by rw lookup_insert_eq|]. by rw Hz.
    + intros Hd. destruct (Hcn c' d Hd) as [(ch' & Hk' & ?) ? ? ? Hb]. split; try done; simpl.
      * exists ch'. rw lookup_insert_ne //. intros ->. by rw Hk in Hk'.
      * apply (Hel c'); [congruence|done].
  - intros c1 c2 d1 d2. rw !lookup_insert. case_decide; case_decide; try congruence.
    + intros [= <-] H2. rw E1. intros Heq. by destruct (Hsc c2 d2 H2).
    + intros H1 [= <-]. rw E1. intros Heq. by destruct (Hsc c1 d1 H1).
    + by apply Hu.
  - intros fd'. set_solver.
  - intros a ac Ha. destruct (Hre a ac Ha) as (? & Hrc & ?). split_and!; try done. intros c' d. simpl. rw lookup_insert.
    case_decide; [|by apply Hrc]. intros [= <-]. rw E1. intros Heq. by apply (Hsa a ac Ha).
Qed.

(** A connection goes with its channel and its descriptor. *)
Lemma flows_gone X c cn w :
  flows X ∅ w → w_conns w !! c = Some cn →
  let w1 := after_call (SysClose (tc_socket_ cn)) (set_w_chans (delete (tc_channel_ cn) (w_chans w)) w) in
  flows X ∅ (set_w_conns (delete c (w_conns w)) w1).
Proof.
  intros [Hcn Hu Hsp Hre Hlo Htm Hsv Htr] Hc w1. set (fd := tc_socket_ cn).
  assert (open_fds (w_hist w1) = open_fds (w_hist w) ∖ {[fd]}) as Hop by by rw /= open_fds_app.
  assert (∀ fd', io fd' (w_hist w1) = io fd' (w_hist w)) as Hio by (intros fd'; by rw /= io_app).
  destruct (Hcn c cn Hc) as [(ch & Hk & Hfd) _ _ _ _].
  split; [| |set_solver| |exact Hlo|exact Htm|exact Hsv|]; simpl.
  - intros c' d [Hne Hd]%lookup_delete_Some. destruct (Hcn c' d Hd) as [(ch' & Hk' & Hfd') ? ? ? Hb].
    assert (tc_socket_ d ≠ fd) as Hnf by (intros Heq; apply Hne; symmetry; by eapply Hu).
    split; try done.
    + exists ch'. rw /= lookup_delete_ne //. intros Heq. rw -Heq Hk in Hk'. injection Hk' as E. apply Hnf. by rw -Hfd' -E Hfd.
    + change (tc_socket_ d ∈ open_fds (w_hist w1)). rw Hop. set_solver.
    + change (X c' d (io (tc_socket_ d) (w_hist w1)).1 (io (tc_socket_ d) (w_hist w1)).2). by rw Hio.
  - intros c1 c2 d1 d2 [_ H1]%lookup_delete_Some [_ H2]%lookup_delete_Some. by apply Hu.
  - intros a ac Ha. change (w_accs w !! a = Some ac) in Ha. destruct (Hre a ac Ha) as (? & Hrc & ?). split_and!; try done.
    + change (ac_idle_fd_ ac ∈ open_fds (w_hist w1)). rw Hop. pose proof (Hrc c cn Hc). set_solver.
    + intros c' d. simpl. intros [_ Hd]%lookup_delete_Some. by eapply Hrc.
  - apply echoed_same; [done|]. intros fd'. apply Hio.
Qed.

(** Another descriptor is held in reserve. *)
Lemma flows_reserve X a ac idle w w' :
  flows X ∅ w → w_accs w !! a = Some ac →
  (w_tid w', w_chans w', w_timers w', w_loops w', w_conns w', w_servers w') =
    (w_tid w, w_chans w, w_timers w, w_loops w, w_conns w, w_servers w) →
  w_accs w' = <[a := set_ac_idle_fd_ idle ac]> (w_accs w) → (∀ fd, io fd (w_hist w') = io fd (w_hist w)) → echoed (w_hist w') →
  (let rest := open_fds (w_hist w) ∖ {[ac_idle_fd_ ac]} in
   (idle ∉ rest) ∧ open_fds (w_hist w') = {[idle]} ∪ rest) → flows X ∅ w'.
Proof.
  intros [Hcn Hu Hsp Hre Hlo Htm Hsv Htr] Ha [= E1 E2 E3 E4 E5 E6] Ea Hio Htr' [Hnew Hop].
  destruct (Hre a ac Ha) as (Hio0 & Hrc & Hra).
  assert (∀ c cn, w_conns w !! c = Some cn → tc_socket_ cn ∈ open_fds (w_hist w) ∖ {[ac_idle_fd_ ac]}) as Hrest.
  { intros c cn Hc. pose proof (cf_open _ _ _ _ (Hcn c cn Hc)). pose proof (Hrc c cn Hc). set_solver. }
  assert (∀ a' ac', a' ≠ a → w_accs w !! a' = Some ac' → ac_idle_fd_ ac' ∈ open_fds (w_hist w) ∖ {[ac_idle_fd_ ac]}) as Hres.
  { intros a' ac' Hne Ha'. destruct (Hre a' ac' Ha') as (? & _ & _). apply elem_of_difference. rw elem_of_singleton.
    split; [done|]. intros Heq. by apply Hne, (Hra a' ac'). }
  split; rw ?E3 ?E5 ?E6 //.
  - intros c cn. intros Hc. destruct (Hcn c cn Hc). split; rw ?E2 ?Hio //. rw Hop. pose proof (Hrest c cn Hc). set_solver.
  - intros a' ac'. rw Ea Hop lookup_insert E5. case_decide as D.
    + intros [= <-]. subst a'. simpl. split_and!; [set_solver| |].
      * intros c cn Hc Heq. apply Hnew. rw -Heq. by eapply Hrest.
      * intros a2 ac2. rw lookup_insert. case_decide; [done|]. intros Ha2 Heq. destruct Hnew. rw -Heq. by eapply Hres.
    + intros Ha'. pose proof (Hres a' ac' ltac:(done) Ha'). destruct (Hre a' ac' Ha') as (? & ? & Hr').
      split_and!; [set_solver|done|]. intros a2 ac2. rw lookup_insert. case_decide; [|by apply Hr'].
      intros [= <-] Heq. simpl in Heq. destruct Hnew. by rw Heq.
  - intros l lp. rw E4 E1. apply Hlo.
Qed.
End steps.
