(* ===== verification/EchoProgram.v ===== *)
(** * EchoProgram: the echo server as a whole process

    The example server on one thread, from [main] on: every client gets back
    exactly the bytes it sent, in order, and nothing else, whatever other
    clients do.  The invariant is [flows served] (Flow.v): for every
    connection at once, what the kernel took on its socket and the output
    buffer are the bytes that were delivered on it.  What was sent is the
    beginning of what was received also where the program ends early; in which
    ways it can do so is the result of Program.v. *)

From S2P Require Import Prelude Buffer BufferSpec World Kernel Poller Channel Sample Reactor EventLoop.
From S2P Require Import Timer Socket TcpConnection ConnInv ConnSteps ConnSpec ConnLife TimerSpec TimerFire LoopLife.
From S2P Require Import Inet Acceptor ThreadPool TcpServer ServerSpec System SysInv ConnSafe TimerSafe ServerSafe.
From S2P Require Import RoundSafe EchoServer Startup Program Flow.

(** ** What is said of connections *)

Section relations.
Implicit Types (w : World) (cn : TcpConnection) (S R : list byte).

(** Established, with the callback of the echo application. *)
Definition ours cn : Prop := tc_state_ cn ≠ Connecting ∧ ∃ k, tc_on_message_ cn = Some (UserCb k).

(** Between events: [S] was sent and [R] was received. *)
Definition served : content_of := λ _ cn S R,
  ours cn ∧ S ++ content (tc_output_buffer_ cn) `prefix_of` R ∧
  (tc_state_ cn = Connected → S ++ content (tc_output_buffer_ cn) = R ∧ content (tc_input_buffer_ cn) = []).

(** While a message is handled: the input buffer is still to be sent, ... *)
Definition received cn S R : Prop :=
  ours cn ∧ S ++ content (tc_output_buffer_ cn) `prefix_of` R ∧
  (tc_state_ cn = Connected → S ++ content (tc_output_buffer_ cn) ++ content (tc_input_buffer_ cn) = R).

(** ... [rest] is still to be sent, ... *)
Definition sending (rest : list byte) cn S R : Prop :=
  ours cn ∧ S ++ content (tc_output_buffer_ cn) ++ rest `prefix_of` R ∧
  (tc_state_ cn = Connected → S ++ content (tc_output_buffer_ cn) ++ rest = R).

(** ... or the first [n] bytes of the output buffer were taken. *)
Definition taken_off (n : Z) cn S R : Prop := ∃ S0,
  S = S0 ++ take (Z.to_nat n) (content (tc_output_buffer_ cn)) ∧ served 0%nat cn S0 R.

(** A connection that is not established yet, and its message callback. *)
Definition newborn (cb : option conn_cb) cn S R : Prop :=
  (S, R, content (tc_output_buffer_ cn), content (tc_input_buffer_ cn)) = ([], [], [], []) ∧ tc_on_message_ cn = cb.

(** Whatever was sent had been received. *)
Lemma sent_before S S' R : S ++ S' `prefix_of` R → S `prefix_of` R.
Proof. apply prefix_app_l. Qed.

(** [Y] for the connection [c]. *)
Definition but (c : nat) (Y : TcpConnection → list byte → list byte → Prop) : content_of := λ c' cn S R,
  if bool_decide (c' = c) then Y cn S R else served c' cn S R.

Lemma but_at c Y cn S R : but c Y c cn S R ↔ Y cn S R.
Proof. rw /but. by case_bool_decide. Qed.
Lemma but_served c Y : elsewhere c (but c Y) served.
Proof. intros c' cn S R Hne. rw /but. by case_bool_decide. Qed.
Lemma served_but c Y : elsewhere c served (but c Y).
Proof. intros c' cn S R Hne. rw /but. by case_bool_decide. Qed.
Lemma but_but c Y Y' : elsewhere c (but c Y) (but c Y').
Proof. intros c' cn S R Hne. rw /but. by case_bool_decide. Qed.

(** All of them are settled. *)
Definition lasting (Y : TcpConnection → list byte → list byte → Prop) : Prop := ∀ cn cn' S R,
  (tc_on_message_ cn', tc_output_buffer_ cn', tc_input_buffer_ cn') =
    (tc_on_message_ cn, tc_output_buffer_ cn, tc_input_buffer_ cn) →
  (tc_state_ cn' = Connecting → tc_state_ cn = Connecting) → (tc_state_ cn' = Connected → tc_state_ cn = Connected) →
  Y cn S R → Y cn' S R.

Lemma ours_lasting cn cn' :
  tc_on_message_ cn' = tc_on_message_ cn → (tc_state_ cn' = Connecting → tc_state_ cn = Connecting) → ours cn → ours cn'.
Proof. rw /ours. intros ->. naive_solver. Qed.
Lemma served_lasting c : lasting (served c).
Proof. intros cn cn' S R [= E1 E2 E3] H1 H2 (Ho & Hp & Hc). rw /served E2 E3. split_and!; [by eapply ours_lasting|done|auto]. Qed.
Lemma received_lasting : lasting received.
Proof. intros cn cn' S R [= E1 E2 E3] H1 H2 (Ho & Hp & Hc). rw /received E2 E3. split_and!; [by eapply ours_lasting|done|auto]. Qed.
Lemma sending_lasting rest : lasting (sending rest).
Proof. intros cn cn' S R [= E1 E2 E3] H1 H2 (Ho & Hp & Hc). rw /sending E2. split_and!; [by eapply ours_lasting|done|auto]. Qed.
Lemma newborn_lasting cb : lasting (newborn cb).
Proof. intros cn cn' S R [= E1 E2 E3] _ _. by rw /newborn E1 E2 E3. Qed.

#[export] Instance served_settled : Settled served.
Proof. split; intros; (eapply served_lasting; [..|done]); simpl; (done || congruence). Qed.
Lemma but_settled c Y : lasting Y → Settled (but c Y).
Proof.
  intros HY. split; intros ? c' cn S R; rw /but; case_bool_decide.
  - intros ? ?. eapply HY; simpl; (done || congruence).
  - by apply (settled_state (X := served)).
  - by apply HY.
  - by apply (settled_reading (X := served)).
Qed.
#[export] Instance received_settled c : Settled (but c received) := but_settled c _ received_lasting.
#[export] Instance sending_settled c rest : Settled (but c (sending rest)) := but_settled c _ (sending_lasting rest).
#[export] Instance newborn_settled c cb : Settled (but c (newborn cb)) := but_settled c _ (newborn_lasting cb).

(** Saying less. *)
Lemma flows_weaken (X X' : content_of) F w :
  flows X F w → (∀ c cn S R, w_conns w !! c = Some cn → X c cn S R → X' c cn S R) → flows X' F w.
Proof.
  intros Hf HX. eapply flows_calm; [exact Hf|]. destruct (calm_step_refl X w). split; try done.
  intros c cn Hc. exists cn. split_and!; [done..|]. intros S R. by apply HX.
Qed.
Lemma flows_but c Y F w :
  flows (but c Y) F w → (∀ cn S R, w_conns w !! c = Some cn → Y cn S R → served c cn S R) → flows served F w.
Proof.
  intros Hf HY. eapply flows_weaken; [exact Hf|]. intros c' cn S R Hc. rw /but. case_bool_decide; [subst; by apply HY|done].
Qed.
Lemma sending_done cn c S R : sending [] cn S R → tc_state_ cn ≠ Connected → served c cn S R.
Proof. rw /sending app_nil_r. intros (? & ? & _) ?. by split_and!. Qed.
End relations.

(** ** Where the code completes, and where it fails *)

(** Whatever the failure is, what was sent so far had been received: which
    failures there are is the subject of Program.v. *)
Definition still_echoed : failure → World → Prop := λ _ w, echoed (w_hist w).

(** What was sent so far is the beginning of what was received, by one of the
    flows that hold. *)
Ltac by_trace := match goal with H : flows _ _ _ |- _ => exact (fl_trace _ _ _ H) end.

Section rules.
Context {os : OS} {user : UserCode}.
Implicit Types (w : World).

Lemma wp_flowing X F {A} (m : M World A) (Q : A → World → Prop) w :
  flows X F w → along (flowing X F) m → (∀ a w', flows X F w' → Q a w') → wp m Q still_echoed w.
Proof. intros Hf Hm HQ. specialize (Hm w). rw /wp. destruct (m w); [by apply HQ, Hm|by apply Hm]. Qed.
Lemma along_wp X F {A} (m : M World A) :
  (∀ w, flows X F w → wp m (λ _, flows X F) still_echoed w) → along (flowing X F) m.
Proof. intros Hm w. specialize (Hm w). rw /wp in Hm. by destruct (m w). Qed.

(** Two results about the same code. *)
Lemma wp_both {S A} (m : M S A) (Q1 Q2 : A → S → Prop) (E1 E2 : failure → S → Prop) s :
  wp m Q1 E1 s → wp m Q2 E2 s → wp m Q2 (λ f s', E1 f s' ∧ E2 f s') s.
Proof. rw /wp. by destruct (m s). Qed.

Section failing.
Context (w : World) (Hw : echoed (w_hist w)).

Lemma wp_any_deref {A} (o : option A) (Q : A → World → Prop) :
  (∀ a, o = Some a → Q a w) → wp (deref o) Q still_echoed w.
Proof. intros HQ. destruct o; [by apply HQ|done]. Qed.
Lemma wp_any_conn c (Q : TcpConnection → World → Prop) :
  (∀ cn, w_conns w !! c = Some cn → Q cn w) → wp (get_conn c) Q still_echoed w.
Proof. intros HQ. rw /get_conn. do 2 wp_step. by apply wp_any_deref. Qed.
Lemma wp_any_chan k (Q : Channel → World → Prop) :
  (∀ ch, w_chans w !! k = Some ch → Q ch w) → wp (get_chan k) Q still_echoed w.
Proof. intros HQ. rw /get_chan. do 2 wp_step. by apply wp_any_deref. Qed.
Lemma wp_any_loop l (Q : EventLoop → World → Prop) :
  (∀ lp, w_loops w !! l = Some lp → Q lp w) → wp (get_loop l) Q still_echoed w.
Proof. intros HQ. rw /get_loop. do 2 wp_step. by apply wp_any_deref. Qed.
Lemma wp_any_timer t (Q : Timer → World → Prop) :
  (∀ tm, w_timers w !! t = Some tm → Q tm w) → wp (get_timer t) Q still_echoed w.
Proof. intros HQ. rw /get_timer. do 2 wp_step. by apply wp_any_deref. Qed.
Lemma wp_any_acc a (Q : Acceptor → World → Prop) :
  (∀ ac, w_accs w !! a = Some ac → Q ac w) → wp (get_acc a) Q still_echoed w.
Proof. intros HQ. rw /get_acc. do 2 wp_step. by apply wp_any_deref. Qed.
Lemma wp_any_server s (Q : TcpServer → World → Prop) :
  (∀ sv, w_servers w !! s = Some sv → Q sv w) → wp (get_server s) Q still_echoed w.
Proof. intros HQ. rw /get_server. do 2 wp_step. by apply wp_any_deref. Qed.
Lemma wp_any_assert b (Q : () → World → Prop) : (b = true → Q () w) → wp (assert_ b) Q still_echoed w.
Proof. intros HQ. destruct b; [by apply HQ|done]. Qed.
Lemma wp_any_thread l (Q : () → World → Prop) : Q () w → wp (AssertInLoopThread l) Q still_echoed w.
Proof.
  intros HQ. rw /AssertInLoopThread /IsInLoopThread. do 2 wp_step. apply wp_any_loop. intros lp _. do 3 wp_step.
  by destruct (_ =? _)%nat.
Qed.

(** A buffer operation on a connection. *)
Lemma wp_any_input {A} (m : M Buffer A) c cn P E (Q : A → World → Prop) :
  w_conns w !! c = Some cn → wp m P E (tc_input_buffer_ cn) →
  (∀ a b, P a b → Q a (set_w_conns (<[c := set_tc_input_buffer_ b cn]> (w_conns w)) w)) → wp (on_input c m) Q still_echoed w.
Proof.
  intros Hc Hm HQ. rw /on_input /on_buffer. wp_step. eapply wp_get_conn; [done|]. apply wp_zoom.
  by eapply wp_mono; [exact Hm|exact HQ|].
Qed.
Lemma wp_any_output {A} (m : M Buffer A) c cn P E (Q : A → World → Prop) :
  w_conns w !! c = Some cn → wp m P E (tc_output_buffer_ cn) →
  (∀ a b, P a b → Q a (set_w_conns (<[c := set_tc_output_buffer_ b cn]> (w_conns w)) w)) → wp (on_output c m) Q still_echoed w.
Proof.
  intros Hc Hm HQ. rw /on_output /on_buffer. wp_step. eapply wp_get_conn; [done|]. apply wp_zoom.
  by eapply wp_mono; [exact Hm|exact HQ|].
Qed.
End failing.

(** On the only thread there is. *)
Lemma wp_any_here X F l (Q : bool → World → Prop) w :
  flows X F w → (is_Some (w_loops w !! l) → Q true w) → wp (IsInLoopThread l) Q still_echoed w.
Proof.
  intros Hf HQ. rw /IsInLoopThread. wp_step. apply wp_any_loop; [by_trace|]. intros lp Hl. do 3 wp_step.
  destruct (fl_loops _ _ _ Hf l lp Hl) as [-> _]. rw Nat.eqb_refl. apply HQ. by exists lp.
Qed.

(** Setting fields of a connection. *)
Lemma wp_any_alter_conn X X' F f c w :
  flows X F w → elsewhere c X X' →
  (∀ cn, (tc_socket_ (f cn), tc_channel_ (f cn), tc_input_buffer_ (f cn), tc_output_buffer_ (f cn)) =
      (tc_socket_ cn, tc_channel_ cn, tc_input_buffer_ cn, tc_output_buffer_ cn) ∧
    ∀ S R, X c cn S R → X' c (f cn) S R) →
  wp (alter_conn f c) (λ _, flows X' F) still_echoed w.
Proof. intros Hf Hel HX. rw /alter_conn. wp_step. eapply flows_calm; [exact Hf|]. by apply calm_alter_conn. Qed.
End rules.

(** ** Sending *)

Section sending.
Context {os : OS} {heap : Heap} `{!SendOk os}.
Implicit Types (w : World) (cn : TcpConnection) (ch : Channel) (F : gset Z) (S R : list byte).

(** What the application does when it is told about a connection. *)
Lemma notify_along (rel : effect) `{!Stable rel} c u :
  tells c u = true → along rel (user_run (UserCode := echo_notify) u).
Proof. intros _. rw /user_run /echo_notify /on_connection. destruct u; solve_along. Qed.

Abbreviation closing := (close_code (user := echo_notify)).

Lemma sending_down rest cn S R s :
  sending rest cn S R → s ≠ Connecting → s ≠ Connected → sending [] (set_tc_state_ s cn) S R.
Proof.
  intros ((_ & Hm) & Hp & _) H1 H2. rw /sending /ours app_nil_r /=. split_and!; [done|done| |done].
  etrans; [|exact Hp]. rw (assoc_L (++)). by apply prefix_app_r.
Qed.

(** A fault closes the connection: nothing more is owed to it. *)
Lemma close_after_fault c rest F w :
  flows (but c (sending rest)) F w →
  wp (handle_close (user := echo_notify) closing c) (λ _, flows (but c (sending [])) F) still_echoed w.
Proof.
  intros Hf. rw /handle_close. wp_step. apply wp_any_conn; [by_trace|]. intros cn Hc. wp_step. apply wp_any_thread; [by_trace|].
  destruct (bool_decide _ && bool_decide _) eqn:Hst.
  - apply andb_prop in Hst as [Hst%bool_decide_eq_true _]. wp_step. eapply flows_weaken; [exact Hf|].
    intros c' d S R Hd. rw /but. case_bool_decide; [subst|done]. intros Hs. simplify_eq.
    destruct Hs as (Ho & Hp & _). rw /sending app_nil_r. split_and!; [done| |done].
    etrans; [|exact Hp]. rw (assoc_L (++)). by apply prefix_app_r.
  - wp_step. rw /set_state. eapply wp_alter_conn; [done|]. destruct (fl_conns _ _ _ Hf c cn Hc) as [_ _ Hi Ho _].
    eapply wp_flowing; [eapply (flows_conn _ (but c (sending [])) F c cn); [exact Hf|done..|apply but_but|]| |by intros].
    + intros S R. rw !but_at. intros Hs. by apply (sending_down rest).
    + pose proof (notify_along (flowing (but c (sending [])) F)). rw /DisableAllEvent /call_close. solve_along.
Qed.

(** The direct attempt. *)
Lemma send_directly_flows c cn msg F w :
  flows (but c (sending msg)) F w → w_conns w !! c = Some cn → tc_state_ cn = Connected → zlength msg < two64 →
  wp (send_directly c msg) (λ x w', let '(n, rem, _) := x in 0 ≤ n ∧ rem = zlength msg - n ∧ 0 ≤ rem ∧
    flows (but c (sending (drop (Z.to_nat n) msg))) F w') still_echoed w.
Proof.
  intros Hf Hc Hst Hlen. pose proof (zlength_nonneg msg) as Hz.
  destruct (fl_conns _ _ _ Hf c cn Hc) as [(ch & Hk & Hfd) Hop Hi Ho _].
  rw /send_directly. wp_step. eapply wp_get_conn; [done|]. wp_step. eapply wp_get_chan; [done|].
  destruct (_ && _) eqn:Hdirect; [|wp_step; split_and!; [lia..|by rw drop_0]].
  apply andb_prop in Hdirect as [_ Hemp%Z.eqb_eq]. rw Hfd. wp_step. apply wp_syscall. set (k := SysSend _ msg).
  set (r := os_reply (w_hist w) k). pose proof (send_ok (w_hist w) (tc_socket_ cn) msg : r_ret r ≤ _) as Hr.
  assert (content (tc_output_buffer_ cn) = []) as Hnil.
  { apply length_zero_iff_nil. rw -(zlength_content _ Ho) /zlength in Hemp. lia. }
  assert (∀ m, (0 <= r_ret r → m = Z.to_nat (r_ret r)) → (r_ret r < 0 → m = O) →
    flows (but c (sending (drop m msg))) F (after_call k w)) as Hafter.
  { intros m H1 H2. eapply (flows_moved _ _ F c cn); [exact Hf|done|by rw open_fds_app| |apply but_but| |].
    - intros fd x Hne. rw /= (proj2 (Z.eqb_neq _ _)) //.
    - intros S R. rw !but_at /= Z.eqb_refl /= -/k -/r. intros (Hours & Hp & Hall). rw Hnil /= in Hp, Hall.
      destruct (Z.leb_spec 0 (r_ret r)); rw but_at /sending Hnil /=.
      + rw (H1 ltac:(done)) -!app_assoc take_drop. by split_and!.
      + rw (H2 ltac:(done)) drop_0. by split_and!.
    - intros S R. rw but_at. intros (_ & Hp & _). by eapply sent_before. }
  destruct (Z.leb_spec 0 (r_ret r)).
  - rw u64_small; [unfold two64 in *; lia|]. wp_step. eapply wp_flowing; [by apply (Hafter (Z.to_nat (r_ret r))); [|lia]| |].
    + solve_along.
    + intros _ w' Hf'. wp_step. by split_and!; [lia..|].
  - wp_step. apply wp_gets.
    assert (flows (but c (sending msg)) F (after_call k w)) as Hf' by by rw -(drop_0 msg); apply Hafter; [lia|].
    destruct (_ && _); wp_step; (split_and!; [lia..|by rw drop_0]).
Qed.

(** The rest goes to the output buffer. *)
Lemma buffer_rest_flows c msg n rem F w :
  flows (but c (sending (drop (Z.to_nat n) msg))) F w → 0 ≤ n → rem = zlength msg - n → 0 ≤ rem →
  zlength msg ≤ vector_max_size →
  wp (buffer_rest c msg n rem) (λ _, flows (but c (sending [])) F) still_echoed w.
Proof.
  intros Hf Hn -> Hrem Hmax. rw /buffer_rest. wp_step. apply wp_any_conn; [by_trace|]. intros cn0 _. wp_step.
  eapply wp_flowing; [exact Hf|solve_along|]. intros _ w1 Hf1. wp_step. apply sub_range_ok; [lia..|].
  set (d := drop _ msg) in *.
  assert (zlength d ≤ vector_max_size) as Hd by (rw /d /zlength length_drop; unfold zlength in *; lia).
  destruct (w_conns w1 !! c) as [cn|] eqn:Hc; [|rw /on_output /on_buffer /get_conn /wp /mbind /M_bind /= Hc; by_trace].
  destruct (fl_conns _ _ _ Hf1 c cn Hc) as [_ _ Hi Ho _]. wp_step.
  eapply wp_any_output; [by_trace|exact Hc|by apply Append_any|]. intros [] b (Hb & Hcont & _).
  eapply wp_flowing; [eapply (flows_conn _ (but c (sending [])) F c cn); [exact Hf1|done..|apply but_but|]| |by intros].
  - intros S R. rw !but_at. intros (? & Hp & Hall). rw /sending /= Hcont app_nil_r. by split_and!.
  - rw /EnableWriteEvent. solve_along.
Qed.

Lemma send_in_loop_flows c cn msg F w :
  flows (but c (sending msg)) F w → w_conns w !! c = Some cn → tc_state_ cn = Connected → zlength msg ≤ vector_max_size →
  wp (send_in_loop (user := echo_notify) closing c msg) (λ _, flows (but c (sending [])) F) still_echoed w.
Proof.
  intros Hf Hc Hst Hmax. rw /send_in_loop. wp_step. eapply wp_get_conn; [done|]. wp_step. apply wp_any_thread; [by_trace|].
  rw bool_decide_eq_false_2; [intros Hne; by apply Hne|]. wp_step.
  eapply wp_conseq; [apply (send_directly_flows c cn msg F); try done; unfold vector_max_size, two64 in *; lia|].
  intros [[n rem] fault] w1 (Hn & Hrem & Hge & Hf1). destruct fault.
  - wp_step. apply wp_gets. wp_step. eapply wp_flowing; [exact Hf1|solve_along|]. intros _ w2 Hf2.
    by eapply close_after_fault.
  - destruct (Z.leb_spec rem 0); [|by eapply buffer_rest_flows]. wp_step.
    rw (_ : drop (Z.to_nat n) msg = []) in Hf1; [|done]. apply drop_ge. unfold zlength in *. lia.
Qed.

(** [conn->Send(buf)] *)
Lemma send_back_flows c F w :
  flows (but c received) F w → wp (send_back c) (λ _, flows served F) still_echoed w.
Proof.
  intros Hf. rw /send_back /Send_buffer. wp_step. apply wp_any_conn; [by_trace|]. intros cn Hc.
  destruct (fl_conns _ _ _ Hf c cn Hc) as [_ _ Hi Ho _]. case_bool_decide as Hst.
  { wp_step. eapply flows_but; [exact Hf|]. intros d S R Hd (? & ? & _). simplify_eq. by split_and!. }
  wp_step. eapply wp_any_here; [exact Hf|]. intros _. wp_step.
  eapply wp_any_input; [by_trace|exact Hc|by apply peek_all_ok|]. intros msg b [-> ->]. set (msg := content _). wp_step.
  set (w1 := set_w_conns _ w). set (cn1 := set_tc_input_buffer_ (tc_input_buffer_ cn) cn).
  assert (flows (but c (sending msg)) F w1) as Hf1.
  { eapply (flows_conn _ _ F c cn); [exact Hf|done..|apply but_but|]. intros S R. rw !but_at. intros (? & _ & Hall).
    specialize (Hall Hst). rw /sending /= Hall. by split_and!. }
  eapply wp_conseq; [eapply (send_in_loop_flows c cn1 msg F w1 Hf1); [apply lookup_insert_eq|done|by apply content_max]|].
  intros [] w2 Hf2. destruct (w_conns w2 !! c) as [cn2|] eqn:Hc2; [|rw /on_input /on_buffer /get_conn /wp /mbind /M_bind /= Hc2; by_trace].
  destruct (fl_conns _ _ _ Hf2 c cn2 Hc2) as [_ _ Hi2 Ho2 _].
  eapply wp_any_input; [by_trace|exact Hc2|by apply RetrieveAll_ok|]. intros [] b (Hb & Hnil & _).
  eapply (flows_conn _ served F c cn2); [exact Hf2|done..|apply but_served|]. intros S R. rw but_at.
  rw /sending app_nil_r. intros (? & ? & ?). rw /served /= Hnil. split_and!; auto.
Qed.
End sending.

(** ** Event handlers *)

Section handlers.
Context (host : endian) {text : InetText} {os : OS} {heap : Heap}.
Context `{!SendOk os, !ReadvOk os, !FdFresh os, !HeapFresh heap, !EpollDelOk os, !EpollCtlRet os}.
Implicit Types (w : World) (cn : TcpConnection) (ch : Channel) (F : gset Z) (S R : list byte).

Abbreviation closing := (close_code (user := echo_user)).
Abbreviation kept := (flowing served ∅).

Lemma user_along (rel : effect) `{!Stable rel} c u :
  tells c u = true → along rel (user_run (UserCode := echo_user) u).
Proof. intros Hu. pose proof (notify_along rel c u Hu). by destruct u. Qed.

(** [d] was read and is not in the buffer yet. *)
Definition arrived (d : list byte) cn S R : Prop := ∃ R0, R = R0 ++ d ∧ served 0%nat cn S R0.

(** Errors other than a fault, and the end of the connection. *)
Lemma failed_along c : along kept (
  e ← errno;
  if (e =? EAGAIN) || (e =? EWOULDBLOCK) then mret ()
  else if e =? EINTR then mret ()
  else handle_error_with_code c e ;; handle_close (user := echo_user) closing c).
Proof. pose proof (user_along kept). solve_along. Qed.

Lemma handle_read_flows c t : along kept (handle_read (user := echo_user) closing c t).
Proof.
  apply along_wp. intros w Hf. rw /handle_read. wp_step. apply wp_any_conn; [by_trace|]. intros cn Hc. wp_step. apply wp_any_thread; [by_trace|].
  destruct (fl_conns _ _ _ Hf c cn Hc) as [(ch & Hk & Hfd) Hop Hi Ho _]. wp_step. eapply wp_get_chan; [done|].
  rw Hfd. wp_step. apply wp_syscall. set (k := SysReadv _ _). set (r := os_reply (w_hist w) k). set (w1 := after_call k w).
  set (d := if 0 <=? r_ret r then r_data r else []).
  assert (flows (but c (arrived d)) ∅ w1) as Hf1.
  { eapply (flows_moved _ _ ∅ c cn); [exact Hf|done|by rw open_fds_app| |apply served_but| |].
    - intros fd x Hne. by rw /= (proj2 (Z.eqb_neq _ _)).
    - intros S R Hs. cbv zeta. rw but_at /= Z.eqb_refl /= -/k -/r. exists R. rw /d.
      destruct (0 <=? r_ret r); simpl; rw ?app_nil_r; by split.
    - intros S R. rw but_at. intros (R0 & -> & _ & Hp & _). apply prefix_app_r. by eapply sent_before. }
  wp_step. eapply wp_any_input; [by_trace|exact Hc| |].
  { rw /wp (ReadFd_ext _ (λ iov, let r := os_reply (w_hist w) (SysReadv (tc_socket_ cn) iov) in (r_ret r, r_data r))) //.
    apply ReadFd_any; [done|apply sys_readv_ok]. }
  intros n b (Hn & Hb & Hcont & _). simpl in Hn, Hcont. fold k r in Hn, Hcont. rw Hn -/d in Hcont.
  set (cn1 := set_tc_input_buffer_ b cn). set (w2 := set_w_conns _ w1).
  assert (0 < n → flows (but c received) ∅ w2) as Hsome.
  { intros _. eapply (flows_conn _ _ ∅ c cn); [exact Hf1|done..|apply but_but|]. intros S R. rw !but_at.
    intros (R0 & -> & Hours & Hp & Hall). split_and!; [done|by apply prefix_app_r|]. simpl. rw Hcont. intros Hst.
    destruct (Hall Hst) as [<- ->]. by rw -app_assoc. }
  assert (n ≤ 0 → flows served ∅ w2) as Hnone.
  { intros Hle. assert (d = []) as Hd.
    { rw /d. destruct (Z.leb_spec 0 (r_ret r)); [|done].
      destruct (sys_readv_ok (w_hist w) (tc_socket_ cn) (read_iov (tc_input_buffer_ cn)) ltac:(by apply read_iov_nonneg) ltac:(done)) as [Hlen _].
      apply length_zero_iff_nil. change (r_ret r = zlength (r_data r)) in Hlen. unfold zlength in Hlen. lia. }
    eapply (flows_conn _ _ ∅ c cn); [exact Hf1|done..|apply but_served|]. intros S R. rw but_at.
    intros (R0 & -> & Hs). rw /served /= Hcont Hd !app_nil_r. exact Hs. }
  destruct (Z.ltb_spec 0 n).
  - rw /call_message. wp_step. apply wp_any_conn; [by_trace|]. intros cn2 Hc2. destruct (fl_conns _ _ _ (Hsome ltac:(done)) c cn2 Hc2) as [_ _ _ _ Hx].
    rw but_at in Hx. destruct Hx as ((_ & u & ->) & _). rw /call_user. wp_step.
    eapply wp_flowing; [by apply Hsome|solve_along|]. intros _ w3 Hf3. by apply send_back_flows.
  - specialize (Hnone ltac:(lia)). destruct (n =? 0).
    + eapply wp_flowing; [exact Hnone| |by intros]. pose proof (user_along kept). solve_along.
    + eapply wp_flowing; [exact Hnone|apply failed_along|by intros].
Qed.

Lemma handle_write_flows c : along kept (handle_write (user := echo_user) closing c).
Proof.
  apply along_wp. intros w Hf. rw /handle_write. wp_step. apply wp_any_conn; [by_trace|]. intros cn Hc. wp_step. apply wp_any_thread; [by_trace|].
  destruct (fl_conns _ _ _ Hf c cn Hc) as [(ch & Hk & Hfd) Hop Hi Ho _]. wp_step. eapply wp_get_chan; [done|].
  destruct (negb _); [by wp_step|]. wp_step. eapply wp_any_output; [by_trace|exact Hc|by apply peek_all_ok|]. intros data b [-> ->].
  rw (insert_id (w_conns w)); [rw Hc; by destruct cn|]. set (data := content _). set (w1 := set_w_conns _ w).
  assert (flows served ∅ w1) as Hf1 by by destruct w.
  rw Hfd. wp_step. apply wp_syscall. set (k := SysSend _ data).
  set (r := os_reply (w_hist w1) k). pose proof (send_ok (w_hist w1) (tc_socket_ cn) data : r_ret r ≤ _) as Hr.
  set (w2 := after_call k w1).
  assert (flows (but c (taken_off (Z.max 0 (r_ret r)))) ∅ w2) as Hf2.
  { eapply (flows_moved _ _ ∅ c cn); [exact Hf1|done|by rw open_fds_app| |apply served_but| |].
    - intros fd x Hne. by rw /= (proj2 (Z.eqb_neq _ _)).
    - intros S R Hs. cbv zeta. rw but_at /= Z.eqb_refl /= -/k -/r. exists S.
      destruct (Z.leb_spec 0 (r_ret r)); simpl; [by rw Z.max_r|]. by rw Z.max_l ?take_0 ?app_nil_r; [lia|].
    - intros S R. rw but_at. intros (S0 & -> & _ & Hp & _). rw -(take_drop (Z.to_nat (Z.max 0 (r_ret r))) (content _)) app_assoc in Hp.
      by eapply sent_before. }
  destruct (Z.leb_spec (r_ret r) 0) as [Hle|Hgt].
  - eapply wp_flowing; [|apply failed_along|by intros]. eapply flows_but; [exact Hf2|].
    intros d S R _ (S0 & -> & Hs). rw Z.max_l // take_0 app_nil_r. exact Hs.
  - rw Z.max_r in Hf2; [lia|]. wp_step. eapply wp_any_output; [by_trace|exact Hc|apply Retrieve_ok; [done|fold data; lia]|].
    intros [] b (Hb & Hcont & _). eapply wp_flowing.
    + eapply (flows_conn _ served ∅ c cn); [exact Hf2|done..|apply but_served|]. intros S R. rw but_at.
      intros (S0 & -> & Hs). rw /served /= Hcont -app_assoc take_drop. exact Hs.
    + pose proof (user_along kept). rw /DisableWriteEvent. solve_along.
    + by intros.
Qed.
(** ** Accepting *)

(** A new connection has received nothing and has nothing to send. *)
Lemma new_conn_newborn l name fd k local peer : newborn None (new_conn l name fd k local peer) [] [].
Proof. done. Qed.

(** The callbacks of the server, then the connection is established. *)
Lemma established_flows c k w :
  flows (but c (newborn (Some (UserCb k)))) ∅ w →
  wp (ConnectionEstablished (user := echo_user) c) (λ _, flows served ∅) still_echoed w.
Proof.
  intros Hf. rw /ConnectionEstablished. wp_step. apply wp_any_conn; [by_trace|]. intros cn Hc. wp_step. apply wp_any_thread; [by_trace|]. wp_step.
  apply wp_any_assert; [by_trace|]. intros _. wp_step. eapply wp_conseq; [eapply wp_any_alter_conn; [exact Hf|apply but_served|]|].
  - intros d. split; [done|]. intros S R. rw but_at. intros [[= -> -> Ho Hi] Hm]. rw /served /ours /= Ho Hi Hm.
    split_and!; try done. by exists k.
  - intros [] w1 Hf1. pose proof (user_along kept). eapply wp_flowing; [exact Hf1| |by intros]. rw /EnableReadEvent. solve_along.
Qed.

(** Setting a callback of a connection that is not established yet. *)
Lemma bind_newborn cb1 cb2 f c w :
  flows (but c (newborn cb1)) ∅ w →
  (∀ cn, (tc_socket_ (f cn), tc_channel_ (f cn), tc_input_buffer_ (f cn), tc_output_buffer_ (f cn)) =
      (tc_socket_ cn, tc_channel_ cn, tc_input_buffer_ cn, tc_output_buffer_ cn)) →
  (∀ cn, tc_on_message_ cn = cb1 → tc_on_message_ (f cn) = cb2) →
  wp (alter_conn f c) (λ _, flows (but c (newborn cb2)) ∅) still_echoed w.
Proof.
  intros Hf Hsame Hcb. eapply wp_any_alter_conn; [exact Hf|apply but_but|]. intros cn. split; [apply Hsame|].
  intros S R. rw !but_at /newborn. pose proof (Hsame cn) as [= _ _ -> ->]. intros [-> Hm]. by rw (Hcb cn Hm).
Qed.

Lemma new_connection_flows s fd addr w :
  flows served {[fd]} w → wp (new_connection host (user := echo_user) s fd addr) (λ _, flows served ∅) still_echoed w.
Proof.
  intros Hf. rw /new_connection. wp_step. apply wp_any_server; [by_trace|]. intros sv Hs. destruct (fl_servers _ _ _ Hf s sv Hs) as [k Hk].
  wp_step. apply wp_any_thread; [by_trace|]. wp_step. eapply (wp_flowing served {[fd]}); [exact Hf| |].
  { rw /GetNextLoop. solve_along. by apply along_frame; [exact _|]. }
  intros l w1 Hf1. wp_step. eapply (wp_flowing served {[fd]}); [exact Hf1| |].
  { rw /take_conn_id. solve_along. by apply along_frame; [exact _|]. }
  intros id w2 Hf2. wp_step. eapply (wp_flowing served {[fd]}); [exact Hf2|rw /get_local_addr; solve_along|].
  intros local w3 Hf3. wp_step. apply TcpConnection_new_ok. intros c ch Hc _ Hch _. pose proof fresh_buffer_inv.
  set (w4 := set_w_chans _ _). assert (flows (but c (newborn None)) ∅ w4) as Hf4.
  { eapply (flows_new served _ c ch _ _ fd); [exact Hf3|done..|apply served_but|]. by apply but_at. }
  wp_step. eapply (wp_flowing (but c (newborn None)) ∅); [|solve_along|].
  { apply (along_syscall (os := os) (flowing _ ∅) (SysSetsockopt fd SOL_SOCKET SO_KEEPALIVE 1) eq_refl w4 Hf4). }
  intros _ w5 Hf5. wp_step. eapply wp_conseq; [by apply (bind_newborn None None _ _ w5 Hf5)|]. intros [] w6 Hf6.
  wp_step. eapply wp_conseq; [by apply (bind_newborn None (Some (UserCb k)) _ _ w6 Hf6)|]. intros [] w7 Hf7.
  wp_step. eapply wp_conseq; [by apply (bind_newborn _ (Some (UserCb k)) _ _ w7 Hf7)|]. intros [] w8 Hf8.
  wp_step. eapply wp_conseq; [by apply (bind_newborn _ (Some (UserCb k)) _ _ w8 Hf8)|]. intros [] w9 Hf9.
  rw /RunInLoop. wp_step. eapply wp_any_here; [exact Hf9|]. intros _. by apply (established_flows c k).
Qed.
Lemma juggling h evs :
  echoed h → forallb juggles evs = true → (∀ fd, io fd (h ++ evs) = io fd h) ∧ echoed (h ++ evs).
Proof.
  intros Hh. induction evs as [|e evs IH] using rev_ind; rw ?app_nil_r //. rw forallb_app. intros [H1 H2]%andb_prop.
  destruct (IH H1) as [IH1 IH2]. rw app_assoc. assert (∀ fd, io fd ((h ++ evs) ++ [e]) = io fd (h ++ evs)) as He.
  { intros fd. rw io_app. by destruct e as [[] r|]. }
  split; [intros fd; by rw He IH1|by apply echoed_same].
Qed.

Definition juggled w w' : Prop := ∃ evs, w_hist w' = w_hist w ++ evs ∧ forallb juggles evs = true.
#[local] Instance juggled_preorder : PreOrder juggled.
Proof.
  split; [intros w; exists []; by rw app_nil_r|]. intros x y z (e1 & H1 & S1) (e2 & H2 & S2). exists (e1 ++ e2).
  by rw H2 H1 app_assoc forallb_app S1.
Qed.
Lemma juggled_excess a fd : along (always juggled) (close_excessfd_with_idlefd a fd).
Proof.
  assert (∀ k, (∀ r, juggles (Sys k r) = true) → along (always juggled) (syscall k)) as Hcall.
  { intros k Hk w. exists [Sys k (os_reply (w_hist w) k)]. split; [done|]. rw {1}/forallb Hk //. }
  assert (∀ f, along (always juggled) (alter_acc f a)) as Hset.
  { intros f. apply along_modify. intros w. exists []. by rw app_nil_r. }
  rw /close_excessfd_with_idlefd /close_fd /create_idlefd /sockets_close /or_die /logged /get_acc /critical.
  repeat first [along_step | apply Hset | by apply Hcall].
Qed.

Lemma close_excess_flows a fd : along kept (close_excessfd_with_idlefd a fd).
Proof.
  apply along_wp. intros w Hf. destruct (w_accs w !! a) as [ac|] eqn:Ha; [|rw /close_excessfd_with_idlefd /get_acc /wp /mbind /M_bind /= Ha; by_trace].
  eapply wp_mono; [apply (wp_alongside (always juggled)), juggled_excess; by apply close_excess_ok|..].
  2: { intros f w' [_ (evs & Hh & Hev)]. rw /still_echoed Hh. by apply juggling; [by_trace|]. }
  intros [] w' [(idle & evs & Ha' & _ & Hnew & Hop & (Hh & Hev) & Hrest) _].
  rw Hh in Hop. pose proof (juggling _ evs (fl_trace _ _ _ Hf) Hev) as [Hio Htr].
  eapply (flows_reserve served a ac idle w); by rw ?Hh.
Qed.

Lemma handle_accept_flows a : along kept (handle_accept (new_connection host (user := echo_user)) a).
Proof.
  apply along_wp. intros w Hf. rw /handle_accept. wp_step. apply wp_any_acc; [by_trace|]. intros ac Ha. wp_step. apply wp_any_thread; [by_trace|].
  rw /Socket_Accept /accept. do 3 wp_step. apply wp_syscall. set (k := SysAccept4 _ _). set (r := os_reply (w_hist w) k).
  pose proof (flows_accept served (ac_accept_socket_ ac) sizeof_pointer w Hf : flows _ (if 0 <=? r_ret r then _ else _) _) as Hf1.
  destruct (Z.ltb_spec (r_ret r) 0) as [Hr|Hr].
  - destruct (Z.leb_spec 0 (r_ret r)) as [?|_]; [lia|]. wp_step. apply wp_gets. destruct (accept_errno_ok _); [|by_trace].
    do 2 wp_step. destruct (Z.ltb_spec (r_ret r) 0); [|lia]. eapply wp_flowing; [exact Hf1| |by intros].
    pose proof close_excess_flows. solve_along.
  - destruct (Z.leb_spec 0 (r_ret r)) as [_|?]; [|lia]. do 2 wp_step. destruct (Z.ltb_spec (r_ret r) 0); [lia|].
    destruct (ac_on_new_connection_ ac) as [s|].
    + wp_step. apply wp_any_deref; [by_trace|]. intros addr _. by apply new_connection_flows.
    + rw /sockets_close. apply wp_logged. by apply flows_unwanted.
Qed.
(** ** Tasks and timers *)

(** The callbacks of the application other than for messages. *)
Lemma other_calls_along (rel : effect) `{!Stable rel} u :
  (∀ k c t, u ≠ UMessage k c t) → along rel (call_user (user := echo_user) u).
Proof.
  intros Hu. destruct u as [| |k c|k c|k c t| | |]; try (rw /call_user; by solve_along); [..|by destruct (Hu k c t)];
    (apply (along_note rel (user_along rel) c), Nat.eqb_refl).
Qed.

Lemma run_functor_flows f : sends f = false → along kept (run_functor (user := echo_user) f).
Proof.
  intros Hf. destruct (still f) eqn:Hs; [by apply (along_still kept (user_along kept))|].
  destruct f; try done; try (by apply other_calls_along; [exact _|]).
  apply along_wp. intros w Hfl. simpl. rw /ConnectionEstablished. wp_step. apply wp_any_conn; [by_trace|]. intros cn Hc.
  wp_step. apply wp_any_thread; [by_trace|]. wp_step. apply wp_any_assert; [by_trace|]. intros Hst%bool_decide_eq_true.
  by destruct (cf_bytes _ _ _ _ (fl_conns _ _ _ Hfl c cn Hc)) as [[? _] _].
Qed.

Lemma timer_task_sends f : timer_task f → sends f = false.
Proof. by intros [u [-> | ->]]. Qed.

Lemma fire_flows t : along kept (tm ← get_timer t; run_functor (user := echo_user) (tm_callback_ tm)).
Proof.
  apply along_wp. intros w Hf. wp_step. apply wp_any_timer; [by_trace|]. intros tm Ht.
  eapply wp_flowing; [exact Hf| |by intros]. by apply run_functor_flows, timer_task_sends, (fl_timers _ _ _ Hf t tm).
Qed.

(** A timer that is set again calls the same. *)
Lemma Restart_callback now tm tm' : Restart now tm = Some tm' → tm_callback_ tm' = tm_callback_ tm.
Proof.
  rw /Restart. destruct (tm_repeat_ tm); [|by intros [= <-]]. destruct (nanoseconds _) as [d|]; [|done].
  simpl. destruct (add_ns _ _); [|done]. by intros [= <-].
Qed.
Lemma restart_flows l now t : along kept (
  tm ← get_timer t;
  if negb (tm_repeat_ tm) then mret ()
  else
    tq ← get_tq l;
    if bool_decide (t ∈ tq_canceling_timers_ tq) then mret ()
    else
      tm' ← deref (Restart now tm);
      alter_timer (λ _, tm') t ;;
      _ ← insert l t; mret ()).
Proof.
  apply along_wp. intros w Hf. wp_step. apply wp_any_timer; [by_trace|]. intros tm Ht. destruct (negb _); [by wp_step|].
  rw /get_tq. do 2 wp_step. apply wp_any_loop; [by_trace|]. intros lp _. wp_step. case_bool_decide; [by wp_step|]. wp_step.
  apply wp_any_deref; [by_trace|]. intros tm' Hr. rw /alter_timer. repeat wp_step. eapply (wp_flowing served ∅); [|solve_along|by intros; wp_step].
  eapply flows_calm; [exact Hf|]. destruct (calm_step_refl served w). split; try done. intros t' tm0. rw /= lookup_alter.
  case_decide; [subst|by eauto]. rw Ht. intros [= <-]. right. exists tm. split; [done|by eapply Restart_callback].
Qed.

Lemma handle_timerfd_flows l : along kept (handle_timerfd (run_functor (user := echo_user)) l).
Proof.
  pose proof fire_flows. pose proof restart_flows.
  rw /handle_timerfd /reset_timerfd /run_expired /restart_expired /alter_tq. solve_along.
Qed.

Lemma dispatch_flows cb t : along kept (dispatch host (user := echo_user) cb t).
Proof.
  pose proof (user_along kept). destruct cb; simpl; [solve_along|apply handle_timerfd_flows|apply handle_accept_flows|
    apply handle_read_flows|apply handle_write_flows|solve_along|solve_along|by apply other_calls_along; [exact _|]].
Qed.
(** ** The end of connections, and rounds *)

Lemma wp_any_channel_dtor k (Q : () → World → Prop) w :
  echoed (w_hist w) → Q () (set_w_chans (delete k (w_chans w)) w) → wp (Channel_dtor k) Q still_echoed w.
Proof.
  intros Hw HQ. rw /Channel_dtor. wp_step. apply wp_any_chan; [done|]. intros ch _. wp_step. apply wp_any_deref; [done|]. intros b _. wp_step.
  apply wp_any_assert; [done|]. intros _. wp_step. apply wp_any_deref; [done|]. intros b' _. wp_step. apply wp_any_assert; [done|]. intros _.
  rw /IsInLoopThread. do 2 wp_step. apply wp_any_loop; [done|]. intros lp _. do 3 wp_step. destruct (_ =? _)%nat; repeat wp_step; [|exact HQ].
  rw /EventLoop_HasChannel /Poller_HasChannel. wp_step. apply wp_any_chan; [done|]. intros ch' _. wp_step. apply wp_any_loop; [done|]. intros lp' _.
  wp_step. apply wp_any_assert; [done|]. intros _. by repeat wp_step.
Qed.

Lemma conn_dtor_flows c : along kept (TcpConnection_dtor c).
Proof.
  apply along_wp. intros w Hf. rw /TcpConnection_dtor. wp_step. apply wp_any_conn; [by_trace|]. intros cn Hc. wp_step.
  apply wp_any_assert; [by_trace|]. intros _. wp_step. apply wp_any_channel_dtor; [by_trace|]. wp_step. rw /Socket_dtor /sockets_close.
  apply wp_logged. wp_step. exact (flows_gone served c cn w Hf Hc).
Qed.

Context {refs : AppRefs}.

Lemma drop_tasks_flows fs : along kept (drop_tasks fs).
Proof.
  pose proof conn_dtor_flows. induction fs as [|f fs IH]; cbn [drop_tasks]; rw ?/let_go ?/release; solve_along.
Qed.

(** The tasks of a round send nothing. *)
Lemma tasks_flows fs :
  Forall (λ f, sends f = false) fs → along kept (for_each fs (run_functor (user := echo_user))).
Proof.
  induction 1 as [|f fs Hf _ IH]; [exact (along_ret kept ())|]. apply along_bind; [exact _|by apply run_functor_flows|done].
Qed.

Lemma pending_phase_flows l : along kept (pending_phase (run_functor (user := echo_user)) drop_tasks l).
Proof.
  apply along_wp. intros w Hf. rw /pending_phase. wp_step. eapply (wp_flowing served ∅); [exact Hf|solve_along|].
  intros _ w1 Hf1. wp_step. apply wp_any_loop; [by_trace|]. intros lp Hl. destruct (fl_loops _ _ _ Hf1 l lp Hl) as [_ Hp]. wp_step.
  rw {1}/alter_loop. wp_step. eapply (wp_flowing served ∅); [eapply flows_calm; [exact Hf1|]| |by intros].
  - apply calm_alter_loop. intros lp'. split; [done|]. by intros g ?%not_elem_of_nil.
  - pose proof drop_tasks_flows. pose proof (tasks_flows _ Hp). solve_along.
Qed.

Lemma rounds_flows fuel l : along kept (loop_while (dispatch host (user := echo_user)) (run_functor (user := echo_user)) drop_tasks fuel l).
Proof.
  pose proof dispatch_flows. pose proof pending_phase_flows.
  induction fuel as [|fuel IH]; cbn [loop_while]; rw ?/loop_round; solve_along.
Qed.

Lemma Start_flows fuel l : along kept (loop_Start host (user := echo_user) fuel l).
Proof. pose proof rounds_flows. rw /loop_Start /Start. solve_along. Qed.
End handlers.

(** ** The whole program *)

Section starting.
Context (host : endian) {text : InetText} {cw : Clockwork} {os : OS} {heap : Heap}.
Context `{!EpollDelOk os, !EpollCtlRet os, !SendOk os, !ReadvOk os, !EpollWaitOk os}.
Context `{!FdFresh os, !HeapFresh heap, !FewAccepts os}.
Implicit Types (w : World) (cn : TcpConnection) (ch : Channel) (lp : EventLoop) (sv : TcpServer).

Lemma soundless_echoed h : forallb soundless h = true → echoed h.
Proof.
  induction h as [|e h IH] using rev_ind; intros Hh.
  - intros h' fd Hp. by apply prefix_nil_inv in Hp as ->.
  - rw forallb_app /= andb_true_r in Hh. apply andb_prop in Hh as [Hh He]. apply echoed_same; [by apply IH|].
    intros fd. destruct e as [k r|u]; [by apply io_silent|by rw io_app].
Qed.

(** A server that is about to start has nothing to answer. *)
Lemma made_loops l s a sv w : made l s a sv w → loops_flow w.
Proof.
  intros Hm. destruct (lo_loop _ _ (made_loop_ok _ _ _ _ _ Hm)) as (lp0 & Hl0 & Ht0).
  destruct Hm as [(w1 & w2 & lp & tq & Hlb & Hab & Hl & _ & Hlo & _) _ _]. intros l' lp'. rw Hlo lookup_insert. case_decide as D.
  - intros [= <-]. rw Hlo lookup_insert_eq in Hl0. injection Hl0 as <-. split; [done|].
    destruct (lb_loop _ _ _ Hlb) as (lp1 & Hl1 & _ & Hp & _). assert (lp1 = lp) as -> by congruence. by rw /= Hp.
  - pose proof (ab_rest _ _ _ _ Hab) as Hr. injection Hr as _ _ Hlo2 _ _ _ _ _. by rw Hlo2 (lb_loops _ _ _ Hlb).
Qed.

Lemma made_flows l s a sv k w : made l s a sv w → sv_message_cb_ sv = Some (UserCb k) → flows served ∅ w.
Proof.
  intros Hm Hcb. pose proof (made_loops l s a sv w Hm) as Hloops.
  destruct Hm as [(w1 & w2 & lp & tq & Hlb & Hab & Hl & Hsame & Hlo & Htq & (evs & Hh & Hev) & (ac & Ha2 & Ha)) Hq Hs].
  pose proof (ab_rest _ _ _ _ Hab) as Hr2. injection Hr2 as _ _ _ Hcn2 _ _ _ _.
  pose proof (lb_rest _ _ _ Hlb) as Hr1. injection Hr1 as _ _ Hcn1 _ _ _ _. injection Hsame as _ _ Hcn _ _.
  assert (w_conns w = ∅) as Hnone by by rw Hcn Hcn2 Hcn1. split; rw ?Hnone //.
  - intros a' ac'. rw Ha lookup_singleton_Some. intros [<- <-]. split_and!; [|by rw Hnone|].
    + rw Hh (proj1 (proj2 (unseen_hist (w_hist w2) evs Hev))).
      destruct (ab_made _ _ _ _ Hab) as (fd & ck & ifd & _ & _ & _ & _ & -> & Hac & _).
      rw Hac lookup_insert_eq in Ha2. injection Ha2 as <-. cbn. set_solver.
    + intros a2 ac2. rw lookup_singleton_Some. by intros [<- _].
  - intros t tm Ht. by apply (to_each _ _ _ Htq t tm).
  - intros s' sv'. rw Hs lookup_singleton_Some. intros [_ <-]. by exists k.
  - by apply soundless_echoed.
Qed.

(** Starting it answers nothing either. *)
Lemma Server_Start_flows l s a sv k w :
  made l s a sv w → unstarted l a sv → sv_message_cb_ sv = Some (UserCb k) →
  wp (Server_Start (user := echo_user) s) (λ _, flows served ∅) still_echoed w.
Proof.
  intros Hm ([= Hsl Hsa Hin Hcs] & [= Htb Hts Htn Htl] & _) Hcb. pose proof (made_loop_ok _ _ _ _ _ Hm) as Hlok.
  destruct (lo_loop _ _ Hlok) as (lp & Hl & Ht). pose proof Hm as [(w1 & w2 & lp0 & tq & _ & Hab & _ & _ & _ & _ & _ & (ac & Ha2 & Ha)) Hq Hs].
  destruct (ab_made _ _ _ _ Hab) as (fd & ck & ifd & _ & _ & _ & _ & _ & Hac & _). rw Hac lookup_insert_eq in Ha2. injection Ha2 as <-.
  eapply (Server_Start_empty s sv _ lp); [by rw Hs lookup_singleton_eq|done|done|done|congruence|by rw Hsl|done|by rw Hsa Ha lookup_singleton_eq|done|].
  eapply (wp_flowing served ∅); [|by apply (along_still (user := echo_user) (flowing served ∅) (user_along _) (FListen _))|by intros].
  apply (made_flows l s a (started sv) k); [|done]. destruct Hm as [Hb _ _]. split; [done|done|]. by rw /= Hs insert_singleton_eq.
Qed.
End starting.

(** A clock that shows times after the epoch to which two seconds can be
    added. *)
Class ClockRoom (os : OS) : Prop := clock_room : ∀ h,
  0 ≤ r_ret (os h ClockNow) ∧ in_int64 (r_ret (os h ClockNow) + 2000000000) = true.

Definition echo_clock : Clockwork :=
  {| spans := [2000000000]; moments := []; shows t := 0 ≤ t ∧ in_int64 (t + 2000000000) = true |}.
#[export] Instance echo_clock_fit os `{!ClockRoom os} : ClockFit echo_clock os.
Proof.
  split; [apply clock_room|by intros t [? _]|by intros t d [_ ?] ->%list_elem_of_singleton|by intros e ?%not_elem_of_nil].
Qed.

(** A timer is due at the very time at which the clock was read last. *)
Definition due_now (w : World) : Prop := ∃ l lp t, w_loops w !! l = Some lp ∧
  (clock (w_hist w), t) ∈ tq_timers_ (el_timer_queue_ lp).

Section main.
Context (host : endian) {text : InetText} {os : OS} {heap : Heap}.
Context `{!EpollDelOk os, !EpollCtlRet os, !SendOk os, !ReadvOk os, !EpollWaitOk os}.
Context `{!FdFresh os, !HeapFresh heap, !FewAccepts os, !ClockRoom os}.
Implicit Types (w : World) (cn : TcpConnection).

(** C2: whole-program correctness of the echo server on one thread.  From
    [main] on, on every kernel that behaves as documented and whose clock shows
    times after the epoch to which two seconds can be added, whatever clients
    connect, whatever they send and however the kernel splits, delays or
    refuses it, and for any number of rounds: at every moment of the run and
    on every socket the bytes sent since it was accepted are the beginning of
    the bytes received on it.  This holds however the program ends, and it can
    end only by [exit] after an error of the kernel, because a buffer outgrows
    the address space, or by a failed assertion when a timer is due at the very
    nanosecond at which the clock was read.  Between rounds
    it holds of every connection with the bytes that wait in its output
    buffer, and on a connection that is up nothing is missing: what was sent
    and what waits to be sent are exactly the bytes received, and the input
    buffer is empty. *)
Theorem echo_server_echoes e fuel :
  wp (echo_main host 0 fuel) (λ _ st, let w := st.1 in echoed (w_hist w) ∧
    ∀ c cn, w_conns w !! c = Some cn →
      let sent := (io (tc_socket_ cn) (w_hist w)).1 ++ content (tc_output_buffer_ cn) in
      let got := (io (tc_socket_ cn) (w_hist w)).2 in
      sent `prefix_of` got ∧ (tc_state_ cn = Connected → sent = got ∧ content (tc_input_buffer_ cn) = []))
    (λ f st, let w := st.1 in echoed (w_hist w) ∧
      (f = Exit2 ∨ f = LengthError ∨ (f = AssertFailed ∧ due_now w))) (empty_world, e).
Proof.
  eapply wp_mono; [apply (echo_reaches host (cw := echo_clock) ltac:(by left) e fuel (λ _ w, flows served ∅ w)
    (λ f w, sys_end (cw := echo_clock) f w ∧ still_echoed f w))|..].
  - intros f w [-> Hh]. split; [by left|by apply soundless_echoed].
  - intros l s w Hm. eapply wp_both; [by apply (echo_keeps_running host (cw := echo_clock))|].
    destruct Hm as (a & sv & Hm & Hun & Hcb). wp_step.
    eapply wp_conseq; [by eapply (Server_Start_flows (cw := echo_clock))|]. intros [] w1 Hf1.
    eapply wp_flowing; [exact Hf1|by apply Start_flows|by intros].
  - intros ended [w e'] Hf. split; [exact (fl_trace _ _ _ Hf)|]. intros c cn Hc.
    by destruct (cf_bytes _ _ _ _ (fl_conns _ _ _ Hf c cn Hc)) as [_ ?].
  - intros f [w e'] [[?|[?|[? (l & lp & [e0 t] & Hl & Hin & Hck & _)]]] Hh]; (split; [exact Hh|]); [by auto..|].
    right. right. split; [done|]. exists l, lp, t. rw Hck. by split.
Qed.
End main.

(** ** Samples *)

#[export] Instance bounded_room : ClockRoom bounded_os.
Proof.
  intros h. simpl. destruct (shown (clock h + 1000)) eqn:Hs; [|done]. rw /shown in Hs. simpl. rw /in_int64. lia.
Qed.

Lemma echo_server_echoes_witness :
  wp (echo_main LittleEndian (text := any_text) (os := bounded_os) 0 1000) (λ _ st, let w := st.1 in echoed (w_hist w) ∧
    ∀ c cn, w_conns w !! c = Some cn →
      let sent := (io (tc_socket_ cn) (w_hist w)).1 ++ content (tc_output_buffer_ cn) in
      let got := (io (tc_socket_ cn) (w_hist w)).2 in
      sent `prefix_of` got ∧ (tc_state_ cn = Connected → sent = got ∧ content (tc_input_buffer_ cn) = []))
    (λ f st, let w := st.1 in echoed (w_hist w) ∧
      (f = Exit2 ∨ f = LengthError ∨ (f = AssertFailed ∧ due_now w))) (empty_world, mkEchoServer 0 0 0 0).
Proof.
  exact (echo_server_echoes LittleEndian (text := any_text) (os := bounded_os) (mkEchoServer 0 0 0 0) 1000).
Defined.

(** Clients that take one byte and then no more: the rest waits in the output
    buffers, since their sockets are never reported writable. *)
Definition sipping_os : OS := λ h c, match c with SysSend _ _ => ok 1 | _ => bounded_os h c end.

Example slow_clients_get_their_bytes :
  match echo_main LittleEndian (text := any_text) (os := sipping_os) 0 4 (empty_world, mkEchoServer 0 0 0 0) with
  | Done _ (w, _) => bool_decide (
      (λ cn, let x := io (tc_socket_ cn) (w_hist w) in
        (length x.1, length (content (tc_output_buffer_ cn)), length x.2)) <$> w_conns w !! 1%nat = Some (1, 5, 6)%nat)
  | Crash _ _ => false end = true.
Proof. by vm_compute. Qed.

(** A clock that advances by half a second whenever it is read shows the very
    time at which the timer is due, and the assertion fails; what was sent by
    then had been received. *)
Definition punctual_os : OS := λ h c, match c with ClockNow => ok (clock h + 500000000) | _ => bounded_os h c end.

Example timer_ends_the_server :
  match echo_main LittleEndian (text := any_text) (os := punctual_os) 0 6 (empty_world, mkEchoServer 0 0 0 0) with
  | Crash f (w, _) => bool_decide (f = AssertFailed ∧ clock (w_hist w) = 2500000000 ∧
      (λ lp, tq_timers_ (el_timer_queue_ lp)) <$> w_loops w !! 1%nat = Some [(2500000000, 1%nat)])
  | Done _ _ => false end = true.
Proof. by vm_compute. Qed.
