(* ===== verification/EchoClient.v ===== *)
(** * EchoClient: src/example/echo_client.cpp

    The load generator.  The file is written against asio, whose side is the
    environment: an asynchronous operation is entered in the list of
    outstanding operations of the [io_context]; running the context means to
    complete outstanding operations, one at a time and in any order, with a
    result of the environment's choice, by calling their handlers.  The
    context runs out, and [io.run()] returns, when no operation is
    outstanding.  [asio_ok] is what asio documents about results.

    - every completion is answered by exactly the operations that keep the
      three loops (reading, sending, printing) going, each with at most one
      operation outstanding;
    - the counts behind the printed rates account for every byte and message,
      and each rate is printed to within half a unit of its third digit;
    - setting [g_stop] ends sending and printing but not reading. *)

From S2P Require Import Prelude.

(** [std::error_code]; [None] where the operation succeeded. *)
Inductive error_code := ErrEof | ErrOperationAborted | ErrOther (n : Z).
#[export] Instance error_code_eq_dec : EqDecision error_code.
Proof. solve_decision. Defined.

Inductive async_op :=
  | AsyncConnect (host : string) (port : Z)
  | AsyncReadSome (len : Z)
  | AsyncWrite (data : list byte)
  | AsyncWait (seconds : Z).
#[export] Instance async_op_eq_dec : EqDecision async_op.
Proof. solve_decision. Defined.

(** What is written to the terminal; the four rates in thousandths, as they
    are printed with three digits after the point. *)
Inductive line :=
  | LStarting
  | LConnected (host : string) (port : Z)
  | LConnectError (e : error_code)
  | LReadError (e : error_code)
  | LWriteError (e : error_code)
  | LRates (tx_mib tx_kimsgs rx_mib rx_kimsgs : Z).

(** The globals, the members of the one client, the outstanding operations
    and the output. *)
Record EchoClient := mkEchoClient {
  ec_g_msg_size : Z;
  ec_g_stop : bool;
  ec_endpoint_ : string * Z;
  ec_data_ : list byte;
  ec_send_bytes_ : Z;
  ec_send_msgs_ : Z;
  ec_recv_bytes_ : Z;
  ec_recv_msgs_ : Z;
  ec_ops : list async_op;
  ec_out : list line;
}.

Definition set_ec_g_stop (v : bool) (c : EchoClient) : EchoClient :=
  mkEchoClient (ec_g_msg_size c) v (ec_endpoint_ c) (ec_data_ c) (ec_send_bytes_ c) (ec_send_msgs_ c)
    (ec_recv_bytes_ c) (ec_recv_msgs_ c) (ec_ops c) (ec_out c).
Definition set_ec_sent (bytes msgs : Z) (c : EchoClient) : EchoClient :=
  mkEchoClient (ec_g_msg_size c) (ec_g_stop c) (ec_endpoint_ c) (ec_data_ c) bytes msgs
    (ec_recv_bytes_ c) (ec_recv_msgs_ c) (ec_ops c) (ec_out c).
Definition set_ec_received (bytes msgs : Z) (c : EchoClient) : EchoClient :=
  mkEchoClient (ec_g_msg_size c) (ec_g_stop c) (ec_endpoint_ c) (ec_data_ c) (ec_send_bytes_ c)
    (ec_send_msgs_ c) bytes msgs (ec_ops c) (ec_out c).
Definition set_ec_ops (ops : list async_op) (c : EchoClient) : EchoClient :=
  mkEchoClient (ec_g_msg_size c) (ec_g_stop c) (ec_endpoint_ c) (ec_data_ c) (ec_send_bytes_ c)
    (ec_send_msgs_ c) (ec_recv_bytes_ c) (ec_recv_msgs_ c) ops (ec_out c).
Definition set_ec_out (out : list line) (c : EchoClient) : EchoClient :=
  mkEchoClient (ec_g_msg_size c) (ec_g_stop c) (ec_endpoint_ c) (ec_data_ c) (ec_send_bytes_ c)
    (ec_send_msgs_ c) (ec_recv_bytes_ c) (ec_recv_msgs_ c) (ec_ops c) out.

(** ** The code *)

Definition kReadBuffer : Z := 65536.
Definition kMsgSize : Z := 1024 * 64.

Definition start (op : async_op) : M EchoClient () := modify (λ c, set_ec_ops (ec_ops c ++ [op]) c).
Definition print (l : line) : M EchoClient () := modify (λ c, set_ec_out (ec_out c ++ [l]) c).

Definition DoRead : M EchoClient () := start (AsyncReadSome kReadBuffer).

Definition on_read (ec : option error_code) (len : Z) : M EchoClient () :=
  match ec with
  | Some e => when (bool_decide (e ≠ ErrEof) && bool_decide (e ≠ ErrOperationAborted)) (print (LReadError e))
  | None =>
      modify (λ c, set_ec_received (u64 (ec_recv_bytes_ c + len)) (ec_recv_msgs_ c) c) ;;
      modify (λ c, set_ec_received (ec_recv_bytes_ c) (u64 (ec_recv_msgs_ c + 1)) c) ;;
      DoRead
  end.

Definition DoSend : M EchoClient () :=
  c ← get;
  if ec_g_stop c then mret () else start (AsyncWrite (ec_data_ c)).

Definition on_write (ec : option error_code) (len : Z) : M EchoClient () :=
  match ec with
  | Some e => when (bool_decide (e ≠ ErrOperationAborted)) (print (LWriteError e))
  | None =>
      modify (λ c, set_ec_sent (u64 (ec_send_bytes_ c + len)) (ec_send_msgs_ c) c) ;;
      modify (λ c, set_ec_sent (ec_send_bytes_ c) (u64 (ec_send_msgs_ c + 1)) c) ;;
      DoSend
  end.

Definition DoStats : M EchoClient () := start (AsyncWait 1).

(** The integer nearest to [a / b], of two the even one. *)
Definition round_half_even (a b : Z) : Z :=
  let q := a / b in let r := a mod b in
  if 2 * r <? b then q else if b <? 2 * r then q + 1 else if Z.even q then q else q + 1.

(** A [size_t] as a [double]: exact up to 2^53, otherwise the nearest number
    with 53 bits. *)
Definition size_as_double (n : Z) : Z :=
  if n <? 2 ^ 53 then n else let u := 2 ^ (Z.log2 n - 52) in round_half_even n u * u.

(** [std::format("{:.3f}", n / 1024.0 / 1024.0)] and
    [std::format("{:.3f}", n / 1024.0)], in thousandths: the divisions by
    powers of two are exact. *)
Definition kMi : Z := 1024 * 1024.
Definition kKi : Z := 1024.
Definition per (unit n : Z) : Z := round_half_even (1000 * size_as_double n) unit.

(** The four [exchange(0)] and the line printed from their results. *)
Definition on_stats (ec : option error_code) : M EchoClient () :=
  c ← get;
  if bool_decide (is_Some ec) || ec_g_stop c then mret () else
  modify (set_ec_sent 0 0) ;;
  modify (set_ec_received 0 0) ;;
  print (LRates (per kMi (ec_send_bytes_ c)) (per kKi (ec_send_msgs_ c))
           (per kMi (ec_recv_bytes_ c)) (per kKi (ec_recv_msgs_ c))) ;;
  DoStats.

Definition Start : M EchoClient () :=
  c ← get;
  start (AsyncConnect (ec_endpoint_ c).1 (ec_endpoint_ c).2).

Definition on_connect (ec : option error_code) : M EchoClient () :=
  match ec with
  | Some e => print (LConnectError e)
  | None =>
      c ← get;
      print (LConnected (ec_endpoint_ c).1 (ec_endpoint_ c).2) ;;
      DoRead ;;
      DoSend ;;
      DoStats
  end.

(** [std::string(n, 'X')] *)
Definition message (n : Z) : list byte := replicate (Z.to_nat n) Byte.x58.
#[global] Arguments message : simpl never.
#[global] Strategy 100 [message].

(** The constructor, with the value the global has then. *)
Definition EchoClient_new (msg_size : Z) (endpoint : string * Z) : EchoClient :=
  mkEchoClient msg_size false endpoint (message msg_size) 0 0 0 0 [] [].

(** [main] up to [io.run()]. *)
Definition client_main : EchoClient :=
  final (Start ;; print LStarting) (EchoClient_new kMsgSize ("127.0.0.1", 8080)).

(** ** Running the context *)

(** The handler of an operation. *)
Definition handler (op : async_op) (ec : option error_code) (len : Z) : M EchoClient () :=
  match op with
  | AsyncConnect _ _ => on_connect ec
  | AsyncReadSome _ => on_read ec len
  | AsyncWrite _ => on_write ec len
  | AsyncWait _ => on_stats ec
  end.

(** An operation completes, or something sets [g_stop]. *)
Inductive io_event :=
  | Completed (op : async_op) (ec : option error_code) (len : Z)
  | StopSet.

(** What asio documents: a write that succeeds has written everything, a
    read that succeeds has brought something that fits. *)
Definition asio_ok (op : async_op) (len : Z) : Prop :=
  match op with
  | AsyncWrite d => len = Z.of_nat (length d)
  | AsyncReadSome n => 0 < len ≤ n
  | _ => True
  end.

Inductive io_step : EchoClient → io_event → EchoClient → Prop :=
  | step_completed c i op ec len c' :
      ec_ops c !! i = Some op → (ec = None → asio_ok op len) →
      handler op ec len (set_ec_ops (delete i (ec_ops c)) c) = Done () c' →
      io_step c (Completed op ec len) c'
  | step_stop c : io_step c StopSet (set_ec_g_stop true c).

(** From one state to another by the events of a list. *)
Inductive io_run : EchoClient → list io_event → EchoClient → Prop :=
  | run_nil c : io_run c [] c
  | run_snoc c tr c1 e c' : io_run c tr c1 → io_step c1 e c' → io_run c (tr ++ [e]) c'.

(** ** What the client is meant to do *)

(** The three loops. *)
Record flow := mkFlow { fl_connecting : bool; fl_reading : bool; fl_writing : bool; fl_ticking : bool; fl_stop : bool }.

Definition flow_start : flow := mkFlow true false false false false.

Definition flow_step (f : flow) (e : io_event) : flow :=
  match e with
  | StopSet => mkFlow (fl_connecting f) (fl_reading f) (fl_writing f) (fl_ticking f) true
  | Completed op ec _ =>
      let ok := match ec with None => true | Some _ => false end in
      match op with
      | AsyncConnect _ _ => mkFlow false ok (ok && negb (fl_stop f)) ok (fl_stop f)
      | AsyncReadSome _ => mkFlow (fl_connecting f) ok (fl_writing f) (fl_ticking f) (fl_stop f)
      | AsyncWrite _ => mkFlow (fl_connecting f) (fl_reading f) (ok && negb (fl_stop f)) (fl_ticking f) (fl_stop f)
      | AsyncWait _ => mkFlow (fl_connecting f) (fl_reading f) (fl_writing f) (ok && negb (fl_stop f)) (fl_stop f)
      end
  end.
Definition flow_of (tr : list io_event) : flow := foldl flow_step flow_start tr.

Abbreviation the_message := (message kMsgSize).

(** The operations that are outstanding in each case. *)
Definition outstanding (f : flow) : list async_op :=
  if fl_connecting f then [AsyncConnect "127.0.0.1" 8080] else
  (if fl_reading f then [AsyncReadSome kReadBuffer] else []) ++
  (if fl_writing f then [AsyncWrite the_message] else []) ++
  (if fl_ticking f then [AsyncWait 1] else []).

(** Bytes and messages of the operations that succeeded. *)
Definition bytes_of (sel : async_op → bool) (e : io_event) : Z :=
  match e with Completed op None len => if sel op then len else 0 | _ => 0 end.
Definition msgs_of (sel : async_op → bool) (e : io_event) : Z :=
  match e with Completed op None _ => if sel op then 1 else 0 | _ => 0 end.
Definition is_write (op : async_op) : bool := match op with AsyncWrite _ => true | _ => false end.
Definition is_read_some (op : async_op) : bool := match op with AsyncReadSome _ => true | _ => false end.

Definition total {A} (f : A → Z) (l : list A) : Z := foldr (λ x, Z.add (f x)) 0 l.

Lemma total_app {A} (f : A → Z) l1 l2 : total f (l1 ++ l2) = total f l1 + total f l2.
Proof. induction l1 as [|x l1 IH]; simpl; [done|]. rw IH. lia. Qed.
Lemma total_snoc {A} (f : A → Z) l x : total f (l ++ [x]) = total f l + f x.
Proof. rw total_app /=. lia. Qed.

(** What went each way in one period. *)
Record tick := mkTick { tk_sb : Z; tk_sm : Z; tk_rb : Z; tk_rm : Z }.

(** The line for it, and the lines about rates. *)
Definition rates (t : tick) : line := LRates (per kMi (tk_sb t)) (per kKi (tk_sm t)) (per kMi (tk_rb t)) (per kKi (tk_rm t)).
Definition rate_line (l : line) : bool := match l with LRates _ _ _ _ => true | _ => false end.
Definition rate_lines (out : list line) : list line := filter (λ l, rate_line l = true) out.

Lemma rate_lines_snoc out l :
  rate_lines (out ++ [l]) = rate_lines out ++ if rate_line l then [l] else [].
Proof. rw /rate_lines filter_app. by destruct l. Qed.






(** The totals of a run. *)
Record totals (tr : list io_event) (sb sm rb rm : Z) : Prop := {
  tt_sb : sb = total (bytes_of is_write) tr;
  tt_sm : sm = total (msgs_of is_write) tr;
  tt_rb : rb = total (bytes_of is_read_some) tr;
  tt_rm : rm = total (msgs_of is_read_some) tr;
}.

(** The state of the client after the events [tr] and the periods [ticks]. *)
Record client_inv (tr : list io_event) (ticks : list tick) (c : EchoClient) : Prop := {
  ci_ops : ec_ops c ≡ₚ outstanding (flow_of tr);
  ci_data : ec_data_ c = the_message;
  ci_stop : ec_g_stop c = fl_stop (flow_of tr);
  ci_sent : 0 ≤ total (msgs_of is_write) tr ∧
    total (bytes_of is_write) tr = kMsgSize * total (msgs_of is_write) tr;
  ci_received : 0 ≤ total (msgs_of is_read_some) tr ≤ total (bytes_of is_read_some) tr;
  ci_counts : total (bytes_of is_write) tr < two64 → total (bytes_of is_read_some) tr < two64 →
    totals tr (total tk_sb ticks + ec_send_bytes_ c) (total tk_sm ticks + ec_send_msgs_ c)
      (total tk_rb ticks + ec_recv_bytes_ c) (total tk_rm ticks + ec_recv_msgs_ c);
  ci_nonneg : 0 ≤ ec_send_bytes_ c ∧ 0 ≤ ec_send_msgs_ c ∧ 0 ≤ ec_recv_bytes_ c ∧ 0 ≤ ec_recv_msgs_ c ∧
    0 ≤ total tk_sb ticks ∧ 0 ≤ total tk_sm ticks ∧ 0 ≤ total tk_rb ticks ∧ 0 ≤ total tk_rm ticks;
  ci_lines : rate_lines (ec_out c) = rates <$> ticks;
}.

Lemma client_inv_start : client_inv [] [] client_main.
Proof. split; try done; by vm_compute. Qed.

Lemma flow_of_snoc tr e : flow_of (tr ++ [e]) = flow_step (flow_of tr) e.
Proof. by rw /flow_of foldl_snoc. Qed.

(** Taking one operation off the outstanding ones. *)
Lemma outstanding_take f op ops :
  op :: ops ≡ₚ outstanding f →
  (op = AsyncConnect "127.0.0.1" 8080 ∧ fl_connecting f = true ∧ ops = []) ∨
  fl_connecting f = false ∧
  (op = AsyncReadSome kReadBuffer ∧ ops ≡ₚ outstanding (mkFlow false false (fl_writing f) (fl_ticking f) (fl_stop f)) ∨
   op = AsyncWrite the_message ∧ ops ≡ₚ outstanding (mkFlow false (fl_reading f) false (fl_ticking f) (fl_stop f)) ∨
   op = AsyncWait 1 ∧ ops ≡ₚ outstanding (mkFlow false (fl_reading f) (fl_writing f) false (fl_stop f))).
Proof.
  intros Hp. assert (op ∈ outstanding f) as Hin by (rw -Hp; left).
  destruct f as [[] r w t s]; rw /outstanding /= in Hp Hin |- *.
  - apply list_elem_of_singleton in Hin as ->. left. split_and!; [done|done|].
    by apply Permutation_cons_inv, Permutation_nil_r in Hp.
  - right. split; [done|]. rw !elem_of_app in Hin. destruct Hin as [Hin|[Hin|Hin]].
    + destruct r; [|by apply not_elem_of_nil in Hin]. apply list_elem_of_singleton in Hin as ->. left.
      split; [done|]. by apply Permutation_cons_inv in Hp.
    + destruct w; [|by apply not_elem_of_nil in Hin]. apply list_elem_of_singleton in Hin as ->. right. left.
      split; [done|]. apply (Permutation_cons_inv (a := AsyncWrite the_message)). rw Hp. by destruct r; simpl; [apply Permutation_swap|].
    + destruct t; [|by apply not_elem_of_nil in Hin]. apply list_elem_of_singleton in Hin as ->. right. right.
      split; [done|]. apply (Permutation_cons_inv (a := AsyncWait 1)). rw Hp. rw !app_nil_r. by rw app_assoc -Permutation_cons_append.
Qed.

#[local] Arguments total : simpl never.

(** The invariant after one more event, by evaluation; [bound] is called for
    the counters that have grown. *)
Ltac account H bound :=
  let open := (unfold kMsgSize in *; rw ?flow_of_snoc; simpl; rw ?total_snoc ?rate_lines_snoc; simpl; rw ?app_nil_r;
    try match goal with H : fl_stop _ = _ |- _ => rw ?H; simpl end;
    try match goal with H : fl_connecting _ = _ |- _ => rw ?H; simpl end; try congruence) in
  destruct H as [Hops Hdata Hstop [Hs1 Hs2] [Hr1 Hr2] Hcounts Hpos Hlines];
  split; open; try done; try lia;
  try (intros ? ?; destruct (Hcounts ltac:(lia) ltac:(lia)); split; open; try lia; bound).

Lemma read_step tr ticks c ops ec len c' :
  client_inv tr ticks c → fl_connecting (flow_of tr) = false → (ec = None → 0 < len ≤ kReadBuffer) →
  ops ≡ₚ outstanding (mkFlow false false (fl_writing (flow_of tr)) (fl_ticking (flow_of tr)) (fl_stop (flow_of tr))) →
  on_read ec len (set_ec_ops ops c) = Done () c' →
  client_inv (tr ++ [Completed (AsyncReadSome kReadBuffer) ec len]) ticks c'.
Proof.
  intros Hinv Hf Hlen Hp. destruct ec as [e|]; simpl.
  - rw /when. destruct (_ && _); intros [= <-]; account Hinv ltac:(idtac).
  - intros [= <-]. specialize (Hlen eq_refl). pose proof (u64_range (ec_recv_bytes_ c + len)).
    pose proof (u64_range (ec_recv_msgs_ c + 1)). account Hinv ltac:(rw u64_small; slia).
    by rw Hp /outstanding /= -Permutation_cons_append.
Qed.

Lemma write_step tr ticks c ops ec len c' :
  client_inv tr ticks c → fl_connecting (flow_of tr) = false → (ec = None → len = Z.of_nat (length the_message)) →
  ops ≡ₚ outstanding (mkFlow false (fl_reading (flow_of tr)) false (fl_ticking (flow_of tr)) (fl_stop (flow_of tr))) →
  on_write ec len (set_ec_ops ops c) = Done () c' →
  client_inv (tr ++ [Completed (AsyncWrite the_message) ec len]) ticks c'.
Proof.
  intros Hinv Hf Hlen Hp. destruct ec as [e|]; simpl.
  - rw /when. destruct (bool_decide _); intros [= <-]; account Hinv ltac:(idtac).
  - specialize (Hlen eq_refl). rw length_replicate /kMsgSize in Hlen.
    pose proof (u64_range (ec_send_bytes_ c + len)). pose proof (u64_range (ec_send_msgs_ c + 1)).
    pose proof (ci_stop _ _ _ Hinv) as Hst. pose proof (ci_data _ _ _ Hinv) as Hd.
    rw /DoSend /mbind /M_bind /= Hst Hd.
    destruct (fl_stop (flow_of tr)) eqn:Hfs; intros [= <-]; unfold kMsgSize in *;
      account Hinv ltac:(rw u64_small; slia).
    rw Hp /outstanding /= -Permutation_cons_append. by destruct (fl_reading _); [apply Permutation_swap|].
Qed.

Lemma stats_step tr ticks c ops ec len c' :
  client_inv tr ticks c → fl_connecting (flow_of tr) = false →
  ops ≡ₚ outstanding (mkFlow false (fl_reading (flow_of tr)) (fl_writing (flow_of tr)) false (fl_stop (flow_of tr))) →
  on_stats ec (set_ec_ops ops c) = Done () c' →
  ∃ ticks', client_inv (tr ++ [Completed (AsyncWait 1) ec len]) ticks' c'.
Proof.
  intros Hinv Hf Hp. rw /on_stats /mbind /M_bind /= (ci_stop _ _ _ Hinv).
  destruct ec as [e|]; [|destruct (fl_stop (flow_of tr)) eqn:Hfs]; simpl; intros [= <-];
    [exists ticks; account Hinv ltac:(idtac)..|].
  exists (ticks ++ [mkTick (ec_send_bytes_ c) (ec_send_msgs_ c) (ec_recv_bytes_ c) (ec_recv_msgs_ c)]).
  account Hinv ltac:(idtac); [|by rw Hlines fmap_app].
  rw Hp /outstanding /= !app_nil_r. by rw -app_assoc.
Qed.

Lemma connect_step tr ticks c ec len c' :
  client_inv tr ticks c → fl_connecting (flow_of tr) = true →
  on_connect ec (set_ec_ops [] c) = Done () c' →
  client_inv (tr ++ [Completed (AsyncConnect "127.0.0.1" 8080) ec len]) ticks c'.
Proof.
  intros Hinv Hf. destruct ec as [e|]; simpl.
  - intros [= <-]. account Hinv ltac:(idtac).
  - rw /on_connect /DoRead /DoSend /DoStats /print /start /mbind /M_bind /= (ci_stop _ _ _ Hinv) (ci_data _ _ _ Hinv).
    destruct (fl_stop (flow_of tr)) eqn:Hfs; simpl; intros [= <-]; account Hinv ltac:(idtac).
Qed.

Lemma client_inv_step tr ticks c e c' :
  client_inv tr ticks c → io_step c e c' → ∃ ticks', client_inv (tr ++ [e]) ticks' c'.
Proof.
  intros Hinv Hs. destruct Hs as [c i op ec len c' Hi Hok Hr|c].
  - assert (op :: delete i (ec_ops c) ≡ₚ outstanding (flow_of tr)) as Hp.
    { rw -(ci_ops _ _ _ Hinv). symmetry. by apply delete_Permutation. }
    destruct (outstanding_take _ _ _ Hp) as [(-> & Hf & Hn)|(Hf & [(-> & Hp')|[(-> & Hp')|(-> & Hp')]])].
    + rw Hn in Hr. exists ticks. by eapply connect_step.
    + exists ticks. by eapply read_step.
    + exists ticks. by eapply write_step.
    + by eapply stats_step.
  - exists ticks. account Hinv ltac:(idtac).
Qed.

Lemma client_inv_run tr c : io_run client_main tr c → ∃ ticks, client_inv tr ticks c.
Proof.
  remember client_main as c0. induction 1 as [|c0 tr c1 e c' _ IH Hs]; subst; [exists []; exact client_inv_start|].
  destruct (IH eq_refl) as [ticks Hinv]. by eapply client_inv_step.
Qed.


Lemma io_run_app c tr c1 tr' c' : io_run c tr c1 → io_run c1 tr' c' → io_run c (tr ++ tr') c'.
Proof.
  intros H1 H2. induction H2 as [c1|c1 tr' c2 e c' _ IH Hs]; [by rw app_nil_r|].
  rw app_assoc. eapply run_snoc; [by apply IH|done].
Qed.

Lemma in_outstanding f op :
  op ∈ outstanding f ↔
  match op with
  | AsyncConnect h p => fl_connecting f = true ∧ h = "127.0.0.1"%string ∧ p = 8080
  | AsyncReadSome n => fl_connecting f = false ∧ fl_reading f = true ∧ n = kReadBuffer
  | AsyncWrite d => fl_connecting f = false ∧ fl_writing f = true ∧ d = the_message
  | AsyncWait n => fl_connecting f = false ∧ fl_ticking f = true ∧ n = 1
  end.
Proof. destruct f as [[] [] [] [] s], op; rw /outstanding /=; set_solver by lia. Qed.

(** What ends the reading. *)
Definition breaks_off (e : io_event) : bool :=
  match e with
  | Completed (AsyncConnect _ _) (Some _) _ | Completed (AsyncReadSome _) (Some _) _ => true
  | _ => false
  end.

Lemma flow_reads tr :
  existsb breaks_off tr = false → fl_connecting (flow_of tr) = true ∨ fl_reading (flow_of tr) = true.
Proof.
  induction tr as [|e tr IH] using rev_ind; [by left|]. rw existsb_app flow_of_snoc /= orb_false_r.
  intros [Htr He]%orb_false_iff. specialize (IH Htr). destruct e as [[] [] ?|]; simpl in *; try done; auto.
Qed.

Lemma flow_stopped tr tr' :
  fl_stop (flow_of tr) = true → fl_writing (flow_of tr) = false →
  fl_stop (flow_of (tr ++ tr')) = true ∧ fl_writing (flow_of (tr ++ tr')) = false.
Proof.
  intros Hs Hw. induction tr' as [|e tr' [IH1 IH2]] using rev_ind; [by rw app_nil_r|].
  rw app_assoc flow_of_snoc. destruct e as [[] ? ?|]; simpl; rw ?IH1 ?IH2 ?andb_false_r; done.
Qed.

Lemma flow_connected tr tr' :
  fl_connecting (flow_of tr) = false → fl_connecting (flow_of (tr ++ tr')) = false.
Proof.
  intros Hf. induction tr' as [|e tr' IH] using rev_ind; [by rw app_nil_r|].
  rw app_assoc flow_of_snoc. by destruct e as [[] ? ?|].
Qed.

(** C29: [g_stop] does not end the client.  Once it is set and the write
    that is under way has completed, nothing more is written; but the reading
    goes on, and the context runs out, so that [io.run()] returns, only after
    the connection could not be made or a read has failed, which takes the
    peer: the client itself never closes its socket. *)
Theorem stop_leaves_reading tr c :
  io_run client_main tr c →
  (ec_ops c = [] → existsb breaks_off tr = true) ∧
  (∀ tr' c', ec_g_stop c = true → AsyncWrite the_message ∉ ec_ops c →
     AsyncConnect "127.0.0.1" 8080 ∉ ec_ops c → io_run c tr' c' →
     (∀ d, AsyncWrite d ∉ ec_ops c') ∧
     (existsb breaks_off (tr ++ tr') = false → AsyncReadSome kReadBuffer ∈ ec_ops c')).
Proof.
  intros Hrun. destruct (client_inv_run tr c Hrun) as [ticks Hinv]. split.
  - intros Hnil. apply not_false_iff_true. intros Hb. pose proof (ci_ops _ _ _ Hinv) as Hops.
    rw Hnil in Hops. apply Permutation_nil_l in Hops. rw /outstanding in Hops.
    destruct (flow_reads tr Hb) as [H|H]; rw H in Hops; [done|]. by destruct (fl_connecting _).
  - intros tr' c' Hst Hw Hc Hrun'. destruct (client_inv_run _ c' (io_run_app _ _ _ _ _ Hrun Hrun')) as [ticks' Hinv'].
    rw (ci_stop _ _ _ Hinv) in Hst. rw (ci_ops _ _ _ Hinv) in_outstanding in Hw. rw (ci_ops _ _ _ Hinv) in_outstanding in Hc.
    assert (fl_connecting (flow_of tr) = false) as Hf.
    { apply not_true_iff_false. intros H. apply Hc. by split_and!. }
    assert (fl_writing (flow_of tr) = false) as Hw0.
    { apply not_true_iff_false. intros H. apply Hw. by split_and!. }
    destruct (flow_stopped tr tr' Hst Hw0) as [_ Hw']. split.
    + intros d Hd. rw (ci_ops _ _ _ Hinv') in_outstanding in Hd. destruct Hd as (_ & H & _). congruence.
    + intros Hb. rw (ci_ops _ _ _ Hinv') in_outstanding. pose proof (flow_connected tr tr' Hf) as Hf'.
      destruct (flow_reads _ Hb) as [H|H]; [congruence|by split_and!].
Qed.

(** ** Samples *)

Lemma io_run_cons c e c1 tr c' : io_step c e c1 → io_run c1 tr c' → io_run c (e :: tr) c'.
Proof. intros He. apply (io_run_app c [e]). apply (run_snoc c [] c); [constructor|done]. Qed.

Lemma message_length : 65536 = Z.of_nat (length the_message).
Proof. by rw /message length_replicate Z2Nat.id. Qed.

(** Runs of a client whose message is [d]. *)
Section runs.
Context (d : list byte) (Hd : 65536 = Z.of_nat (length d)).

(** The client with these globals, counters, operations and lines. *)
Definition client (stop : bool) (sb sm rb rm : Z) (ops : list async_op) (out : list line) : EchoClient :=
  mkEchoClient kMsgSize stop ("127.0.0.1", 8080) d sb sm rb rm ops out.

Definition fresh_client : EchoClient := client false 0 0 0 0 [AsyncConnect "127.0.0.1" 8080] [LStarting].

(** Connect, write a message, read it back in two parts, print; ... *)
Definition one_round : list io_event :=
  [Completed (AsyncConnect "127.0.0.1" 8080) None 0; Completed (AsyncWrite d) None 65536;
   Completed (AsyncReadSome kReadBuffer) None 40000; Completed (AsyncReadSome kReadBuffer) None 25536;
   Completed (AsyncWait 1) None 0].
Definition after_round (stop : bool) : EchoClient :=
  client stop 0 0 0 0 [AsyncWrite d; AsyncReadSome kReadBuffer; AsyncWait 1]
    [LStarting; LConnected "127.0.0.1" 8080; LRates 62 1 62 2].
(** ... then stop and let the second write complete. *)
Definition stopped_round : list io_event := one_round ++ [StopSet; Completed (AsyncWrite d) None 65536].
Definition stopped_client : EchoClient :=
  client true 65536 1 0 0 [AsyncReadSome kReadBuffer; AsyncWait 1]
    [LStarting; LConnected "127.0.0.1" 8080; LRates 62 1 62 2].

Lemma one_round_run : io_run fresh_client one_round (after_round false).
Proof.
  set (out := [LStarting; LConnected "127.0.0.1" 8080]). set (R := AsyncReadSome kReadBuffer).
  apply (io_run_cons _ _ (client false 0 0 0 0 [R; AsyncWrite d; AsyncWait 1] out)); [by apply (step_completed _ 0)|].
  apply (io_run_cons _ _ (client false 65536 1 0 0 [R; AsyncWait 1; AsyncWrite d] out)); [by apply (step_completed _ 1)|].
  apply (io_run_cons _ _ (client false 65536 1 40000 1 [AsyncWait 1; AsyncWrite d; R] out)); [by apply (step_completed _ 0)|].
  apply (io_run_cons _ _ (client false 65536 1 65536 2 [AsyncWait 1; AsyncWrite d; R] out)); [by apply (step_completed _ 2)|].
  apply (io_run_cons _ _ (after_round false)); [by apply (step_completed _ 0)|]. constructor.
Qed.

Lemma stopped_round_run : io_run fresh_client stopped_round stopped_client.
Proof.
  eapply io_run_app; [exact one_round_run|].
  apply (io_run_cons _ _ (after_round true)); [constructor|].
  apply (io_run_cons _ _ stopped_client); [by apply (step_completed _ 0)|]. constructor.
Qed.
End runs.

Lemma client_main_fresh : client_main = fresh_client the_message.
Proof. reflexivity. Qed.


(** 65536 bytes are a sixteenth of a MiB; less than 525 are printed as nothing. *)
Example small_rates : (per kMi 65536, per kMi 524, per kMi 525, per kKi 1) = (62, 0, 1, 1).
Proof. by vm_compute. Qed.

Lemma stop_leaves_reading_witness : AsyncReadSome kReadBuffer ∈ ec_ops (stopped_client the_message).
Proof.
  pose proof (stopped_round_run the_message message_length) as Hrun. rw -client_main_fresh in Hrun.
  destruct (stop_leaves_reading _ _ Hrun) as [_ H].
  refine (proj2 (H [] _ eq_refl _ _ (run_nil _)) eq_refl).
  - intros [?|[?|?%not_elem_of_nil]%elem_of_cons]%elem_of_cons; done.
  - intros [?|[?|?%not_elem_of_nil]%elem_of_cons]%elem_of_cons; done.
Defined.
